(* ===== verification/_CoqProject ===== *)
-Q . S2P
Prelude.v
GoStrings.v
Version.v
Metrics.v
Engine.v
EngineSpec.v
EngineTrace.v
Interleave.v
Converge.v
Fleet.v
Reconcile.v
GoPath.v
GoURL.v
FileSystem.v
GoNumber.v
GoFlag.v
AtomicFile.v
Cert.v
Bundle.v
KeyPrivacy.v
Hook.v
Discovery.v
Certs.v
Frame.v
Blob.v
CertsStable.v
RollbackSpec.v
Gobcodec.v
Cluster.v
MemOlric.v
BlobFleet.v
Lan.v
Samples.v
LanFaults.v
Wan.v
WanNet.v
WanFleet.v
Refine.v
Tls.v
TestCerts.v
Modules.v
Main.v
Config.v
Run.v
Agent.v
AgentFleet.v
Collectors.v
Interrupted.v
Deploy.v
DeploySample.v
