(* ===== verification/Prelude.v ===== *)
(** * A verification of lbsync

    lbsync is an agent that keeps files (certificate bundles, arbitrary blobs)
    at their newest version on a fleet of nodes. Every node runs a reconcile
    loop ([engine]) that, for each kind of resource, reads the node's own copies
    from its provider ([modules/certs], [modules/blob]), reads the cluster's
    copies from a key/value backend ([cluster] on Olric, or [wan] over HTTPS),
    publishes local copies that are strictly newer, applies the newest copy to
    the serving files ([bundle], [atomicfile]), and, if something changed, runs
    a verify-then-reload hook ([hook]) and rolls the files back if that fails.
    [cmd/lbsync/main.go] reads the configuration and puts the parts together.

    ** How the code is modelled

    Pure functions are Rocq functions. Stateful code is in a state monad [M W];
    the engine, the Olric facade and the WAN backend are written over any monad,
    so that the same definitions run on a sequential world, in a world with a
    log of calls, and cut into atomic calls that interleave. Errors are values:
    Go's multiple results are tuples, [(T, error)] with one meaning is [result].
    Integers are [Z]; the agent only compares them, so that no operation can
    overflow, except that times and durations are nanoseconds and [Unix] is
    their quotient. The parsers of numbers work on 64-bit integers with their
    wrap-around written out. Go strings are byte strings. The order in which Go visits a
    map is an argument of the code that does so. Files live in a tree of inodes
    with symbolic links, modes and times, in which every system call can fail or
    write short according to a schedule; random names come from another
    schedule. Fuel is the limit of 40 symbolic links that the kernel has too
    ([max_links]), the length of a string in [TrimSpace], [Fields] and
    [ParseDuration], and the number of arguments in the parser of flags; the
    last two are enough ([load_config_terminates] of [Config]), since every
    step consumes a byte or an argument.

    Parameters stand for code that is not in the repository: Olric's client
    ([Olric], with [OlricLaws]), encoding/gob ([Gob], [GobLaws]), PEM, X.509 and
    SHA-256 ([Crypto]), external commands ([Commands]), the crypto libraries
    behind TLS ([TlsLib], with [CryptoLaws]), envconfig ([EnvConfig]) and
    base64. Each law has an instance, and the theorems with hypotheses are
    applied to concrete worlds.

    ** The files

    - [Prelude]: errors, the state monad, loops, tactics, shared lemmas.
    - [GoStrings], [GoPath], [GoURL]: the parts of Go's strings, strconv,
      path/filepath, net/url and net/http that the sources use.
    - [Version]: Version, Record, Newer and pickNewer of
      internal/engine/engine.go; the order is total and merging is a join.
    - [Metrics]: internal/metrics/metrics.go.
    - [Engine]: the rest of internal/engine/engine.go.
    - [EngineSpec]: the contracts [ReliableKV] and [StableProvider] of the two
      interfaces, and what one tick does on parts that meet them.
    - [EngineTrace]: what one tick does on any parts, whatever fails: the calls
      of cluster and provider, with their arguments, as a function of the
      answers to them.
    - [Interleave]: engines that publish concurrently; safety with exclusive
      locks, and its failure when a lock is given up.
    - [Converge]: the argument for convergence, for any system whose steps join
      a shared store with local copies ([NewestWins]).
    - [Fleet]: any number of nodes on one reliable store converge on the newest
      records and stay there.
    - [Reconcile]: Engine.reconcile with several providers on one disk that do
      not disturb each other.
    - [FileSystem]: the operating system.
    - [GoNumber], [GoFlag]: strconv and time parsers, and the flag package with
      the grammar of the command lines it accepts.
    - [AtomicFile]: internal/atomicfile/atomicfile.go; all-or-nothing writes
      under any failures, restoring, and the refinement of writes to a function
      on trees.
    - [Cert], [Bundle], [Hook], [Discovery]: the packages of the same names.
      [KeyPrivacy]: no failure makes a private key readable by others.
    - [Certs], [Blob]: the two providers; both meet [StableProvider] ([Blob] and
      [CertsStable]), the certs provider since scanning the certbot directory
      does not depend on what the agent writes ([Frame]). [RollbackSpec]: what
      a rollback leaves, exactly, and what it does not undo.
    - [Gobcodec], [Cluster]: internal/gobcodec, internal/cluster; the facade
      meets [ReliableKV]. [MemOlric] is an Olric in memory with failures.
    - [BlobFleet], [Lan]: the fleet theorem instantiated: nodes with the blob
      provider on the Olric facade converge down to the files.
    - [Samples], [LanFaults]: concrete worlds; what goes wrong when calls of
      the cluster fail.
    - [Wan], [WanNet], [WanFleet]: internal/wan/wan.go and handler.go, a network
      of such backends, and a fleet on it: it converges if pushes arrive in
      time, and can stay stale if one is lost.
    - [Refine]: the abstract stores the backends implement, for any calls: one
      shared map (Olric), a map per node kept up to date by joins (HTTPS).
    - [Tls]: internal/wan/tls.go and wan.New. [TestCerts]:
      internal/cert/testutil.go.
    - [Modules], [Main]: internal/module, internal/modules/stubs, the start of
      the modules, and the parts of cmd/lbsync/main.go that build the
      configuration of backend and modules.
    - [Config], [Run]: loadConfig, and run and main of cmd/lbsync/main.go:
      precedence of flags, environment and defaults, and the life of the
      process as a sequence of effects.
    - [Agent], [AgentFleet], [Deploy], [DeploySample]: an agent is the engine
      main builds from a configuration; fleets of agents with both modules
      converge on both backends, down to the files.
      [Collectors]: no update of a collector by an agent panics.
    - [Interrupted]: an agent that is stopped in the middle of a tick.

    ** What the theorems show

    Fleets converge ([Deploy], [Fleet]) because every tick joins the store with
    local copies under a total order ([Version]), because the backends are such
    stores ([Refine]), and because the providers put on disk what they are given
    ([Certs], [Blob], [AtomicFile]). Publishing is safe under interleaving with
    locks ([Interleave]). The configuration is read as documented and the
    process stops what it started ([Config], [Run]). The theorems of
    [LanFaults], [WanFleet], [Interleave], [Certs], [RollbackSpec], [Config],
    [Main] and [Interrupted] about errors show where the code does not keep what its comments or README
    promise.

    ** What is not modelled

    The sockets and timeouts of the HTTP servers and clients (a timeout is a
    request that fails), the arguments of log lines, and the inside of the
    libraries that are parameters. Cancellation of a context is modelled where
    code waits for it ([run_loop], [startMember]) and as an effect of [run]; a
    call of a provider is interrupted only between Apply and Flush
    ([Interrupted]).

    ** What is left

    [Interleave] covers publishing; applying under concurrent changes, and
    interleaved index updates, can be added in the same way. [Run] orders the
    effects of the main goroutine; its interleaving with the goroutine of the
    engine during shutdown is left to [Interrupted]. *)

From Stdlib Require Export ZArith Strings.Byte Strings.Ascii Strings.String.
From stdpp Require Export base tactics gmap strings list list_monad sorting pretty.

#[export] Set Warnings "-clear-no-such-hyp".

Open Scope string_scope.
Open Scope list_scope.

(** ** Go values *)

(** A byte slice. The sources never tell a nil slice from an empty one. *)
Abbreviation bytes := (list Byte.byte).

(** Errors of the operating system that the sources can meet. *)
Inductive errno :=
  | ENOENT | EEXIST | ENOTDIR | EISDIR | ENOTEMPTY | ELOOP | EINVAL | EACCES | EIO.

(** A Go error value: a system error, a sentinel of a package compared by
    identity (such as [olric.ErrKeyNotFound]), a message, or a message that
    wraps another error ([fmt.Errorf] with the verb [%w]). *)
Inductive error :=
  | Errno (e : errno)
  | Sentinel (name : string)
  | Errors (msg : string)
  | Errorf (msg : string) (wrapped : error).

(** [errors.Is]: the chain of wrapped errors contains the target. *)
Fixpoint errors_Is (e : error) (name : string) : bool :=
  match e with
  | Sentinel n => String.eqb n name
  | Errorf _ e' => errors_Is e' name
  | _ => false
  end.

(** [os.IsNotExist]: it looks at the system error itself and does not unwrap
    an error made by [fmt.Errorf]. *)
Definition os_IsNotExist (e : error) : bool :=
  match e with Errno ENOENT => true | _ => false end.

#[export] Instance byte_eq_dec : EqDecision Byte.byte := Byte.byte_eq_dec.
#[export] Instance errno_eq_dec : EqDecision errno.
Proof. solve_decision. Defined.
#[export] Instance error_eq_dec : EqDecision error.
Proof. solve_decision. Defined.

(** ** The state monad

    Stateful code is a function from a world to a result and the next world.
    Code that is generic in its effects (the engine, the cluster facade) is
    written over any [MRet]/[MBind] instance and instantiated with this one. *)

Definition M (W A : Type) : Type := W → A * W.

#[export] Instance M_ret W : MRet (M W) := λ A a w, (a, w).
#[export] Instance M_bind W : MBind (M W) := λ A B f m w, let '(a, w') := m w in f a w'.

(** Reading and replacing the world. *)
Definition get_state {W} : M W W := λ w, (w, w).
Definition put_state {W} (w' : W) : M W unit := λ _, (tt, w').

(** The Go [for] loop over a slice with one accumulator. *)
Fixpoint foldM {m : Type → Type} `{!MRet m, !MBind m} {A B}
    (f : A → B → m A) (a : A) (l : list B) : m A :=
  match l with
  | [] => mret a
  | x :: l' => a' ← f a x; foldM f a' l'
  end.

(** Running a command of one part of the world inside the whole. *)
Definition lift_fst {S T A} (m : M S A) : M (S * T) A :=
  λ w, let '(a, s') := m w.1 in (a, (s', w.2)).
Definition lift_snd {S T A} (m : M T A) : M (S * T) A :=
  λ w, let '(a, t') := m w.2 in (a, (w.1, t')).

Lemma foldM_nil {W A B} (f : A → B → M W A) a (w : W) : foldM f a [] w = (a, w).
Proof. done. Qed.

Lemma foldM_cons {W A B} (f : A → B → M W A) a x l (w : W) :
  foldM f a (x :: l) w = let '(a', w') := f a x w in foldM f a' l w'.
Proof. done. Qed.

Lemma foldM_app {W A B} (f : A → B → M W A) a l1 l2 (w : W) :
  foldM f a (l1 ++ l2) w = let '(a', w') := foldM f a l1 w in foldM f a' l2 w'.
Proof.
  revert a w. induction l1 as [|x l1 IH]; intros a w; [done|].
  rewrite <-app_comm_cons, !foldM_cons. destruct (f a x w). apply IH.
Qed.

(** The rule for a loop: an invariant of the elements done so far. *)
Lemma foldM_inv {W A B} (f : A → B → M W A) (I : list B → A → W → Prop) l :
  (∀ done a x todo w, l = done ++ x :: todo → I done a w →
     let '(a', w') := f a x w in I (done ++ [x]) a' w') →
  ∀ a w, I [] a w → let '(a', w') := foldM f a l w in I l a' w'.
Proof.
  intros Hstep.
  assert (∀ todo done a w, l = done ++ todo → I done a w →
    let '(a', w') := foldM f a todo w in I l a' w') as Hgen.
  { induction todo as [|x todo IH]; intros done a w Hl HI.
    - rewrite app_nil_r in Hl. by subst.
    - rewrite foldM_cons. specialize (Hstep done a x todo w Hl HI).
      destruct (f a x w) as [a' w']. apply (IH (done ++ [x])); [|done].
      by rewrite <-app_assoc. }
  intros a w HI. by apply (Hgen l []).
Qed.

(** ** Tactics *)

(** Unfolds one layer of monadic plumbing in the goal. *)
Ltac unfold_M := unfold mbind, mret, M_bind, M_ret, get_state, put_state.

(** Names the result of the stateful call the goal is waiting for. *)
Ltac step_call E :=
  match goal with
  | |- context [let '(_, _) := ?m ?w in _] => destruct (m w) as [? ?] eqn:E
  end.

(** A command followed by the rest, when the result of the command is known. *)
Lemma bind_run {W A B} (m : M W A) (f : A → M W B) w a w' : m w = (a, w') → (m ≫= f) w = f a w'.
Proof. intros E. unfold mbind, M_bind. by rewrite E. Qed.

(** Runs the first command of the goal, whose result is [E]. *)
Ltac run_bind E := rewrite (bind_run _ _ _ _ _ E); cbn beta iota.

(** Opens existentials and conjunctions of the context. *)
Ltac deex :=
  repeat match goal with
         | H : ex _ |- _ => destruct H
         | H : _ ∧ _ |- _ => destruct H
         end.

(** The hint database of the development. *)
Create HintDb lbsync.

Create Rewrite HintDb lbsync_rw.

#[export] Hint Rewrite @foldM_nil @foldM_cons : lbsync_rw.

(** ** Lists and options shared by the components *)

Lemma elem_of_snoc {A} (x y : A) l : (x ∈ l ++ [y]) ↔ (x ∈ l) ∨ x = y.
Proof. rewrite elem_of_app, list_elem_of_singleton. done. Qed.

Lemma NoDup_mid {A} (l1 l2 : list A) x :
  NoDup (l1 ++ x :: l2) → (x ∉ l1) ∧ (x ∉ l2).
Proof.
  rewrite NoDup_app, NoDup_cons. intros (_ & Hdisj & Hx & _). split; [|done].
  intros Hin. apply (Hdisj x Hin). left.
Qed.
