(* ===== verification/GoStrings.v ===== *)
(** Go's strings as byte strings, and the functions of [strings] and [strconv]
    that the sources call: comparison, [Split], [Cut], [HasSuffix],
    [TrimSuffix], [TrimSpace], [Fields], [FormatInt] and [ParseInt]. *)

From Stdlib Require Import DecimalString DecimalZ DecimalPos DecimalN Decimal DecimalFacts.
From S2P Require Import Prelude.

Open Scope Z_scope.

#[local] Arguments String.eqb : simpl never.

(** ** Comparison

    Go compares strings byte by byte; [String.compare] orders the characters
    by their code, which is that order. *)

Definition str_ltb (s t : string) : bool :=
  match String.compare s t with Lt => true | _ => false end.

(** [strings.Compare]: -1, 0 or 1. *)
Definition strings_Compare (s t : string) : Z :=
  match String.compare s t with Lt => -1 | Eq => 0 | Gt => 1 end.

Lemma ascii_compare_refl a : Ascii.compare a a = Eq.
Proof. apply N.compare_refl. Qed.

Lemma ascii_compare_eq a b : Ascii.compare a b = Eq → a = b.
Proof. apply Ascii.compare_eq_iff. Qed.

Lemma ascii_compare_lt_trans a b c :
  Ascii.compare a b = Lt → Ascii.compare b c = Lt → Ascii.compare a c = Lt.
Proof. unfold Ascii.compare. rewrite !N.compare_lt_iff. lia. Qed.

Lemma str_compare_refl s : String.compare s s = Eq.
Proof. induction s as [|a s IH]; [done|]. simpl. by rewrite ascii_compare_refl. Qed.

Lemma str_compare_eq s t : String.compare s t = Eq ↔ s = t.
Proof. split; [apply String.compare_eq_iff|]. intros ->. apply str_compare_refl. Qed.

Lemma str_compare_antisym s t : String.compare s t = CompOpp (String.compare t s).
Proof. apply String.compare_antisym. Qed.

Lemma str_compare_lt_trans s t u :
  String.compare s t = Lt → String.compare t u = Lt → String.compare s u = Lt.
Proof.
  revert t u. induction s as [|a s IH]; intros [|b t] [|c u]; simpl; try done.
  destruct (Ascii.compare a b) eqn:Hab; try done;
    destruct (Ascii.compare b c) eqn:Hbc; try done; intros H1 H2.
  - apply ascii_compare_eq in Hab, Hbc. subst. rewrite ascii_compare_refl. eauto.
  - apply ascii_compare_eq in Hab. subst. by rewrite Hbc.
  - apply ascii_compare_eq in Hbc. subst. by rewrite Hab.
  - by rewrite (ascii_compare_lt_trans _ _ _ Hab Hbc).
Qed.

Lemma str_ltb_irrefl s : str_ltb s s = false.
Proof. unfold str_ltb. by rewrite str_compare_refl. Qed.

Lemma str_ltb_trans s t u : str_ltb s t = true → str_ltb t u = true → str_ltb s u = true.
Proof.
  unfold str_ltb. destruct (String.compare s t) eqn:H1; try done.
  destruct (String.compare t u) eqn:H2; try done.
  by rewrite (str_compare_lt_trans _ _ _ H1 H2).
Qed.

Lemma str_ltb_total s t : str_ltb s t = false → str_ltb t s = false → s = t.
Proof.
  unfold str_ltb. rewrite (str_compare_antisym t s).
  destruct (String.compare s t) eqn:H; try done. intros _ _. by apply str_compare_eq.
Qed.

(** The order on strings with a common prefix. *)
Lemma str_compare_app_l p s t : String.compare (p +:+ s) (p +:+ t) = String.compare s t.
Proof. induction p as [|a p IH]; [done|]. simpl. by rewrite ascii_compare_refl. Qed.

(** On strings of the same length the first difference decides, whatever
    follows; equal strings leave the decision to what follows. *)
Lemma str_compare_app_same_length s t s' t' :
  String.length s = String.length t →
  String.compare (s +:+ s') (t +:+ t')
  = match String.compare s t with Eq => String.compare s' t' | c => c end.
Proof.
  revert t. induction s as [|a s IH]; intros [|b t] Hlen; simplify_eq/=; [done|].
  destruct (Ascii.compare a b) eqn:Hab; [|done..]. by apply IH.
Qed.

(** ** Split, Join, Cut *)

(** [strings.Split] for a separator of one character. *)
Fixpoint split_char (c : ascii) (s : string) : list string :=
  match s with
  | EmptyString => [EmptyString]
  | String a s' =>
      if Ascii.eqb a c then EmptyString :: split_char c s'
      else match split_char c s' with
           | [] => [String a EmptyString]
           | h :: t => String a h :: t
           end
  end.

(** [strings.Cut] at the first occurrence of a character: what is before it,
    what is after it, and whether it occurs. *)
Fixpoint cut_char (c : ascii) (s : string) : string * string * bool :=
  match s with
  | EmptyString => (EmptyString, EmptyString, false)
  | String a s' =>
      if Ascii.eqb a c then (EmptyString, s', true)
      else let '(b, r, ok) := cut_char c s' in (String a b, r, ok)
  end.

(** The character does not occur in the string. *)
Fixpoint no_char (c : ascii) (s : string) : bool :=
  match s with
  | EmptyString => true
  | String a s' => negb (Ascii.eqb a c) && no_char c s'
  end.

Fixpoint join_char (c : ascii) (l : list string) : string :=
  match l with
  | [] => EmptyString
  | [s] => s
  | s :: l' => s +:+ String c (join_char c l')
  end.

Lemma split_char_not_nil c s : split_char c s ≠ [].
Proof. destruct s as [|a s]; simpl; [done|]. by destruct (Ascii.eqb a c), (split_char c s). Qed.

Lemma split_no_char c s : no_char c s = true → split_char c s = [s].
Proof.
  induction s as [|a s IH]; [done|]. simpl.
  destruct (Ascii.eqb a c); [done|]. simpl. intros H. by rewrite IH.
Qed.

Lemma split_app c s t :
  no_char c s = true → split_char c (s +:+ String c t) = s :: split_char c t.
Proof.
  induction s as [|a s IH]; simpl.
  - by rewrite Ascii.eqb_refl.
  - destruct (Ascii.eqb a c) eqn:E; [done|]. simpl. intros H. by rewrite IH.
Qed.

(** Splitting what was joined gives the pieces back. *)
Lemma split_join c l :
  l ≠ [] → Forall (λ s, no_char c s = true) l → split_char c (join_char c l) = l.
Proof.
  intros Hne Hl. induction Hl as [|s l Hs Hl IH]; [done|].
  destruct l as [|s' l]; [by apply split_no_char|].
  change (join_char c (s :: s' :: l)) with (s +:+ String c (join_char c (s' :: l))).
  rewrite split_app by done. by rewrite IH.
Qed.

Lemma split_pieces c s : Forall (λ p, no_char c p = true) (split_char c s).
Proof.
  induction s as [|a s IH]; simpl; [by repeat constructor|].
  destruct (Ascii.eqb a c) eqn:E; [by constructor|].
  destruct (split_char c s) as [|h t]; [|inversion IH; subst]; constructor; try done;
    simpl; rewrite E; done.
Qed.

Lemma join_split c s : join_char c (split_char c s) = s.
Proof.
  induction s as [|a s IH]; [done|]. simpl.
  pose proof (split_char_not_nil c s) as Hne.
  destruct (Ascii.eqb a c) eqn:E.
  - apply Ascii.eqb_eq in E as ->. destruct (split_char c s); [done|]. simpl. by rewrite <-IH.
  - destruct (split_char c s) as [|h t]; [done|]. rewrite <-IH. by destruct t.
Qed.

Lemma cut_char_found c s t : no_char c s = true → cut_char c (s +:+ String c t) = (s, t, true).
Proof.
  induction s as [|a s IH]; simpl; [by rewrite Ascii.eqb_refl|].
  destruct (Ascii.eqb a c); [done|]. simpl. intros H. by rewrite IH.
Qed.

Lemma no_char_app c s t : no_char c (s +:+ t) = no_char c s && no_char c t.
Proof. induction s as [|a s IH]; [done|]. simpl. rewrite IH. by rewrite andb_assoc. Qed.

(** ** Suffixes *)

(** [strings.HasSuffix] and [strings.TrimSuffix]: the recursion drops leading
    characters until what is left is the suffix. *)
Fixpoint HasSuffix (s suf : string) : bool :=
  String.eqb s suf ||
  match s with EmptyString => false | String _ s' => HasSuffix s' suf end.

Fixpoint TrimSuffix (s suf : string) : string :=
  if String.eqb s suf then EmptyString
  else match s with
       | EmptyString => EmptyString
       | String a s' => String a (TrimSuffix s' suf)
       end.

Lemma str_app_length s t : String.length (s +:+ t) = (String.length s + String.length t)%nat.
Proof. induction s as [|a s IH]; simpl; [done|]. by rewrite IH. Qed.

Lemma str_app_neq_r s t : s ≠ EmptyString → s +:+ t ≠ t.
Proof.
  intros Hs Heq. apply (f_equal String.length) in Heq. rewrite str_app_length in Heq.
  destruct s; simpl in *; [done|lia].
Qed.

Lemma HasSuffix_spec s suf : HasSuffix s suf = true ↔ ∃ p, s = p +:+ suf.
Proof.
  split.
  - induction s as [|a s IH]; simpl.
    + rewrite orb_false_r, String.eqb_eq. intros <-. by exists EmptyString.
    + rewrite orb_true_iff, String.eqb_eq. intros [<-|H]; [by exists EmptyString|].
      destruct (IH H) as [p ->]. by exists (String a p).
  - intros [p ->]. induction p as [|a p IH]; simpl.
    + destruct suf; simpl; by rewrite ?String.eqb_refl, ?Ascii.eqb_refl.
    + rewrite IH. apply orb_true_r.
Qed.

Lemma TrimSuffix_app s suf : TrimSuffix (s +:+ suf) suf = s.
Proof.
  induction s as [|a s IH].
  - simpl. destruct suf; simpl; by rewrite ?String.eqb_refl, ?Ascii.eqb_refl.
  - simpl. destruct (String.eqb_spec (String a (s +:+ suf)) suf) as [Heq|_]; [|by rewrite IH].
    by destruct (str_app_neq_r (String a s) suf).
Qed.

Lemma str_app_inj_r s t u : s +:+ u = t +:+ u → s = t.
Proof. intros H. rewrite <-(TrimSuffix_app s u), H. apply TrimSuffix_app. Qed.

Lemma str_app_assoc (s t u : string) : (s +:+ t) +:+ u = s +:+ (t +:+ u).
Proof. induction s as [|a s IH]; [done|]. exact (f_equal (String a) IH). Qed.

Lemma str_app_nil_r (s : string) : s +:+ EmptyString = s.
Proof. induction s as [|a s IH]; [done|]. exact (f_equal (String a) IH). Qed.

(** ** White space

    [strings.TrimSpace] and [strings.Fields] use the Unicode white space. In
    UTF-8 these runes are the byte sequences below. None of them starts with a
    continuation byte, so a match at a position of the string is a rune of the
    string, from the left and from the right. *)

Definition chars (l : list N) : list ascii := ascii_of_N <$> l.

Definition space_runes : list (list ascii) :=
  chars <$> [[9]; [10]; [11]; [12]; [13]; [32];
     [194; 133]; [194; 160]; [225; 154; 128];
     [226; 128; 128]; [226; 128; 129]; [226; 128; 130]; [226; 128; 131];
     [226; 128; 132]; [226; 128; 133]; [226; 128; 134]; [226; 128; 135];
     [226; 128; 136]; [226; 128; 137]; [226; 128; 138];
     [226; 128; 168]; [226; 128; 169]; [226; 128; 175]; [226; 129; 159];
     [227; 128; 128]]%N.

Fixpoint strip_prefix (p l : list ascii) : option (list ascii) :=
  match p, l with
  | [], _ => Some l
  | a :: p', b :: l' => if Ascii.eqb a b then strip_prefix p' l' else None
  | _ :: _, [] => None
  end.

(** What is left after one of the given runes at the head, if one is there. *)
Fixpoint strip_any (runes : list (list ascii)) (l : list ascii) : option (list ascii) :=
  match runes with
  | [] => None
  | r :: rs => match strip_prefix r l with Some l' => Some l' | None => strip_any rs l end
  end.

(** Drops runes from the head until none is there; every rune is at least one
    byte long, so the length of the string is enough fuel. *)
Fixpoint trim_runes (runes : list (list ascii)) (fuel : nat) (l : list ascii) : list ascii :=
  match fuel with
  | O => l
  | S n => match strip_any runes l with Some l' => trim_runes runes n l' | None => l end
  end.

Definition trim_left (l : list ascii) : list ascii := trim_runes space_runes (length l) l.
Definition trim_right (l : list ascii) : list ascii :=
  reverse (trim_runes (reverse <$> space_runes) (length l) (reverse l)).

(** [strings.TrimSpace] *)
Definition TrimSpace (s : string) : string :=
  string_of_list_ascii (trim_right (trim_left (list_ascii_of_string s))).

(** [strings.Fields]: the maximal runs without white space. [cur] is the
    current run, reversed. *)
Fixpoint fields_go (fuel : nat) (cur l : list ascii) : list (list ascii) :=
  let flush := match cur with [] => [] | _ => [reverse cur] end in
  match fuel with
  | O => flush
  | S n =>
      match l with
      | [] => flush
      | a :: l' =>
          match strip_any space_runes l with
          | Some l'' => flush ++ fields_go n [] l''
          | None => fields_go n (a :: cur) l'
          end
      end
  end.

Definition Fields (s : string) : list string :=
  string_of_list_ascii <$>
    fields_go (S (String.length s)) [] (list_ascii_of_string s).

Lemma strip_prefix_Some p l l' : strip_prefix p l = Some l' ↔ l = p ++ l'.
Proof.
  revert l. induction p as [|a p IH]; intros l; simpl; [naive_solver|].
  destruct l as [|b l]; [done|].
  destruct (Ascii.eqb_spec a b) as [->|Hne]; [|by split; [|intros [=]]].
  rewrite IH. split; [by intros ->|by intros [=]].
Qed.

Lemma strip_any_Some runes l l' :
  strip_any runes l = Some l' → ∃ r, r ∈ runes ∧ l = r ++ l'.
Proof.
  induction runes as [|r rs IH]; simpl; [done|].
  destruct (strip_prefix r l) as [k|] eqn:E.
  - intros [= ->]. apply strip_prefix_Some in E. exists r. split; [left|done].
  - intros H. destruct (IH H) as (r' & Hr & ->). exists r'. split; [by right|done].
Qed.

Lemma strip_any_None runes l : strip_any runes l = None ↔ ∀ r l', r ∈ runes → l ≠ r ++ l'.
Proof.
  induction runes as [|r rs IH]; simpl; [split; [intros _ r l' H; inversion H|done]|].
  destruct (strip_prefix r l) as [k|] eqn:E.
  - apply strip_prefix_Some in E. split; [done|]. intros H. by destruct (H r k ltac:(left)).
  - rewrite IH. split.
    + intros H r' l' [->|Hr]%elem_of_cons; [|by apply H].
      intros Hl. apply (strip_prefix_Some r l l') in Hl. congruence.
    + intros H r' l' Hr. apply H. by right.
Qed.

Lemma space_runes_nonempty r : r ∈ space_runes → r ≠ [].
Proof.
  assert (Forall (λ r, r ≠ []) space_runes) as H by (repeat constructor; done).
  rewrite Forall_forall in H. apply H.
Qed.

(** With enough fuel nothing is left to strip. *)
Lemma trim_runes_done runes fuel l :
  (∀ r, r ∈ runes → r ≠ []) → (length l ≤ fuel)%nat →
  strip_any runes (trim_runes runes fuel l) = None.
Proof.
  intros Hne. revert l. induction fuel as [|n IH]; intros l Hlen; simpl.
  - destruct l; [|simpl in Hlen; lia]. apply strip_any_None. intros r l' Hr Heq.
    apply (Hne r Hr). by destruct r.
  - destruct (strip_any runes l) as [l'|] eqn:E; [|done].
    apply strip_any_Some in E as (r & Hr & ->). apply IH.
    rewrite length_app in Hlen. pose proof (Hne r Hr). destruct r; [done|]. simpl in Hlen. lia.
Qed.

Lemma trim_runes_id runes fuel l : strip_any runes l = None → trim_runes runes fuel l = l.
Proof. destruct fuel; simpl; [done|]. by intros ->. Qed.

Lemma trim_runes_suffix runes fuel l : trim_runes runes fuel l `suffix_of` l.
Proof.
  revert l. induction fuel as [|n IH]; intros l; simpl; [done|].
  destruct (strip_any runes l) as [l'|] eqn:E; [|done].
  apply strip_any_Some in E as (r & _ & ->). etransitivity; [apply IH|]. by exists r.
Qed.

Lemma reverse_space_runes_nonempty r : r ∈ (reverse <$> space_runes) → r ≠ [].
Proof.
  intros (r' & -> & Hr)%list_elem_of_fmap Heq. apply (space_runes_nonempty r' Hr).
  by rewrite <-(reverse_involutive r'), Heq.
Qed.

Lemma TrimSpace_idemp s : TrimSpace (TrimSpace s) = TrimSpace s.
Proof.
  unfold TrimSpace. rewrite list_ascii_of_string_of_list_ascii. f_equal.
  set (l := trim_left (list_ascii_of_string s)).
  assert (strip_any space_runes l = None) as Hl
    by (apply trim_runes_done; [apply space_runes_nonempty|done]).
  assert (trim_right l `prefix_of` l) as [k Hk].
  { unfold trim_right. rewrite <-(reverse_involutive l) at 3.
    destruct (trim_runes_suffix (reverse <$> space_runes) (length l) (reverse l)) as [k Hk].
    exists (reverse k). by rewrite Hk at 1; rewrite reverse_app. }
  assert (trim_left (trim_right l) = trim_right l) as ->.
  { apply trim_runes_id. apply strip_any_None. intros r l' Hr Heq.
    rewrite strip_any_None in Hl. apply (Hl r (l' ++ k) Hr).
    by rewrite app_assoc, <-Heq. }
  unfold trim_right at 1. rewrite trim_runes_id.
  { by rewrite reverse_involutive. }
  unfold trim_right. rewrite reverse_involutive. apply trim_runes_done.
  - apply reverse_space_runes_nonempty.
  - by rewrite length_reverse.
Qed.

(** ** Decimal integers *)

Definition int64_ok (z : Z) : Prop := - 2 ^ 63 ≤ z < 2 ^ 63.
#[export] Instance int64_ok_dec z : Decision (int64_ok z).
Proof. unfold int64_ok. apply _. Defined.

(** [strconv.FormatInt(z, 10)] *)
Definition FormatInt (z : Z) : string := NilZero.string_of_int (Z.to_int z).

(** The digits of [strconv.ParseUint(s, 10, 64)]: at least one, all decimal. *)
Definition parse_digits (s : string) : option Z :=
  match s with
  | EmptyString => None
  | _ => Z.of_uint <$> NilEmpty.uint_of_string s
  end.

(** [strconv.ParseInt(s, 10, 64)]: an optional sign, digits, and the range of
    int64; [None] is the error. *)
Definition ParseInt (s : string) : option Z :=
  let signed (f : Z → Z) (digits : string) :=
    n ← parse_digits digits;
    if decide (int64_ok (f n)) then Some (f n) else None in
  match s with
  | String "-" s' => signed Z.opp s'
  | String "+" s' => signed id s'
  | _ => signed id s
  end.

Lemma parse_digits_uint d : d ≠ Decimal.Nil → parse_digits (NilEmpty.string_of_uint d) = Some (Z.of_uint d).
Proof.
  intros Hd. unfold parse_digits.
  assert (NilEmpty.string_of_uint d ≠ EmptyString) by (by destruct d).
  destruct (NilEmpty.string_of_uint d) eqn:E; [done|]. rewrite <-E.
  by rewrite NilEmpty.usu.
Qed.

Lemma Z_to_int_nonnil z : match Z.to_int z with Pos d | Neg d => d ≠ Decimal.Nil end.
Proof.
  destruct z as [|p|p]; simpl; [done|..]; apply DecimalPos.Unsigned.to_uint_nonnil.
Qed.

Lemma NilZero_string_of_uint d :
  d ≠ Decimal.Nil → NilZero.string_of_uint d = NilEmpty.string_of_uint d.
Proof. by destruct d. Qed.

(** An integer of the int64 range survives printing and parsing. *)
Lemma ParseInt_FormatInt z : int64_ok z → ParseInt (FormatInt z) = Some z.
Proof.
  intros Hz. pose proof (Z_to_int_nonnil z) as Hd. pose proof (DecimalZ.of_to z) as Hof.
  unfold FormatInt. destruct (Z.to_int z) as [d|d]; simpl in *;
    rewrite NilZero_string_of_uint by done; pose proof (parse_digits_uint d Hd) as Hp.
  - unfold ParseInt. destruct d; try done; cbn [NilEmpty.string_of_uint] in *;
      rewrite Hp; simpl; rewrite Hof; by rewrite decide_True.
  - rewrite Hp; simpl. change (Z.of_int (Neg d)) with (- Z.of_uint d) in Hof.
    rewrite Hof. by rewrite decide_True.
Qed.
