(* ===== verification/Version.v ===== *)
(** The replicated data of internal/engine/engine.go: [Version] with its
    newest-wins order, [Record], and [pickNewer]. *)

From S2P Require Import Prelude GoStrings.

Open Scope Z_scope.

(** engine.Version. The two numbers are int64 values; they are only compared,
    so no operation on them can overflow. *)
Record Version := mkVersion {
  Primary : Z;
  Secondary : Z;
  Tiebreak : string
}.

(** Version.Newer *)
Definition Newer (v o : Version) : bool :=
  if negb (Primary v =? Primary o) then Primary o <? Primary v
  else if negb (Secondary v =? Secondary o) then Secondary o <? Secondary v
  else str_ltb (Tiebreak o) (Tiebreak v).

(** engine.Record. A Go map used as a field is a finite map. *)
Record Record_ := mkRecord {
  Kind : string;
  Key : string;
  version : Version;
  Blobs : gmap string bytes;
  Meta : gmap string string;
  Source : string
}.

#[export] Instance Version_eq_dec : EqDecision Version.
Proof. solve_decision. Defined.
#[export] Instance Record_eq_dec : EqDecision Record_.
Proof. solve_decision. Defined.

(** pickNewer: either argument may be nil. On equal versions the second one,
    the cluster's copy, is returned. *)
Definition pickNewer (a b : option Record_) : option Record_ :=
  match a, b with
  | None, _ => b
  | _, None => a
  | Some ra, Some rb => if Newer (version ra) (version rb) then a else b
  end.

Declare Scope lbsync_scope.
Delimit Scope lbsync_scope with lbsync.

(** [v ≻ o]: v is strictly newer; [v ≽ o]: v is at least as new. *)
Notation "v ≻ o" := (Newer v o = true) (at level 70, no associativity) : lbsync_scope.
Notation "v ≽ o" := (Newer o v = false) (at level 70, no associativity) : lbsync_scope.
Open Scope lbsync_scope.

(** ** Newer is a strict total order *)

(** The three-way lexicographic reading of [Newer]. *)
Lemma Newer_spec v o :
  v ≻ o ↔ Primary o < Primary v
        ∨ (Primary v = Primary o ∧ Secondary o < Secondary v)
        ∨ (Primary v = Primary o ∧ Secondary v = Secondary o
             ∧ str_ltb (Tiebreak o) (Tiebreak v) = true).
Proof.
  unfold Newer. destruct (Z.eqb_spec (Primary v) (Primary o)); simpl;
    [destruct (Z.eqb_spec (Secondary v) (Secondary o)); simpl|]; rewrite ?Z.ltb_lt;
    intuition lia.
Qed.

Lemma Newer_irrefl v : Newer v v = false.
Proof. unfold Newer. rewrite !Z.eqb_refl. simpl. apply str_ltb_irrefl. Qed.

Lemma Newer_trans u v w : u ≻ v → v ≻ w → u ≻ w.
Proof.
  rewrite !Newer_spec. intros H1 H2.
  destruct H1 as [?|[[??]|(?&?&Ht1)]], H2 as [?|[[??]|(?&?&Ht2)]];
    try (left; lia); try (right; left; lia).
  right; right. repeat split; try lia. by apply (str_ltb_trans _ (Tiebreak v)).
Qed.

Lemma Newer_asym u v : u ≻ v → Newer v u = false.
Proof.
  intros H. apply not_true_is_false. intros H'.
  pose proof (Newer_trans _ _ _ H H'). by rewrite Newer_irrefl in *.
Qed.

(** Versions that are not ordered either way are equal. *)
Lemma Newer_total u v : Newer u v = false → Newer v u = false → u = v.
Proof.
  intros H1%not_true_iff_false H2%not_true_iff_false. rewrite Newer_spec in H1, H2.
  destruct u as [p s t], v as [p' s' t']; simpl in *.
  assert (p = p') as -> by lia. assert (s = s') as -> by lia. f_equal.
  apply str_ltb_total; apply not_true_is_false; intros H; [apply H2|apply H1]; auto.
Qed.

(** [≽] is the corresponding total preorder (antisymmetric by the above). *)
Definition at_least (v o : Version) : Prop := v ≽ o.

#[export] Instance at_least_preorder : PreOrder at_least.
Proof.
  split; [intros v; apply Newer_irrefl|].
  intros u v w Huv Hvw. unfold at_least in *. apply not_true_is_false. intros H.
  destruct (Newer v u) eqn:E; [done|].
  destruct (decide (u = v)) as [->|Hne]; [congruence|].
  assert (u ≻ v) as H'.
  { destruct (Newer u v) eqn:E'; [done|]. by destruct (Hne (Newer_total _ _ E' E)). }
  pose proof (Newer_trans _ _ _ H H'). congruence.
Qed.

Lemma Newer_at_least u v : u ≻ v → at_least u v.
Proof. apply Newer_asym. Qed.

Lemma at_least_total u v : at_least u v ∨ u ≻ v ∨ v ≻ u.
Proof. unfold at_least. destruct (Newer v u) eqn:E; auto. Qed.

Lemma at_least_cases u v : at_least u v → u = v ∨ u ≻ v.
Proof.
  unfold at_least. intros H. destruct (Newer u v) eqn:E; [by right|].
  left. by apply Newer_total.
Qed.

Lemma Newer_at_least_trans u v w : u ≻ v → at_least v w → u ≻ w.
Proof. intros H [->|H']%at_least_cases; [done|]. by apply (Newer_trans _ v). Qed.

Lemma at_least_Newer_trans u v w : at_least u v → v ≻ w → u ≻ w.
Proof. intros [->|H]%at_least_cases H'; [done|]. by apply (Newer_trans _ v). Qed.

#[export] Hint Resolve Newer_irrefl Newer_at_least Newer_trans Newer_asym : lbsync.

(** ** pickNewer is a join *)

(** [r] is at least as new as the optional record [o]. *)
Definition covers (a o : option Record_) : Prop :=
  match o with
  | None => True
  | Some r => ∃ r', a = Some r' ∧ at_least (version r') (version r)
  end.

#[export] Instance covers_preorder : PreOrder covers.
Proof.
  split.
  - intros [r|]; simpl; [|done]. exists r. split; [done|]. apply Newer_irrefl.
  - intros a b c Hab Hbc. destruct c as [rc|]; [|done]. simpl in *.
    destruct Hbc as (rb & -> & Hbc). destruct Hab as (ra & -> & Hab).
    exists ra. split; [done|]. by etransitivity.
Qed.

Lemma covers_Some r r' : at_least (version r) (version r') → covers (Some r) (Some r').
Proof. intros H. by exists r. Qed.

Lemma pickNewer_covers_l a b : covers (pickNewer a b) a.
Proof.
  destruct a as [ra|]; [|done]. destruct b as [rb|]; simpl; [|by apply covers_Some].
  destruct (Newer (version ra) (version rb)) eqn:E; by apply covers_Some.
Qed.

Lemma pickNewer_covers_r a b : covers (pickNewer a b) b.
Proof.
  destruct b as [rb|]; [|done]. destruct a as [ra|]; simpl; [|by apply covers_Some].
  destruct (Newer (version ra) (version rb)) eqn:E; apply covers_Some; [|done].
  by apply Newer_at_least.
Qed.

Lemma pickNewer_one_of a b : pickNewer a b = a ∨ pickNewer a b = b.
Proof.
  destruct a as [ra|], b as [rb|]; simpl; auto.
  destruct (Newer (version ra) (version rb)); auto.
Qed.

Lemma pickNewer_None a b : pickNewer a b = None ↔ a = None ∧ b = None.
Proof. destruct a as [ra|], b as [rb|]; simpl; try naive_solver. destruct (Newer _ _); naive_solver. Qed.

(** Taking the join again changes nothing. *)
Lemma pickNewer_absorb a b : pickNewer a (pickNewer a b) = pickNewer a b.
Proof.
  destruct a as [ra|], b as [rb|]; simpl; try done.
  - destruct (Newer (version ra) (version rb)) eqn:E; simpl; [by rewrite Newer_irrefl|by rewrite E].
  - by rewrite Newer_irrefl.
Qed.

(** If the second argument is at least as new, it is the result. *)
Lemma pickNewer_covered a b : covers b a → pickNewer a b = b.
Proof.
  destruct a as [ra|]; simpl; [|done]. intros (rb & -> & H). simpl. unfold at_least in H. by rewrite H.
Qed.

(** Merging is associative and commutative up to the version. *)
Lemma pickNewer_lub a b c : covers c (pickNewer a b) ↔ covers c a ∧ covers c b.
Proof.
  split.
  - intros H. split; (etransitivity; [exact H|]); [apply pickNewer_covers_l|apply pickNewer_covers_r].
  - intros [Ha Hb]. by destruct (pickNewer_one_of a b) as [->| ->].
Qed.

(** The newest of a list of copies. *)
Definition newest (l : list (option Record_)) : option Record_ := foldr pickNewer None l.

Lemma newest_covers l o : covers o (newest l) ↔ Forall (covers o) l.
Proof.
  induction l as [|a l IH]; simpl; [by split; [constructor|]|].
  rewrite pickNewer_lub, Forall_cons, IH. done.
Qed.

Lemma newest_in l : newest l = None ∨ newest l ∈ l.
Proof.
  induction l as [|a l IH]; simpl; [by left|].
  destruct (pickNewer_one_of a (newest l)) as [->| ->]; [right; left|].
  destruct IH as [?|?]; [by left|right; by right].
Qed.

(** Copies that cover each other have the same version. *)
Lemma covers_antisym a b : covers a b → covers b a → version <$> a = version <$> b.
Proof.
  destruct a as [ra|], b as [rb|]; simpl; [|naive_solver|naive_solver|done].
  intros (x & [= <-] & H1) (y & [= <-] & H2). f_equal. by apply Newer_total.
Qed.

(** The newest of a list of copies has the same version in any order. *)
Lemma newest_perm l l' : l ≡ₚ l' → version <$> newest l = version <$> newest l'.
Proof.
  intros Hp. apply covers_antisym; apply newest_covers; [rewrite <-Hp|rewrite Hp]; by apply newest_covers.
Qed.

(** (C8) The order of versions is a strict total order: it is irreflexive and
    transitive, and of two different versions exactly one is newer. So any two
    nodes that compare the same copies choose the same winner. *)
Theorem newer_strict_total_order :
  (∀ v, Newer v v = false)
  ∧ (∀ u v w, Newer u v = true → Newer v w = true → Newer u w = true)
  ∧ ∀ u v, (u = v ∧ Newer u v = false ∧ Newer v u = false)
      ∨ (u ≠ v ∧ Newer u v = negb (Newer v u)).
Proof.
  split_and!; [apply Newer_irrefl|apply Newer_trans|]. intros u v.
  destruct (decide (u = v)) as [->|Hne]; [left; by rewrite Newer_irrefl|right].
  split; [done|]. destruct (Newer u v) eqn:E1; [by rewrite (Newer_asym _ _ E1)|].
  destruct (Newer v u) eqn:E2; [done|]. by destruct (Hne (Newer_total _ _ E1 E2)).
Qed.

(** The newest of a collection of copies does not depend on the order in
    which they are merged: for any permutation of the copies, repeated
    [pickNewer] gives a copy of the same version, which is one of them (or none
    if all are nil) and at least as new as each. *)
Theorem newest_order_independent l l' :
  l ≡ₚ l' →
  version <$> newest l = version <$> newest l'
  ∧ (newest l = None ∨ newest l ∈ l) ∧ Forall (covers (newest l)) l.
Proof.
  intros Hp. split_and!; [by apply newest_perm|apply newest_in|by apply newest_covers].
Qed.
