(* ===== verification/Metrics.v ===== *)
(** internal/metrics/metrics.go: the collectors of the agent. The Prometheus
    client is a library of its own; what the agent does with it is the list of
    calls below, and the model of an update is the call it makes. *)

From S2P Require Import Prelude GoStrings.

(** The fields of metrics.Metrics. *)
Inductive collector :=
  | ClusterMembers | ModuleEnabled | AppliedTS | NotAfter | PublishTotal
  | ApplyTotal | VerifyErrors | ReloadErrors | RollbackTotal | ReconcileDur.

#[export] Instance collector_eq_dec : EqDecision collector.
Proof. solve_decision. Defined.

Inductive metric_type := Gauge | Counter | Histogram.

#[export] Instance metric_type_eq_dec : EqDecision metric_type.
Proof. solve_decision. Defined.

Record desc := mkDesc {
  d_type : metric_type;
  d_name : string;
  d_labels : list string
}.

Definition namespace : string := "lbsync".

(** The options each collector is built with in [New]. *)
Definition collector_desc (c : collector) : desc :=
  match c with
  | ClusterMembers => mkDesc Gauge "cluster_members" []
  | ModuleEnabled => mkDesc Gauge "module_enabled" ["module"]
  | AppliedTS => mkDesc Gauge "applied_timestamp_seconds" ["kind"; "key"]
  | NotAfter => mkDesc Gauge "not_after_seconds" ["kind"; "key"]
  | PublishTotal => mkDesc Counter "publish_total" ["kind"]
  | ApplyTotal => mkDesc Counter "apply_total" ["kind"]
  | VerifyErrors => mkDesc Counter "verify_errors_total" ["kind"]
  | ReloadErrors => mkDesc Counter "reload_errors_total" ["kind"]
  | RollbackTotal => mkDesc Counter "rollback_total" ["kind"]
  | ReconcileDur => mkDesc Histogram "reconcile_duration_seconds" ["kind"]
  end.

(** The fully qualified name Prometheus registers the collector under. *)
Definition fq_name (c : collector) : string :=
  namespace +:+ "_" +:+ d_name (collector_desc c).

(** The arguments of [reg.MustRegister], in order. *)
Definition registered : list collector :=
  [ClusterMembers; ModuleEnabled; AppliedTS; NotAfter; PublishTotal;
   ApplyTotal; VerifyErrors; ReloadErrors; RollbackTotal; ReconcileDur].

(** An update of a collector: its label values and the method called on it. A
    gauge value is the integer given to [Set]; an observed duration is in
    nanoseconds. *)
Inductive metric_op := Inc | SetTo (v : Z) | Observe (ns : Z).

Record metric_event := mkEvent {
  ev_collector : collector;
  ev_labels : list string;
  ev_op : metric_op
}.

(** [WithLabelValues] panics unless it is given one value per label, and each
    method exists on one type of collector only. *)
Definition event_ok (ev : metric_event) : bool :=
  let d := collector_desc (ev_collector ev) in
  bool_decide (length (ev_labels ev) = length (d_labels d)) &&
  match ev_op ev, d_type d with
  | Inc, Counter | SetTo _, Gauge | Observe _, Histogram => true
  | _, _ => false
  end.

Lemma registered_complete c : c ∈ registered.
Proof. destruct c; set_solver. Qed.

Lemma registered_names_distinct : NoDup (fq_name <$> registered).
Proof. apply (bool_decide_unpack _). vm_compute. exact I. Qed.
