(* ===== verification/Engine.v ===== *)
(** internal/engine/engine.go: the newest-wins reconcile loop.

    The code is written over an arbitrary monad [m], so that it can be run on a
    sequential world and, in [Interleave.v], cut into the atomic operations of
    the cluster. The interfaces [engine.ClusterKV] and [engine.Provider] are
    records of operations, with Go's multiple results kept as tuples; the laws
    a client may rely on are the classes of [EngineSpec.v]. *)

From S2P Require Import Prelude GoStrings Version Metrics.

Open Scope Z_scope.

Section Engine.
Context {m : Type → Type} `{!MRet m, !MBind m}.

(** engine.ClusterKV. [Lock] returns the release function and an error. *)
Record ClusterKV := {
  kv_Get : string → string → m (option Record_ * bool * option error);
  kv_Put : Record_ → m (option error);
  kv_Keys : string → m (list string * option error);
  kv_Lock : string → string → Z → m (option (m unit) * option error);
  kv_Members : m Z
}.

(** engine.Provider *)
Record Provider := {
  p_Kind : string;
  p_Local : m (list Record_ * option error);
  p_Apply : Record_ → m (bool * option error);
  p_Flush : m (option error);
  p_Rollback : list string → m (option error)
}.

(** engine.Engine. [metrics] is nil or a sink for collector updates. *)
Record Engine := mkEngine {
  e_cl : ClusterKV;
  e_providers : list Provider;
  e_interval : Z;
  e_lockTTL : Z;
  e_metrics : option (metric_event → m unit);
  e_now : m Z
}.

(** engine.Options; durations in nanoseconds, [Now] may be nil. *)
Record Options := mkOptions {
  o_Interval : Z;
  o_LockTTL : Z;
  o_Now : option (m Z)
}.

Definition second : Z := 1000000000.

(** engine.New; [time_Now] is [time.Now]. *)
Definition New (time_Now : m Z) (cl : ClusterKV)
    (metrics : option (metric_event → m unit)) (opts : Options) : Engine :=
  {| e_cl := cl;
     e_providers := [];
     e_interval := if o_Interval opts <=? 0 then 30 * second else o_Interval opts;
     e_lockTTL := if o_LockTTL opts <=? 0 then 10 * second else o_LockTTL opts;
     e_metrics := metrics;
     e_now := match o_Now opts with None => time_Now | Some now => now end |}.

(** Engine.Register *)
Definition Register (e : Engine) (p : Provider) : Engine :=
  {| e_cl := e_cl e;
     e_providers := e_providers e ++ [p];
     e_interval := e_interval e;
     e_lockTTL := e_lockTTL e;
     e_metrics := e_metrics e;
     e_now := e_now e |}.

(** [if e.metrics != nil { ... }] around one update. *)
Definition with_metrics (e : Engine) (body : (metric_event → m unit) → m unit) : m unit :=
  match e_metrics e with None => mret tt | Some emit => body emit end.

(** The order in which Go's [range] visits the keys of a map is unspecified:
    it is an argument of the code that uses it. *)
Abbreviation map_range := (gmap string Record_ → list string).

(** The index of the local records by key; a later record of the same key
    replaces an earlier one. *)
Definition index_by_key (locals : list Record_) : gmap string Record_ :=
  foldl (λ acc r, <[Key r := r]> acc) ∅ locals.

(** One iteration of the loops that collect keys not seen before. *)
Definition add_key (acc : gset string * list string) (k : string) : gset string * list string :=
  if decide (k ∈ acc.1) then acc else ({[k]} ∪ acc.1, acc.2 ++ [k]).

(** Engine.gatherKeys *)
Definition gatherKeys (range : map_range) (e : Engine) (p : Provider) (kind : string)
    : m (gmap string Record_ * list string) :=
  '(locals, err) ← p_Local p;
  let localByKey := match err with None => index_by_key locals | Some _ => ∅ end in
  let acc := foldl add_key (∅, []) (range localByKey) in
  '(clusterKeys, err) ← kv_Keys (e_cl e) kind;
  let acc := match err with None => foldl add_key acc clusterKeys | Some _ => acc end in
  mret (localByKey, acc.2).

(** Engine.maybePublish. The release function is deferred, so it runs after
    the rest of the body. A nil record reported as present would be a nil
    dereference; both backends return a record whenever they report one. *)
Definition maybePublish (e : Engine) (kind key : string) (local clusterR : option Record_) : m unit :=
  match local with
  | None => mret tt
  | Some l =>
      if match clusterR with Some c => negb (Newer (version l) (version c)) | None => false end
      then mret tt
      else
        '(release, err) ← kv_Lock (e_cl e) kind key (e_lockTTL e);
        '(cur, ok, _) ← kv_Get (e_cl e) kind key;
        _ ← (if (ok : bool) && match cur with
                       | Some c => negb (Newer (version l) (version c))
                       | None => false
                       end
             then mret tt
             else
               err ← kv_Put (e_cl e) l;
               match err with
               | Some _ => mret tt
               | None => with_metrics e (λ emit, emit (mkEvent PublishTotal [kind] Inc))
               end);
        match err, release with
        | None, Some rel => rel
        | _, _ => mret tt
        end
  end.

(** The body of the loop over the keys in Engine.tickProvider; the accumulator
    is the slice [changed]. *)
Definition tickKey (e : Engine) (p : Provider) (kind : string)
    (localByKey : gmap string Record_) (changed : list string) (key : string) : m (list string) :=
  let local := localByKey !! key in
  '(clusterR, _, _) ← kv_Get (e_cl e) kind key;
  _ ← maybePublish e kind key local clusterR;
  match pickNewer local clusterR with
  | None => mret changed
  | Some best =>
      '(didChange, err) ← p_Apply p best;
      match err with
      | Some _ => mret changed
      | None =>
          if didChange : bool then
            _ ← with_metrics e (λ emit,
                  _ ← emit (mkEvent ApplyTotal [kind] Inc);
                  t ← e_now e;
                  emit (mkEvent AppliedTS [kind; key] (SetTo (t / second))));
            mret (changed ++ [key])
          else mret changed
      end
  end.

(** The end of Engine.tickProvider: flush what changed, roll back if the
    flush reports an error. *)
Definition flushChanged (e : Engine) (p : Provider) (kind : string) (changed : list string) : m unit :=
  match changed with
  | [] => mret tt
  | _ =>
      err ← p_Flush p;
      match err with
      | None => mret tt
      | Some _ =>
          _ ← p_Rollback p changed;
          with_metrics e (λ emit, emit (mkEvent RollbackTotal [kind] Inc))
      end
  end.

(** Engine.tickProvider; the duration is observed when the function returns. *)
Definition tickProvider (range : map_range) (e : Engine) (p : Provider) : m unit :=
  let kind := p_Kind p in
  start ← e_now e;
  '(localByKey, keys) ← gatherKeys range e p kind;
  changed ← foldM (tickKey e p kind localByKey) [] keys;
  _ ← flushChanged e p kind changed;
  with_metrics e (λ emit, t ← e_now e; emit (mkEvent ReconcileDur [kind] (Observe (t - start)))).

(** Engine.reconcile *)
Definition reconcile (range : map_range) (e : Engine) : m unit :=
  _ ← with_metrics e (λ emit, n ← kv_Members (e_cl e); emit (mkEvent ClusterMembers [] (SetTo n)));
  foldM (λ _ p, tickProvider range e p) tt (e_providers e).

(** What the [select] of Engine.Run can receive. *)
Inductive run_event := TickerFired (range : map_range) | CtxDone (err : error).

(** The [for] loop of Engine.Run on the events it receives; [None] when they
    end without a cancellation, so the loop is still waiting. *)
Fixpoint run_loop (e : Engine) (evs : list run_event) : m (option error) :=
  match evs with
  | [] => mret None
  | CtxDone err :: _ => mret (Some err)
  | TickerFired range :: evs' => _ ← reconcile range e; run_loop e evs'
  end.

(** Engine.Run *)
Definition Run (range : map_range) (e : Engine) (evs : list run_event) : m (option error) :=
  _ ← reconcile range e; run_loop e evs.
End Engine.

Arguments ClusterKV : clear implicits.
Arguments Provider : clear implicits.
Arguments Engine : clear implicits.
Arguments Options : clear implicits.
