(* ===== verification/EngineSpec.v ===== *)
(** What the engine may rely on and what it guarantees.

    [ReliableKV] and [StableProvider] are the contracts of the two interfaces
    of internal/engine/engine.go. The theorems are proved against them; the
    Olric facade ([Cluster.v]), the WAN backend ([Wan.v]) and the providers
    discharge them. *)

From S2P Require Import Prelude GoStrings Version Metrics Engine.

Open Scope Z_scope.

(** ** Contracts *)

(** The version is newer than the record, if there is one. *)
Definition newer_than (v : Version) (o : option Record_) : Prop :=
  match o with Some r => Newer v (version r) = true | None => True end.

(** A cluster without failures: its state has a view as a map from (kind, key)
    to records that the operations read and write. [inv] is what the backend
    keeps true of its state, [kind_ok] and [key_ok] say which kinds and keys it
    can store. Put is only asked to work for a record that is newer than the
    entry it replaces: the engine checks this before. *)
Class ReliableKV {C} (cl : ClusterKV (M C)) (view : C → gmap (string * string) Record_)
    (inv : C → Prop) (kind_ok key_ok : string → Prop) := {
  kv_get_law c kind key : inv c → kind_ok kind → key_ok key → ∃ c',
    kv_Get cl kind key c
      = (view c !! (kind, key), bool_decide (is_Some (view c !! (kind, key))), None, c')
    ∧ view c' = view c ∧ inv c';
  kv_put_law c r : inv c → kind_ok (Kind r) → key_ok (Key r) →
    newer_than (version r) (view c !! (Kind r, Key r)) → ∃ c',
    kv_Put cl r c = (None, c') ∧ view c' = <[(Kind r, Key r) := r]> (view c) ∧ inv c';
  kv_keys_law c kind : inv c → kind_ok kind → ∃ ks c',
    kv_Keys cl kind c = (ks, None, c')
    ∧ (∀ k, k ∈ ks ↔ is_Some (view c !! (kind, k))) ∧ view c' = view c ∧ inv c';
  kv_lock_law c kind key ttl : inv c → ∃ rel err c',
    kv_Lock cl kind key ttl c = (rel, err, c') ∧ view c' = view c ∧ inv c'
    ∧ ∀ f c1, rel = Some f → inv c1 → view (f c1).2 = view c1 ∧ inv (f c1).2;
  kv_members_law c : inv c → view (kv_Members cl c).2 = view c ∧ inv (kv_Members cl c).2;
  kv_view_wf c kind key r : inv c → view c !! (kind, key) = Some r →
    Kind r = kind ∧ Key r = key ∧ key_ok key
}.

(** A provider whose local records are [L] and whose hook succeeds. [shows n r]
    says that the node's serving state is the one [Apply r] produces. *)
Class StableProvider {N} (p : Provider (M N)) (L : list Record_) (pinv : N → Prop)
    (shows : N → Record_ → Prop) (rec_ok : Record_ → Prop) := {
  p_local_law n : pinv n → ∃ n',
    p_Local p n = (L, None, n') ∧ pinv n' ∧ ∀ r, shows n r → shows n' r;
  p_apply_law n r : pinv n → rec_ok r → ∃ b n',
    p_Apply p r n = (b, None, n') ∧ pinv n' ∧ shows n' r
    ∧ ∀ r', rec_ok r' → Key r' ≠ Key r → shows n r' → shows n' r';
  p_apply_again n r : pinv n → rec_ok r → shows n r → p_Apply p r n = (false, None, n);
  p_flush_law n : pinv n → ∃ n',
    p_Flush p n = (None, n') ∧ pinv n' ∧ ∀ r, shows n r → shows n' r
}.

(** ** Running a component in a larger world *)

Definition lift_kv {C N} (cl : ClusterKV (M C)) : ClusterKV (M (C * N)) :=
  {| kv_Get kind key := lift_fst (kv_Get cl kind key);
     kv_Put r := lift_fst (kv_Put cl r);
     kv_Keys kind := lift_fst (kv_Keys cl kind);
     kv_Lock kind key ttl :=
       '(rel, err) ← lift_fst (kv_Lock cl kind key ttl);
       mret (lift_fst <$> (rel : option (M C unit)), err);
     kv_Members := lift_fst (kv_Members cl) |}.

Definition lift_provider {C N} (p : Provider (M N)) : Provider (M (C * N)) :=
  {| p_Kind := p_Kind p;
     p_Local := lift_snd (p_Local p);
     p_Apply r := lift_snd (p_Apply p r);
     p_Flush := lift_snd (p_Flush p);
     p_Rollback keys := lift_snd (p_Rollback p keys) |}.

(** ** The keys of a tick *)

Section Keys.
Implicit Types (acc : gset string * list string) (ks : list string).

Definition acc_wf acc : Prop := NoDup acc.2 ∧ ∀ k, k ∈ acc.2 ↔ k ∈ acc.1.

Lemma add_key_wf acc k : acc_wf acc → acc_wf (add_key acc k).
Proof.
  unfold add_key. intros [Hnd Hin]. case_decide as Hk; [done|]. split; simpl.
  - apply NoDup_app. split; [done|]. split; [|apply NoDup_singleton].
    intros x Hx ->%list_elem_of_singleton. apply Hk. by apply Hin.
  - intros x. rewrite elem_of_snoc, Hin. set_solver.
Qed.

Lemma add_key_in acc k x : acc_wf acc → x ∈ (add_key acc k).2 ↔ x ∈ acc.2 ∨ x = k.
Proof.
  intros [_ Hin]. unfold add_key. case_decide as Hk; simpl; [|apply elem_of_snoc].
  split; [by left|]. intros [?| ->]; [done|by apply Hin].
Qed.

(** The loop of [gatherKeys] collects the new keys, each once. *)
Lemma foldl_add_key acc ks :
  acc_wf acc → acc_wf (foldl add_key acc ks) ∧
  ∀ x, x ∈ (foldl add_key acc ks).2 ↔ x ∈ acc.2 ∨ x ∈ ks.
Proof.
  revert acc. induction ks as [|k ks IH]; intros acc Hwf; simpl.
  - split; [done|]. intros x. split; [by left|]. intros [?|H]; [done|inversion H].
  - destruct (IH _ (add_key_wf acc k Hwf)) as [Hwf' Hin]. split; [done|].
    intros x. rewrite Hin, add_key_in, elem_of_cons by done. tauto.
Qed.

Lemma acc_wf_empty : acc_wf (∅, []).
Proof. split; simpl; [constructor|]. intros k. split; [by intros H%elem_of_nil|set_solver]. Qed.

(** Indexing keeps, for each key, the last record with that key. *)
Lemma foldl_insert_lookup (L : list Record_) (idx0 : gmap string Record_) k :
  foldl (λ idx r, <[Key r := r]> idx) idx0 L !! k
  = match last (filter (λ r, Key r = k) L) with Some r => Some r | None => idx0 !! k end.
Proof.
  revert idx0. induction L as [|r L IH]; intros idx0; simpl; [done|].
  rewrite IH, filter_cons. case_decide as Hr.
  - subst k. rewrite last_cons. destruct (last _); [done|]. by rewrite lookup_insert_eq.
  - by rewrite lookup_insert_ne.
Qed.

Lemma index_by_key_lookup L k : index_by_key L !! k = last (filter (λ r, Key r = k) L).
Proof.
  unfold index_by_key. rewrite foldl_insert_lookup. destruct (last _); [done|]. apply lookup_empty.
Qed.

Lemma index_by_key_Some L k r : index_by_key L !! k = Some r → Key r = k ∧ r ∈ L.
Proof.
  rewrite index_by_key_lookup. intros Hl%last_Some_elem_of.
  by apply list_elem_of_filter in Hl.
Qed.
End Keys.

(** ** One tick of a provider on reliable parts *)

(** Any order of the keys of the map, each key once. *)
Definition range_ok (range : gmap string Record_ → list string) : Prop :=
  ∀ idx, NoDup (range idx) ∧ ∀ k, k ∈ range idx ↔ is_Some (idx !! k).

(** The abstract effect of publishing [local]: the entry becomes the newest of
    the two. *)
Definition publish (kind key : string) (local : option Record_)
    (v : gmap (string * string) Record_) : gmap (string * string) Record_ :=
  partial_alter (pickNewer local) (kind, key) v.

Lemma publish_eq kind key local v :
  publish kind key local v !! (kind, key) = pickNewer local (v !! (kind, key)).
Proof. unfold publish. by rewrite lookup_partial_alter_eq. Qed.

Lemma publish_ne kind key local v kk :
  kk ≠ (kind, key) → publish kind key local v !! kk = v !! kk.
Proof. intros Hne. unfold publish. by rewrite lookup_partial_alter_ne. Qed.

(** Publishing what is not newer changes nothing. *)
Lemma publish_id kind key local v :
  covers (v !! (kind, key)) local → publish kind key local v = v.
Proof.
  intros Hc. apply map_eq. intros kk. destruct (decide (kk = (kind, key))) as [->|Hne].
  - rewrite publish_eq. by apply pickNewer_covered.
  - by apply publish_ne.
Qed.

Lemma publish_newer kind key l v :
  Kind l = kind → Key l = key →
  newer_than (version l) (v !! (kind, key)) →
  publish kind key (Some l) v = <[(Kind l, Key l) := l]> v.
Proof.
  intros <- <- Hnew. apply map_eq. intros kk.
  destruct (decide (kk = (Kind l, Key l))) as [->|Hne].
  - rewrite publish_eq, lookup_insert_eq. destruct (v !! _) as [c|]; simpl; [by rewrite Hnew|done].
  - by rewrite publish_ne, lookup_insert_ne by done.
Qed.

Section Tick.
Context {C N : Type} {cl : ClusterKV (M C)} {view : C → gmap (string * string) Record_}
  {inv : C → Prop} {kind_ok key_ok : string → Prop} `{!ReliableKV cl view inv kind_ok key_ok}.
Context {p : Provider (M N)} {L : list Record_} {pinv : N → Prop}
  {shows : N → Record_ → Prop} {rec_ok : Record_ → Prop}
  `{!StableProvider p L pinv shows rec_ok}.
Context (e : Engine (M (C * N))).

(** A command that leaves the cluster alone and takes nothing from what the
    node serves: reading the clock, updating a collector. *)
Definition quiet {A} (c : M (C * N) A) : Prop :=
  ∀ cs n, pinv n → ∃ a n', c (cs, n) = (a, (cs, n')) ∧ pinv n' ∧ ∀ r, shows n r → shows n' r.

Context (Hcl : e_cl e = lift_kv cl) (Hkind : kind_ok (p_Kind p)) (Hnow : quiet (e_now e))
  (Hmetrics : ∀ emit, e_metrics e = Some emit → ∀ ev, quiet (emit ev))
  (HL : ∀ r, r ∈ L → Kind r = p_Kind p ∧ key_ok (Key r) ∧ rec_ok r).

Implicit Types (c : C) (n : N).

Definition good c n : Prop :=
  inv c ∧ pinv n ∧ ∀ k r, view c !! (p_Kind p, k) = Some r → rec_ok r.

(** What a node keeps from one command to the next. *)
Definition keeps n n' : Prop := pinv n' ∧ ∀ r, shows n r → shows n' r.

Lemma keeps_trans n1 n2 n3 : keeps n1 n2 → keeps n2 n3 → keeps n1 n3.
Proof. intros [_ H1] [H2 H3]. split; auto. Qed.

Lemma quiet_bind {A B} (m1 : M (C * N) A) (m2 : A → M (C * N) B) :
  quiet m1 → (∀ a, quiet (m2 a)) → quiet (m1 ≫= m2).
Proof.
  intros H1 H2 cs n Hn. destruct (H1 cs n Hn) as (a & n1 & E1 & Hn1 & Hs1).
  destruct (H2 a cs n1 Hn1) as (b & n2 & E2 & Hn2 & Hs2).
  exists b, n2. unfold_M. rewrite E1. auto.
Qed.

Lemma quiet_with_metrics body :
  (∀ emit, e_metrics e = Some emit → quiet (body emit)) → quiet (with_metrics e body).
Proof.
  intros H cs n Hn. unfold with_metrics. destruct (e_metrics e) as [emit|] eqn:E.
  - by apply H.
  - exists tt, n. auto.
Qed.

Lemma emit_quiet ev : quiet (with_metrics e (λ emit, emit ev)).
Proof. apply quiet_with_metrics. intros emit Hemit. by apply Hmetrics. Qed.

Lemma get_run c n key : inv c → key_ok key → let kind := p_Kind p in ∃ c',
  kv_Get (e_cl e) kind key (c, n)
    = (view c !! (kind, key), bool_decide (is_Some (view c !! (kind, key))), None, (c', n))
  ∧ view c' = view c ∧ inv c'.
Proof.
  intros Hc Hk kind. destruct (kv_get_law c kind key Hc Hkind Hk) as (c' & E & Hv & Hi).
  exists c'. rewrite Hcl. unfold lift_kv, lift_fst. simpl. by rewrite E.
Qed.

Lemma put_run c n r : inv c → Kind r = p_Kind p → key_ok (Key r) →
  newer_than (version r) (view c !! (Kind r, Key r)) → ∃ c',
  kv_Put (e_cl e) r (c, n) = (None, (c', n))
  ∧ view c' = <[(Kind r, Key r) := r]> (view c) ∧ inv c'.
Proof.
  intros Hc Hkd Hk Hn. destruct (kv_put_law c r Hc ltac:(by rewrite Hkd) Hk Hn) as (c' & E & Hv & Hi).
  exists c'. rewrite Hcl. unfold lift_kv, lift_fst. simpl. by rewrite E.
Qed.

Lemma lock_run c n kind key ttl : inv c → ∃ rel err c',
  kv_Lock (e_cl e) kind key ttl (c, n) = (rel, err, (c', n)) ∧ view c' = view c ∧ inv c'
  ∧ ∀ f c1 n1, rel = Some f → inv c1 → ∃ c2, f (c1, n1) = (tt, (c2, n1)) ∧ view c2 = view c1 ∧ inv c2.
Proof.
  intros Hc. destruct (kv_lock_law c kind key ttl Hc) as (rel & err & c' & E & Hv & Hi & Hrel).
  exists (lift_fst <$> rel), err, c'. rewrite Hcl. unfold lift_kv, lift_fst. unfold_M. simpl.
  rewrite E. split_and!; try done. intros f c1 n1 Hf Hc1.
  destruct rel as [g|]; [|done]. simplify_eq/=. destruct (Hrel g c1 eq_refl Hc1) as [Hv2 Hi2].
  destruct (g c1) as [[] c2] eqn:Eg. by exists c2.
Qed.

(** Publishing is a join of the entry with the local record. *)
Lemma maybePublish_spec c n key local :
  inv c → pinv n → key_ok key →
  (∀ l, local = Some l → Kind l = p_Kind p ∧ Key l = key) → ∃ c' n',
  maybePublish e (p_Kind p) key local (view c !! (p_Kind p, key)) (c, n) = (tt, (c', n'))
  ∧ view c' = publish (p_Kind p) key local (view c) ∧ inv c' ∧ keeps n n'.
Proof.
  intros Hc Hn Hk Hloc. set (kind := p_Kind p) in *. unfold maybePublish.
  assert (keeps n n) as Hnn by (by split).
  destruct local as [l|]; [|exists c, n; by rewrite publish_id].
  destruct (Hloc l eq_refl) as [Hlk Hkey].
  destruct (match view c !! (kind, key) with
            | Some r => negb (Newer (version l) (version r)) | None => false end) eqn:Estale.
  { exists c, n. rewrite publish_id; [done|]. destruct (view c !! (kind, key)) as [r|]; [|done].
    apply covers_Some. by apply negb_true_iff in Estale. }
  destruct (lock_run c n kind key (e_lockTTL e) Hc) as (rel & err & c1 & El & Hv1 & Hi1 & Hrel).
  run_bind El.
  destruct (get_run c1 n key Hi1 Hk) as (c2 & Eg & Hv2 & Hi2).
  fold kind in Eg. run_bind Eg. rewrite Hv1.
  assert (bool_decide (is_Some (view c !! (kind, key))) &&
    match view c !! (kind, key) with
    | Some r => negb (Newer (version l) (version r)) | None => false end = false) as ->.
  { rewrite Estale. apply andb_false_r. }
  assert (newer_than (version l) (view c !! (kind, key))) as Hnew.
  { unfold newer_than. destruct (view c !! (kind, key)); [by apply negb_false_iff in Estale|done]. }
  destruct (put_run c2 n l Hi2 Hlk ltac:(by rewrite Hkey) ltac:(by rewrite Hv2, Hv1, Hlk, Hkey)) as (c3 & Ep & Hv3 & Hi3).
  destruct (emit_quiet (mkEvent PublishTotal [kind] Inc) c3 n Hn) as (u & n' & Eq & Hn' & Hs').
  unfold mbind at 1, M_bind at 1. unfold mbind at 1, M_bind at 1. rewrite Ep, Eq.
  assert (view c3 = publish kind key (Some l) (view c)) as Hv.
  { rewrite Hv3, Hv2, Hv1. by rewrite publish_newer. }
  destruct err as [er|]; [by exists c3, n'|].
  destruct rel as [f|]; [|by exists c3, n'].
  destruct (Hrel f c3 n' eq_refl Hi3) as (c4 & E4 & Hv4 & Hi4).
  exists c4, n'. rewrite E4, Hv4. done.
Qed.

Let kind := p_Kind p.
Let idx := index_by_key L.

Lemma local_ok key l : idx !! key = Some l → Kind l = kind ∧ Key l = key ∧ rec_ok l.
Proof. intros [Hkey Hin]%index_by_key_Some. apply HL in Hin. naive_solver. Qed.

(** The winner of a key is well formed: it is stored under its own key. *)
Lemma best_ok c n key r :
  good c n → pickNewer (idx !! key) (view c !! (kind, key)) = Some r → Key r = key ∧ rec_ok r.
Proof.
  intros (Hc & _ & Hok) Hr.
  destruct (pickNewer_one_of (idx !! key) (view c !! (kind, key))) as [E|E]; rewrite E in Hr.
  - apply local_ok in Hr. naive_solver.
  - split; [by apply (kv_view_wf c kind key r Hc Hr)|by apply (Hok key)].
Qed.

Lemma apply_run c n r : pinv n → rec_ok r → ∃ b n',
  p_Apply (lift_provider p) r (c, n) = (b, None, (c, n')) ∧ pinv n' ∧ shows n' r
  ∧ ∀ r', rec_ok r' → Key r' ≠ Key r → shows n r' → shows n' r'.
Proof.
  intros Hn Hr. destruct (p_apply_law n r Hn Hr) as (b & n' & E & H).
  exists b, n'. unfold lift_provider, lift_snd. simpl. by rewrite E.
Qed.

Lemma applied_quiet key :
  quiet (with_metrics e (λ emit,
    _ ← emit (mkEvent ApplyTotal [kind] Inc);
    t ← e_now e;
    emit (mkEvent AppliedTS [kind; key] (SetTo (t / second))))).
Proof.
  apply quiet_with_metrics. intros emit Hemit.
  apply quiet_bind; [by apply Hmetrics|]. intros _.
  apply quiet_bind; [done|]. intros t. by apply Hmetrics.
Qed.

(** One iteration of the loop: the entry is joined with the local record and
    the node serves the result. *)
Lemma tickKey_spec c n changed key :
  good c n → key_ok key → ∃ changed' c' n',
  tickKey e (lift_provider p) kind idx changed key (c, n) = (changed', (c', n'))
  ∧ view c' = publish kind key (idx !! key) (view c) ∧ good c' n'
  ∧ (∀ r, view c' !! (kind, key) = Some r → shows n' r)
  ∧ (∀ r, rec_ok r → Key r ≠ key → shows n r → shows n' r).
Proof.
  intros Hgood Hk. pose proof Hgood as (Hc & Hn & Hok). unfold tickKey.
  destruct (get_run c n key Hc Hk) as (c1 & Eg & Hv1 & Hi1). fold kind in Eg.
  unfold mbind at 1, M_bind at 1. rewrite Eg.
  destruct (maybePublish_spec c1 n key (idx !! key) Hi1 Hn Hk) as (c2 & n2 & Em & Hv2 & Hi2 & Hn2 & Hs2).
  { intros l Hl. apply local_ok in Hl. naive_solver. }
  rewrite Hv1 in Em, Hv2. unfold kind in *. unfold mbind at 1, M_bind at 1. rewrite Em.
  pose proof (publish_eq (p_Kind p) key (idx !! key) (view c)) as Hentry. rewrite <-Hv2 in Hentry.
  assert (∀ n', pinv n' → good c2 n') as Hgood2.
  { intros n' Hn'. split_and!; [done|done|]. intros k r. rewrite Hv2.
    destruct (decide (k = key)) as [->|Hne].
    - rewrite publish_eq. intros Hr. by apply (best_ok c n key r).
    - rewrite publish_ne by congruence. apply Hok. }
  destruct (pickNewer (idx !! key) (view c !! (p_Kind p, key))) as [best|] eqn:Ebest.
  - destruct (best_ok c n key best Hgood Ebest) as [Hbk Hbok].
    destruct (apply_run c2 n2 best Hn2 Hbok) as (b & n3 & Ea & Hn3 & Hs3 & Hf3).
    unfold mbind at 1, M_bind at 1. rewrite Ea. simpl. destruct b.
    + destruct (applied_quiet key c2 n3 Hn3) as (u & n4 & Eq & Hn4 & Hs4).
      unfold mbind at 1, M_bind at 1. unfold kind in Eq. rewrite Eq.
      exists (changed ++ [key]), c2, n4. split_and!; auto.
      * intros r Hr. apply Hs4. rewrite Hentry in Hr. by simplify_eq.
      * intros r Hr Hne Hsh. apply Hs4, Hf3; [done|congruence|]. by apply Hs2.
    + exists changed, c2, n3. split_and!; auto.
      * intros r Hr. rewrite Hentry in Hr. by simplify_eq.
      * intros r Hr Hne Hsh. apply Hf3; [done|congruence|]. by apply Hs2.
  - exists changed, c2, n2. split_and!; auto. intros r Hr. congruence.
Qed.

(** The view after the keys [ks] have been handled. *)
Definition publish_all (ks : list string) (v : gmap (string * string) Record_) :=
  foldl (λ v k, publish kind k (idx !! k) v) v ks.

Lemma publish_all_lookup ks v key :
  publish_all ks v !! (kind, key)
  = if decide (key ∈ ks) then pickNewer (idx !! key) (v !! (kind, key)) else v !! (kind, key).
Proof.
  revert v. induction ks as [|k ks IH]; intros v.
  { case_decide as H; [by apply elem_of_nil in H|done]. }
  change (publish_all (k :: ks) v) with (publish_all ks (publish kind k (idx !! k) v)).
  rewrite IH. destruct (decide (key = k)) as [->|Hne].
  - rewrite publish_eq. rewrite (decide_True (P := k ∈ k :: ks)) by left.
    case_decide; [apply pickNewer_absorb|done].
  - rewrite publish_ne by congruence. apply decide_ext. rewrite elem_of_cons. naive_solver.
Qed.

Lemma publish_all_other ks v k key : k ≠ kind → publish_all ks v !! (k, key) = v !! (k, key).
Proof.
  intros Hne. revert v. induction ks as [|k' ks IH]; intros v; simpl; [done|].
  rewrite IH. apply publish_ne. congruence.
Qed.

(** The whole loop. *)
Lemma tick_loop_spec c n ks :
  good c n → NoDup ks → (∀ k, k ∈ ks → key_ok k) → ∃ changed c' n',
  foldM (tickKey e (lift_provider p) kind idx) [] ks (c, n) = (changed, (c', n'))
  ∧ view c' = publish_all ks (view c) ∧ good c' n'
  ∧ ∀ k r, k ∈ ks → view c' !! (kind, k) = Some r → shows n' r.
Proof.
  intros Hgood Hnd Hks.
  pose proof (foldM_inv (tickKey e (lift_provider p) kind idx)
    (λ done _ w, view w.1 = publish_all done (view c) ∧ good w.1 w.2 ∧
       ∀ k r, k ∈ done → view w.1 !! (kind, k) = Some r → shows w.2 r) ks) as Hinv.
  lapply Hinv; [clear Hinv; intros Hinv|].
  { specialize (Hinv [] (c, n)). destruct (foldM (tickKey e (lift_provider p) kind idx) [] ks (c, n)) as [changed [c' n']] eqn:E.
    exists changed, c', n'. split; [done|]. apply Hinv. split_and!; [done|done|].
    by intros k r ?%elem_of_nil. }
  intros done changed key todo [c1 n1] Heq (Hv & Hg & Hsh); simpl in *.
  rewrite Heq in Hnd. destruct (NoDup_mid _ _ _ Hnd) as [Hnot _].
  destruct (tickKey_spec c1 n1 changed key Hg) as (changed' & c2 & n2 & E & Hv2 & Hg2 & Hs2 & Hf2).
  { apply Hks. rewrite Heq. apply elem_of_app. right. left. }
  rewrite E; simpl. split_and!; [|done|].
  - unfold publish_all. rewrite foldl_app. simpl. rewrite Hv2. by rewrite Hv.
  - intros k r [Hk| ->]%elem_of_snoc Hr; [|by apply Hs2].
    assert (k ≠ key) as Hne by (by intros ->).
    assert (view c1 !! (kind, k) = Some r) as Hr1.
    { rewrite Hv2 in Hr. by rewrite publish_ne in Hr by congruence. }
    destruct Hg as (Hi1 & _ & Hok1). apply Hf2; [by apply (Hok1 k)|..|by apply (Hsh k)].
    destruct (kv_view_wf c1 kind k r Hi1 Hr1) as (_ & -> & _). done.
Qed.

(** The keys handled by a tick are those of the local records and those of the
    cluster, each once. *)
Lemma gatherKeys_spec range c n :
  range_ok range → good c n → ∃ ks c' n',
  gatherKeys range e (lift_provider p) kind (c, n) = (idx, ks, (c', n'))
  ∧ view c' = view c ∧ good c' n' ∧ keeps n n' ∧ NoDup ks
  ∧ ∀ k, k ∈ ks ↔ is_Some (idx !! k) ∨ is_Some (view c !! (kind, k)).
Proof.
  intros Hrange (Hc & Hn & Hok). unfold gatherKeys.
  destruct (p_local_law n Hn) as (n' & El & Hn' & Hs').
  assert (p_Local (lift_provider p) (c, n) = (L, None, (c, n'))) as El'.
  { unfold lift_provider, lift_snd. simpl. by rewrite El. }
  unfold mbind at 1, M_bind at 1. rewrite El'.
  destruct (kv_keys_law c kind Hc Hkind) as (ck & c' & Ek & Hck & Hv' & Hi').
  assert (kv_Keys (e_cl e) kind (c, n') = (ck, None, (c', n'))) as Ek'.
  { rewrite Hcl. unfold lift_kv, lift_fst. simpl. by rewrite Ek. }
  unfold mbind at 1, M_bind at 1. rewrite Ek'.
  destruct (foldl_add_key _ (range (index_by_key L)) acc_wf_empty) as [Hwf1 Hin1].
  destruct (foldl_add_key _ ck Hwf1) as [[Hnd2 Hwf2] Hin2].
  eexists _, c', n'. split; [done|]. split_and!; try done.
  - split_and!; [done|done|]. intros k r. rewrite Hv'. apply Hok.
  - intros k. rewrite Hin2, Hin1, Hck. destruct (Hrange (index_by_key L)) as [_ Hr].
    rewrite Hr. simpl. rewrite elem_of_nil. naive_solver.
Qed.

Lemma flush_run c n changed : pinv n → ∃ n',
  flushChanged e (lift_provider p) kind changed (c, n) = (tt, (c, n')) ∧ keeps n n'.
Proof.
  intros Hn. unfold flushChanged. destruct changed as [|x changed]; [exists n; by split|].
  destruct (p_flush_law n Hn) as (n' & E & Hn' & Hs'). exists n'.
  unfold_M. unfold lift_provider, lift_snd. simpl. rewrite E. by split.
Qed.

(** The cluster's entries are at least as new as the local records, and the
    node serves them. *)
Definition settled c n : Prop :=
  ∀ k, covers (view c !! (kind, k)) (idx !! k) ∧ ∀ r, view c !! (kind, k) = Some r → shows n r.

(** tickProvider up to the Flush: when it started, and the keys that changed. *)
Definition until_flush (range : gmap string Record_ → list string) : M (C * N) (Z * list string) :=
  start ← e_now e;
  '(localByKey, keys) ← gatherKeys range e (lift_provider p) kind;
  changed ← foldM (tickKey e (lift_provider p) kind localByKey) [] keys;
  mret (start, changed).

Lemma tickProvider_until range w :
  tickProvider range e (lift_provider p) w =
  (let '((start, changed), w') := until_flush range w in
   (_ ← flushChanged e (lift_provider p) kind changed;
    with_metrics e (λ emit, t ← e_now e; emit (mkEvent ReconcileDur [kind] (Observe (t - start))))) w').
Proof.
  unfold tickProvider, until_flush. change (p_Kind (lift_provider p)) with kind. unfold_M.
  destruct (e_now e w) as [t w1]. destruct (gatherKeys range e (lift_provider p) kind w1) as [[ix ks] w2].
  by destruct (foldM (tickKey e (lift_provider p) kind ix) [] ks w2) as [changed w3].
Qed.

(** Only keys of the loop are reported as changed. *)
Lemma tick_loop_changed ix ks w :
  let '(changed, _) := foldM (tickKey e (lift_provider p) kind ix) [] ks w in ∀ k, k ∈ changed → k ∈ ks.
Proof.
  assert (∀ acc, let '(changed, _) := foldM (tickKey e (lift_provider p) kind ix) acc ks w in
    ∀ k, k ∈ changed → k ∈ acc ∨ k ∈ ks) as H.
  { revert w. induction ks as [|key ks IH]; intros w acc; [by left|]. rewrite foldM_cons.
    assert (let '(acc', _) := tickKey e (lift_provider p) kind ix acc key w in acc' = acc ∨ acc' = acc ++ [key]) as Hk.
    { unfold tickKey. unfold_M. destruct (kv_Get (e_cl e) kind key w) as [[[c ?] ?] w1].
      destruct (maybePublish e kind key (ix !! key) c w1) as [[] w2].
      destruct (pickNewer (ix !! key) c) as [best|]; [|by left].
      destruct (p_Apply (lift_provider p) best w2) as [[[] [er|]] w3]; try (by left).
      destruct (with_metrics e _ w3) as [[] w4]. by right. }
    destruct (tickKey e (lift_provider p) kind ix acc key w) as [acc' w']. specialize (IH w' acc').
    destruct (foldM (tickKey e (lift_provider p) kind ix) acc' ks w') as [changed w2].
    intros k Hin. destruct (IH k Hin) as [Ha|Ha]; [|right; by right].
    destruct Hk as [->| ->]; [by left|]. apply elem_of_snoc in Ha as [?| ->]; [by left|right; left]. }
  specialize (H []). destruct (foldM (tickKey e (lift_provider p) kind ix) [] ks w) as [changed w'].
  intros k Hk. by destruct (H k Hk) as [?%elem_of_nil|?].
Qed.

(** The first part of a tick joins every entry of the kind with the local
    record of its key, and leaves the node settled. *)
Lemma until_flush_spec range c n :
  range_ok range → good c n → ∃ start changed c' n',
  until_flush range (c, n) = ((start, changed), (c', n')) ∧ good c' n' ∧ settled c' n'
  ∧ (∀ k, view c' !! (kind, k) = pickNewer (idx !! k) (view c !! (kind, k)))
  ∧ (∀ k' k, k' ≠ kind → view c' !! (k', k) = view c !! (k', k))
  ∧ (∀ k, k ∈ changed → is_Some (view c' !! (kind, k))).
Proof.
  intros Hrange Hgood. pose proof Hgood as (Hc & Hn & Hok). unfold until_flush.
  destruct (Hnow c n Hn) as (t & n1 & E1 & Hn1 & Hs1). run_bind E1.
  destruct (gatherKeys_spec range c n1 Hrange ltac:(by split)) as (ks & c2 & n2 & E2 & Hv2 & Hg2 & Hk2 & Hnd & Hks).
  run_bind E2.
  destruct (tick_loop_spec c2 n2 ks Hg2 Hnd) as (changed & c3 & n3 & E3 & Hv3 & Hg3 & Hs3).
  { intros k [[l Hl]|[r Hr]]%Hks.
    - apply index_by_key_Some in Hl as [<- Hin]. by apply HL.
    - destruct (kv_view_wf c kind k r Hc Hr) as (_ & _ & ?). done. }
  run_bind E3.
  assert (∀ k, view c3 !! (kind, k) = pickNewer (idx !! k) (view c !! (kind, k))) as Hjoin.
  { intros k. rewrite Hv3, publish_all_lookup, Hv2. case_decide as Hk; [done|].
    rewrite Hks in Hk. destruct (idx !! k) eqn:Ei; [naive_solver|done]. }
  pose proof (tick_loop_changed idx ks (c2, n2)) as Hch. rewrite E3 in Hch.
  exists t, changed, c3, n3. split_and!; [done|done| |done| |].
  - intros k. split; [rewrite Hjoin; apply pickNewer_covers_l|]. intros r Hr. apply (Hs3 k); [|done].
    apply Hks. rewrite Hjoin in Hr. destruct (idx !! k); [by left; eauto|right; eauto].
  - intros k' k Hne. rewrite Hv3, Hv2. by apply publish_all_other.
  - intros k [Hl|Hr]%Hch%Hks; rewrite Hjoin; destruct (idx !! k) as [l|], (view c !! (kind, k)) as [r|];
      try (by destruct Hl); try (by destruct Hr); unfold pickNewer; try destruct (Newer _ _); eauto.
Qed.

(** A tick joins every entry of the kind with the local record of its key, and
    leaves the node serving every entry. *)
Lemma tickProvider_spec range c n :
  range_ok range → good c n → ∃ c' n',
  tickProvider range e (lift_provider p) (c, n) = (tt, (c', n')) ∧ good c' n'
  ∧ (∀ k, view c' !! (kind, k) = pickNewer (idx !! k) (view c !! (kind, k)))
  ∧ (∀ k' k, k' ≠ kind → view c' !! (k', k) = view c !! (k', k))
  ∧ (∀ k r, view c' !! (kind, k) = Some r → shows n' r).
Proof.
  intros Hrange Hgood. rewrite tickProvider_until.
  destruct (until_flush_spec range c n Hrange Hgood) as (t & changed & c3 & n3 & -> & (Hc3 & Hn3 & Hok3) & Hset & Hjoin & Hother & _).
  destruct (flush_run c3 n3 changed Hn3) as (n4 & E4 & Hn4 & Hs4). run_bind E4.
  assert (quiet (with_metrics e (λ emit, t' ← e_now e; emit (mkEvent ReconcileDur [kind] (Observe (t' - t)))))) as Hq.
  { apply quiet_with_metrics. intros emit Hemit. apply quiet_bind; [done|]. intros t'. by apply Hmetrics. }
  destruct (Hq c3 n4 Hn4) as ([] & n5 & E5 & Hn5 & Hs5).
  exists c3, n5. rewrite E5. split_and!; [done|by split_and!|done|done|]. intros k r Hr. apply Hs5, Hs4. by apply (Hset k).
Qed.

(** ** A settled key costs nothing *)

Lemma tickKey_settled c n changed key :
  good c n → key_ok key → settled c n → ∃ c',
  tickKey e (lift_provider p) kind idx changed key (c, n) = (changed, (c', n))
  ∧ view c' = view c ∧ inv c'.
Proof.
  intros Hgood Hk Hset. pose proof Hgood as (Hc & Hn & Hok). destruct (Hset key) as [Hcov Hsh].
  unfold tickKey. destruct (get_run c n key Hc Hk) as (c1 & Eg & Hv1 & Hi1). fold kind in Eg.
  unfold mbind at 1, M_bind at 1. rewrite Eg.
  assert (maybePublish e kind key (idx !! key) (view c !! (kind, key)) (c1, n) = (tt, (c1, n))) as Em.
  { destruct (idx !! key) as [l|]; [|done]. destruct Hcov as (r & Hr & Hle).
    unfold maybePublish. rewrite Hr. unfold at_least in Hle. by rewrite Hle. }
  unfold mbind at 1, M_bind at 1. rewrite Em, (pickNewer_covered _ _ Hcov).
  exists c1. split; [|done]. destruct (view c !! (kind, key)) as [r|] eqn:Er; [|done].
  assert (p_Apply (lift_provider p) r (c1, n) = (false, None, (c1, n))) as Ea.
  { unfold lift_provider, lift_snd. simpl. rewrite p_apply_again; [done|done| |by apply Hsh].
    by apply (Hok key). }
  unfold mbind at 1, M_bind at 1. by rewrite Ea.
Qed.

(** On a settled node the loop reports no change, so the hook is not run. *)
Lemma tick_loop_settled c n ks :
  good c n → (∀ k, k ∈ ks → key_ok k) → settled c n → ∃ c',
  foldM (tickKey e (lift_provider p) kind idx) [] ks (c, n) = ([], (c', n))
  ∧ view c' = view c ∧ inv c'.
Proof.
  revert c. induction ks as [|k ks IH]; intros c Hgood Hks Hset; [exists c; by destruct Hgood|].
  rewrite foldM_cons.
  destruct (tickKey_settled c n [] k Hgood) as (c1 & -> & Hv1 & Hi1); [apply Hks; left|done|].
  destruct (IH c1) as (c2 & -> & Hv2 & Hi2).
  - destruct Hgood as (_ & Hn & Hok). split_and!; [done|done|]. by rewrite Hv1.
  - intros k' Hk'. apply Hks. by right.
  - intros k'. rewrite Hv1. apply Hset.
  - exists c2. by rewrite Hv2, Hv1.
Qed.

(** A command that only moves the node along [R]. *)
Definition calmly {A} (R : relation N) (c : M (C * N) A) : Prop :=
  ∀ cs n, pinv n → ∃ a n', c (cs, n) = (a, (cs, n')) ∧ R n n'.

Lemma settled_keeps c n n' : keeps n n' → settled c n → settled c n'.
Proof. intros [_ Hs] Hset k. destruct (Hset k) as [H1 H2]. split; [done|]. intros r Hr. by apply Hs, H2. Qed.

Lemma settled_view c c' n : view c' = view c → settled c n → settled c' n.
Proof. intros Hv Hset k. rewrite Hv. apply Hset. Qed.

(** What a relation on nodes must allow for a tick that changes nothing. *)
Definition calm_parts (R : relation N) : Prop :=
  calmly R (e_now e) ∧ (∀ emit, e_metrics e = Some emit → ∀ ev, calmly R (emit ev))
  ∧ ∀ n1 x n2, pinv n1 → p_Local p n1 = (x, n2) → R n1 n2.

(** On a settled node a tick up to the Flush leaves every entry alone, reports
    no change, and what it does to the node is what reading the clock and Local
    do. *)
Lemma until_flush_settled (R : relation N) `{!PreOrder R} range c n :
  calm_parts R → range_ok range → good c n → settled c n → ∃ t c' n',
  until_flush range (c, n) = ((t, []), (c', n')) ∧ view c' = view c ∧ inv c' ∧ R n n' ∧ keeps n n'.
Proof.
  intros (HRnow & _ & HRlocal) Hrange Hgood Hset. pose proof Hgood as (Hc & Hn & Hok). unfold until_flush.
  destruct (Hnow c n Hn) as (t & n1 & E1 & Hk1). destruct (HRnow c n Hn) as (t' & n1' & E1' & HR1).
  rewrite E1 in E1'. injection E1' as <- <-. run_bind E1.
  destruct (gatherKeys_spec range c n1 Hrange) as (ks & c2 & n2 & E2 & Hv2 & Hg2 & Hk2 & Hnd & Hks).
  { by split_and!; [|apply Hk1|]. }
  assert (R n1 n2) as HR2.
  { unfold gatherKeys in E2. destruct (p_Local p n1) as [x n2'] eqn:El.
    assert (p_Local (lift_provider p) (c, n1) = (x, (c, n2'))) as El'
      by (unfold lift_provider, lift_snd; simpl; by rewrite El).
    rewrite (bind_run _ _ _ _ _ El') in E2. destruct x as [locals err].
    destruct (kv_keys_law c kind Hc Hkind) as (ck & c2' & Ek & _).
    assert (kv_Keys (e_cl e) kind (c, n2') = (ck, None, (c2', n2'))) as Ek'
      by (rewrite Hcl; unfold lift_kv, lift_fst; simpl; by rewrite Ek).
    rewrite (bind_run _ _ _ _ _ Ek') in E2. unfold mret, M_ret in E2. injection E2 as _ _ _ <-. eapply HRlocal; [|exact El]. apply Hk1. }
  run_bind E2. assert (settled c2 n2) as Hset2.
  { apply (settled_view c); [done|]. eapply settled_keeps; [exact Hk2|].
    eapply settled_keeps; [exact Hk1|done]. }
  destruct (tick_loop_settled c2 n2 ks Hg2) as (c3 & E3 & Hv3 & Hi3); [|done|].
  { intros k [[l Hl]|[r Hr]]%Hks.
    - apply index_by_key_Some in Hl as [<- Hin]. by apply HL.
    - destruct (kv_view_wf c kind k r Hc Hr) as (_ & _ & ?). done. }
  run_bind E3. exists t, c3, n2. split_and!; [done|congruence|done|by etransitivity|by apply (keeps_trans n n1)].
Qed.

(** The update of the duration at the end of a tick. *)
Lemma duration_calm (R : relation N) `{!PreOrder R} t c n :
  calm_parts R → pinv n → ∃ n',
  with_metrics e (λ emit, t' ← e_now e; emit (mkEvent ReconcileDur [kind] (Observe (t' - t)))) (c, n) = (tt, (c, n'))
  ∧ R n n' ∧ keeps n n'.
Proof.
  intros (HRnow & HRemit & _) Hn. unfold with_metrics. destruct (e_metrics e) as [emit|] eqn:Em; [|exists n; by split_and!].
  destruct (HRnow c n Hn) as (t1 & m1 & Et & HRt). destruct (Hnow c n Hn) as (t2 & m2 & Et' & Hm2).
  rewrite Et in Et'. injection Et' as <- <-. run_bind Et.
  set (ev := mkEvent ReconcileDur [kind] (Observe (t1 - t))).
  destruct (HRemit emit eq_refl ev c m1 (proj1 Hm2)) as ([] & m3 & Ee & HRe).
  destruct (Hmetrics emit eq_refl ev c m1 (proj1 Hm2)) as (u & m4 & Ee' & Hm4). rewrite Ee in Ee'. injection Ee' as _ <-.
  exists m3. split_and!; [done|by etransitivity|by apply (keeps_trans n m1)].
Qed.

(** A tick of a settled node leaves every entry alone, and what it does to the
    node is what reading the clock, updating collectors and Local do: nothing
    is written and the hook is not run. *)
Lemma tickProvider_settled (R : relation N) `{!PreOrder R} range c n :
  calmly R (e_now e) → (∀ emit, e_metrics e = Some emit → ∀ ev, calmly R (emit ev)) →
  (∀ n1 x n2, pinv n1 → p_Local p n1 = (x, n2) → R n1 n2) →
  range_ok range → good c n → settled c n → ∃ c' n',
  tickProvider range e (lift_provider p) (c, n) = (tt, (c', n')) ∧ view c' = view c ∧ inv c' ∧ R n n'.
Proof.
  intros HRnow HRemit HRlocal Hrange Hgood Hset. assert (calm_parts R) as HR by done.
  destruct (until_flush_settled R range c n HR Hrange Hgood Hset) as (t & c' & n1 & E & Hv & Hi & HR1 & Hn1 & _).
  destruct (duration_calm R t c' n1 HR Hn1) as (n2 & E2 & HR2 & _).
  exists c', n2. rewrite tickProvider_until, E.
  assert (flushChanged e (lift_provider p) kind [] (c', n1) = (tt, (c', n1))) as E4 by done.
  run_bind E4. rewrite E2. split_and!; [done|done|done|]. by etransitivity.
Qed.
End Tick.

(** ** Clusters that misbehave *)

(** An engine whose clock and collectors are of the node: whatever the cluster
    answers, what an iteration does to it is what its Get and maybePublish do. *)
Section Iteration.
Context {C N : Type} (e : Engine (M (C * N))) (p : Provider (M N)).
Context (Hnow : ∀ c n, ∃ t n', e_now e (c, n) = (t, (c, n')))
  (Hmetrics : ∀ emit, e_metrics e = Some emit → ∀ ev c n, ∃ u n', emit ev (c, n) = (u, (c, n'))).

Lemma node_metrics ev c n : ∃ n', with_metrics e (λ emit, emit ev) (c, n) = (tt, (c, n')).
Proof.
  unfold with_metrics. destruct (e_metrics e) as [emit|]; [|by exists n].
  destruct (Hmetrics emit eq_refl ev c n) as ([] & n' & E). by exists n'.
Qed.

Lemma tickKey_cluster kind idx changed key c n r ok err c1 n1 c2 n2 :
  kv_Get (e_cl e) kind key (c, n) = (r, ok, err, (c1, n1)) →
  maybePublish e kind key (idx !! key) r (c1, n1) = (tt, (c2, n2)) →
  ∃ changed' n', tickKey e (lift_provider p) kind idx changed key (c, n) = (changed', (c2, n')).
Proof.
  intros E1 E2. unfold tickKey. run_bind E1. run_bind E2.
  destruct (pickNewer (idx !! key) r) as [best|]; [|by exists changed, n2].
  destruct (p_Apply p best n2) as [[ch er] n3] eqn:Ea.
  assert (p_Apply (lift_provider p) best (c2, n2) = (ch, er, (c2, n3))) as Ea'
    by (unfold lift_provider, lift_snd; simpl; by rewrite Ea).
  run_bind Ea'. destruct er as [?|]; [by exists changed, n3|]. destruct ch; [|by exists changed, n3].
  assert (∃ n4, with_metrics e (λ emit, _ ← emit (mkEvent ApplyTotal [kind] Inc); t ← e_now e;
    emit (mkEvent AppliedTS [kind; key] (SetTo (t / second)))) (c2, n3) = (tt, (c2, n4))) as (n4 & E4).
  { unfold with_metrics. destruct (e_metrics e) as [emit|]; [|by exists n3].
    destruct (Hmetrics emit eq_refl (mkEvent ApplyTotal [kind] Inc) c2 n3) as (u & m1 & F1). run_bind F1.
    destruct (Hnow c2 m1) as (t & m2 & F2). run_bind F2.
    destruct (Hmetrics emit eq_refl (mkEvent AppliedTS [kind; key] (SetTo (t / second))) c2 m2) as ([] & m3 & F3).
    by exists m3. }
  run_bind E4. by exists (changed ++ [key]), n4.
Qed.
End Iteration.

(** An order of map iteration that the model can run. *)
Definition sorted_range (idx : gmap string Record_) : list string := (map_to_list idx).*1.

Lemma sorted_range_ok : range_ok sorted_range.
Proof.
  intros idx. unfold sorted_range. split; [apply NoDup_fst_map_to_list|]. intros k.
  rewrite list_elem_of_fmap. split.
  - intros ([k' r] & -> & Hin). apply elem_of_map_to_list in Hin. eauto.
  - intros [r Hr]. exists (k, r). split; [done|]. by apply elem_of_map_to_list.
Qed.
