(* ===== verification/EngineTrace.v ===== *)
(** The protocol between the engine and a provider, for any cluster and any
    provider, whatever they do and whichever of their calls fail: which calls a
    tick makes, in which order, and with which arguments. *)

From S2P Require Import Prelude GoStrings Version Metrics Engine EngineSpec.

Open Scope Z_scope.

(** A call of a method of the cluster or of the provider, with its arguments
    and its results; of a lock, whether it came with a release function. *)
Inductive call :=
  | CallLocal (locals : list Record_) (err : option error)
  | CallKeys (kind : string) (keys : list string) (err : option error)
  | CallGet (kind key : string) (res : option Record_ * bool * option error)
  | CallLock (kind key : string) (ttl : Z) (res : bool * option error)
  | CallPut (r : Record_) (err : option error)
  | CallRelease (kind key : string)
  | CallApply (r : Record_) (res : bool * option error)
  | CallFlush (err : option error)
  | CallRollback (keys : list string) (err : option error).

(** ** What a tick may call *)

(** One iteration of the loop over the keys: its key and the answers to the
    calls it made (those to calls it did not make are not used). *)
Record iteration := mkIter {
  it_key : string;
  it_get : option Record_ * bool * option error;
  it_lock : bool * option error;
  it_recheck : option Record_ * bool * option error;
  it_put : option error;
  it_apply : bool * option error
}.

(** The calls of one iteration for a provider of this kind, given the local
    records by key: the cluster is asked for the key; a local record that is
    not older-or-equal to the answer is published under a lock after asking
    again; the newest of the two copies is applied. *)
Section Calls.
Context (kind : string) (ttl : Z) (idx : gmap string Record_).

(** A record the cluster already has, in this version or a newer one. *)
Definition covered (l : Record_) (c : option Record_) : bool :=
  match c with Some c => negb (Newer (version l) (version c)) | None => false end.

Definition publish_calls (i : iteration) : list call :=
  match idx !! it_key i with
  | None => []
  | Some l =>
      if covered l (it_get i).1.1 then []
      else CallLock kind (it_key i) ttl (it_lock i) :: CallGet kind (it_key i) (it_recheck i)
        :: (if (it_recheck i).1.2 && covered l (it_recheck i).1.1 then [] else [CallPut l (it_put i)])
        ++ (match it_lock i with (true, None) => [CallRelease kind (it_key i)] | _ => [] end)
  end.

(** The record applied for the key. *)
Definition it_best (i : iteration) : option Record_ := pickNewer (idx !! it_key i) (it_get i).1.1.

Definition apply_calls (i : iteration) : list call :=
  match it_best i with None => [] | Some best => [CallApply best (it_apply i)] end.

Definition it_calls (i : iteration) : list call :=
  CallGet kind (it_key i) (it_get i) :: publish_calls i ++ apply_calls i.

(** The keys whose Apply was called and reported a change without an error. *)
Definition it_changed (i : iteration) : bool :=
  match it_best i, it_apply i with Some _, (true, None) => true | _, _ => false end.

Definition changed_keys (its : list iteration) : list string := it_key <$> filter it_changed its.

Lemma changed_keys_app its1 its2 : changed_keys (its1 ++ its2) = changed_keys its1 ++ changed_keys its2.
Proof. unfold changed_keys. by rewrite filter_app, fmap_app. Qed.

Lemma changed_keys_one i : changed_keys [i] = if it_changed i then [it_key i] else [].
Proof. unfold changed_keys. rewrite filter_cons, filter_nil. by destruct (it_changed i). Qed.
End Calls.

(** The calls after the loop. *)
Definition flush_calls (keys : list string) (ferr rerr : option error) : list call :=
  match keys with
  | [] => []
  | _ => CallFlush ferr :: match ferr with None => [] | Some _ => [CallRollback keys rerr] end
  end.

(** ** What a tick calls *)

Section Trace.
Context {W : Type}.

(** The cluster and the provider with a log of their calls. *)
Definition log_call {A} (m : M W A) (ev : A → call) : M (W * list call) A := λ w,
  let '(a, w') := m w.1 in (a, (w', w.2 ++ [ev a])).

Definition logged (p : Provider (M W)) : Provider (M (W * list call)) :=
  {| p_Kind := p_Kind p;
     p_Local := log_call (p_Local p) (λ res, CallLocal res.1 res.2);
     p_Apply r := log_call (p_Apply p r) (CallApply r);
     p_Flush := log_call (p_Flush p) CallFlush;
     p_Rollback keys := log_call (p_Rollback p keys) (CallRollback keys) |}.

Definition logged_kv (cl : ClusterKV (M W)) : ClusterKV (M (W * list call)) :=
  {| kv_Get kind key := log_call (kv_Get cl kind key) (CallGet kind key);
     kv_Put r := log_call (kv_Put cl r) (CallPut r);
     kv_Keys kind := log_call (kv_Keys cl kind) (λ res, CallKeys kind res.1 res.2);
     kv_Lock kind key ttl :=
       '(rel, err) ← log_call (kv_Lock cl kind key ttl)
         (λ res, CallLock kind key ttl (bool_decide (is_Some res.1), res.2));
       mret ((λ f, log_call f (λ _, CallRelease kind key)) <$> (rel : option (M W unit)), err);
     kv_Members := lift_fst (kv_Members cl) |}.

(** The engine in a world with a log, which it does not see. *)
Definition with_log (e : Engine (M W)) : Engine (M (W * list call)) :=
  {| e_cl := logged_kv (e_cl e);
     e_providers := logged <$> e_providers e;
     e_interval := e_interval e;
     e_lockTTL := e_lockTTL e;
     e_metrics := (λ emit ev, lift_fst (emit ev)) <$> e_metrics e;
     e_now := lift_fst (e_now e) |}.

Lemma log_call_run {A} (m : M W A) ev w l : ∃ a w', log_call m ev (w, l) = (a, (w', l ++ [ev a])).
Proof. unfold log_call. simpl. destruct (m w) as [a w']. by exists a, w'. Qed.

(** A command that does not write to the log. *)
Definition silent {A} (c : M (W * list call) A) : Prop := ∀ w l, ∃ a w', c (w, l) = (a, (w', l)).

Lemma silent_lift {A} (c : M W A) : silent (lift_fst c).
Proof. intros w l. unfold lift_fst. simpl. destruct (c w) as [a w']. by exists a, w'. Qed.

Lemma silent_ret {A} (a : A) : silent (mret a).
Proof. intros w l. by exists a, w. Qed.

Lemma silent_bind {A B} (c : M (W * list call) A) (f : A → M (W * list call) B) :
  silent c → (∀ a, silent (f a)) → silent (c ≫= f).
Proof.
  intros Hc Hf w l. destruct (Hc w l) as (a & w1 & E). rewrite (bind_run _ _ _ _ _ E). apply Hf.
Qed.

Context (e : Engine (M W)) (p : Provider (M W)).
Let e' := with_log e.
Let p' := logged p.
Let kind := p_Kind p.

Lemma silent_metrics body :
  (∀ emit, silent (body (λ ev, lift_fst (emit ev)))) → silent (with_metrics e' body).
Proof.
  intros H. unfold with_metrics. simpl. destruct (e_metrics e) as [emit|]; [apply H|apply silent_ret].
Qed.

Lemma silent_emit ev : silent (with_metrics e' (λ emit, emit ev)).
Proof. apply silent_metrics. intros emit. apply silent_lift. Qed.

Lemma get_logged k w l : ∃ res w', kv_Get (e_cl e') kind k (w, l) = (res, (w', l ++ [CallGet kind k res])).
Proof. apply (log_call_run (kv_Get (e_cl e) kind k)). Qed.

Lemma put_logged r w l : ∃ err w', kv_Put (e_cl e') r (w, l) = (err, (w', l ++ [CallPut r err])).
Proof. apply (log_call_run (kv_Put (e_cl e) r)). Qed.

(** A lock: what comes after it ends with its release, if there is one. *)
Lemma lock_logged k ttl w l : ∃ rel err w',
  kv_Lock (e_cl e') kind k ttl (w, l)
    = (rel, err, (w', l ++ [CallLock kind k ttl (bool_decide (is_Some rel), err)]))
  ∧ ∀ w l, ∃ w', match err, rel with None, Some f => f | _, _ => mret tt end (w, l)
      = (tt, (w', l ++ match bool_decide (is_Some rel), err with
                        | true, None => [CallRelease kind k]
                        | _, _ => []
                        end)).
Proof.
  simpl. unfold mbind, M_bind, log_call, mret, M_ret. simpl.
  destruct (kv_Lock (e_cl e) kind k ttl w) as [[rel err] w1].
  exists ((λ f, log_call f (λ _, CallRelease kind k)) <$> rel), err, w1.
  destruct rel as [f|]; (split; [done|]); intros w2 l2; simpl.
  - destruct err; [exists w2; by rewrite app_nil_r|]. destruct (log_call_run f (λ _, CallRelease kind k) w2 l2)
      as ([] & w3 & E). by exists w3.
  - exists w2. rewrite app_nil_r. by destruct err.
Qed.

(** The publication of one key. *)
Lemma maybePublish_trace idx k get w l : ∃ lock recheck put w',
  ∀ apply, maybePublish e' kind k (idx !! k) get.1.1 (w, l)
    = (tt, (w', l ++ publish_calls kind (e_lockTTL e) idx (mkIter k get lock recheck put apply))).
Proof.
  unfold maybePublish, publish_calls. simpl. destruct (idx !! k) as [r|].
  2: { exists (false, None), (None, false, None), None, w. intros _. by rewrite app_nil_r. }
  change (match get.1.1 with Some c => negb (Newer (version r) (version c)) | None => false end)
    with (covered r get.1.1).
  destruct (covered r get.1.1).
  { exists (false, None), (None, false, None), None, w. intros _. by rewrite app_nil_r. }
  destruct (lock_logged k (e_lockTTL e) w l) as (rel & err & w1 & E1 & Hrel). run_bind E1.
  destruct (get_logged k w1 (l ++ [CallLock kind k (e_lockTTL e) (bool_decide (is_Some rel), err)]))
    as ([[cur ok] gerr] & w2 & E2). run_bind E2.
  change (match cur with Some c => negb (Newer (version r) (version c)) | None => false end)
    with (covered r cur).
  set (l2 := (l ++ _) ++ _).
  assert (∃ put w3, (if ok && covered r cur then mret tt
      else err ← kv_Put (e_cl e') r;
           match err with
           | Some _ => mret tt
           | None => with_metrics e' (λ emit, emit (mkEvent PublishTotal [kind] Inc))
           end) (w2, l2) = (tt, (w3, l2 ++ if ok && covered r cur then [] else [CallPut r put])))
    as (put & w3 & E3).
  { destruct (ok && covered r cur); [exists None, w2; by rewrite app_nil_r|].
    destruct (put_logged r w2 l2) as (put & w3 & E3). run_bind E3.
    destruct put as [pe|]; [by exists (Some pe), w3|].
    destruct (silent_emit (mkEvent PublishTotal [kind] Inc) w3 (l2 ++ [CallPut r None])) as ([] & w4 & E4).
    exists None, w4. done. }
  run_bind E3. destruct (Hrel w3 (l2 ++ if ok && covered r cur then [] else [CallPut r put])) as (w4 & E4).
  exists (bool_decide (is_Some rel), err), (cur, ok, gerr), put, w4. intros _. rewrite E4. subst l2. simpl.
  by rewrite <-!app_assoc.
Qed.

(** One iteration. *)
Lemma tickKey_trace idx changed k w l : ∃ i w',
  tickKey e' p' kind idx changed k (w, l)
    = (changed ++ changed_keys idx [i], (w', l ++ it_calls kind (e_lockTTL e) idx i)) ∧ it_key i = k.
Proof.
  unfold tickKey. destruct (get_logged k w l) as ([[c ok] gerr] & w1 & E). run_bind E.
  set (get := (c, ok, gerr)).
  destruct (maybePublish_trace idx k get w1 (l ++ [CallGet kind k get])) as (lock & rc & put & w2 & E2).
  set (it := mkIter k get lock rc put).
  enough (∃ res w', (match pickNewer (idx !! k) c with
      | None => mret changed
      | Some best =>
          '(didChange, err) ← p_Apply p' best;
          match err with
          | Some _ => mret changed
          | None => if didChange : bool then
              _ ← with_metrics e' (λ emit, _ ← emit (mkEvent ApplyTotal [kind] Inc); t ← e_now e';
                    emit (mkEvent AppliedTS [kind; k] (SetTo (t / second))));
              mret (changed ++ [k]) else mret changed
          end
      end) (w2, (l ++ [CallGet kind k get]) ++ publish_calls kind (e_lockTTL e) idx (it (false, None)))
    = (changed ++ changed_keys idx [it res], (w', ((l ++ [CallGet kind k get])
        ++ publish_calls kind (e_lockTTL e) idx (it (false, None))) ++ apply_calls idx (it res)))) as (res & w' & E3).
  { exists (it res), w'. split; [|done]. specialize (E2 (false, None)). run_bind E2. etransitivity; [exact E3|].
    unfold it_calls. by rewrite <-!app_assoc. }
  generalize ((l ++ [CallGet kind k get]) ++ publish_calls kind (e_lockTTL e) idx (it (false, None))). intros l2.
  setoid_rewrite changed_keys_one. unfold apply_calls, it_changed, it_best. simpl.
  destruct (pickNewer (idx !! k) c) as [best|]; [|exists (false, None), w2; by rewrite !app_nil_r].
  destruct (log_call_run (p_Apply p best) (CallApply best) w2 l2) as ([ch err] & w3 & E3).
  change (log_call (p_Apply p best) (CallApply best)) with (p_Apply p' best) in E3. run_bind E3.
  exists (ch, err). destruct err as [er|]; [exists w3; destruct ch; by rewrite app_nil_r|].
  destruct ch; [|exists w3; by rewrite app_nil_r].
  destruct (silent_metrics (λ emit, _ ← emit (mkEvent ApplyTotal [kind] Inc);
      t ← e_now e'; emit (mkEvent AppliedTS [kind; k] (SetTo (t / second))))
      ltac:(intros emit; repeat (apply silent_bind; [apply silent_lift|intros ?]); apply silent_lift)
      w3 (l2 ++ [CallApply best (true, None)])) as (u' & w4 & E4).
  run_bind E4. by exists w4.
Qed.

Lemma tick_loop_trace idx ks changed w l : ∃ its w',
  foldM (tickKey e' p' kind idx) changed ks (w, l)
    = (changed ++ changed_keys idx its, (w', l ++ concat (it_calls kind (e_lockTTL e) idx <$> its)))
  ∧ it_key <$> its = ks.
Proof.
  revert changed w l. induction ks as [|k ks IH]; intros changed w l.
  - exists [], w. rewrite foldM_nil. unfold changed_keys. simpl. by rewrite !app_nil_r.
  - rewrite foldM_cons. destruct (tickKey_trace idx changed k w l) as (i & w1 & -> & Hi).
    destruct (IH (changed ++ changed_keys idx [i]) w1 (l ++ it_calls kind (e_lockTTL e) idx i)) as (its & w2 & -> & H2).
    exists (i :: its), w2. rewrite (changed_keys_app idx [i] its : changed_keys idx (i :: its) = _).
    rewrite !fmap_cons. cbn [concat]. by rewrite <-!app_assoc, Hi, H2.
Qed.

Lemma gatherKeys_trace range w l : range_ok range → ∃ locals lerr cks kerr ks w',
  let idx := match lerr with None => index_by_key locals | Some _ => ∅ end in
  gatherKeys range e' p' kind (w, l) = (idx, ks, (w', l ++ [CallLocal locals lerr; CallKeys kind cks kerr]))
  ∧ NoDup ks ∧ ∀ k, k ∈ ks ↔ is_Some (idx !! k) ∨ kerr = None ∧ k ∈ cks.
Proof.
  intros Hr. unfold gatherKeys.
  destruct (log_call_run (p_Local p) (λ res, CallLocal res.1 res.2) w l) as ([locals lerr] & w1 & E1).
  change (log_call (p_Local p) _) with (p_Local p') in E1. run_bind E1.
  destruct (log_call_run (kv_Keys (e_cl e) kind) (λ res, CallKeys kind res.1 res.2) w1 (l ++ [CallLocal locals lerr]))
    as ([cks kerr] & w2 & E2).
  change (log_call (kv_Keys (e_cl e) kind) _) with (kv_Keys (e_cl e') kind) in E2. run_bind E2.
  set (idx := match lerr with None => _ | Some _ => _ end).
  destruct (foldl_add_key _ (range idx) acc_wf_empty) as [Hwf Hin].
  destruct (foldl_add_key _ cks Hwf) as [Hwf2 Hin2].
  eexists locals, lerr, cks, kerr, _, w2. cbv zeta. rewrite <-app_assoc. split_and!; [done| |].
  - destruct kerr; [apply Hwf|apply Hwf2].
  - intros k. destruct (Hr idx) as [_ Hk]. destruct kerr as [er|]; [|rewrite Hin2]; rewrite Hin, Hk; set_solver.
Qed.

Lemma flushChanged_trace keys w l : ∃ ferr rerr w',
  flushChanged e' p' kind keys (w, l) = (tt, (w', l ++ flush_calls keys ferr rerr)).
Proof.
  unfold flushChanged. destruct keys as [|k keys]; [exists None, None, w; simpl; by rewrite app_nil_r|].
  destruct (log_call_run (p_Flush p) CallFlush w l) as (ferr & w1 & E1).
  change (log_call (p_Flush p) CallFlush) with (p_Flush p') in E1. run_bind E1.
  destruct ferr as [fe|]; [|by exists None, None, w1].
  destruct (log_call_run (p_Rollback p (k :: keys)) (CallRollback (k :: keys)) w1 (l ++ [CallFlush (Some fe)]))
    as (rerr & w2 & E2).
  change (log_call (p_Rollback p (k :: keys)) _) with (p_Rollback p' (k :: keys)) in E2. run_bind E2.
  destruct (silent_emit (mkEvent RollbackTotal [kind] Inc) w2
    ((l ++ [CallFlush (Some fe)]) ++ [CallRollback (k :: keys) rerr])) as ([] & w3 & E3).
  rewrite E3. exists (Some fe), rerr, w3. by rewrite <-app_assoc.
Qed.

(** (C6) The protocol of a tick, for any cluster and any provider and whichever
    of their calls fail: the calls a tick makes, with their arguments, are
    determined by the answers to them. It calls Local, then Keys of its kind;
    then there is one iteration for each key that is local or, if Keys gave no
    error, the cluster's, and none for another ([it_key] is the argument of the
    Get the iteration starts with). An iteration asks the cluster for its key,
    publishes the local record under a lock after a second Get if it is newer
    ([publish_calls]) and applies the newer of the local copy and the cluster's
    ([apply_calls]). After the last one, exactly if some Apply reported a change
    without an error, the tick calls Flush once; exactly if that Flush returned
    an error it calls Rollback with the keys of those iterations, in their
    order. It makes no other calls. *)
Theorem tick_protocol range w (Hrange : range_ok range) : ∃ locals lerr cks kerr its ferr rerr w',
  let idx := match lerr with None => index_by_key locals | Some _ => ∅ end in
  tickProvider range (with_log e) (logged p) (w, [])
    = (tt, (w', CallLocal locals lerr :: CallKeys (p_Kind p) cks kerr
         :: concat (it_calls (p_Kind p) (e_lockTTL e) idx <$> its)
         ++ flush_calls (changed_keys idx its) ferr rerr))
  ∧ NoDup (it_key <$> its)
  ∧ ∀ k, k ∈ it_key <$> its ↔ is_Some (idx !! k) ∨ kerr = None ∧ k ∈ cks.
Proof.
  fold e' p' kind. unfold tickProvider. change (p_Kind p') with kind.
  destruct (silent_lift (e_now e) w []) as (t & w1 & E1).
  change (lift_fst (e_now e)) with (e_now e') in E1. run_bind E1.
  destruct (gatherKeys_trace range w1 [] Hrange) as (locals & lerr & cks & kerr & ks & w2 & E2 & Hnd & Hks).
  cbv zeta in E2, Hks. set (idx := match lerr with None => _ | Some _ => _ end) in *. run_bind E2.
  destruct (tick_loop_trace idx ks [] w2 [CallLocal locals lerr; CallKeys kind cks kerr]) as (its & w3 & E3 & Hits).
  rewrite app_nil_l in *. run_bind E3.
  destruct (flushChanged_trace (changed_keys idx its) w3 ([CallLocal locals lerr; CallKeys kind cks kerr]
    ++ concat (it_calls kind (e_lockTTL e) idx <$> its))) as (ferr & rerr & w4 & E4). run_bind E4.
  destruct (silent_metrics (λ emit, t' ← e_now e'; emit (mkEvent ReconcileDur [kind] (Observe (t' - t))))
    ltac:(intros emit; apply silent_bind; [apply silent_lift|intros ?; apply silent_lift]) w4
    (([CallLocal locals lerr; CallKeys kind cks kerr] ++ concat (it_calls kind (e_lockTTL e) idx <$> its))
      ++ flush_calls (changed_keys idx its) ferr rerr)) as ([] & w5 & E5).
  rewrite E5. exists locals, lerr, cks, kerr, its, ferr, rerr, w5. cbv zeta. fold idx. rewrite Hits. by rewrite <-app_assoc.
Qed.
End Trace.
