(* ===== verification/Interleave.v ===== *)
(** Concurrent publishing. Engines on several nodes publish to the same cluster
    at the same time; here their runs are cut into the calls of the cluster,
    and the calls of different nodes interleave in any way.

    The engine's code is the one of [Engine.v], in a monad of programs that stop
    at every call. *)

From S2P Require Import Prelude GoStrings Version Metrics Engine EngineSpec.

Open Scope Z_scope.

(** ** Programs *)

(** The calls a publishing engine makes of its cluster and its collectors. *)
Inductive request :=
  | RGet (kind key : string)
  | RPut (r : Record_)
  | RLock (kind key : string)
  | RUnlock (kind key : string)
  | REmit (ev : metric_event).

Inductive answer := ARecord (o : option Record_) | AOk | AErr (e : error).

Inductive prog (A : Type) :=
  | Done (a : A)
  | Call (q : request) (k : answer → prog A).
Arguments Done {A} a.
Arguments Call {A} q k.

Fixpoint prog_bind {A B} (f : A → prog B) (p : prog A) : prog B :=
  match p with
  | Done a => f a
  | Call q k => Call q (λ x, prog_bind f (k x))
  end.

#[export] Instance prog_mret : MRet prog := @Done.
#[export] Instance prog_mbind : MBind prog := @prog_bind.

(** The cluster as calls. *)
Definition call_Get (kind key : string) : prog (option Record_ * bool * option error) :=
  Call (RGet kind key) (λ a, Done
    match a with
    | ARecord o => (o, bool_decide (is_Some o), None)
    | AOk => (None, false, None)
    | AErr e => (None, false, Some e)
    end).

Definition call_Put (r : Record_) : prog (option error) :=
  Call (RPut r) (λ a, Done match a with AErr e => Some e | _ => None end).

Definition call_Lock (kind key : string) (_ : Z) : prog (option (prog unit) * option error) :=
  Call (RLock kind key) (λ a, Done
    match a with
    | AErr e => (None, Some e)
    | _ => (Some (Call (RUnlock kind key) (λ _, Done tt)), None)
    end).

Definition call_kv : ClusterKV prog :=
  @Build_ClusterKV prog call_Get call_Put (λ _, Done ([], None)) call_Lock (Done 0).

Definition call_engine (lockTTL : Z) : Engine prog :=
  mkEngine (m := prog) call_kv [] 0 lockTTL (Some (λ ev, Call (REmit ev) (λ _, Done tt))) (Done 0).

(** What the engine does for one key of a tick before it applies the winner:
    read the entry, then publish if the local copy is newer. *)
Definition publisher (lockTTL : Z) (l : Record_) : prog unit :=
  '(clusterR, _, _) ← kv_Get (e_cl (call_engine lockTTL)) (Kind l) (Key l);
  maybePublish (call_engine lockTTL) (Kind l) (Key l) (Some l) clusterR.

(** ** Interleaving *)

(** The entries of the cluster, the holders of its locks, and the programs. *)
Record world := mkWorld {
  w_view : gmap (string * string) Record_;
  w_locks : gmap (string * string) nat;
  w_threads : list (prog unit)
}.

(** The effect of a call; a lock that is held cannot be taken. *)
Definition exec (i : nat) (q : request) (w : world) : option (answer * world) :=
  match q with
  | RGet kind key => Some (ARecord (w_view w !! (kind, key)), w)
  | RPut r => Some (AOk, mkWorld (<[(Kind r, Key r) := r]> (w_view w)) (w_locks w) (w_threads w))
  | RLock kind key =>
      match w_locks w !! (kind, key) with
      | Some _ => None
      | None => Some (AOk, mkWorld (w_view w) (<[(kind, key) := i]> (w_locks w)) (w_threads w))
      end
  | RUnlock kind key => Some (AOk, mkWorld (w_view w) (delete (kind, key) (w_locks w)) (w_threads w))
  | REmit _ => Some (AOk, w)
  end.

Definition set_thread (i : nat) (p : prog unit) (w : world) : world :=
  mkWorld (w_view w) (w_locks w) (<[i := p]> (w_threads w)).

(** One call of one program. With [timeouts], waiting for a lock can be given
    up. *)
Inductive step (timeouts : bool) : world → world → Prop :=
  | step_call w i q k a w' :
      w_threads w !! i = Some (Call q k) → exec i q w = Some (a, w') →
      step timeouts w (set_thread i (k a) w')
  | step_timeout w i kind key k e :
      timeouts = true → w_threads w !! i = Some (Call (RLock kind key) k) →
      step timeouts w (set_thread i (k (AErr e)) w).

(** ** Where a publisher is *)

Section Publish.
Context (lockTTL : Z) (locals : list Record_).

(** The rest of the program after each of its calls. *)
Definition at_unlock (l : Record_) : prog unit := Call (RUnlock (Kind l) (Key l)) (λ _, Done tt).

Definition at_emit (l : Record_) : prog unit :=
  _ ← with_metrics (call_engine lockTTL) (λ emit, emit (mkEvent PublishTotal [Kind l] Inc)); at_unlock l.

Definition at_put (l : Record_) : prog unit :=
  _ ← (err ← call_Put l;
       match err with
       | Some _ => mret tt
       | None => with_metrics (call_engine lockTTL) (λ emit, emit (mkEvent PublishTotal [Kind l] Inc))
       end);
  at_unlock l.

Definition at_check (l : Record_) : prog unit :=
  '(cur, ok, _) ← call_Get (Kind l) (Key l);
  _ ← (if (ok : bool) && match cur with
                         | Some c => negb (Newer (version l) (version c))
                         | None => false
                         end
       then mret tt
       else err ← call_Put l;
            match err with
            | Some _ => mret tt
            | None => with_metrics (call_engine lockTTL) (λ emit, emit (mkEvent PublishTotal [Kind l] Inc))
            end);
  at_unlock l.

Implicit Types (w : world) (l : Record_) (th : prog unit).

Definition entry_of w l : option Record_ := w_view w !! (Kind l, Key l).
Definition holds_lock w (i : nat) l : Prop := w_locks w !! (Kind l, Key l) = Some i.

(** The point a publisher of [l] has reached, with what is known there. *)
Inductive stage w (i : nat) l th : Prop :=
  | stage_start : th = publisher lockTTL l → stage w i l th
  | stage_lock k : th = Call (RLock (Kind l) (Key l)) k → k AOk = at_check l → stage w i l th
  | stage_check : th = at_check l → holds_lock w i l → stage w i l th
  | stage_put : th = at_put l → holds_lock w i l → newer_than (version l) (entry_of w l) → stage w i l th
  | stage_emit : th = at_emit l → holds_lock w i l → covers (entry_of w l) (Some l) → stage w i l th
  | stage_unlock : th = at_unlock l → holds_lock w i l → covers (entry_of w l) (Some l) → stage w i l th
  | stage_done : th = Done tt → covers (entry_of w l) (Some l) → stage w i l th.

Definition all_staged w : Prop :=
  length (w_threads w) = length locals
  ∧ ∀ i l th, locals !! i = Some l → w_threads w !! i = Some th → stage w i l th.

(** What a call of program [i], which publishes [l], can do to the world: it
    touches the entry and the lock of its key only, makes the entry no older,
    and touches neither while another program holds the lock. *)
Record moved (i : nat) l w w' : Prop := {
  mv_other kk : kk ≠ (Kind l, Key l) → w_view w' !! kk = w_view w !! kk ∧ w_locks w' !! kk = w_locks w !! kk;
  mv_entry : covers (entry_of w' l) (entry_of w l);
  mv_locked j : j ≠ i → holds_lock w j l → holds_lock w' j l ∧ entry_of w' l = entry_of w l
}.

Lemma moved_refl i l w : moved i l w w.
Proof. by split. Qed.

Lemma stage_frame i l w w' j l' th : moved i l w w' → j ≠ i → stage w j l' th → stage w' j l' th.
Proof.
  intros [Ho He Hl] Hj Hs.
  assert (covers (entry_of w' l') (entry_of w l')
    ∧ (holds_lock w j l' → holds_lock w' j l' ∧ entry_of w' l' = entry_of w l')) as [Hc Hh].
  { destruct (decide ((Kind l', Key l') = (Kind l, Key l))) as [Hk|Hk].
    - unfold entry_of, holds_lock in *. rewrite Hk. split; [done|]. by apply Hl.
    - destruct (Ho _ Hk) as [Hv Hlk]. unfold entry_of, holds_lock. rewrite Hv, Hlk. done. }
  destruct Hs as [H|k H Hk|H H1|H H1 H2|H H1 H2|H H1 H2|H H1].
  - by apply stage_start.
  - by eapply stage_lock.
  - apply stage_check; [done|]. by apply Hh.
  - destruct (Hh H1) as [? E]. apply stage_put; [done|done|]. by rewrite E.
  - destruct (Hh H1) as [? E]. apply stage_emit; [done|done|]. by rewrite E.
  - destruct (Hh H1) as [? E]. apply stage_unlock; [done|done|]. by rewrite E.
  - apply stage_done; [done|]. by etransitivity.
Qed.

(** After the entry has been read, the program is done or wants the lock. *)
Lemma stage_after_read w i l :
  stage w i l (maybePublish (call_engine lockTTL) (Kind l) (Key l) (Some l) (entry_of w l)).
Proof.
  unfold maybePublish. destruct (entry_of w l) as [c|] eqn:E.
  - destruct (Newer (version l) (version c)) eqn:En; cbn [negb].
    + by eapply stage_lock.
    + apply stage_done; [done|]. rewrite E. by apply covers_Some.
  - by eapply stage_lock.
Qed.

(** A program's own call. *)
Lemma stage_own w i l q k a w' :
  stage w i l (Call q k) → exec i q w = Some (a, w') → stage w' i l (k a) ∧ moved i l w w'.
Proof.
  intros Hs Hx. destruct Hs as [H|k' H Hk|H H1|H H1 H2|H H1 H2|H H1 H2|H H1].
  - injection H as -> ->. simpl in Hx. injection Hx as <- <-. split; [apply stage_after_read|apply moved_refl].
  - injection H as -> ->. simpl in Hx. destruct (w_locks w !! (Kind l, Key l)) eqn:El; [done|].
    injection Hx as <- <-. split.
    + rewrite Hk. apply stage_check; [done|]. unfold holds_lock. simpl. apply lookup_insert_eq.
    + split; [|done|].
      * intros kk Hkk. simpl. by rewrite lookup_insert_ne.
      * intros j _ Hj. unfold holds_lock in Hj. congruence.
  - injection H as -> ->. simpl in Hx. injection Hx as <- <-. split; [|apply moved_refl].
    fold (entry_of w l). unfold newer_than. simpl. destruct (entry_of w l) as [c|] eqn:E; simpl.
    + destruct (Newer (version l) (version c)) eqn:En; simpl.
      * apply stage_put; [done|done|]. by rewrite E.
      * apply stage_unlock; [done|done|]. rewrite E. by apply covers_Some.
    + apply stage_put; [done|done|]. by rewrite E.
  - injection H as -> ->. simpl in Hx. injection Hx as <- <-.
    set (w' := mkWorld _ _ _).
    assert (entry_of w' l = Some l) as E by (unfold entry_of; simpl; apply lookup_insert_eq).
    split.
    + apply stage_emit; [done|done|]. rewrite E. by apply covers_Some, Newer_irrefl.
    + split.
      * intros kk Hkk. simpl. by rewrite lookup_insert_ne.
      * rewrite E. destruct (entry_of w l) as [c|]; [|done]. apply covers_Some, Newer_at_least. exact H2.
      * intros j Hj Hl. unfold holds_lock in *. congruence.
  - injection H as -> ->. simpl in Hx. injection Hx as <- <-. split; [|apply moved_refl].
    by apply stage_unlock.
  - injection H as -> ->. simpl in Hx. injection Hx as <- <-. split.
    + by apply stage_done.
    + split; [|done|].
      * intros kk Hkk. simpl. by rewrite lookup_delete_ne.
      * intros j Hj Hl. unfold holds_lock in *. congruence.
  - discriminate H.
Qed.

Lemma step_staged w w' :
  all_staged w → step false w w' → all_staged w' ∧ ∀ kk, covers (w_view w' !! kk) (w_view w !! kk).
Proof.
  intros [Hlen Hst] Hstep. destruct Hstep as [w i q k a w' Hth Hx|]; [|done].
  destruct (lookup_lt_is_Some_2 locals i) as [l Hl]; [rewrite <-Hlen; by eapply lookup_lt_Some|].
  destruct (stage_own w i l q k a w' (Hst i l _ Hl Hth) Hx) as [Hown Hmv].
  assert (w_threads w' = w_threads w) as Hths.
  { destruct q; simpl in Hx; try (by injection Hx as <- <-). destruct (w_locks w !! _); [done|]. by injection Hx as <- <-. }
  split.
  - split; [simpl; by rewrite length_insert, Hths|]. intros j l' th Hl' Hth'. simpl in Hth'.
    destruct (decide (j = i)) as [->|Hne].
    + rewrite list_lookup_insert_eq in Hth' by (rewrite Hths; by eapply lookup_lt_Some). simplify_eq.
      destruct Hown; by econstructor.
    + rewrite list_lookup_insert_ne, Hths in Hth' by done.
      pose proof (stage_frame i l w w' j l' th Hmv Hne (Hst j l' th Hl' Hth')) as Hs.
      destruct Hs; by econstructor.
  - intros kk. simpl. destruct (decide (kk = (Kind l, Key l))) as [->|Hne]; [apply (mv_entry _ _ _ _ Hmv)|].
    by rewrite (proj1 (mv_other _ _ _ _ Hmv kk Hne)).
Qed.

Lemma run_staged w w' :
  all_staged w → rtc (step false) w w' → all_staged w' ∧ ∀ kk, covers (w_view w' !! kk) (w_view w !! kk).
Proof.
  intros Hw Hrun. induction Hrun as [w|w w1 w' Hs Hrun IH]; [done|].
  destruct (step_staged w w1 Hw Hs) as [Hw1 H1]. destruct (IH Hw1) as [Hw' H2].
  split; [done|]. intros kk. etransitivity; [apply H2|apply H1].
Qed.

(** The world in which all publishers are about to start. *)
Definition start_world (v : gmap (string * string) Record_) : world :=
  mkWorld v ∅ (publisher lockTTL <$> locals).

Lemma start_staged v : all_staged (start_world v).
Proof.
  split; [simpl; by rewrite length_fmap|]. intros i l th Hl Hth. simpl in Hth.
  rewrite list_lookup_fmap, Hl in Hth. simplify_eq/=. by apply stage_start.
Qed.
End Publish.

(** (C3) Publishing is safe under any interleaving, as long as locks are
    exclusive and calls do not fail. Any number of nodes publish records, to
    the same or to different keys, and their calls to the cluster interleave in
    any way. At every moment every entry is at least as new as it was at the
    start, and at least as new as the record of every node that has finished:
    a newer record is never replaced by an older one. *)
Theorem concurrent_publish_safe lockTTL locals v w :
  rtc (step false) (start_world lockTTL locals v) w →
  (∀ kk, covers (w_view w !! kk) (v !! kk))
  ∧ ∀ i l, locals !! i = Some l → w_threads w !! i = Some (Done tt) →
      covers (w_view w !! (Kind l, Key l)) (Some l).
Proof.
  intros Hrun. destruct (run_staged lockTTL locals _ w (start_staged lockTTL locals v) Hrun) as [[_ Hst] Hc].
  split; [exact Hc|]. intros i l Hl Hth. by destruct (Hst i l _ Hl Hth).
Qed.

(** ** Schedules that can be run *)

(** Lets the named programs make one call each, in order; [true] gives up the
    lock the program is waiting for. *)
Fixpoint run_schedule (w : world) (sched : list (nat * bool)) : option world :=
  match sched with
  | [] => Some w
  | (i, giveup) :: sched' =>
      match w_threads w !! i with
      | Some (Call q k) =>
          if giveup : bool then
            match q with
            | RLock _ _ => run_schedule (set_thread i (k (AErr (Errors "timeout"))) w) sched'
            | _ => None
            end
          else
            match exec i q w with
            | Some (a, w') => run_schedule (set_thread i (k a) w') sched'
            | None => None
            end
      | _ => None
      end
  end.

Lemma run_schedule_steps timeouts w sched w' :
  (∀ x, x ∈ sched → x.2 = true → timeouts = true) →
  run_schedule w sched = Some w' → rtc (step timeouts) w w'.
Proof.
  revert w. induction sched as [|[i giveup] sched IH]; intros w Ht Hr; simpl in Hr; [by simplify_eq|].
  destruct (w_threads w !! i) as [[|q k]|] eqn:Hi; try done.
  assert (∀ x, x ∈ sched → x.2 = true → timeouts = true) as Ht' by (intros x Hx; apply Ht; by right).
  destruct giveup.
  - destruct q; try done. eapply rtc_l; [|by apply IH]. eapply step_timeout; [|exact Hi].
    apply (Ht (i, true)); [left|done].
  - destruct (exec i q w) as [[a w1]|] eqn:Hx; [|done]. eapply rtc_l; [|by apply IH].
    by eapply step_call.
Qed.

Definition pub (n : Z) : Record_ := mkRecord "k" "a" (mkVersion n 0 "") ∅ ∅ "".

Lemma concurrent_publish_safe_witness : ∃ w,
  rtc (step false) (start_world 0 [pub 5; pub 7] ∅) w
  ∧ w_threads w = [Done tt; Done tt]
  ∧ covers (w_view w !! ("k", "a")) (Some (pub 7)).
Proof.
  destruct (run_schedule (start_world 0 [pub 5; pub 7] ∅)
    ((λ i, (i, false)) <$> [0; 1; 1; 1; 1; 1; 1; 0; 0; 0]%nat)) as [w|] eqn:E; [|discriminate E].
  assert (rtc (step false) (start_world 0 [pub 5; pub 7] ∅) w) as Hrun.
  { apply (run_schedule_steps false) in E; [exact E|].
    intros x (i & -> & _)%list_elem_of_fmap [=]. }
  destruct (concurrent_publish_safe 0 [pub 5; pub 7] ∅ w Hrun) as [_ H].
  exists w. vm_compute in E. injection E as <-. split; [exact Hrun|]. split; [reflexivity|].
  exact (H 1%nat (pub 7) eq_refl eq_refl).
Defined.

(** (C36) A lock that cannot be had breaks this. The engine publishes all the
    same when it gives up waiting for the lock: node 0 reads the empty entry
    under the lock; node 1 gives up waiting, checks, and publishes version 7;
    then node 0 publishes version 5 over it. Both nodes are done and the older
    record is in the cluster. *)
Theorem lock_timeout_loses_update : ∃ w,
  rtc (step true) (start_world 0 [pub 5; pub 7] ∅) w
  ∧ w_threads w = [Done tt; Done tt]
  ∧ version <$> w_view w !! ("k", "a") = Some (mkVersion 5 0 "").
Proof.
  destruct (run_schedule (start_world 0 [pub 5; pub 7] ∅)
    [(0, false); (1, false); (0, false); (0, false); (1, true); (1, false); (1, false); (1, false);
     (0, false); (0, false); (0, false)]%nat) as [w|] eqn:E; [|discriminate E].
  exists w. split; [|vm_compute in E; by injection E as <-].
  by apply (run_schedule_steps true) in E.
Qed.
