(* ===== verification/Converge.v ===== *)
(** Why newest-wins replication converges, apart from what replicates what.

    A system of nodes takes steps; a step belongs to a node. What is shared is
    a map of entries, and every node has local records that do not change. The
    class [NewestWins] says that a step joins each entry with the local record
    of its node and leaves the node serving the entries. The lemmas conclude
    that two rounds of steps are enough for all nodes to serve the newest
    records, and that the entries do not change after the first. [Fleet.v] and
    [Agent.v] have instances. *)

From S2P Require Import Prelude Version.

Class NewestWins {S T K : Type} (step : S → T → S) (node : T → nat) (size : nat)
    (entry : S → K → option Record_) (local : nat → K → option Record_)
    (ok : S → Prop) (tick_ok : T → Prop) (serves : S → nat → Prop) := {
  nw_ok s t : ok s → tick_ok t → ok (step s t);
  nw_join s t k : ok s → tick_ok t → entry (step s t) k = pickNewer (local (node t) k) (entry s k);
  nw_serves s t : ok s → tick_ok t → (node t < size)%nat → serves (step s t) (node t);
  nw_frame s t j : ok s → tick_ok t → j ≠ node t →
    (∀ k, entry (step s t) k = entry s k) → serves s j → serves (step s t) j;
  nw_beyond i k : (size ≤ i)%nat → local i k = None
}.

Section Converge.
Context {S T K : Type} {step : S → T → S} {node : T → nat} {size : nat}
  {entry : S → K → option Record_} {local : nat → K → option Record_}
  {ok : S → Prop} {tick_ok : T → Prop} {serves : S → nat → Prop}
  {NW : NewestWins step node size entry local ok tick_ok serves}.
Implicit Types (s : S) (t : T) (k : K) (i : nat) (sched : list T).

Definition run s sched : S := foldl step s sched.

(** Every node takes a step. *)
Definition full_round sched : Prop := ∀ i, (i < size)%nat → ∃ t, t ∈ sched ∧ node t = i.

(** The entry of a key is the one it was, or one of the local records. *)
Definition genuine_entry (v0 : option Record_) k (o : option Record_) : Prop :=
  o = v0 ∨ ∃ i, o = local i k.

(** No node has anything newer than the entries. *)
Definition calm_state s : Prop := ∀ i k, covers (entry s k) (local i k).

Lemma step_genuine v0 s t k :
  ok s → tick_ok t → genuine_entry v0 k (entry s k) → genuine_entry v0 k (entry (step s t) k).
Proof.
  intros Hs Ht Hg. rewrite nw_join by done.
  destruct (pickNewer_one_of (local (node t) k) (entry s k)) as [->| ->]; [right; eauto|done].
Qed.

Lemma step_covers s t k :
  ok s → tick_ok t →
  covers (entry (step s t) k) (entry s k) ∧ covers (entry (step s t) k) (local (node t) k).
Proof.
  intros Hs Ht. rewrite nw_join by done. split; [apply pickNewer_covers_r|apply pickNewer_covers_l].
Qed.

(** A run keeps the system well formed and never makes an entry older. *)
Lemma run_covers s sched :
  ok s → Forall tick_ok sched →
  ok (run s sched)
  ∧ (∀ k, covers (entry (run s sched) k) (entry s k))
  ∧ (∀ t k, t ∈ sched → covers (entry (run s sched) k) (local (node t) k))
  ∧ ∀ v0 k, genuine_entry v0 k (entry s k) → genuine_entry v0 k (entry (run s sched) k).
Proof.
  intros Hs Hsched. revert s Hs. induction Hsched as [|t sched Ht Hsched IH]; intros s Hs; simpl.
  - split_and!; try done. intros t k H. by apply elem_of_nil in H.
  - destruct (IH _ (nw_ok s t Hs Ht)) as (Hok & Hmono & Hcov & Hgen).
    split_and!; [done|..].
    + intros k. etransitivity; [apply Hmono|]. by apply step_covers.
    + intros t' k [->|Hin]%elem_of_cons; [|by apply Hcov].
      etransitivity; [apply Hmono|]. by apply step_covers.
    + intros v0 k Hg. apply Hgen. by apply step_genuine.
Qed.

Lemma round_calm s sched : ok s → Forall tick_ok sched → full_round sched → calm_state (run s sched).
Proof.
  intros Hs Hsched Hround i k.
  destruct (run_covers s sched Hs Hsched) as (_ & _ & Hcov & _).
  destruct (decide (i < size)%nat) as [Hi|Hi].
  - destruct (Hround i Hi) as (t & Hin & <-). by apply Hcov.
  - by rewrite nw_beyond by lia.
Qed.

(** From a calm state no step changes an entry, and what a node served it goes
    on serving. *)
Lemma calm_step s t :
  ok s → tick_ok t → calm_state s →
  (∀ k, entry (step s t) k = entry s k)
  ∧ ∀ i, (i < size)%nat → serves s i ∨ i = node t → serves (step s t) i.
Proof.
  intros Hs Ht Hq.
  assert (∀ k, entry (step s t) k = entry s k) as Heq.
  { intros k. rewrite nw_join by done. by apply pickNewer_covered. }
  split; [done|]. intros i Hlt Hi. destruct (decide (i = node t)) as [->|Hne]; [by apply nw_serves|].
  destruct Hi as [Hi|]; [|done]. by apply nw_frame.
Qed.

Lemma calm_run s sched :
  ok s → Forall tick_ok sched → calm_state s →
  (∀ k, entry (run s sched) k = entry s k)
  ∧ ∀ i, (i < size)%nat → (serves s i ∨ ∃ t, t ∈ sched ∧ node t = i) → serves (run s sched) i.
Proof.
  intros Hs Hsched. revert s Hs.
  induction Hsched as [|t sched Ht Hsched IH]; intros s Hs Hq; simpl.
  - split; [done|]. intros i _ [?|(t & Ht & _)]; [done|]. by apply elem_of_nil in Ht.
  - destruct (calm_step s t Hs Ht Hq) as [Heq Hserves].
    destruct (IH _ (nw_ok s t Hs Ht)) as [Heq' Hserves'].
    { intros i k. rewrite Heq. apply Hq. }
    split; [intros k; by rewrite Heq', Heq|].
    intros i Hlt [Hi|(t' & [->|Hin]%elem_of_cons & Ht')]; apply Hserves'; [done|left|done|left|done|right]; eauto.
Qed.

(** Two rounds are enough: the first collects the newest records, the second
    spreads them. *)
Lemma converges s sched1 sched2 :
  ok s → Forall tick_ok sched1 → Forall tick_ok sched2 → full_round sched1 → full_round sched2 →
  let s' := run s (sched1 ++ sched2) in
  ok s'
  ∧ (∀ k, covers (entry s' k) (entry s k) ∧ (∀ i, covers (entry s' k) (local i k))
          ∧ genuine_entry (entry s k) k (entry s' k))
  ∧ ∀ i, (i < size)%nat → serves s' i.
Proof.
  intros Hs H1 H2 Hr1 Hr2. simpl. unfold run. rewrite foldl_app. fold (run s sched1).
  destruct (run_covers s sched1 Hs H1) as (Hs1 & Hmono & _ & Hgen).
  pose proof (round_calm s sched1 Hs H1 Hr1) as Hq.
  destruct (calm_run _ sched2 Hs1 H2 Hq) as [Heq Hserves]. fold (run (run s sched1) sched2).
  split_and!.
  - by apply run_covers.
  - intros k. rewrite Heq. split_and!; [done| |apply Hgen; by left]. intros i. apply Hq.
  - intros i Hi. apply Hserves; [done|]. right. by apply Hr2.
Qed.

(** After one round the entries stay. *)
Lemma stays s sched more :
  ok s → Forall tick_ok sched → Forall tick_ok more → full_round sched →
  ∀ k, entry (run s (sched ++ more)) k = entry (run s sched) k.
Proof.
  intros Hs H1 H2 Hr k. unfold run. rewrite foldl_app. fold (run s sched).
  destruct (run_covers s sched Hs H1) as (Hs1 & _).
  apply (calm_run _ more Hs1 H2). by apply round_calm.
Qed.

(** A round followed by anything is a round. *)
Lemma round_app sched more : full_round sched → full_round (sched ++ more).
Proof. intros Hr i Hi. destruct (Hr i Hi) as (t & Ht & Hn). exists t. split; [|done]. apply elem_of_app. by left. Qed.
End Converge.
