(* ===== verification/Fleet.v ===== *)
(** A fleet of nodes that share one reliable cluster: every node runs
    [tickProvider] of internal/engine/engine.go against the same store, through
    a client of its own, in any order. The theorems say that the fleet converges on the newest record of
    every key, and that it then stays there. *)

From S2P Require Import Prelude GoStrings Version Metrics Engine EngineSpec Converge.

Section Fleet.
Context {C N : Type} {view : C → gmap (string * string) Record_}
  {inv : C → Prop} {kind_ok key_ok : string → Prop}.
Context {rec_ok : Record_ → Prop}.
Context (kind : string).

(** A node: its client of the cluster, its provider, its engine, the records it has locally, what it
    keeps true of its own state, and when that state serves a record. *)
Record member := {
  mb_kv : ClusterKV (M C);
  mb_provider : Provider (M N);
  mb_engine : Engine (M (C * N));
  mb_locals : list Record_;
  mb_pinv : N → Prop;
  mb_shows : N → Record_ → Prop
}.

(** What the theorems ask of every node. *)
Record member_ok (mb : member) : Prop := {
  mb_reliable : ReliableKV (mb_kv mb) view inv kind_ok key_ok;
  mb_stable : StableProvider (mb_provider mb) (mb_locals mb) (mb_pinv mb) (mb_shows mb) rec_ok;
  mb_kind : p_Kind (mb_provider mb) = kind ∧ kind_ok kind;
  mb_cl : e_cl (mb_engine mb) = lift_kv (mb_kv mb);
  mb_now : quiet (C := C) (pinv := mb_pinv mb) (shows := mb_shows mb) (e_now (mb_engine mb));
  mb_metrics : ∀ emit, e_metrics (mb_engine mb) = Some emit →
    ∀ ev, quiet (C := C) (pinv := mb_pinv mb) (shows := mb_shows mb) (emit ev);
  mb_locals_ok : ∀ r, r ∈ mb_locals mb → Kind r = kind ∧ key_ok (Key r) ∧ rec_ok r
}.

Context (members : list member) (Hmembers : Forall member_ok members).

(** The cluster and the state of each node. *)
Abbreviation fleet := (C * list N)%type.

(** The tick of one node: which node, and the order its map iteration takes. *)
Record tick := { tk_node : nat; tk_range : gmap string Record_ → list string }.

Definition fleet_step (s : fleet) (t : tick) : fleet :=
  match members !! tk_node t, s.2 !! tk_node t with
  | Some mb, Some n =>
      let '(_, (c', n')) :=
        tickProvider (tk_range t) (mb_engine mb) (lift_provider (mb_provider mb)) (s.1, n) in
      (c', <[tk_node t := n']> s.2)
  | _, _ => s
  end.

Definition fleet_run (s : fleet) (sched : list tick) : fleet := foldl fleet_step s sched.

(** The local record of node [i] for a key. *)
Definition local_of (i : nat) (k : string) : option Record_ :=
  mb ← members !! i; index_by_key (mb_locals mb) !! k.

Definition entry (s : fleet) (k : string) : option Record_ := view s.1 !! (kind, k).

Definition fleet_ok (s : fleet) : Prop :=
  inv s.1 ∧ Forall2 mb_pinv members s.2
  ∧ ∀ k r, entry s k = Some r → rec_ok r.

Definition sched_ok (sched : list tick) : Prop := Forall (λ t, range_ok (tk_range t)) sched.

(** Every node ticks at least once. *)
Definition round (sched : list tick) : Prop :=
  ∀ i, (i < length members)%nat → ∃ t, t ∈ sched ∧ tk_node t = i.

(** Node [i] serves the entries of the cluster. *)
Definition serves (s : fleet) (i : nat) : Prop :=
  ∀ mb n k r, members !! i = Some mb → s.2 !! i = Some n → entry s k = Some r → mb_shows mb n r.

Implicit Types (s : fleet) (t : tick).

(** The effect of one tick on the shared state and on its node. *)
Lemma fleet_step_spec s t :
  fleet_ok s → range_ok (tk_range t) →
  fleet_ok (fleet_step s t)
  ∧ (∀ k, entry (fleet_step s t) k = pickNewer (local_of (tk_node t) k) (entry s k))
  ∧ serves (fleet_step s t) (tk_node t)
  ∧ ∀ j, j ≠ tk_node t → (fleet_step s t).2 !! j = s.2 !! j.
Proof.
  intros (Hc & Hns & Hok) Hrange. unfold fleet_step, local_of.
  destruct (members !! tk_node t) as [mb|] eqn:Emb; simpl.
  2: { split_and!; try done. intros mb n k r Hmb. congruence. }
  destruct (s.2 !! tk_node t) as [n|] eqn:En.
  2: { destruct (Forall2_lookup_l _ _ _ _ _ Hns Emb) as (n & En' & _). congruence. }
  rewrite Forall_lookup in Hmembers. pose proof (Hmembers _ _ Emb) as Hmb.
  pose proof (mb_reliable mb Hmb) as Hrel. pose proof (mb_stable mb Hmb) as Hstable.
  destruct (mb_kind mb Hmb) as [Hkind Hkok].
  pose proof (Forall2_lookup_lr _ _ _ _ _ _ Hns Emb En) as Hn.
  destruct (tickProvider_spec (mb_engine mb) (mb_cl mb Hmb) ltac:(by rewrite Hkind) (mb_now mb Hmb) (mb_metrics mb Hmb)
              ltac:(rewrite Hkind; apply (mb_locals_ok mb Hmb)) (tk_range t) s.1 n Hrange)
    as (c' & n' & E & (Hc' & Hn' & Hok') & Hjoin & _ & Hsh).
  { split_and!; [done|done|]. rewrite Hkind. apply Hok. }
  rewrite E, Hkind in *. split_and!.
  - split_and!; simpl; [done| |done].
    rewrite <-(list_insert_id members _ _ Emb). by apply Forall2_insert.
  - intros k. unfold entry. simpl. apply Hjoin.
  - intros mb1 n1 k r Hmb1 Hn1 Hr. simpl in *. rewrite list_lookup_insert_eq in Hn1 by (by eapply lookup_lt_Some).
    simplify_eq. by apply (Hsh k).
  - intros j Hj. simpl. by apply list_lookup_insert_ne.
Qed.

(** The fleet is an instance of newest-wins replication. *)
Lemma fleet_newest_wins :
  NewestWins fleet_step tk_node (length members) entry local_of fleet_ok (λ t, range_ok (tk_range t)) serves.
Proof.
  split.
  - intros s t Hs Ht. by apply fleet_step_spec.
  - intros s t k Hs Ht. by apply fleet_step_spec.
  - intros s t Hs Ht _. by apply fleet_step_spec.
  - intros s t j Hs Ht Hne Heq Hserves mb n k r Hmb Hn Hr.
    destruct (fleet_step_spec s t Hs Ht) as (_ & _ & _ & Hother).
    rewrite Hother in Hn by done. rewrite Heq in Hr. by apply (Hserves mb n k).
  - intros i k Hi. unfold local_of. by rewrite (proj2 (lookup_ge_None members i)).
Qed.

Lemma fleet_run_ok s sched : fleet_ok s → sched_ok sched → fleet_ok (fleet_run s sched).
Proof. intros Hs Hsched. by destruct (run_covers (NW := fleet_newest_wins) s sched Hs Hsched). Qed.

(** Convergence. From any state, after a schedule in which every node has
    ticked and then every node has ticked again, in any order and with any
    interleaving of whole ticks: for every key the cluster's entry is at least
    as new as the copy of every node and as the entry it started from, it is
    one of those copies, and every node serves it. *)
Theorem fleet_converges s sched1 sched2 :
  fleet_ok s → sched_ok sched1 → sched_ok sched2 → round sched1 → round sched2 →
  let s' := fleet_run s (sched1 ++ sched2) in
  (∀ k, covers (entry s' k) (entry s k) ∧ (∀ i, covers (entry s' k) (local_of i k))
        ∧ (entry s' k = entry s k ∨ ∃ i, entry s' k = local_of i k))
  ∧ ∀ i, (i < length members)%nat → serves s' i.
Proof.
  intros Hs H1 H2 Hr1 Hr2.
  by destruct (converges (NW := fleet_newest_wins) s sched1 sched2 Hs H1 H2 Hr1 Hr2) as (_ & ? & ?).
Qed.

(** Stability. Once every node has ticked, no further schedule of ticks
    changes any entry: the fleet does not oscillate. *)
Theorem fleet_stable s sched more :
  fleet_ok s → sched_ok sched → sched_ok more → round sched →
  ∀ k, entry (fleet_run s (sched ++ more)) k = entry (fleet_run s sched) k.
Proof. apply (stays (NW := fleet_newest_wins)). Qed.
End Fleet.
