(* ===== verification/Reconcile.v ===== *)
(** Engine.reconcile with several providers on one node. The providers share
    the node's disk; each meets the contract [StableProvider] of
    [EngineSpec.v], and the operations of one leave alone what another serves
    ([preserves]). Then a reconcile does for every kind what a tick does for
    one. *)

From S2P Require Import Prelude GoStrings Version Metrics Engine EngineSpec.

Open Scope Z_scope.

(** ** A provider among others *)

Section Coexist.
Context {N : Type} (p : Provider (M N)) (pinv : N → Prop) (rec_ok : Record_ → Prop).

(** The operations a tick uses keep [Q]. *)
Definition preserves (Q : N → Prop) : Prop :=
  ∀ n, pinv n → Q n →
    Q (p_Local p n).2 ∧ (∀ r, rec_ok r → Q (p_Apply p r n).2) ∧ Q (p_Flush p n).2.

Lemma preserves_all {I : Type} (P : I → Prop) (Q : I → N → Prop) :
  (∀ i, P i → preserves (Q i)) → preserves (λ n, ∀ i, P i → Q i n).
Proof.
  intros H n Hn HQ. split_and!; [|intros r Hr|]; intros i Hi; by apply (H i Hi n Hn (HQ i Hi)).
Qed.

(** What it keeps can be added to the invariant. *)
Lemma stable_and L shows Q :
  StableProvider p L pinv shows rec_ok → preserves Q →
  StableProvider p L (λ n, pinv n ∧ Q n) shows rec_ok.
Proof.
  intros [Hl Ha Hag Hf] HQ. split.
  - intros n [Hn Hq]. destruct (Hl n Hn) as (n' & E & Hn' & Hs). exists n'. split_and!; try done.
    destruct (HQ n Hn Hq) as [Hq' _]. by rewrite E in Hq'.
  - intros n r [Hn Hq] Hr. destruct (Ha n r Hn Hr) as (b & n' & E & Hn' & Hs & Hr'). exists b, n'. split_and!; try done.
    destruct (HQ n Hn Hq) as (_ & Hq' & _). specialize (Hq' r Hr). by rewrite E in Hq'.
  - intros n r [Hn _]. by apply Hag.
  - intros n [Hn Hq]. destruct (Hf n Hn) as (n' & E & Hn' & Hs). exists n'. split_and!; try done.
    destruct (HQ n Hn Hq) as (_ & _ & Hq'). by rewrite E in Hq'.
Qed.
End Coexist.

Lemma foldM_fmap {W A B B'} (f : A → B → M W A) (g : B' → B) l a w :
  foldM f a (g <$> l) w = foldM (λ a x, f a (g x)) a l w.
Proof.
  revert a w. induction l as [|x l IH]; intros a w; [done|].
  rewrite fmap_cons, !foldM_cons. destruct (f a (g x) w). apply IH.
Qed.

(** A provider with its local records, when the node serves a record of its
    kind, and which records it can apply. *)
Record slot {N} := mkSlot {
  sl_provider : Provider (M N);
  sl_locals : list Record_;
  sl_shows : N → Record_ → Prop;
  sl_ok : Record_ → Prop
}.
Arguments slot : clear implicits.

Definition sl_kind {N} (s : slot N) : string := p_Kind (sl_provider s).

Section Reconcile.
Context {C N : Type} {cl : ClusterKV (M C)} {view : C → gmap (string * string) Record_}
  {inv : C → Prop} {kind_ok key_ok : string → Prop}.
Context (pinv : N → Prop) (e : Engine (M (C * N))) (slots : list (slot N)).
Implicit Types (c : C) (n : N) (s : slot N).

(** A command that leaves the cluster and what is served alone. *)
Definition harmless {A} (cmd : M (C * N) A) : Prop :=
  ∀ c n, pinv n → ∃ a n', cmd (c, n) = (a, (c, n')) ∧ pinv n'
    ∧ ∀ s r, s ∈ slots → sl_shows s n r → sl_shows s n' r.

(** What is asked of the engine and its providers. *)
Record engine_ok : Prop := {
  eo_kv : ReliableKV cl view inv kind_ok key_ok;
  eo_cl : e_cl e = lift_kv cl;
  eo_providers : e_providers e = (λ s, lift_provider (sl_provider s)) <$> slots;
  eo_kinds : NoDup (sl_kind <$> slots);
  eo_slot : ∀ s, s ∈ slots → kind_ok (sl_kind s)
    ∧ StableProvider (sl_provider s) (sl_locals s) pinv (sl_shows s) (sl_ok s)
    ∧ ∀ r, r ∈ sl_locals s → Kind r = sl_kind s ∧ key_ok (Key r) ∧ sl_ok s r;
  eo_apart : ∀ s s' r, s ∈ slots → s' ∈ slots → sl_kind s ≠ sl_kind s' →
    preserves (sl_provider s) pinv (sl_ok s) (λ n, sl_shows s' n r);
  eo_now : harmless (e_now e);
  eo_metrics : ∀ emit ev, e_metrics e = Some emit → harmless (emit ev)
}.

Context (Hok : engine_ok).

(** The state of the cluster and the node between reconciles. *)
Definition agent_good c n : Prop :=
  inv c ∧ pinv n ∧ ∀ s k r, s ∈ slots → view c !! (sl_kind s, k) = Some r → sl_ok s r.

(** The local record of a kind and key. *)
Definition slot_local (kk : string * string) : option Record_ :=
  s ← find (λ s, String.eqb (sl_kind s) kk.1) slots; index_by_key (sl_locals s) !! kk.2.

(** The node serves the entries of its kinds. *)
Definition agent_serves c n : Prop :=
  ∀ s k r, s ∈ slots → view c !! (sl_kind s, k) = Some r → sl_shows s n r.

Lemma kind_inj s s' : s ∈ slots → s' ∈ slots → sl_kind s = sl_kind s' → s = s'.
Proof.
  intros Hs Hs' E. destruct Hok as [_ _ _ Hnd _ _ _ _].
  apply list_elem_of_lookup in Hs as [i Hi]. apply list_elem_of_lookup in Hs' as [j Hj].
  assert (i = j) as ->; [|congruence].
  eapply NoDup_lookup; [exact Hnd|..]; rewrite list_lookup_fmap; [by rewrite Hi|by rewrite Hj, E].
Qed.

Lemma slot_local_eq s k : s ∈ slots → slot_local (sl_kind s, k) = index_by_key (sl_locals s) !! k.
Proof.
  intros Hs. unfold slot_local. simpl.
  destruct (find (λ s0, String.eqb (sl_kind s0) (sl_kind s)) slots) as [s'|] eqn:E.
  - apply find_some in E as [Hin E]. apply list_elem_of_In in Hin. apply String.eqb_eq in E.
    by rewrite (kind_inj s' s).
  - apply list_elem_of_In in Hs. pose proof (find_none _ _ E s Hs) as H. simpl in H.
    by rewrite String.eqb_refl in H.
Qed.

Lemma slot_local_ne kind k : kind ∉ sl_kind <$> slots → slot_local (kind, k) = None.
Proof.
  intros Hk. unfold slot_local. simpl.
  destruct (find (λ s0, String.eqb (sl_kind s0) kind) slots) as [s'|] eqn:E; [|done].
  apply find_some in E as [Hin E]. apply list_elem_of_In in Hin. apply String.eqb_eq in E as <-.
  destruct Hk. by apply list_elem_of_fmap_2.
Qed.

(** The tick of one provider, when other kinds are served already. *)
Lemma tick_among s done range c n :
  s ∈ slots → (∀ s', s' ∈ done → s' ∈ slots ∧ sl_kind s' ≠ sl_kind s) → range_ok range → agent_good c n →
  (∀ s' k r, s' ∈ done → view c !! (sl_kind s', k) = Some r → sl_shows s' n r) →
  ∃ c' n', tickProvider range e (lift_provider (sl_provider s)) (c, n) = (tt, (c', n'))
  ∧ agent_good c' n'
  ∧ (∀ k, view c' !! (sl_kind s, k) = pickNewer (index_by_key (sl_locals s) !! k) (view c !! (sl_kind s, k)))
  ∧ (∀ k' k, k' ≠ sl_kind s → view c' !! (k', k) = view c !! (k', k))
  ∧ (∀ s' k r, s' ∈ done ++ [s] → view c' !! (sl_kind s', k) = Some r → sl_shows s' n' r).
Proof.
  intros Hs Hdone Hrange (Hc & Hn & Hrec) Hserved.
  pose proof Hok as [Hkv Hcl _ _ Hslot Hapart Hnow Hmet]. destruct (Hslot s Hs) as (Hkind & Hst & HL).
  set (Q := λ n : N, ∀ x : slot N * string * Record_,
    x.1.1 ∈ done ∧ view c !! (sl_kind x.1.1, x.1.2) = Some x.2 → sl_shows x.1.1 n x.2).
  assert (preserves (sl_provider s) pinv (sl_ok s) Q) as HQ.
  { apply preserves_all. intros [[s' k] r] [Hin _]. destruct (Hdone s' Hin) as [Hs' Hne]. by apply Hapart. }
  pose proof (stable_and _ _ _ _ _ Q Hst HQ) as HstQ.
  assert (∀ A (cmd : M (C * N) A), harmless cmd →
    quiet (C := C) (pinv := λ n, pinv n ∧ Q n) (shows := sl_shows s) cmd) as Hquiet.
  { intros A cmd Hcmd c1 n1 [Hn1 HQ1]. destruct (Hcmd c1 n1 Hn1) as (a & n2 & E & Hn2 & Hsh).
    exists a, n2. split_and!; [done|done| |intros r; by apply Hsh].
    intros [[s' k] r] Hx. apply Hsh; [by apply Hdone, Hx|by apply HQ1]. }
  destruct (tickProvider_spec (p := sl_provider s) (rec_ok := sl_ok s) e Hcl Hkind
    (Hquiet _ _ Hnow) (λ emit Hemit ev, Hquiet _ _ (Hmet emit ev Hemit)) HL range c n Hrange)
    as (c' & n' & E & (Hc' & [Hn' HQ'] & Hrec') & Hjoin & Hother & Hsh).
  { split_and!; [done|done| |by intros k r; apply Hrec].
    intros [[s' k] r] [Hin Hr]. by apply (Hserved s' k). }
  exists c', n'. split_and!; [exact E| |exact Hjoin|exact Hother|].
  - split_and!; [done|done|]. intros s' k r Hs' Hr.
    destruct (decide (sl_kind s' = sl_kind s)) as [Heq|Hne].
    + rewrite (kind_inj s' s Hs' Hs Heq) in *. by apply (Hrec' k).
    + rewrite Hother in Hr by done. by apply (Hrec s' k).
  - intros s' k r [Hin| ->]%elem_of_snoc Hr; [|by apply (Hsh k)].
    destruct (Hdone s' Hin) as [_ Hne]. rewrite Hother in Hr by done. by apply (HQ' (s', k, r)).
Qed.

Lemma members_run range c n : agent_good c n → ∃ c' n',
  reconcile range e (c, n) = foldM (λ _ p, tickProvider range e p) tt (e_providers e) (c', n')
  ∧ agent_good c' n' ∧ view c' = view c.
Proof.
  intros (Hc & Hn & Hrec). unfold reconcile, with_metrics.
  destruct (e_metrics e) as [emit|] eqn:Em; [|exists c, n; by split_and!].
  pose proof Hok as [Hkv Hcl _ _ _ _ _ Hmet].
  destruct (kv_members_law c Hc) as [Hv Hi].
  assert (kv_Members (e_cl e) (c, n) = ((kv_Members cl c).1, ((kv_Members cl c).2, n))) as Emem.
  { rewrite Hcl. unfold lift_kv, lift_fst. simpl. by destruct (kv_Members cl c). }
  destruct (Hmet emit (mkEvent ClusterMembers [] (SetTo (kv_Members cl c).1)) Em (kv_Members cl c).2 n Hn)
    as ([] & n' & Eev & Hn' & _).
  exists (kv_Members cl c).2, n'. split_and!; [| |done].
  - erewrite bind_run; [reflexivity|]. rewrite (bind_run _ _ _ _ _ Emem). exact Eev.
  - split_and!; [done|done|]. intros s k r. rewrite Hv. apply Hrec.
Qed.

(** A reconcile joins every entry of the node's kinds with the local record,
    leaves other kinds alone, and leaves the node serving the entries. *)
Lemma reconcile_spec range c n :
  range_ok range → agent_good c n → ∃ c' n',
  reconcile range e (c, n) = (tt, (c', n')) ∧ agent_good c' n'
  ∧ (∀ kk, view c' !! kk = pickNewer (slot_local kk) (view c !! kk))
  ∧ agent_serves c' n'.
Proof.
  intros Hrange Hgood. destruct (members_run range c n Hgood) as (c1 & n1 & -> & Hg1 & Hv1).
  pose proof Hok as [_ _ Hprov Hnd _ _ _ _]. rewrite Hprov, foldM_fmap.
  pose proof (foldM_inv (λ _ s, tickProvider range e (lift_provider (sl_provider s)))
    (λ done _ w, agent_good w.1 w.2
      ∧ (∀ s k, s ∈ done → view w.1 !! (sl_kind s, k) = pickNewer (slot_local (sl_kind s, k)) (view c !! (sl_kind s, k)))
      ∧ (∀ kind k, kind ∉ sl_kind <$> done → view w.1 !! (kind, k) = view c !! (kind, k))
      ∧ (∀ s k r, s ∈ done → view w.1 !! (sl_kind s, k) = Some r → sl_shows s w.2 r)) slots) as Hinv.
  lapply Hinv; clear Hinv; [intros Hinv|].
  - specialize (Hinv tt (c1, n1)).
    destruct (foldM (λ _ s, tickProvider range e (lift_provider (sl_provider s))) tt slots (c1, n1)) as [[] [c' n']]. simpl in Hinv.
    destruct Hinv as (Hg & Hjoin & Hother & Hsh).
    { split_and!; [done|by intros s k ?%elem_of_nil|intros; by rewrite Hv1|by intros s k r ?%elem_of_nil]. }
    exists c', n'. split_and!; [done|done| |done]. intros [kind k].
    destruct (decide (kind ∈ sl_kind <$> slots)) as [(s & -> & Hs)%list_elem_of_fmap|Hno]; [by apply Hjoin|].
    rewrite Hother, slot_local_ne by done. done.
  - intros done [] s todo [c2 n2] Heq (Hg & Hjoin & Hother & Hsh). simpl in *.
    rewrite Heq, fmap_app, fmap_cons in Hnd. destruct (NoDup_mid _ _ _ Hnd) as [Hnew _].
    assert (s ∈ slots) as Hs by (rewrite Heq; apply elem_of_app; right; left).
    assert (∀ s', s' ∈ done → s' ∈ slots ∧ sl_kind s' ≠ sl_kind s) as Hdone.
    { intros s' Hs'. split; [rewrite Heq; apply elem_of_app; by left|]. intros E. apply Hnew. rewrite <-E.
      by apply list_elem_of_fmap_2. }
    destruct (tick_among s done range c2 n2 Hs Hdone Hrange Hg Hsh) as (c3 & n3 & -> & Hg3 & Hj3 & Ho3 & Hs3).
    simpl. split_and!; [done| | |done].
    + intros s' k [Hin| ->]%elem_of_snoc.
      * rewrite Ho3 by (by apply Hdone). by apply Hjoin.
      * by rewrite Hj3, Hother, slot_local_eq.
    + intros kind k. rewrite fmap_app, elem_of_app. intros Hno. rewrite Ho3, Hother; [done|tauto|].
      intros ->. apply Hno. right. left.
Qed.
End Reconcile.
