(* ===== verification/GoPath.v ===== *)
(** Go's [path/filepath] on a Unix system, as far as the sources use it:
    [Clean], [Join] and [Dir], and the components of a path. *)

From S2P Require Import Prelude GoStrings.

Definition sep : ascii := "/".

(** A path that starts at the root. *)
Definition IsAbs (p : string) : bool :=
  match p with String c _ => Ascii.eqb c sep | EmptyString => false end.

(** The components of a path the kernel looks at: empty ones and "." go
    nowhere. *)
Definition trivial_comp (c : string) : bool := String.eqb c "" || String.eqb c ".".

Definition comps (p : string) : list string :=
  filter (λ c, trivial_comp c = false) (split_char sep p).

(** A component that names an entry of a directory. *)
Definition good_name (c : string) : bool :=
  negb (trivial_comp c) && negb (String.eqb c "..") && no_char sep c.

(** The loop of [filepath.Clean] over the components; [acc] is the output so
    far, reversed. A ".." removes the last name, is dropped at the root, and is
    kept at the start of a relative path. *)
Fixpoint clean_go (rooted : bool) (acc todo : list string) : list string :=
  match todo with
  | [] => reverse acc
  | c :: todo' =>
      if String.eqb c ".." then
        match acc with
        | [] => clean_go rooted (if rooted then [] else [".."]) todo'
        | a :: acc' =>
            if String.eqb a ".." then clean_go rooted (".." :: acc) todo'
            else clean_go rooted acc' todo'
        end
      else clean_go rooted (c :: acc) todo'
  end.

(** [filepath.Clean] *)
Definition Clean (p : string) : string :=
  let out := join_char sep (clean_go (IsAbs p) [] (comps p)) in
  if IsAbs p then String sep out
  else if String.eqb out "" then "." else out.

(** [filepath.Join]: leading empty elements are skipped; the rest is joined
    and cleaned. *)
Fixpoint Join (elems : list string) : string :=
  match elems with
  | [] => ""
  | e :: es => if String.eqb e "" then Join es else Clean (join_char sep elems)
  end.

(** [filepath.Dir]: everything up to the last separator, cleaned. *)
Definition Dir (p : string) : string :=
  match reverse (split_char sep p) with
  | [] => "."
  | _ :: rest => Clean (join_char sep (reverse rest) +:+ (if rest is [] then "" else "/"))
  end.

#[global] Arguments Join : simpl never.
#[global] Arguments Clean : simpl never.
#[global] Arguments Dir : simpl never.
#[global] Arguments comps : simpl never.

(** ** Lemmas *)

Lemma good_name_spec c :
  good_name c = true ↔ trivial_comp c = false ∧ c ≠ ".." ∧ no_char sep c = true.
Proof.
  unfold good_name. rewrite !andb_true_iff, !negb_true_iff, String.eqb_neq. tauto.
Qed.

Lemma comps_join l :
  Forall (λ c, good_name c = true) l → comps (join_char sep l) = l.
Proof.
  intros Hl. destruct (decide (l = [])) as [->|Hne]; [done|].
  unfold comps. rewrite split_join; [|done|].
  - clear Hne. induction Hl as [|c l Hc Hl IH]; [done|].
    apply good_name_spec in Hc as (Ht & _). rewrite filter_cons_True by done. by rewrite IH.
  - eapply Forall_impl; [exact Hl|]. intros c (_ & _ & H)%good_name_spec. done.
Qed.

Lemma comps_slash p : comps (String sep p) = comps p.
Proof. done. Qed.

Lemma split_app_gen c s t : split_char c (s +:+ String c t) = split_char c s ++ split_char c t.
Proof.
  induction s as [|a s IH]; simpl; [by rewrite Ascii.eqb_refl|].
  destruct (Ascii.eqb a c); simpl; [by rewrite IH|]. rewrite IH.
  pose proof (split_char_not_nil c s). destruct (split_char c s); [done|]. done.
Qed.

(** The components of a path and of a name below it. *)
Lemma comps_app_slash p q : comps (p +:+ String sep q) = comps p ++ comps q.
Proof. unfold comps. by rewrite split_app_gen, filter_app. Qed.

Lemma comps_name c : good_name c = true → comps c = [c].
Proof. intros H. apply (comps_join [c]). by repeat constructor. Qed.

Lemma clean_go_good rooted acc l :
  Forall (λ c, good_name c = true) l → clean_go rooted acc l = reverse acc ++ l.
Proof.
  intros Hl. revert acc. induction Hl as [|c l Hc Hl IH]; intros acc; simpl; [by rewrite app_nil_r|].
  apply good_name_spec in Hc as (_ & Hdd & _). apply String.eqb_neq in Hdd. rewrite Hdd.
  rewrite IH. by rewrite reverse_cons, <-app_assoc.
Qed.

(** A path without "..": cleaning only drops what the kernel ignores. *)
Definition plain_path (p : string) : Prop := Forall (λ c, good_name c = true) (comps p).

#[export] Instance plain_path_dec p : Decision (plain_path p).
Proof. unfold plain_path. apply _. Defined.

Lemma join_not_nil l :
  Forall (λ c, good_name c = true) l → l ≠ [] → join_char sep l ≠ "".
Proof.
  intros Hl Hne Heq. apply Hne. rewrite <-(comps_join l Hl), Heq. done.
Qed.

Lemma comps_Clean p : plain_path p → comps (Clean p) = comps p.
Proof.
  intros Hp. unfold Clean. rewrite clean_go_good by done. simpl.
  destruct (IsAbs p); [by rewrite comps_slash, comps_join|].
  destruct (String.eqb_spec (join_char sep (comps p)) "") as [E|_]; [|by apply comps_join].
  destruct (decide (comps p = [])) as [->|Hne]; [done|]. by destruct (join_not_nil _ Hp Hne).
Qed.

Lemma IsAbs_Clean p : IsAbs p = true → IsAbs (Clean p) = true.
Proof. intros H. unfold Clean. by rewrite H. Qed.
