(* ===== verification/GoURL.v ===== *)
(** Go's [net/url] and [net/http] as far as internal/wan uses them: path
    segments are escaped by the client and split, unescaped and matched by the
    server's request multiplexer. *)

From S2P Require Import Prelude GoStrings GoPath.

Open Scope N_scope.

(** ** Escaping a path segment *)

(** The bytes [url.PathEscape] leaves as they are: letters, digits, and
    "-_.~$&+=:@". *)
Definition is_between (lo hi : N) (c : ascii) : bool := (lo <=? N_of_ascii c) && (N_of_ascii c <=? hi).

Definition unescaped (c : ascii) : bool :=
  is_between 97 122 c || is_between 65 90 c || is_between 48 57 c
  || existsb (Ascii.eqb c) ["-"; "_"; "."; "~"; "$"; "&"; "+"; "="; ":"; "@"]%char.

Definition upperhex (n : N) : ascii := if n <? 10 then ascii_of_N (48 + n) else ascii_of_N (55 + n).

(** [url.PathEscape] *)
Fixpoint PathEscape (s : string) : string :=
  match s with
  | EmptyString => EmptyString
  | String c s' =>
      if unescaped c then String c (PathEscape s')
      else String "%" (String (upperhex (N_of_ascii c / 16))
             (String (upperhex (N_of_ascii c mod 16)) (PathEscape s')))
  end.

Definition unhex (c : ascii) : option N :=
  if is_between 48 57 c then Some (N_of_ascii c - 48)
  else if is_between 97 102 c then Some (N_of_ascii c - 87)
  else if is_between 65 70 c then Some (N_of_ascii c - 55)
  else None.

(** [url.PathUnescape]; [None] is its error. *)
Fixpoint PathUnescape (s : string) : option string :=
  match s with
  | EmptyString => Some EmptyString
  | String c s' =>
      if Ascii.eqb c "%" then
        match s' with
        | String h (String l s'') =>
            match unhex h, unhex l with
            | Some h, Some l => String (ascii_of_N (16 * h + l)) <$> PathUnescape s''
            | _, _ => None
            end
        | _ => None
        end
      else String c <$> PathUnescape s'
  end.

(** What one byte is escaped to, checked for all bytes. *)
Definition escape_check (c : ascii) : bool :=
  if unescaped c then negb (Ascii.eqb c "%") && negb (Ascii.eqb c sep)
  else negb (Ascii.eqb (upperhex (N_of_ascii c / 16)) sep)
    && negb (Ascii.eqb (upperhex (N_of_ascii c mod 16)) sep)
    && match unhex (upperhex (N_of_ascii c / 16)), unhex (upperhex (N_of_ascii c mod 16)) with
       | Some h, Some l => Ascii.eqb (ascii_of_N (16 * h + l)) c
       | _, _ => false
       end.

Lemma escape_char c : escape_check c = true.
Proof.
  assert (forallb (λ n, escape_check (ascii_of_N (N.of_nat n))) (seq 0 256) = true) as H by (vm_compute; reflexivity).
  rewrite forallb_forall in H. specialize (H (N.to_nat (N_of_ascii c))).
  rewrite N2Nat.id, ascii_N_embedding in H. apply H. apply in_seq.
  pose proof (N_ascii_bounded c). lia.
Qed.

Lemma escape_cases c :
  if unescaped c then c ≠ "%"%char ∧ c ≠ sep
  else upperhex (N_of_ascii c / 16) ≠ sep ∧ upperhex (N_of_ascii c mod 16) ≠ sep
    ∧ ∃ h l, unhex (upperhex (N_of_ascii c / 16)) = Some h
        ∧ unhex (upperhex (N_of_ascii c mod 16)) = Some l ∧ ascii_of_N (16 * h + l) = c.
Proof.
  pose proof (escape_char c) as H. unfold escape_check in H. destruct (unescaped c).
  - apply andb_true_iff in H as [H1 H2]. by rewrite negb_true_iff, Ascii.eqb_neq in H1, H2.
  - rewrite !andb_true_iff, !negb_true_iff, !Ascii.eqb_neq in H. destruct H as [[H1 H2] H3].
    destruct (unhex _) as [h|], (unhex _) as [l|]; try done. apply Ascii.eqb_eq in H3. eauto 10.
Qed.

(** Unescaping an escaped segment gives the segment back. *)
Lemma PathUnescape_PathEscape s : PathUnescape (PathEscape s) = Some s.
Proof.
  induction s as [|c s IH]; [done|]. pose proof (escape_cases c) as Hc. simpl.
  destruct (unescaped c).
  - destruct Hc as [Hp _]. simpl. rewrite (proj2 (Ascii.eqb_neq c "%") Hp), IH. done.
  - destruct Hc as (_ & _ & h & l & Hh & Hl & Hhl). simpl. rewrite Hh, Hl, IH. simpl. by rewrite Hhl.
Qed.

(** An escaped segment is one segment. *)
Lemma PathEscape_no_sep s : no_char sep (PathEscape s) = true.
Proof.
  induction s as [|c s IH]; [done|]. pose proof (escape_cases c) as Hc. simpl.
  destruct (unescaped c); simpl.
  - destruct Hc as [_ Hs]. rewrite (proj2 (Ascii.eqb_neq c sep) Hs). done.
  - destruct Hc as (H1 & H2 & _).
    by rewrite (proj2 (Ascii.eqb_neq _ sep) H1), (proj2 (Ascii.eqb_neq _ sep) H2).
Qed.

(** Escaping does not make a segment special that was not. *)
Lemma PathEscape_special s t : PathUnescape t = Some t → PathEscape s = t → s = t.
Proof. intros Ht E. pose proof (PathUnescape_PathEscape s) as H. rewrite E, Ht in H. by injection H. Qed.

(** A segment that is neither empty nor "." nor "..". *)
Definition seg_ok (s : string) : bool := negb (trivial_comp s) && negb (String.eqb s "..").

Lemma PathEscape_good s : seg_ok s = true → good_name (PathEscape s) = true.
Proof.
  unfold seg_ok, trivial_comp. rewrite andb_true_iff, !negb_true_iff, orb_false_iff, !String.eqb_neq.
  intros [[H1 H2] H3]. apply good_name_spec. split_and!; [|by intros ?%PathEscape_special|apply PathEscape_no_sep].
  unfold trivial_comp. rewrite orb_false_iff, !String.eqb_neq.
  split; by intros ?%PathEscape_special.
Qed.

(** ** The multiplexer *)

(** [net/http.cleanPath]: [path.Clean], with a trailing slash kept. A request
    whose path is not clean is redirected to the clean one, and the client
    follows. *)
Definition cleanPath (p : string) : string :=
  let p := if IsAbs p then p else String sep p in
  let np := Clean p in
  if HasSuffix p "/" && negb (String.eqb np "/") then np +:+ "/" else np.

(** The segments of a path, each unescaped; one that is not a valid encoding
    is taken as it is. *)
Definition segments (p : string) : list string :=
  (λ s, default s (PathUnescape s)) <$> tail (split_char sep p).

Lemma segments_join l :
  l ≠ [] → Forall (λ s, no_char sep s = true) l →
  segments (String sep (join_char sep l)) = (λ s, default s (PathUnescape s)) <$> l.
Proof. intros Hne Hl. unfold segments. simpl. by rewrite split_join. Qed.

(** A path of good segments is clean. *)
Lemma cleanPath_good l :
  l ≠ [] → Forall (λ s, good_name s = true) l →
  cleanPath (String sep (join_char sep l)) = String sep (join_char sep l).
Proof.
  intros Hne Hl. unfold cleanPath.
  change (IsAbs (String sep (join_char sep l))) with true. cbn [andb].
  assert (Clean (String sep (join_char sep l)) = String sep (join_char sep l)) as ->.
  { unfold Clean. change (IsAbs (String sep (join_char sep l))) with true.
    rewrite comps_slash, comps_join by done. by rewrite clean_go_good. }
  destruct (HasSuffix (String sep (join_char sep l)) "/") eqn:E; [|done]. exfalso.
  apply HasSuffix_spec in E as [q E]. assert (comps (String sep (join_char sep l)) = l) as Hc.
  { by rewrite comps_slash, comps_join. }
  assert (split_char sep (String sep (join_char sep l)) = "" :: l) as Hs.
  { simpl. rewrite split_join; [done|done|]. eapply Forall_impl; [exact Hl|].
    by intros s (_ & _ & ?)%good_name_spec. }
  rewrite E in Hs. change "/" with (String sep "") in Hs. rewrite (split_app_gen sep q "") in Hs.
  assert (last ("" :: l) = Some "") as Hlast by (rewrite <-Hs; apply last_snoc).
  destruct l as [|s0 l0]; [done|]. change (last (s0 :: l0) = Some "") in Hlast.
  apply last_Some_elem_of in Hlast. rewrite Forall_forall in Hl. by specialize (Hl _ Hlast).
Qed.
