(* ===== verification/FileSystem.v ===== *)
(** The operating system as the sources see it through package [os]: a tree of
    files, directories and symbolic links, and the calls that read and change
    it.

    Every call first takes the next element of a schedule of faults, so a
    statement about all schedules covers an error of any call at any point. A
    call that fails has no effect, except that a write may leave a prefix of
    its data. A crash at some point is the schedule in which every later call
    fails. *)

From Stdlib Require Import DecimalString.
From S2P Require Import Prelude GoStrings GoPath.

Open Scope Z_scope.

(** ** State *)

Record file := mkFile { f_data : bytes; f_perm : Z; f_mtime : Z }.

Inductive inode :=
  | IFile (f : file)
  | IDir
  | ILink (target : string).

#[export] Instance file_eq_dec : EqDecision file.
Proof. solve_decision. Defined.
#[export] Instance inode_eq_dec : EqDecision inode.
Proof. solve_decision. Defined.

(** A physical path: the components from the root, with no link left. *)
Abbreviation phys := (list string).
Abbreviation tree := (gmap (list string) inode).

Inductive fault :=
  | NoFault
  | Fail (e : errno)
  | Short (written : nat) (e : errno).

Record OS := mkOS {
  os_tree : tree;
  os_cwd : phys;
  os_umask : Z;
  os_clock : Z;
  os_rand : list nat;
  os_faults : list fault
}.

Definition set_tree (t : tree) (s : OS) : OS :=
  mkOS t (os_cwd s) (os_umask s) (os_clock s) (os_rand s) (os_faults s).

(** The result of a call that returns a value or an error. *)
Inductive result (A : Type) := Ok (a : A) | Err (e : error).
Arguments Ok {A} a.
Arguments Err {A} e.

(** ** Name lookup *)

(** Walks [todo] from the directory [cur]: every component must be a directory
    or a link to one. [links] bounds the number of links followed, as the
    kernel does. *)
Fixpoint walk (links : nat) (t : tree) (cur todo : phys) {struct links} : result phys :=
  (fix go (cur todo : phys) {struct todo} : result phys :=
     match todo with
     | [] => Ok cur
     | c :: todo' =>
         if String.eqb c ".." then go (removelast cur) todo'
         else match t !! (cur ++ [c]) with
              | Some IDir => go (cur ++ [c]) todo'
              | Some (ILink target) =>
                  match links with
                  | O => Err (Errno ELOOP)
                  | S l => walk l t (if IsAbs target then [] else cur) (comps target ++ todo')
                  end
              | Some (IFile _) => Err (Errno ENOTDIR)
              | None => Err (Errno ENOENT)
              end
     end) cur todo.

(** The kernel's bound on links in one lookup. *)
Definition max_links : nat := 40.

(** The directory that holds the last component of a path, and that component;
    the component itself is not followed. *)
Definition locate_from (t : tree) (start : phys) (p : string) : result (phys * string) :=
  match reverse (comps p) with
  | [] => Err (Errno EINVAL)
  | b :: rdir =>
      if String.eqb b ".." then Err (Errno EINVAL)
      else match walk max_links t start (reverse rdir) with
           | Ok d => Ok (d, b)
           | Err e => Err e
           end
  end.

Definition start_of (cwd : phys) (p : string) : phys := if IsAbs p then [] else cwd.

Definition locate (s : OS) (p : string) : result (phys * string) :=
  locate_from (os_tree s) (start_of (os_cwd s) p) p.

(** Follows the last component through links; the result may name an entry
    that does not exist in a directory that does. *)
Fixpoint follow (links : nat) (t : tree) (d : phys) (b : string) : result phys :=
  match t !! (d ++ [b]) with
  | Some (ILink target) =>
      match links with
      | O => Err (Errno ELOOP)
      | S l =>
          match locate_from t (start_of d target) target with
          | Ok (d', b') => follow l t d' b'
          | Err e => Err e
          end
      end
  | _ => Ok (d ++ [b])
  end.

(** The entry a path names, links followed. A path without components is the
    root or the working directory. *)
Definition resolve (s : OS) (p : string) : result phys :=
  if String.eqb p "" then Err (Errno ENOENT)
  else if decide (comps p = []) then Ok (start_of (os_cwd s) p)
  else match locate s p with
       | Ok (d, b) => follow max_links (os_tree s) d b
       | Err e => Err e
       end.

(** The entry at a physical path; the root is a directory. *)
Definition entry_at (t : tree) (k : phys) : option inode :=
  match k with [] => Some IDir | _ => t !! k end.

(** ** System calls *)

(** The next fault of the schedule; an empty schedule has none. *)
Definition next_fault : M OS fault := λ s,
  match os_faults s with
  | [] => (NoFault, s)
  | f :: fs => (f, mkOS (os_tree s) (os_cwd s) (os_umask s) (os_clock s) (os_rand s) fs)
  end.

(** Runs a call that either fails at once or takes effect. *)
Definition syscall {A} (body : OS → result A * OS) : M OS (result A) :=
  f ← next_fault;
  match f with
  | NoFault => body
  | Fail e | Short _ e => mret (Err (Errno e))
  end.

(** [os.ReadFile] *)
Definition ReadFile (p : string) : M OS (result bytes) :=
  syscall (λ s,
    (match resolve s p with
     | Err e => Err e
     | Ok k => match entry_at (os_tree s) k with
               | Some (IFile f) => Ok (f_data f)
               | Some IDir => Err (Errno EISDIR)
               | Some (ILink _) => Err (Errno ELOOP)
               | None => Err (Errno ENOENT)
               end
     end, s)).

Definition masked (s : OS) (perm : Z) : Z := Z.land perm (Z.lnot (os_umask s)).

(** The file [os.WriteFile] leaves: an existing file keeps its permissions, a
    new one gets [perm] without the bits of the umask. *)
Definition written (s : OS) (k : phys) (data : bytes) (perm : Z) : file :=
  match os_tree s !! k with
  | Some (IFile f) => mkFile data (f_perm f) (os_clock s)
  | _ => mkFile data (masked s perm) (os_clock s)
  end.

(** [os.WriteFile]: open, truncate, write. A short write leaves a prefix. *)
Definition WriteFile (p : string) (data : bytes) (perm : Z) : M OS (option error) :=
  f ← next_fault;
  s ← get_state;
  match f with
  | Fail e => mret (Some (Errno e))
  | _ =>
      match resolve s p with
      | Err e => mret (Some e)
      | Ok k =>
          match entry_at (os_tree s) k with
          | Some IDir => mret (Some (Errno EISDIR))
          | _ =>
              match f with
              | Short n e =>
                  _ ← put_state (set_tree (<[k := IFile (written s k (take n data) perm)]> (os_tree s)) s);
                  mret (Some (Errno e))
              | _ =>
                  _ ← put_state (set_tree (<[k := IFile (written s k data perm)]> (os_tree s)) s);
                  mret None
              end
          end
      end
  end.

(** An open temporary file: where it is and the name it was created under. *)
Record tmpfile := mkTmp { tmp_at : phys; tmp_Name : string }.

Definition pop_rand (s : OS) : nat * OS :=
  match os_rand s with
  | [] => (O, s)
  | n :: ns => (n, mkOS (os_tree s) (os_cwd s) (os_umask s) (os_clock s) ns (os_faults s))
  end.

(** The directory a path names. *)
Definition resolve_dir (s : OS) (p : string) : result phys :=
  walk max_links (os_tree s) (start_of (os_cwd s) p) (comps p).

(** The name of a temporary file: the star of the pattern is a number. *)
Definition tmp_name (n : nat) : string := ".tmp-" +:+ FormatInt (Z.of_nat n).

(** [os.CreateTemp(dir, ".tmp-*")]. The library draws random numbers until the
    name is free, a bounded number of times; the schedule of random numbers
    gives the last one drawn, and a name that exists is the error of that
    bound. *)
Definition CreateTemp (dir : string) : M OS (result tmpfile) :=
  syscall (λ s,
    match resolve_dir s dir with
    | Err e => (Err e, s)
    | Ok d =>
        let '(n, s') := pop_rand s in
        let name := tmp_name n in
        match os_tree s !! (d ++ [name]) with
        | Some _ => (Err (Errno EEXIST), s')
        | None =>
            (Ok (mkTmp (d ++ [name]) (dir +:+ (if HasSuffix dir "/" then "" else "/") +:+ name)),
             set_tree (<[d ++ [name] := IFile (mkFile [] (masked s 384) (os_clock s))]> (os_tree s)) s')
        end
    end).

(** Changes the file behind an open handle. *)
Definition update_tmp (h : tmpfile) (g : file → file) (s : OS) : OS :=
  match os_tree s !! tmp_at h with
  | Some (IFile f) => set_tree (<[tmp_at h := IFile (g f)]> (os_tree s)) s
  | _ => s
  end.

(** [os.File.Write] on the new file. *)
Definition tmp_Write (h : tmpfile) (data : bytes) : M OS (option error) :=
  f ← next_fault;
  s ← get_state;
  let write d := put_state (update_tmp h (λ f, mkFile (f_data f ++ d) (f_perm f) (os_clock s)) s) in
  match f with
  | Fail e => mret (Some (Errno e))
  | Short n e => _ ← write (take n data); mret (Some (Errno e))
  | NoFault => _ ← write data; mret None
  end.

(** [os.File.Chmod]: the umask plays no part. *)
Definition tmp_Chmod (h : tmpfile) (perm : Z) : M OS (option error) :=
  f ← next_fault;
  s ← get_state;
  match f with
  | Fail e | Short _ e => mret (Some (Errno e))
  | NoFault => _ ← put_state (update_tmp h (λ f, mkFile (f_data f) perm (f_mtime f)) s); mret None
  end.

(** [os.File.Close] *)
Definition tmp_Close (h : tmpfile) : M OS (option error) :=
  f ← next_fault;
  match f with
  | Fail e | Short _ e => mret (Some (Errno e))
  | NoFault => mret None
  end.

(** The tree with everything below [ko] moved below [kn]. *)
Definition move_subtree (ko kn : phys) (t : tree) : tree :=
  list_to_map ((λ '(k, i), (if decide (ko `prefix_of` k) then kn ++ drop (length ko) k else k, i))
                 <$> map_to_list t).

(** Renaming one entry. A file replaces a file; a directory is moved with its
    contents to a name that is free; nothing replaces a directory. *)
Definition rename_entry (t : tree) (ko kn : phys) : result tree :=
  match t !! ko, t !! kn with
  | None, _ => Err (Errno ENOENT)
  | Some _, Some IDir => Err (Errno EEXIST)
  | Some IDir, Some _ => Err (Errno ENOTDIR)
  | Some IDir, None =>
      if decide (ko `prefix_of` kn) then Err (Errno EINVAL) else Ok (move_subtree ko kn t)
  | Some i, _ => Ok (<[kn := i]> (delete ko t))
  end.

(** [os.Rename] *)
Definition Rename (old new : string) : M OS (option error) :=
  f ← next_fault;
  s ← get_state;
  match f with
  | Fail e | Short _ e => mret (Some (Errno e))
  | NoFault =>
      match locate s old, locate s new with
      | Ok (d, b), Ok (d', b') =>
          match rename_entry (os_tree s) (d ++ [b]) (d' ++ [b']) with
          | Ok t' => _ ← put_state (set_tree t' s); mret None
          | Err e => mret (Some e)
          end
      | Err e, _ | _, Err e => mret (Some e)
      end
  end.

(** The entry is the parent of some other. *)
Definition has_child (t : tree) (k : phys) : bool :=
  bool_decide (Exists (λ '(k', _), k `prefix_of` k' ∧ k ≠ k') (map_to_list t)).

(** [os.Remove] *)
Definition Remove (p : string) : M OS (option error) :=
  f ← next_fault;
  s ← get_state;
  match f with
  | Fail e | Short _ e => mret (Some (Errno e))
  | NoFault =>
      match locate s p with
      | Err e => mret (Some e)
      | Ok (d, b) =>
          match os_tree s !! (d ++ [b]) with
          | None => mret (Some (Errno ENOENT))
          | Some IDir =>
              if has_child (os_tree s) (d ++ [b]) then mret (Some (Errno ENOTEMPTY))
              else _ ← put_state (set_tree (delete (d ++ [b]) (os_tree s)) s); mret None
          | Some _ => _ ← put_state (set_tree (delete (d ++ [b]) (os_tree s)) s); mret None
          end
      end
  end.

(** The part of [os.FileInfo] the sources read. *)
Record info := mkInfo { i_IsDir : bool; i_perm : Z; i_ModTime : Z }.

(** [os.Stat] *)
Definition Stat (p : string) : M OS (result info) :=
  syscall (λ s,
    (match resolve s p with
     | Err e => Err e
     | Ok k => match entry_at (os_tree s) k with
               | Some (IFile f) => Ok (mkInfo false (f_perm f) (f_mtime f))
               | Some IDir => Ok (mkInfo true 493 (os_clock s))
               | Some (ILink _) => Err (Errno ELOOP)
               | None => Err (Errno ENOENT)
               end
     end, s)).

(** The name of a direct child of [d]. *)
Definition child_name (d k : phys) : option string :=
  match last k with
  | Some b => if decide (k = d ++ [b]) then Some b else None
  | None => None
  end.

Definition str_le (s t : string) : Prop := str_ltb t s = false.
#[export] Instance str_le_dec s t : Decision (str_le s t).
Proof. unfold str_le. apply _. Defined.

(** The names in a directory with their entries, sorted by name. *)
Definition children (t : tree) (d : phys) : list (string * inode) :=
  merge_sort (λ x y, str_le x.1 y.1)
    (omap (λ '(k, i), (λ b, (b, i)) <$> child_name d k) (map_to_list t)).

(** [os.DirEntry]: the name, and whether the entry itself is a directory. *)
Record dirent := mkDirent { de_Name : string; de_IsDir : bool }.

(** [os.ReadDir] *)
Definition ReadDir (p : string) : M OS (result (list dirent)) :=
  syscall (λ s,
    (match resolve s p with
     | Err e => Err e
     | Ok k => match entry_at (os_tree s) k with
               | Some IDir =>
                   Ok ((λ '(b, i), mkDirent b (if i is IDir then true else false))
                         <$> children (os_tree s) k)
               | Some (IFile _) => Err (Errno ENOTDIR)
               | Some (ILink _) => Err (Errno ELOOP)
               | None => Err (Errno ENOENT)
               end
     end, s)).

(** [os.Mkdir] *)
Definition Mkdir (p : string) : M OS (option error) :=
  f ← next_fault;
  s ← get_state;
  match f with
  | Fail e | Short _ e => mret (Some (Errno e))
  | NoFault =>
      match locate s p with
      | Err e => mret (Some e)
      | Ok (d, b) =>
          match os_tree s !! (d ++ [b]) with
          | Some _ => mret (Some (Errno EEXIST))
          | None => _ ← put_state (set_tree (<[d ++ [b] := IDir]> (os_tree s)) s); mret None
          end
      end
  end.

(** [os.Lstat] and [IsDir]: the entry itself is a directory. *)
Definition Lstat_IsDir (p : string) : M OS bool :=
  r ← syscall (λ s,
    (match locate s p with
     | Ok (d, b) => Ok (bool_decide (os_tree s !! (d ++ [b]) = Some IDir))
     | Err e => Err e
     end, s));
  mret (match r with Ok isdir => isdir | Err _ => false end).

(** [os.MkdirAll]: nothing to do for a directory, otherwise the parent first,
    and an error of the last call is ignored if the directory is there after
    all. The recursion shortens the path, so the number of its components is
    enough fuel. Permissions of directories play no part in the model. *)
Fixpoint MkdirAll_go (fuel : nat) (p : string) : M OS (option error) :=
  let mkdir :=
    err ← Mkdir p;
    match err with
    | None => mret None
    | Some e => isdir ← Lstat_IsDir p; mret (if isdir : bool then None else Some e)
    end in
  st ← Stat p;
  match st with
  | Ok i => mret (if i_IsDir i then None else Some (Errno ENOTDIR))
  | Err _ =>
      match fuel with
      | O => mkdir
      | S n =>
          err ← MkdirAll_go n (Dir p);
          match err with
          | Some e => mret (Some e)
          | None => mkdir
          end
      end
  end.

Definition MkdirAll (p : string) : M OS (option error) := MkdirAll_go (length (comps p)) p.

(** ** Lookup depends on directories and links only *)

(** An entry as seen by a walk: files do not count. *)
Definition dir_part (o : option inode) : option inode :=
  match o with Some (IFile _) => None | _ => o end.

Definition same_dirs (t t' : tree) : Prop := ∀ k, dir_part (t !! k) = dir_part (t' !! k).

#[export] Instance same_dirs_equiv : Equivalence same_dirs.
Proof. split; [by intros t k|by intros t t' H k|intros t1 t2 t3 H1 H2 k; by rewrite H1]. Qed.

(** Directories and links are kept, and no link is added. *)
Definition dirs_le (t t' : tree) : Prop :=
  (∀ k i, dir_part (t !! k) = Some i → t' !! k = Some i)
  ∧ ∀ k tg, t' !! k = Some (ILink tg) → t !! k = Some (ILink tg).

Lemma same_dirs_le t t' : same_dirs t t' → dirs_le t t'.
Proof.
  intros Hs. split.
  - intros k i Hi. rewrite Hs in Hi. by destruct (t' !! k) as [[]|]; simplify_eq/=.
  - intros k tg Ht'. specialize (Hs k). rewrite Ht' in Hs. by destruct (t !! k) as [[]|]; simplify_eq/=.
Qed.

#[export] Instance dirs_le_preorder : PreOrder dirs_le.
Proof.
  split; [intros t; by apply same_dirs_le|].
  intros t1 t2 t3 [H1 H1'] [H2 H2']. split; [|eauto].
  intros k i Hi. apply H2. pose proof (H1 k i Hi) as E. rewrite E.
  by destruct (t1 !! k) as [[]|]; simplify_eq/=.
Qed.

(** A lookup that succeeds still does when directories are added. *)
Lemma walk_dirs_le links t t' cur todo d :
  dirs_le t t' → walk links t cur todo = Ok d → walk links t' cur todo = Ok d.
Proof.
  intros [Hs _]. revert cur todo. induction links as [|l IHl]; intros cur todo;
    revert cur; induction todo as [|c todo IH]; intros cur; simpl; try done;
    (destruct (String.eqb c ".."); [apply IH|]);
    specialize (Hs (cur ++ [c]));
    destruct (t !! (cur ++ [c])) as [[f| |tg]|]; try done;
    rewrite (Hs _ eq_refl); first [apply IH|apply IHl|done].
Qed.

Lemma locate_from_dirs_le t t' start p r :
  dirs_le t t' → locate_from t start p = Ok r → locate_from t' start p = Ok r.
Proof.
  intros Hs. unfold locate_from. destruct (reverse (comps p)) as [|b rdir]; [done|].
  destruct (String.eqb b ".."); [done|].
  destruct (walk max_links t start (reverse rdir)) as [d|e] eqn:E; [|done].
  by rewrite (walk_dirs_le _ _ _ _ _ _ Hs E).
Qed.

Lemma follow_dirs_le links t t' d b k :
  dirs_le t t' → follow links t d b = Ok k → follow links t' d b = Ok k.
Proof.
  intros Hs. revert d b. induction links as [|l IH]; intros d b; simpl;
    destruct Hs as [Hs1 Hs2]; pose proof (Hs1 (d ++ [b])) as Hk; pose proof (Hs2 (d ++ [b])) as Hk';
    destruct (t !! (d ++ [b])) as [[f| |tg]|]; try done;
    try (destruct (t' !! (d ++ [b])) as [[f'| |tg']|]; try done; by specialize (Hk' _ eq_refl)).
  rewrite (Hk _ eq_refl).
  destruct (locate_from t (start_of d tg) tg) as [[d' b']|e] eqn:E; [|done].
  rewrite (locate_from_dirs_le t t' _ _ _ ltac:(by split) E). by apply IH.
Qed.

(** Writing, creating or deleting a file leaves directories and links alone. *)
Lemma same_dirs_insert t k f :
  dir_part (t !! k) = None → same_dirs t (<[k := IFile f]> t).
Proof.
  intros Hk k'. destruct (decide (k' = k)) as [->|Hne].
  - by rewrite lookup_insert_eq, Hk.
  - by rewrite lookup_insert_ne.
Qed.

Lemma same_dirs_delete t k : dir_part (t !! k) = None → same_dirs t (delete k t).
Proof.
  intros Hk k'. destruct (decide (k' = k)) as [->|Hne].
  - by rewrite lookup_delete_eq, Hk.
  - by rewrite lookup_delete_ne.
Qed.

#[export] Hint Resolve same_dirs_insert same_dirs_delete : lbsync.

(** ** Files in a known directory *)

(** The path [p] is the name [b] in the directory written [q], without "..". *)
Definition file_path (p q b : string) : Prop :=
  p = q +:+ String sep b ∧ good_name b = true ∧ plain_path q.

(** The directory written [q] is at [d]. *)
Definition dir_at (s : OS) (q : string) (d : phys) : Prop := resolve_dir s (q +:+ "/") = Ok d.

(** What a call leaves alone. *)
Definition same_env (s s' : OS) : Prop :=
  os_cwd s' = os_cwd s ∧ os_umask s' = os_umask s ∧ os_clock s' = os_clock s.

#[export] Instance same_env_equiv : Equivalence same_env.
Proof. unfold same_env. split; [by intros s|intros s t; naive_solver|intros s t u (->&->&->) (->&->&->); auto]. Qed.

Lemma IsAbs_app q x y : IsAbs (q +:+ String sep x) = IsAbs (q +:+ String sep y).
Proof. by destruct q. Qed.

Lemma comps_slash_r q : comps (q +:+ "/") = comps q.
Proof. change "/" with (String sep ""). rewrite comps_app_slash. apply app_nil_r. Qed.

Lemma dir_at_same s s' q d :
  same_dirs (os_tree s) (os_tree s') → os_cwd s' = os_cwd s → dir_at s q d → dir_at s' q d.
Proof.
  unfold dir_at, resolve_dir. intros Hs%same_dirs_le ->. by apply walk_dirs_le.
Qed.

Lemma file_path_comps p q b : file_path p q b → comps p = comps q ++ [b].
Proof. intros (-> & Hb & _). by rewrite comps_app_slash, (comps_name b). Qed.

Lemma locate_file s p q b d : file_path p q b → dir_at s q d → locate s p = Ok (d, b).
Proof.
  intros Hp Hd. unfold locate, locate_from. rewrite (file_path_comps _ _ _ Hp), reverse_snoc.
  destruct Hp as (-> & Hb & _). apply good_name_spec in Hb as (_ & Hdd & _).
  apply String.eqb_neq in Hdd. rewrite Hdd, reverse_involutive.
  unfold dir_at, resolve_dir in Hd. rewrite comps_slash_r in Hd.
  unfold start_of in *. change "/" with (String sep "") in Hd.
  by rewrite (IsAbs_app q b ""), Hd.
Qed.

Lemma resolve_file s p q b d :
  file_path p q b → dir_at s q d →
  (∀ tg, os_tree s !! (d ++ [b]) ≠ Some (ILink tg)) → resolve s p = Ok (d ++ [b]).
Proof.
  intros Hp Hd Hl. unfold resolve. pose proof (file_path_comps _ _ _ Hp) as Hc.
  destruct (String.eqb_spec p "") as [->|_]; [by destruct (comps q)|].
  rewrite decide_False by (rewrite Hc; by destruct (comps q)).
  rewrite (locate_file s p q b d Hp Hd). unfold max_links. simpl.
  destruct (os_tree s !! (d ++ [b])) as [[f| |tg]|] eqn:E; try done. by destruct (Hl tg).
Qed.

Lemma no_char_digits d : no_char sep (NilEmpty.string_of_uint d) = true.
Proof. induction d; simpl; auto. Qed.

Lemma good_name_long c : (3 ≤ String.length c)%nat → no_char sep c = true → good_name c = true.
Proof.
  intros Hlen Hno. apply good_name_spec. split_and!; [|intros ->; simpl in Hlen; lia|done].
  unfold trivial_comp. apply orb_false_iff. split; apply String.eqb_neq; intros ->; simpl in Hlen; lia.
Qed.

Lemma tmp_name_good n : good_name (tmp_name n) = true.
Proof.
  unfold tmp_name, FormatInt. pose proof (Z_to_int_nonnil (Z.of_nat n)) as Hd.
  apply good_name_long; [rewrite str_app_length; simpl; lia|].
  rewrite no_char_app. simpl.
  destruct (Z.to_int (Z.of_nat n)) as [d|d]; simpl; rewrite NilZero_string_of_uint by done;
    apply no_char_digits.
Qed.

Lemma file_path_suffix p q b suf :
  file_path p q b → no_char sep suf = true → (3 ≤ String.length suf)%nat →
  file_path (p +:+ suf) q (b +:+ suf).
Proof.
  intros (-> & Hb & Hq) Hno Hlen. split_and!; [by rewrite str_app_assoc| |done].
  apply good_name_spec in Hb as (_ & _ & Hb).
  apply good_name_long; [rewrite str_app_length; lia|]. by rewrite no_char_app, Hb, Hno.
Qed.

Lemma split_snoc_name q b :
  no_char sep b = true → split_char sep (q +:+ String sep b) = split_char sep q ++ [b].
Proof. intros Hb. by rewrite split_app_gen, (split_no_char sep b). Qed.

(** [filepath.Dir] of such a path is that directory. *)
Lemma Dir_file_path p q b : file_path p q b → Dir p = Clean (q +:+ "/").
Proof.
  intros (-> & Hb & _). apply good_name_spec in Hb as (_ & _ & Hb).
  unfold Dir. rewrite split_snoc_name, reverse_snoc by done.
  rewrite reverse_involutive, join_split.
  pose proof (split_char_not_nil sep q) as Hne.
  destruct (reverse (split_char sep q)) as [|x l] eqn:E; [|done].
  destruct Hne. by rewrite <-(reverse_involutive (split_char sep q)), E.
Qed.

Lemma plain_path_slash q : plain_path q → plain_path (q +:+ "/").
Proof. unfold plain_path. by rewrite comps_slash_r. Qed.

Lemma Clean_nonempty p : Clean p ≠ "".
Proof.
  unfold Clean. destruct (IsAbs p); [done|].
  by destruct (String.eqb_spec (join_char sep (clean_go false [] (comps p))) "").
Qed.

Lemma IsAbs_join_good l : Forall (λ c, good_name c = true) l → IsAbs (join_char sep l) = false.
Proof.
  intros Hl. destruct Hl as [|c l Hc Hl]; [done|].
  apply good_name_spec in Hc as (Ht & _ & Hno). destruct c as [|a c]; [done|].
  simpl in Hno. apply andb_true_iff in Hno as [Ha _]. apply negb_true_iff in Ha.
  destruct l; simpl; exact Ha.
Qed.

Lemma IsAbs_Clean_eq p : plain_path p → IsAbs (Clean p) = IsAbs p.
Proof.
  intros Hp. unfold Clean. rewrite clean_go_good by done. simpl.
  destruct (IsAbs p) eqn:E; [done|]. destruct (String.eqb _ ""); [done|]. by apply IsAbs_join_good.
Qed.

(** The directory survives cleaning. *)
Lemma resolve_dir_Clean s q : plain_path q → resolve_dir s (Clean q) = resolve_dir s q.
Proof.
  intros Hq. unfold resolve_dir, start_of. by rewrite IsAbs_Clean_eq, comps_Clean.
Qed.

Lemma resolve_dir_Dir s p q b d : file_path p q b → dir_at s q d → resolve_dir s (Dir p) = Ok d.
Proof.
  intros Hp Hd. rewrite (Dir_file_path p q b Hp), resolve_dir_Clean; [done|].
  apply plain_path_slash. apply Hp.
Qed.

(** The name of a temporary file leads back to it. *)
Lemma locate_tmp s dir n d :
  dir ≠ "" → resolve_dir s dir = Ok d →
  locate s (dir +:+ (if HasSuffix dir "/" then "" else "/") +:+ tmp_name n) = Ok (d, tmp_name n).
Proof.
  intros Hne Hd. pose proof (tmp_name_good n) as Hn. unfold resolve_dir in Hd.
  assert (∃ q, comps q = comps dir ∧ start_of (os_cwd s) (q +:+ String sep (tmp_name n)) = start_of (os_cwd s) dir
     ∧ dir +:+ (if HasSuffix dir "/" then "" else "/") +:+ tmp_name n = q +:+ String sep (tmp_name n))
    as (q & Hq & Hst & ->).
  { destruct (HasSuffix dir "/") eqn:E.
    - apply HasSuffix_spec in E as [q ->]. exists q. rewrite comps_slash_r. split_and!; [done| |].
      + unfold start_of. change "/" with (String sep ""). by rewrite (IsAbs_app q _ "").
      + by rewrite str_app_assoc.
    - exists dir. split_and!; [done| |done]. unfold start_of. by destruct dir. }
  unfold locate, locate_from. rewrite comps_app_slash, (comps_name _ Hn), reverse_snoc.
  apply good_name_spec in Hn as (_ & Hdd & _). apply String.eqb_neq in Hdd.
  by rewrite Hdd, reverse_involutive, Hst, Hq, Hd.
Qed.

(** ** The calls, whatever fails *)

Lemma next_fault_spec s f s' :
  next_fault s = (f, s') → os_tree s' = os_tree s ∧ same_env s s'.
Proof. unfold next_fault. destruct (os_faults s); intros [= <- <-]; done. Qed.

Lemma next_fault_none s : os_faults s = [] → next_fault s = (NoFault, s).
Proof. unfold next_fault. by intros ->. Qed.

(** Takes the next fault and cases on it. *)
Ltac take_fault :=
  let f := fresh "f" in let s1 := fresh "s" in let E := fresh "E" in
  match goal with
  | |- context [next_fault ?s] =>
      destruct (next_fault s) as [f s1] eqn:E; apply next_fault_spec in E as [? ?]; destruct f
  end.

Lemma dir_at_step s s' q d :
  os_tree s' = os_tree s → same_env s s' → dir_at s q d → dir_at s' q d.
Proof. intros Ht (Hc & _). apply dir_at_same; [by rewrite Ht|done]. Qed.

Section Calls.
Context (q : string) (d : phys).
Implicit Types (s : OS) (b : string).

Lemma ReadFile_spec s p b r s' :
  file_path p q b → dir_at s q d → (∀ tg, os_tree s !! (d ++ [b]) ≠ Some (ILink tg)) →
  ReadFile p s = (r, s') →
  os_tree s' = os_tree s ∧ same_env s s'
  ∧ ∀ data, r = Ok data → ∃ f, os_tree s !! (d ++ [b]) = Some (IFile f) ∧ data = f_data f.
Proof.
  intros Hp Hd Hl. unfold ReadFile, syscall. unfold_M. take_fault; intros [= <- <-]; try done.
  split_and!; [done|done|]. intros data.
  rewrite (resolve_file s0 p q b d Hp); [|by eapply dir_at_step|by rewrite H].
  unfold entry_at. destruct (d ++ [b]) eqn:Ek; [by destruct d|]. rewrite H.
  destruct (os_tree s !! _) as [[f| |tg]|]; try done. intros [= <-]. eauto.
Qed.

Lemma WriteFile_spec s p b data perm r s' :
  file_path p q b → dir_at s q d → dir_part (os_tree s !! (d ++ [b])) = None →
  WriteFile p data perm s = (r, s') →
  same_env s s'
  ∧ (os_tree s' = os_tree s ∨ ∃ n, os_tree s' = <[d ++ [b] := IFile (written s (d ++ [b]) (take n data) perm)]> (os_tree s))
  ∧ (r = None → os_tree s' = <[d ++ [b] := IFile (written s (d ++ [b]) data perm)]> (os_tree s)).
Proof.
  intros Hp Hd Hk. unfold WriteFile. unfold_M.
  assert (∀ s1, os_tree s1 = os_tree s → same_env s s1 →
    resolve s1 p = Ok (d ++ [b]) ∧ entry_at (os_tree s1) (d ++ [b]) = os_tree s !! (d ++ [b])
    ∧ ∀ x, written s1 (d ++ [b]) x perm = written s (d ++ [b]) x perm) as Hres.
  { intros s1 Ht He. split_and!.
    - rewrite (resolve_file s1 p q b d Hp); [done|by eapply dir_at_step|].
      rewrite Ht. intros tg Htg. by rewrite Htg in Hk.
    - rewrite Ht. unfold entry_at. destruct (d ++ [b]) eqn:Ek; [by destruct d|done].
    - intros x. unfold written, masked. destruct He as (_ & -> & ->). by rewrite Ht. }
  take_fault; destruct (Hres _ H H0) as (Hr & He & Hw); rewrite ?Hr, ?He.
  - destruct (os_tree s !! (d ++ [b])) as [[f| |tg]|] eqn:Ek; try done;
      intros [= <- <-]; simpl; rewrite H, Hw; split_and!; try done;
      right; exists (length data); by rewrite firstn_all.
  - intros [= <- <-]. split_and!; [done|by left|done].
  - destruct (os_tree s !! (d ++ [b])) as [[f| |tg]|] eqn:Ek; try done;
      intros [= <- <-]; simpl; rewrite H, Hw; split_and!; try done; right; eauto.
Qed.

Lemma CreateTemp_spec s p b r s' :
  file_path p q b → dir_at s q d → CreateTemp (Dir p) s = (r, s') →
  same_env s s' ∧
  match r with
  | Err _ => os_tree s' = os_tree s
  | Ok h => ∃ n, h = mkTmp (d ++ [tmp_name n]) (Dir p +:+ (if HasSuffix (Dir p) "/" then "" else "/") +:+ tmp_name n)
      ∧ os_tree s !! (d ++ [tmp_name n]) = None
      ∧ os_tree s' = <[d ++ [tmp_name n] := IFile (mkFile [] (masked s 384) (os_clock s))]> (os_tree s)
  end.
Proof.
  intros Hp Hd. unfold CreateTemp, syscall. unfold_M. take_fault; [|by intros [= <- <-]..].
  pose proof (resolve_dir_Dir s0 p q b d Hp ltac:(by eapply dir_at_step)) as Hr. rewrite Hr.
  unfold pop_rand. destruct (os_rand s0) as [|x xs]; simpl; rewrite H;
    destruct (os_tree s !! _) eqn:En; intros [= <- <-]; simpl; (split; [done|]); try done;
    eexists; (split; [done|]); (split; [done|]); unfold masked; by destruct H0 as (_ & -> & ->).
Qed.

Lemma tmp_Write_spec s h f data r s' :
  os_tree s !! tmp_at h = Some (IFile f) → tmp_Write h data s = (r, s') →
  same_env s s'
  ∧ ∃ f', os_tree s' = <[tmp_at h := IFile f']> (os_tree s) ∧ f_perm f' = f_perm f
     ∧ (r = None → f_data f' = f_data f ++ data ∧ f_mtime f' = os_clock s).
Proof.
  intros Hf. unfold tmp_Write, update_tmp. unfold_M. take_fault; rewrite ?H, ?Hf; intros [= <- <-]; simpl;
    (split; [done|]).
  - eexists. split; [done|]. split; [done|]. intros _. simpl. by destruct H0 as (_ & _ & ->).
  - exists f. rewrite insert_id by done. done.
  - eexists. split; [done|]. by split.
Qed.

Lemma tmp_Chmod_spec s h f perm r s' :
  os_tree s !! tmp_at h = Some (IFile f) → tmp_Chmod h perm s = (r, s') →
  same_env s s'
  ∧ ∃ f', os_tree s' = <[tmp_at h := IFile f']> (os_tree s) ∧ f_data f' = f_data f
     ∧ f_mtime f' = f_mtime f ∧ (f_perm f' = f_perm f ∨ f_perm f' = perm) ∧ (r = None → f_perm f' = perm).
Proof.
  intros Hf. unfold tmp_Chmod, update_tmp. unfold_M. take_fault; rewrite ?H, ?Hf; intros [= <- <-]; simpl;
    (split; [done|]).
  - eexists. split; [done|]. simpl. auto.
  - exists f. rewrite insert_id by done. split_and!; try done. by left.
  - exists f. rewrite insert_id by done. split_and!; try done. by left.
Qed.

Lemma tmp_Close_spec s h r s' :
  tmp_Close h s = (r, s') → os_tree s' = os_tree s ∧ same_env s s'.
Proof. unfold tmp_Close. unfold_M. take_fault; by intros [= <- <-]. Qed.

(** Renaming a file over a name that is not a directory. *)
Lemma Rename_spec s old new b b' f r s' :
  locate s old = Ok (d, b) → locate s new = Ok (d, b') →
  os_tree s !! (d ++ [b]) = Some (IFile f) → os_tree s !! (d ++ [b']) ≠ Some IDir →
  Rename old new s = (r, s') →
  same_env s s' ∧
  match r with
  | Some _ => os_tree s' = os_tree s
  | None => os_tree s' = <[d ++ [b'] := IFile f]> (delete (d ++ [b]) (os_tree s))
  end.
Proof.
  intros Ho Hn Hf Hnd. unfold Rename. unfold_M. take_fault; [|by intros [= <- <-]..].
  assert (∀ p0 x, locate s p0 = Ok x → locate s0 p0 = Ok x) as Hloc.
  { intros p0 x. unfold locate. rewrite H. by destruct H0 as (-> & _). }
  rewrite (Hloc _ _ Ho), (Hloc _ _ Hn). unfold rename_entry. rewrite H, Hf.
  destruct (os_tree s !! (d ++ [b'])) as [[f'| |tg]|]; try done; by intros [= <- <-].
Qed.

Lemma Remove_spec s p b r s' :
  locate s p = Ok (d, b) → dir_part (os_tree s !! (d ++ [b])) = None →
  Remove p s = (r, s') →
  same_env s s' ∧ (os_tree s' = os_tree s ∨ os_tree s' = delete (d ++ [b]) (os_tree s))
  ∧ (r = None → os_tree s' = delete (d ++ [b]) (os_tree s)).
Proof.
  intros Ho Hk. unfold Remove. unfold_M. take_fault; [|by intros [= <- <-]; split_and!; try done; left..].
  assert (locate s0 p = Ok (d, b)) as ->.
  { revert Ho. unfold locate. rewrite H. by destruct H0 as (-> & _). }
  rewrite H. destruct (os_tree s !! (d ++ [b])) as [[f| |tg]|]; try done;
    intros [= <- <-]; simpl; rewrite ?H; split_and!; try done; auto.
Qed.
End Calls.

(** ** The calls when nothing fails *)

Section NoFaults.
Context (q : string) (d : phys) (s : OS) (Hnf : os_faults s = []).

Lemma entry_at_snoc (t : tree) (d' : phys) b : entry_at t (d' ++ [b]) = t !! (d' ++ [b]).
Proof. unfold entry_at. destruct (d' ++ [b]) eqn:E; [by destruct d'|done]. Qed.

Lemma ReadFile_ok p b f :
  file_path p q b → dir_at s q d → os_tree s !! (d ++ [b]) = Some (IFile f) →
  ReadFile p s = (Ok (f_data f), s).
Proof.
  intros Hp Hd Hf. unfold ReadFile, syscall. unfold_M. rewrite next_fault_none by done.
  rewrite (resolve_file s p q b d Hp Hd) by (intros tg; by rewrite Hf). by rewrite entry_at_snoc, Hf.
Qed.

Lemma ReadFile_absent p b :
  file_path p q b → dir_at s q d → os_tree s !! (d ++ [b]) = None →
  ReadFile p s = (Err (Errno ENOENT), s).
Proof.
  intros Hp Hd Hf. unfold ReadFile, syscall. unfold_M. rewrite next_fault_none by done.
  rewrite (resolve_file s p q b d Hp Hd) by (intros tg; by rewrite Hf). by rewrite entry_at_snoc, Hf.
Qed.

Lemma WriteFile_ok p b data perm :
  file_path p q b → dir_at s q d → dir_part (os_tree s !! (d ++ [b])) = None →
  WriteFile p data perm s
  = (None, set_tree (<[d ++ [b] := IFile (written s (d ++ [b]) data perm)]> (os_tree s)) s).
Proof.
  intros Hp Hd Hf. unfold WriteFile. unfold_M. rewrite next_fault_none by done.
  rewrite (resolve_file s p q b d Hp Hd) by (intros tg Htg; by rewrite Htg in Hf).
  rewrite entry_at_snoc. by destruct (os_tree s !! (d ++ [b])) as [[f| |tg]|].
Qed.

Lemma CreateTemp_ok dir :
  resolve_dir s dir = Ok d → (∀ n, os_tree s !! (d ++ [tmp_name n]) = None) → ∃ n s',
  CreateTemp dir s
    = (Ok (mkTmp (d ++ [tmp_name n]) (dir +:+ (if HasSuffix dir "/" then "" else "/") +:+ tmp_name n)), s')
  ∧ os_tree s' = <[d ++ [tmp_name n] := IFile (mkFile [] (masked s 384) (os_clock s))]> (os_tree s)
  ∧ same_env s s' ∧ os_faults s' = [].
Proof.
  intros Hd Hfree. unfold CreateTemp, syscall. unfold_M. rewrite next_fault_none by done. rewrite Hd.
  unfold pop_rand. destruct (os_rand s) as [|x xs]; rewrite Hfree; eexists _, _; split_and!; done.
Qed.

Lemma tmp_Write_ok h f data :
  os_tree s !! tmp_at h = Some (IFile f) →
  tmp_Write h data s
  = (None, set_tree (<[tmp_at h := IFile (mkFile (f_data f ++ data) (f_perm f) (os_clock s))]> (os_tree s)) s).
Proof.
  intros Hf. unfold tmp_Write, update_tmp. unfold_M. rewrite next_fault_none by done. by rewrite Hf.
Qed.

Lemma tmp_Chmod_ok h f perm :
  os_tree s !! tmp_at h = Some (IFile f) →
  tmp_Chmod h perm s
  = (None, set_tree (<[tmp_at h := IFile (mkFile (f_data f) perm (f_mtime f))]> (os_tree s)) s).
Proof.
  intros Hf. unfold tmp_Chmod, update_tmp. unfold_M. rewrite next_fault_none by done. by rewrite Hf.
Qed.

Lemma tmp_Close_ok h : tmp_Close h s = (None, s).
Proof. unfold tmp_Close. unfold_M. by rewrite next_fault_none. Qed.

Lemma Rename_ok old new d' b b' f :
  locate s old = Ok (d, b) → locate s new = Ok (d', b') →
  os_tree s !! (d ++ [b]) = Some (IFile f) → os_tree s !! (d' ++ [b']) ≠ Some IDir →
  Rename old new s = (None, set_tree (<[d' ++ [b'] := IFile f]> (delete (d ++ [b]) (os_tree s))) s).
Proof.
  intros Ho Hn Hf Hnd. unfold Rename. unfold_M. rewrite next_fault_none by done.
  rewrite Ho, Hn. unfold rename_entry. rewrite Hf.
  by destruct (os_tree s !! (d' ++ [b'])) as [[f'| |tg]|].
Qed.

Lemma Remove_absent p b :
  locate s p = Ok (d, b) → os_tree s !! (d ++ [b]) = None → Remove p s = (Some (Errno ENOENT), s).
Proof.
  intros Ho Hf. unfold Remove. unfold_M. rewrite next_fault_none by done. by rewrite Ho, Hf.
Qed.

Lemma Stat_file p b f :
  file_path p q b → dir_at s q d → os_tree s !! (d ++ [b]) = Some (IFile f) →
  Stat p s = (Ok (mkInfo false (f_perm f) (f_mtime f)), s).
Proof.
  intros Hp Hd Hf. unfold Stat, syscall. unfold_M. rewrite next_fault_none by done.
  rewrite (resolve_file s p q b d Hp Hd) by (intros tg; by rewrite Hf). by rewrite entry_at_snoc, Hf.
Qed.

Lemma Stat_absent p b :
  file_path p q b → dir_at s q d → os_tree s !! (d ++ [b]) = None →
  Stat p s = (Err (Errno ENOENT), s).
Proof.
  intros Hp Hd Hf. unfold Stat, syscall. unfold_M. rewrite next_fault_none by done.
  rewrite (resolve_file s p q b d Hp Hd) by (intros tg; by rewrite Hf). by rewrite entry_at_snoc, Hf.
Qed.
End NoFaults.

(** ** Listing a directory *)

Lemma child_name_spec d k b : child_name d k = Some b ↔ k = d ++ [b].
Proof.
  unfold child_name. split.
  - destruct (last k) as [b'|]; [|done]. case_decide; [|done]. by intros [= <-].
  - intros ->. rewrite last_snoc. by rewrite decide_True.
Qed.

Lemma children_elem t d b i : (b, i) ∈ children t d ↔ t !! (d ++ [b]) = Some i.
Proof.
  unfold children. rewrite merge_sort_Permutation, list_elem_of_omap. split.
  - intros ([k i'] & Hin & Hb). apply elem_of_map_to_list in Hin.
    destruct (child_name d k) as [b'|] eqn:E; [|done]. simplify_eq/=.
    apply child_name_spec in E as ->. done.
  - intros H. exists (d ++ [b], i). split; [by apply elem_of_map_to_list|].
    by rewrite (proj2 (child_name_spec d (d ++ [b]) b) eq_refl).
Qed.

Lemma omap_children_NoDup d (l : list (phys * inode)) :
  NoDup l.*1 → NoDup (omap (λ '(k, i), (λ b, (b, i)) <$> child_name d k) l).*1.
Proof.
  induction l as [|[k i] l IH]; intros Hnd; [constructor|]. simpl in *.
  apply NoDup_cons in Hnd as [Hk Hnd]. specialize (IH Hnd).
  destruct (child_name d k) as [b|] eqn:E; simpl; [|done]. constructor; [|done].
  intros ([b' i'] & -> & Hin)%list_elem_of_fmap. apply list_elem_of_omap in Hin as ([k' i2] & Hin & Hb).
  destruct (child_name d k') as [b2|] eqn:E'; [|done]. simplify_eq/=.
  apply child_name_spec in E as ->. apply child_name_spec in E' as ->.
  apply Hk. apply list_elem_of_fmap. by exists (d ++ [b'], i').
Qed.

Lemma children_NoDup t d : NoDup (children t d).*1.
Proof.
  unfold children. rewrite (merge_sort_Permutation (λ x y, str_le x.1 y.1)).
  apply omap_children_NoDup. apply NoDup_fst_map_to_list.
Qed.

Lemma follow_id t d b links :
  (∀ tg, t !! (d ++ [b]) ≠ Some (ILink tg)) → follow links t d b = Ok (d ++ [b]).
Proof.
  intros Hl. destruct links; simpl; destruct (t !! (d ++ [b])) as [[f| |tg]|] eqn:E;
    try done; by destruct (Hl tg).
Qed.

Lemma ReadDir_ok s p q b d :
  os_faults s = [] → file_path p q b → dir_at s q d → os_tree s !! (d ++ [b]) = Some IDir →
  ReadDir p s = (Ok ((λ '(n, i), mkDirent n (if i is IDir then true else false)) <$> children (os_tree s) (d ++ [b])), s).
Proof.
  intros Hnf Hp Hd Hk. unfold ReadDir, syscall. unfold_M. rewrite next_fault_none by done.
  rewrite (resolve_file s p q b d Hp Hd) by (intros tg; by rewrite Hk). by rewrite entry_at_snoc, Hk.
Qed.

(** The path of a name in a directory, as [filepath.Join] writes it. *)
Lemma Join2 dir name : dir ≠ "" → Join [dir; name] = Clean (dir +:+ String sep name).
Proof. intros Hd. unfold Join. apply String.eqb_neq in Hd. by rewrite Hd. Qed.

Lemma join_snoc l b : l ≠ [] → join_char sep (l ++ [b]) = join_char sep l +:+ String sep b.
Proof.
  induction l as [|c l IH]; [done|]. intros _. destruct l as [|c' l]; [done|].
  change (join_char sep ((c :: c' :: l) ++ [b])) with (c +:+ String sep (join_char sep ((c' :: l) ++ [b]))).
  rewrite IH by done. simpl. by rewrite str_app_assoc.
Qed.

(** [Join] of a directory and a good name is a path in that directory. *)
Lemma Join_file_path dir name :
  plain_path dir → IsAbs dir = true → good_name name = true →
  ∃ q, file_path (Join [dir; name]) q name ∧ comps q = comps dir ∧ IsAbs (q +:+ "/") = true.
Proof.
  intros Hdir Habs Hname.
  rewrite Join2 by (by intros ->). unfold Clean.
  assert (IsAbs (dir +:+ String sep name) = true) as -> by (by destruct dir).
  rewrite comps_app_slash, (comps_name _ Hname), clean_go_good.
  2: { apply Forall_app. split; [exact Hdir|by repeat constructor]. }
  simpl. destruct (decide (comps dir = [])) as [E|Hne].
  - exists "". rewrite E. split_and!; try done. by repeat constructor.
  - exists (String sep (join_char sep (comps dir))). rewrite join_snoc by done. split_and!.
    + split_and!; [done|done|]. unfold plain_path. by rewrite comps_slash, comps_join.
    + by rewrite comps_slash, comps_join.
    + done.
Qed.

(** An absolute directory path without "..", and the directory it names. *)
Record abs_dir (s : OS) (dir : string) (d : phys) : Prop := {
  ad_plain : plain_path dir;
  ad_abs : IsAbs dir = true;
  ad_walk : walk max_links (os_tree s) [] (comps dir) = Ok d;
  ad_resolve : resolve s dir = Ok d;
  ad_entry : entry_at (os_tree s) d = Some IDir
}.

Lemma abs_dir_file s dir d name :
  abs_dir s dir d → good_name name = true → ∃ q, file_path (Join [dir; name]) q name ∧ dir_at s q d.
Proof.
  intros [Hp Ha Hw _ _] Hn. destruct (Join_file_path dir name Hp Ha Hn) as (q & Hq & Hc & Hab).
  exists q. split; [exact Hq|]. unfold dir_at, resolve_dir, start_of.
  rewrite Hab, comps_slash_r, Hc. exact Hw.
Qed.

Lemma locate_dirs_le s s' p r :
  dirs_le (os_tree s) (os_tree s') → os_cwd s' = os_cwd s → locate s p = Ok r → locate s' p = Ok r.
Proof. intros Hs Hc. unfold locate. rewrite Hc. by apply locate_from_dirs_le. Qed.

Lemma resolve_dirs_le s s' p r :
  dirs_le (os_tree s) (os_tree s') → os_cwd s' = os_cwd s → resolve s p = Ok r → resolve s' p = Ok r.
Proof.
  intros Hs Hc. unfold resolve. destruct (String.eqb p ""); [done|]. rewrite Hc.
  case_decide; [done|]. destruct (locate s p) as [[d b]|e] eqn:E; [|done].
  rewrite (locate_dirs_le s s' p _ Hs Hc E). by apply follow_dirs_le.
Qed.

Lemma entry_at_dirs_le t t' k : dirs_le t t' → entry_at t k = Some IDir → entry_at t' k = Some IDir.
Proof.
  intros [Hs _]. unfold entry_at. destruct k as [|x k]; [done|]. intros E. apply Hs. by rewrite E.
Qed.

Lemma abs_dir_le s s' dir d :
  dirs_le (os_tree s) (os_tree s') → os_cwd s' = os_cwd s → abs_dir s dir d → abs_dir s' dir d.
Proof.
  intros Hs Hc [Hp Ha Hw Hr He]. split; [exact Hp|exact Ha| | |].
  - eapply walk_dirs_le; [exact Hs|exact Hw].
  - eapply resolve_dirs_le; [exact Hs|exact Hc|exact Hr].
  - eapply entry_at_dirs_le; [exact Hs|exact He].
Qed.

Lemma abs_dir_step s s' dir d :
  same_dirs (os_tree s) (os_tree s') → os_cwd s' = os_cwd s → abs_dir s dir d → abs_dir s' dir d.
Proof. intros Hs%same_dirs_le. by apply abs_dir_le. Qed.

(** ** Creating a directory *)

Lemma walk_snoc links t cur todo d c :
  walk links t cur todo = Ok d → t !! (d ++ [c]) = Some IDir → c ≠ ".." →
  walk links t cur (todo ++ [c]) = Ok (d ++ [c]).
Proof.
  intros Hw Hc Hdd. apply String.eqb_neq in Hdd. revert cur todo Hw.
  induction links as [|l IHl]; intros cur todo; revert cur;
    induction todo as [|c' todo IH]; intros cur; simpl;
    try (intros [= ->]; by rewrite Hdd, Hc);
    (destruct (String.eqb c' ".."); [apply IH|]);
    destruct (t !! (cur ++ [c'])) as [[f| |tg]|]; try done; try apply IH.
  intros Hw. rewrite app_assoc. by apply IHl.
Qed.

(** Lookup sees the components of a path and whether it is absolute. *)
Lemma resolve_ext s p p' :
  p ≠ "" → p' ≠ "" → comps p = comps p' → IsAbs p = IsAbs p' → resolve s p = resolve s p'.
Proof.
  intros Hp%String.eqb_neq Hp'%String.eqb_neq Hc Ha. unfold resolve, locate, locate_from, start_of.
  by rewrite Hp, Hp', Hc, Ha.
Qed.

Lemma Stat_dir s p d :
  os_faults s = [] → resolve s p = Ok d → entry_at (os_tree s) d = Some IDir →
  Stat p s = (Ok (mkInfo true 493 (os_clock s)), s).
Proof.
  intros Hnf Hr He. unfold Stat, syscall. unfold_M. rewrite next_fault_none by done. by rewrite Hr, He.
Qed.

Lemma MkdirAll_exists s p d :
  os_faults s = [] → resolve s p = Ok d → entry_at (os_tree s) d = Some IDir →
  MkdirAll p s = (None, s).
Proof.
  intros Hnf Hr He. unfold MkdirAll. destruct (length (comps p)); simpl; unfold_M;
    by rewrite (Stat_dir s p d Hnf Hr He).
Qed.

(** An existing directory below an absolute one. *)
Lemma abs_dir_child s parent pd name :
  abs_dir s parent pd → good_name name = true → os_tree s !! (pd ++ [name]) = Some IDir →
  abs_dir s (Join [parent; name]) (pd ++ [name]).
Proof.
  intros Had Hn Hk. pose proof Had as [Hp Ha Hw _ _].
  destruct (abs_dir_file s parent pd name Had Hn) as (q & Hq & Hdq).
  destruct (Join_file_path parent name Hp Ha Hn) as (q' & Hq' & Hcq & _).
  pose proof (file_path_comps _ _ _ Hq') as Hcomps. rewrite Hcq in Hcomps.
  split.
  - unfold plain_path. rewrite Hcomps. apply Forall_app. split; [exact Hp|by repeat constructor].
  - rewrite Join2 by (by intros ->). apply IsAbs_Clean. by destruct parent.
  - rewrite Hcomps. apply walk_snoc; [exact Hw|exact Hk|]. by apply good_name_spec in Hn as (_ & Hdd & _).
  - apply (resolve_file s _ q name pd Hq Hdq). intros tg. by rewrite Hk.
  - by rewrite entry_at_snoc.
Qed.

(** The directory of a path below it. *)
Lemma resolve_Dir_Join s parent pd name :
  abs_dir s parent pd → good_name name = true → resolve s (Dir (Join [parent; name])) = Ok pd.
Proof.
  intros [Hp Ha Hw Hr He] Hn. destruct (Join_file_path parent name Hp Ha Hn) as (q & Hq & Hcq & Haq).
  rewrite <-Hr. rewrite (Dir_file_path _ _ _ Hq). destruct Hq as (_ & _ & Hqp).
  apply resolve_ext; [apply Clean_nonempty|by intros ->|..].
  - rewrite comps_Clean, comps_slash_r; [done|]. by apply plain_path_slash.
  - rewrite IsAbs_Clean_eq by (by apply plain_path_slash). by rewrite Ha.
Qed.

(** Creating one directory below an existing one. *)
Lemma MkdirAll_child s parent pd name :
  os_faults s = [] → abs_dir s parent pd → good_name name = true → os_tree s !! (pd ++ [name]) = None →
  let s' := set_tree (<[pd ++ [name] := IDir]> (os_tree s)) s in
  MkdirAll (Join [parent; name]) s = (None, s')
  ∧ dirs_le (os_tree s) (os_tree s') ∧ abs_dir s' (Join [parent; name]) (pd ++ [name]).
Proof.
  intros Hnf Had Hn Hk s'. pose proof Had as [Hp Ha Hw Hr He].
  destruct (Join_file_path parent name Hp Ha Hn) as (q & Hq & Hcq & Haq).
  destruct (abs_dir_file s parent pd name Had Hn) as (q' & Hq' & Hdq').
  pose proof (file_path_comps _ _ _ Hq) as Hcomps. rewrite Hcq in Hcomps.
  pose proof (resolve_Dir_Join s parent pd name Had Hn) as Hrd.
  assert (dirs_le (os_tree s) (os_tree s')) as Hle.
  { split; simpl.
    - intros k i Hi. rewrite lookup_insert_ne by (intros <-; by rewrite Hk in Hi).
      by destruct (os_tree s !! k) as [[]|]; simplify_eq/=.
    - intros k tg. rewrite lookup_insert. by case_decide. }
  split_and!; [|exact Hle|].
  - unfold MkdirAll. rewrite Hcomps, length_app, Nat.add_1_r. cbn [MkdirAll_go]. unfold_M.
    rewrite (Stat_absent q' pd s Hnf _ name Hq' Hdq' Hk).
    fold (MkdirAll (Dir (Join [parent; name]))).
    assert (∀ n, MkdirAll_go n (Dir (Join [parent; name])) s = (None, s)) as ->.
    { intros n. destruct n; simpl; unfold_M; by rewrite (Stat_dir s _ pd Hnf Hrd He). }
    unfold Mkdir. unfold_M. rewrite next_fault_none by done.
    by rewrite (locate_file s _ _ _ _ Hq' Hdq'), Hk.
  - apply abs_dir_child; [|exact Hn|apply lookup_insert_eq].
    eapply abs_dir_le; [exact Hle|done|exact Had].
Qed.

(** The contents of a file. *)
Definition content (t : tree) (k : phys) : option bytes :=
  match t !! k with Some (IFile f) => Some (f_data f) | _ => None end.

Lemma content_Some t k data : content t k = Some data ↔ ∃ f, t !! k = Some (IFile f) ∧ f_data f = data.
Proof. unfold content. destruct (t !! k) as [[]|]; naive_solver. Qed.
