(* ===== verification/GoNumber.v ===== *)
(** The parsers of numbers behind the flags of main: [strconv.ParseInt] with
    base 0, [strconv.ParseBool] and [time.ParseDuration]. Unsigned 64-bit
    arithmetic is written with its wrap-around, and the fraction of a duration
    is computed in double precision as the library does. *)

From Stdlib Require Import SpecFloat DecimalString.
From S2P Require Import Prelude GoStrings GoPath FileSystem.

Open Scope Z_scope.

Definition two63 : Z := 2 ^ 63.
Definition two64 : Z := 2 ^ 64.

(** A result of uint64 arithmetic. *)
Definition u64 (z : Z) : Z := z mod two64.

Definition code (c : ascii) : Z := Z.of_N (N_of_ascii c).

Definition is_digit (c : ascii) : bool := (48 <=? code c) && (code c <=? 57).

(** [strconv.lower]: sets the bit that tells lower case from upper case. *)
Definition lower (c : ascii) : Z := Z.lor (code c) 32.

Definition ErrSyntax : error := Errors "invalid syntax".
Definition ErrRange : error := Errors "value out of range".

(** ** Integers *)

(** The value of a digit in a base above ten; the loop checks it against the
    base. *)
Definition digit_value (c : ascii) : option Z :=
  if is_digit c then Some (code c - 48)
  else if (97 <=? lower c) && (lower c <=? 122) then Some (lower c - 97 + 10)
  else None.

(** The prefix that [strconv.ParseUint] with base 0 takes off: the base and the
    digits that follow. *)
Definition split_base (s : string) : Z * string :=
  match s with
  | String "0" (String c (String d rest)) =>
      if lower c =? 98 then (2, String d rest)
      else if lower c =? 111 then (8, String d rest)
      else if lower c =? 120 then (16, String d rest)
      else (8, String c (String d rest))
  | String "0" rest => (8, rest)
  | _ => (10, s)
  end.

(** The loop of ParseUint over the digits with a base of at most 36: [n] is the
    number so far; the flag says whether there were underscores. *)
Fixpoint uint_loop (base n : Z) (underscores : bool) (s : string) : result (Z * bool) :=
  match s with
  | EmptyString => Ok (n, underscores)
  | String c s' =>
      if Ascii.eqb c "_" then uint_loop base n true s'
      else
        match digit_value c with
        | None => Err ErrSyntax
        | Some d =>
            if base <=? d then Err ErrSyntax
            else if (two64 - 1) / base + 1 <=? n then Err ErrRange
            else
              let n' := u64 (n * base) in
              let n1 := u64 (n' + d) in
              if n1 <? n' then Err ErrRange else uint_loop base n1 underscores s'
        end
  end.

(** [strconv.underscoreOK] after the sign: what was read last is nothing, a
    digit, an underscore, or something else. *)
Inductive last_seen := SawStart | SawDigit | SawUnderscore | SawOther.

Fixpoint underscore_loop (hex : bool) (i : last_seen) (s : string) : bool :=
  match s with
  | EmptyString => match i with SawUnderscore => false | _ => true end
  | String c s' =>
      if is_digit c || (hex && ((97 <=? lower c) && (lower c <=? 102))) then underscore_loop hex SawDigit s'
      else if Ascii.eqb c "_" then
        match i with SawDigit => underscore_loop hex SawUnderscore s' | _ => false end
      else
        match i with SawUnderscore => false | _ => underscore_loop hex SawOther s' end
  end.

Definition underscoreOK (s : string) : bool :=
  match s with
  | String "0" (String c rest) =>
      if (lower c =? 98) || (lower c =? 111) || (lower c =? 120)
      then underscore_loop (lower c =? 120) SawDigit rest
      else underscore_loop false SawStart s
  | _ => underscore_loop false SawStart s
  end.

(** [strconv.ParseUint(s, 0, 64)] *)
Definition ParseUint0 (s : string) : result Z :=
  match s with
  | EmptyString => Err ErrSyntax
  | _ =>
      let '(base, digits) := split_base s in
      match uint_loop base 0 false digits with
      | Err e => Err e
      | Ok (n, underscores) => if underscores && negb (underscoreOK s) then Err ErrSyntax else Ok n
      end
  end.

(** [strconv.ParseInt(s, 0, 64)]; an error of the range is one whatever the
    sign. *)
Definition ParseInt0 (s : string) : result Z :=
  let '(neg, digits) :=
    match s with
    | String "+" s' => (false, s')
    | String "-" s' => (true, s')
    | _ => (false, s)
    end in
  match s with
  | EmptyString => Err ErrSyntax
  | _ =>
      match ParseUint0 digits with
      | Err e => Err e
      | Ok un =>
          if negb neg && (two63 <=? un) then Err ErrRange
          else if neg && (two63 <? un) then Err ErrRange
          else Ok (if neg then - un else un)
      end
  end.

(** ** Booleans *)

(** [strconv.ParseBool] *)
Definition ParseBool (s : string) : result bool :=
  if decide (s ∈ ["1"; "t"; "T"; "true"; "TRUE"; "True"]) then Ok true
  else if decide (s ∈ ["0"; "f"; "F"; "false"; "FALSE"; "False"]) then Ok false
  else Err ErrSyntax.

(** ** Durations *)

(** time.unitMap, in nanoseconds. *)
Definition unitMap : list (string * Z) :=
  [("ns", 1); ("us", 1000);
   (string_of_list_ascii (chars [194; 181; 115]%N), 1000); (string_of_list_ascii (chars [206; 188; 115]%N), 1000);
   ("ms", 1000000); ("s", 1000000000); ("m", 60 * 1000000000); ("h", 60 * 60 * 1000000000)].

Definition unit_of (u : string) : option Z := snd <$> find (λ x, String.eqb u x.1) unitMap.

(** time.leadingInt: the number at the start, and the rest; [None] on overflow. *)
Fixpoint leadingInt (x : Z) (s : string) : option (Z * string) :=
  match s with
  | EmptyString => Some (x, s)
  | String c s' =>
      if negb (is_digit c) then Some (x, s)
      else if two63 / 10 <? x then None
      else let x' := x * 10 + (code c - 48) in
           if two63 <? x' then None else leadingInt x' s'
  end.

(** float64 of an integer, with the rounding of the conversion. *)
Definition float64 (z : Z) : spec_float := binary_normalize 53 1024 z 0 false.
Definition fmul : spec_float → spec_float → spec_float := SFmul 53 1024.
Definition fdiv : spec_float → spec_float → spec_float := SFdiv 53 1024.

(** uint64 of a float64 that is not negative and small enough. *)
Definition truncate (f : spec_float) : Z :=
  match f with
  | S754_finite false m e => Z.shiftl (Zpos m) e
  | _ => 0
  end.

(** time.leadingFraction: the digits of the fraction as an integer, the power
    of ten to divide it by, and the rest. Digits that do not fit are dropped. *)
Fixpoint leadingFraction (x : Z) (scale : spec_float) (overflow : bool) (s : string) : Z * spec_float * string :=
  match s with
  | EmptyString => (x, scale, s)
  | String c s' =>
      if negb (is_digit c) then (x, scale, s)
      else if overflow then leadingFraction x scale true s'
      else if (two63 - 1) / 10 <? x then leadingFraction x scale true s'
      else let y := x * 10 + (code c - 48) in
           if two63 <? y then leadingFraction x scale true s'
           else leadingFraction y (fmul scale (float64 10)) false s'
  end.

(** The unit at the start: everything up to a period or a digit. *)
Fixpoint leadingUnit (s : string) : string * string :=
  match s with
  | EmptyString => (EmptyString, EmptyString)
  | String c s' =>
      if Ascii.eqb c "." || is_digit c then (EmptyString, s)
      else let '(u, rest) := leadingUnit s' in (String c u, rest)
  end.

(** The fraction of a number, if there is one. *)
Definition leadingPoint (s : string) : Z * spec_float * string * bool :=
  match s with
  | String "." s' =>
      let '(f, scale, rest) := leadingFraction 0 (float64 1) false s' in
      (f, scale, rest, negb (Nat.eqb (String.length s') (String.length rest)))
  | _ => (0, float64 1, s, false)
  end.

Definition bad_duration : error := Errors "time: invalid duration".

(** One number with its unit: the nanoseconds and the rest. *)
Definition durationTerm (s : string) : result (Z * string) :=
  match s with
  | EmptyString => Err bad_duration
  | String c _ =>
      if negb (Ascii.eqb c "." || is_digit c) then Err bad_duration
      else
        match leadingInt 0 s with
        | None => Err bad_duration
        | Some (v, s1) =>
            let pre := negb (Nat.eqb (String.length s) (String.length s1)) in
            let '(f, scale, s2, post) := leadingPoint s1 in
            if negb pre && negb post then Err bad_duration
            else
              let '(u, s3) := leadingUnit s2 in
              if String.eqb u "" then Err (Errors "time: missing unit in duration")
              else
                match unit_of u with
                | None => Err (Errors "time: unknown unit in duration")
                | Some unit =>
                    if two63 / unit <? v then Err bad_duration
                    else
                      let v' := u64 (v * unit) in
                      if 0 <? f then
                        let v'' := u64 (v' + truncate (fmul (float64 f) (fdiv (float64 unit) scale))) in
                        if two63 <? v'' then Err bad_duration else Ok (v'', s3)
                      else Ok (v', s3)
                end
        end
  end.

(** The loop over the terms; [None] when the fuel is used up. *)
Fixpoint duration_loop (fuel : nat) (d : Z) (s : string) : option (result Z) :=
  if String.eqb s "" then Some (Ok d)
  else
    match fuel with
    | O => None
    | S n =>
        match durationTerm s with
        | Err e => Some (Err e)
        | Ok (v, s') =>
            let d' := u64 (d + v) in
            if two63 <? d' then Some (Err bad_duration) else duration_loop n d' s'
        end
    end.

(** [time.ParseDuration] *)
Definition ParseDuration (orig : string) : option (result Z) :=
  let '(neg, s) :=
    match orig with
    | String "-" s' => (true, s')
    | String "+" s' => (false, s')
    | _ => (false, orig)
    end in
  if String.eqb s "0" then Some (Ok 0)
  else if String.eqb s "" then Some (Err bad_duration)
  else
    match duration_loop (String.length s) 0 s with
    | None => None
    | Some (Err e) => Some (Err e)
    | Some (Ok d) =>
        if neg then Some (Ok (- d))
        else if two63 - 1 <? d then Some (Err bad_duration)
        else Some (Ok d)
    end.

Example durations :
  ParseDuration "30s" = Some (Ok 30000000000) ∧ ParseDuration "1h2m3.5s" = Some (Ok 3723500000000)
  ∧ ParseDuration "-1.5h" = Some (Ok (-5400000000000)) ∧ ParseDuration ".1us" = Some (Ok 100)
  ∧ ParseDuration "30" = Some (Err (Errors "time: missing unit in duration"))
  ∧ ParseDuration "9223372036854775808ns" = Some (Err bad_duration)
  ∧ ParseDuration "0.3333333333333333333h" = Some (Ok 1200000000000)
  ∧ ParseDuration "0.9223372036854775807h" = Some (Ok 3320413933267).
Proof. vm_compute. repeat split. Qed.

Example integers :
  ParseInt0 "0x1F" = Ok 31 ∧ ParseInt0 "-010" = Ok (-8) ∧ ParseInt0 "1_000" = Ok 1000
  ∧ ParseInt0 "1__0" = Err ErrSyntax ∧ ParseInt0 "9223372036854775808" = Err ErrRange
  ∧ ParseInt0 "-9223372036854775808" = Ok (- two63) ∧ ParseInt0 "" = Err ErrSyntax ∧ ParseInt0 "0" = Ok 0.
Proof. vm_compute. repeat split. Qed.

(** ** Decimal digits *)

(** The value of decimal digits that follow a number [acc]. *)
Fixpoint dec_value (acc : Z) (s : string) : Z :=
  match s with
  | EmptyString => acc
  | String c s' => dec_value (acc * 10 + (code c - 48)) s'
  end.

Fixpoint all_digits (s : string) : bool :=
  match s with EmptyString => true | String c s' => is_digit c && all_digits s' end.

Lemma is_digit_value c : is_digit c = true → 0 ≤ code c - 48 ≤ 9.
Proof. unfold is_digit. lia. Qed.

Lemma uint_digits d : all_digits (NilEmpty.string_of_uint d) = true.
Proof. induction d; simpl; auto. Qed.

Lemma dec_value_acc d acc :
  dec_value (Zpos acc) (NilEmpty.string_of_uint d) = Zpos (Pos.of_uint_acc d acc).
Proof.
  revert acc. induction d; intros acc; simpl; [done|..]; rewrite <-IHd; f_equal; unfold code; simpl; lia.
Qed.

Lemma dec_value_uint d : dec_value 0 (NilEmpty.string_of_uint d) = Z.of_uint d.
Proof.
  unfold Z.of_uint. induction d; simpl; [done|exact IHd|..]; rewrite <-dec_value_acc; done.
Qed.

(** Digits only increase a number. *)
Lemma dec_value_le acc s : 0 ≤ acc → all_digits s = true → acc ≤ dec_value acc s.
Proof.
  revert acc. induction s as [|c s IH]; intros acc Hacc; simpl; [lia|].
  intros [Hc%is_digit_value Hs]%andb_true_iff. specialize (IH (acc * 10 + (code c - 48)) ltac:(lia) Hs). lia.
Qed.

(** A positive number is printed without a leading zero. *)
Lemma to_uint_no_zero p d : Pos.to_uint p ≠ Decimal.D0 d.
Proof.
  intros E. pose proof (DecimalPos.Unsigned.to_of (Pos.to_uint p)) as Hn.
  rewrite DecimalPos.Unsigned.of_to in Hn. simpl in Hn.
  pose proof (DecimalPos.Unsigned.to_uint_nonzero p) as H0. rewrite Hn in E, H0.
  unfold Decimal.unorm in *. pose proof (DecimalFacts.nzhead_nonzero (Pos.to_uint p)) as Hh.
  destruct (Decimal.nzhead (Pos.to_uint p)); try done. by apply (Hh u).
Qed.

(** How an integer is printed: a sign and digits of its absolute value, without
    a leading zero unless it is zero. *)
Lemma FormatInt_digits z : ∃ s, FormatInt z = (if z <? 0 then String "-" s else s)
  ∧ all_digits s = true ∧ dec_value 0 s = Z.abs z ∧ s ≠ ""
  ∧ (∀ t, s = String "0" t → t = "").
Proof.
  unfold FormatInt. destruct z as [|p|p]; [exists "0"; split_and!; try done; by intros t [= <-]|..];
    exists (NilEmpty.string_of_uint (Pos.to_uint p));
    pose proof (DecimalPos.Unsigned.to_uint_nonnil p) as Hne;
    pose proof (to_uint_no_zero p) as Hz;
    (split_and!; [simpl; by rewrite NilZero_string_of_uint|apply uint_digits|
       rewrite dec_value_uint; unfold Z.of_uint; by rewrite DecimalPos.Unsigned.of_to|by destruct (Pos.to_uint p)|]);
    intros t E; destruct (Pos.to_uint p); try discriminate E; by destruct (Hz u).
Qed.

(** ** Integers do not wrap *)

Lemma digit_value_digit c : is_digit c = true → digit_value c = Some (code c - 48).
Proof. unfold digit_value. by intros ->. Qed.

Lemma digit_not_underscore c : is_digit c = true → Ascii.eqb c "_" = false.
Proof. intros H. apply Ascii.eqb_neq. by intros ->. Qed.

(** One step of the loop: the two checks say exactly that the next number does
    not fit, and otherwise nothing wraps. *)
Lemma uint_step base n d :
  2 ≤ base ≤ 36 → 0 ≤ n < two64 → 0 ≤ d < base →
  (if (two64 - 1) / base + 1 <=? n then None
   else if u64 (u64 (n * base) + d) <? u64 (n * base) then None else Some (u64 (u64 (n * base) + d)))
  = if n * base + d <? two64 then Some (n * base + d) else None.
Proof.
  intros Hb Hn Hd. assert (36 < two64) as H36 by done. set (T := two64) in *. unfold u64. fold T.
  pose proof (Z.div_mod (T - 1) base ltac:(lia)) as Hdm. pose proof (Z.mod_pos_bound (T - 1) base ltac:(lia)) as Hmb.
  destruct (Z.leb_spec ((T - 1) / base + 1) n) as [Hge|Hlt].
  - rewrite (proj2 (Z.ltb_ge _ _)) by nia. done.
  - rewrite (Z.mod_small (n * base)) by nia.
    destruct (Z.ltb_spec (n * base + d) T) as [Hfit|Hover].
    + rewrite Z.mod_small by nia. by rewrite (proj2 (Z.ltb_ge _ _)) by lia.
    + assert ((n * base + d) mod T = n * base + d - T) as ->.
      { rewrite <-(Z.mod_small (n * base + d - T) T) by nia. rewrite <-(Z_mod_plus_full (n * base + d - T) 1 T). f_equal. lia. }
      by rewrite (proj2 (Z.ltb_lt _ _)) by nia.
Qed.

(** Decimal digits are read exactly, or the error is that of the range. *)
Lemma uint_loop_dec n u s :
  0 ≤ n < two64 → all_digits s = true →
  uint_loop 10 n u s = if dec_value n s <? two64 then Ok (dec_value n s, u) else Err ErrRange.
Proof.
  revert n. induction s as [|c s IH]; intros n Hn; simpl.
  { intros _. by rewrite (proj2 (Z.ltb_lt _ _)) by lia. }
  intros [Hc Hs]%andb_true_iff. rewrite digit_not_underscore, digit_value_digit by done.
  apply is_digit_value in Hc. rewrite (proj2 (Z.leb_gt 10 (code c - 48))) by lia.
  pose proof (uint_step 10 n (code c - 48) ltac:(lia) Hn ltac:(lia)) as Hstep.
  destruct ((two64 - 1) / 10 + 1 <=? n) eqn:E1; [|destruct (u64 (u64 (n * 10) + (code c - 48)) <? u64 (n * 10)) eqn:E2].
  1,2: destruct (Z.ltb_spec (n * 10 + (code c - 48)) two64) as [Hlt|Hge]; [done|];
    pose proof (dec_value_le (n * 10 + (code c - 48)) s ltac:(lia) Hs);
    by rewrite (proj2 (Z.ltb_ge _ _)) by lia.
  destruct (Z.ltb_spec (n * 10 + (code c - 48)) two64) as [Hlt|Hge]; [|done].
  injection Hstep as ->. apply IH; [lia|done].
Qed.

Lemma split_base_dec s : s ≠ "" → all_digits s = true → (∀ t, s = String "0" t → t = "") →
  match split_base s with (b, ds) => (b = 10 ∧ ds = s) ∨ (s = "0" ∧ b = 8 ∧ ds = "") end.
Proof.
  intros Hne _ Hz. destruct s as [|c s]; [done|].
  destruct (decide (c = "0"%char)) as [->|Hc]; [rewrite (Hz s eq_refl); simpl; by right|].
  destruct c as [[] [] [] [] [] [] [] []]; try (left; split; reflexivity). by destruct Hc.
Qed.

Lemma uint_loop_range base n u s : 0 ≤ n < two64 →
  match uint_loop base n u s with Ok (m, _) => 0 ≤ m < two64 | Err _ => True end.
Proof.
  revert n u. induction s as [|c s IH]; intros n u Hn; simpl; [done|].
  destruct (Ascii.eqb c "_"); [by apply IH|]. destruct (digit_value c) as [d|]; [|done].
  destruct (base <=? d); [done|]. destruct ((two64 - 1) / base + 1 <=? n); [done|].
  destruct (u64 (u64 (n * base) + d) <? u64 (n * base)); [done|]. apply IH, Z.mod_pos_bound. done.
Qed.

(** What ParseInt accepts fits in 64 bits. *)
Lemma ParseInt0_range s z : ParseInt0 s = Ok z → int64_ok z.
Proof.
  assert (∀ t n, ParseUint0 t = Ok n → 0 ≤ n) as Hnn.
  { intros t n. unfold ParseUint0. destruct t; [done|]. destruct (split_base _) as [b ds].
    pose proof (uint_loop_range b 0 false ds ltac:(done)) as Hr. destruct (uint_loop b 0 false ds) as [[m u]|]; [|done].
    case_match; [done|]. intros [= <-]. lia. }
  unfold ParseInt0. destruct s as [|c s]; [done|].
  destruct (match String c s with String "+" s' => (false, s') | String "-" s' => (true, s') | _ => (false, String c s) end) as [neg ds].
  destruct (ParseUint0 ds) as [un|e] eqn:E; [|done]. apply Hnn in E. unfold int64_ok, two63.
  destruct neg; simpl; [destruct (Z.ltb_spec (2 ^ 63) un)|destruct (Z.leb_spec (2 ^ 63) un)]; try done; intros [= <-]; lia.
Qed.

(** An integer printed in decimal is read back, unless it does not fit. *)
Lemma ParseInt0_FormatInt z : ParseInt0 (FormatInt z) = if decide (int64_ok z) then Ok z else Err ErrRange.
Proof.
  destruct (FormatInt_digits z) as (s & -> & Hd & Hv & Hne & Hz).
  assert (ParseUint0 s = if Z.abs z <? two64 then Ok (Z.abs z) else Err ErrRange) as Hu.
  { unfold ParseUint0. destruct s as [|c s]; [done|].
    pose proof (split_base_dec (String c s) Hne Hd Hz) as Hb. destruct (split_base (String c s)) as [b ds].
    destruct Hb as [[-> ->]|(E & -> & ->)].
    - rewrite uint_loop_dec by done. rewrite Hv. by destruct (Z.abs z <? two64).
    - rewrite E in Hv. rewrite <-Hv. reflexivity. }
  unfold ParseInt0. destruct s as [|c s]; [done|].
  assert (∀ c', c' = "+"%char ∨ c' = "-"%char → c ≠ c') as Hsign.
  { intros c' Hc' ->. simpl in Hd. by destruct Hc' as [-> | ->]. }
  destruct (Z.ltb_spec z 0) as [Hneg|Hpos].
  - rewrite Hu. unfold int64_ok, two64, two63. destruct (Z.ltb_spec (Z.abs z) (2 ^ 64)); simpl.
    + destruct (Z.ltb_spec (2 ^ 63) (Z.abs z)); [by rewrite decide_False by lia|rewrite decide_True by lia; f_equal; lia].
    + by rewrite decide_False by lia.
  - replace (match String c s with String "+" s' => (false, s') | String "-" s' => (true, s') | _ => (false, String c s) end)
      with (false, String c s).
    2: { pose proof (Hsign "+"%char ltac:(by left)). pose proof (Hsign "-"%char ltac:(by right)).
         by destruct c as [[] [] [] [] [] [] [] []]. }
    rewrite Hu. unfold int64_ok, two64, two63. destruct (Z.ltb_spec (Z.abs z) (2 ^ 64)); simpl.
    + destruct (Z.leb_spec (2 ^ 63) (Z.abs z)); [by rewrite decide_False by lia|rewrite decide_True by lia; f_equal; lia].
    + by rewrite decide_False by lia.
Qed.

(** ** Durations end and fit *)

Lemma leadingInt_length x s v r : leadingInt x s = Some (v, r) → (String.length r ≤ String.length s)%nat.
Proof.
  revert x. induction s as [|c s IH]; intros x; simpl; [by intros [= _ <-]|].
  destruct (is_digit c); simpl; [|by intros [= _ <-]].
  destruct (two63 / 10 <? x); [done|]. destruct (two63 <? _); [done|]. intros H%IH. lia.
Qed.

Lemma leadingFraction_length x f o s : (String.length (leadingFraction x f o s).2 ≤ String.length s)%nat.
Proof.
  revert x f o. induction s as [|c s IH]; intros x f o; simpl; [lia|].
  destruct (is_digit c); simpl; [|lia]. repeat case_match; etrans; try apply IH; lia.
Qed.

Lemma leadingPoint_length s : (String.length (leadingPoint s).1.2 ≤ String.length s)%nat.
Proof.
  unfold leadingPoint. repeat case_match; simpl; try lia.
  match goal with H : leadingFraction ?x ?f ?o ?t = _ |- _ => pose proof (leadingFraction_length x f o t) as Hl; rewrite H in Hl end.
  simpl in Hl. lia.
Qed.

Lemma leadingUnit_length s : (String.length (leadingUnit s).1 + String.length (leadingUnit s).2 = String.length s)%nat.
Proof.
  induction s as [|c s IH]; simpl; [done|]. destruct (Ascii.eqb c "." || is_digit c); [done|].
  destruct (leadingUnit s); simpl in *. lia.
Qed.

(** Each round takes at least the unit off. *)
Lemma durationTerm_shorter s v r : durationTerm s = Ok (v, r) → (String.length r < String.length s)%nat.
Proof.
  unfold durationTerm. destruct s as [|c s]; [done|]. set (t := String c s).
  destruct (negb _); [done|]. destruct (leadingInt 0 t) as [[x s1]|] eqn:E1; [|done].
  apply leadingInt_length in E1. pose proof (leadingPoint_length s1) as H2.
  destruct (leadingPoint s1) as [[[f sc] s2] post]. destruct (negb _ && _); [done|].
  pose proof (leadingUnit_length s2) as H3. destruct (leadingUnit s2) as [u s3]. simpl in *.
  destruct (String.eqb_spec u "") as [|Hu]; [done|]. assert (String.length u ≠ 0)%nat by (by destruct u).
  repeat case_match; try done; intros [= _ <-]; lia.
Qed.

Lemma durationTerm_nonneg s v r : durationTerm s = Ok (v, r) → 0 ≤ v.
Proof.
  unfold durationTerm. destruct s as [|c s]; [done|]. repeat case_match; try done;
    intros [= <- _]; by apply Z.mod_pos_bound.
Qed.

(** The fuel is enough, and the sum stays within its bound. *)
Lemma duration_loop_ok n d s : 0 ≤ d ≤ two63 → (String.length s ≤ n)%nat →
  ∃ r, duration_loop n d s = Some r ∧ ∀ z, r = Ok z → 0 ≤ z ≤ two63.
Proof.
  revert d s. induction n as [|n IH]; intros d s Hd Hn; simpl;
    (destruct (String.eqb_spec s "") as [|Hs]; [exists (Ok d); split; [done|]; by intros z [= <-]|]).
  { destruct s; simpl in Hn; [done|lia]. }
  destruct (durationTerm s) as [[v r]|e] eqn:E; [|by exists (Err e)].
  pose proof (durationTerm_shorter _ _ _ E). destruct (Z.ltb_spec two63 (u64 (d + v))); [by eexists|].
  apply IH; [|lia]. split; [by apply Z.mod_pos_bound|lia].
Qed.

(** Splitting off the sign, as ParseDuration does. *)
Lemma ParseDuration_sign neg s :
  (neg = false → ∀ c t, s = String c t → c ≠ "-"%char ∧ c ≠ "+"%char) →
  s ≠ "0" → s ≠ "" →
  ParseDuration (if neg then String "-" s else s) =
    match duration_loop (String.length s) 0 s with
    | Some (Ok d) => if neg then Some (Ok (- d)) else if two63 - 1 <? d then Some (Err bad_duration) else Some (Ok d)
    | r => r
    end.
Proof.
  intros Hs H0 Hne. unfold ParseDuration. destruct neg.
  - rewrite (proj2 (String.eqb_neq _ _) H0), (proj2 (String.eqb_neq _ _) Hne).
    by destruct (duration_loop _ 0 s) as [[|]|].
  - destruct s as [|c t]; [done|]. destruct (Hs eq_refl c t eq_refl) as [H1 H2].
    replace (match String c t with String "-" s' => (true, s') | String "+" s' => (false, s') | _ => (false, String c t) end)
      with (false, String c t) by (by destruct c as [[] [] [] [] [] [] [] []]).
    rewrite (proj2 (String.eqb_neq _ _) H0), (proj2 (String.eqb_neq _ _) Hne).
    by destruct (duration_loop _ 0 _) as [[|]|].
Qed.

(** The integers and the durations of flags: parsing ends on every string, with
    a value of 64 bits or an error. *)
Lemma ParseDuration_total s : ∃ r, ParseDuration s = Some r ∧ ∀ z, r = Ok z → int64_ok z.
Proof.
  unfold ParseDuration.
  destruct (match s with String "-" s' => (true, s') | String "+" s' => (false, s') | _ => (false, s) end) as [neg t].
  destruct (String.eqb t "0"); [exists (Ok 0); split; [done|]; by intros z [= <-]|].
  destruct (String.eqb t ""); [by eexists|].
  destruct (duration_loop_ok (String.length t) 0 t ltac:(done) ltac:(done)) as (r & -> & Hr).
  destruct r as [d|e]; [|by eexists]. specialize (Hr d eq_refl). unfold two63 in *. destruct neg.
  - eexists. split; [done|]. intros z [= <-]. unfold int64_ok. lia.
  - destruct (Z.ltb_spec (2 ^ 63 - 1) d); [by eexists|]. eexists. split; [done|]. intros z [= <-]. unfold int64_ok. lia.
Qed.

(** ** A number with a unit is read back *)

(** A unit starts with neither a digit nor a point, and has neither. *)
Definition unit_char (c : ascii) : bool := negb (Ascii.eqb c "." || is_digit c).

Fixpoint all_unit (s : string) : bool :=
  match s with EmptyString => true | String c s' => unit_char c && all_unit s' end.

Lemma unitMap_ok u k : (u, k) ∈ unitMap → all_unit u = true ∧ u ≠ "" ∧ unit_of u = Some k ∧ 0 < k.
Proof.
  intros H. repeat (apply elem_of_cons in H as [H|H]; [injection H as -> ->; by vm_compute|]).
  by apply elem_of_nil in H.
Qed.

Lemma leadingUnit_all s : all_unit s = true → leadingUnit s = (s, "").
Proof.
  induction s as [|c s IH]; simpl; [done|]. intros [Hc Hs]%andb_true_iff. unfold unit_char in Hc.
  apply negb_true_iff in Hc. by rewrite Hc, IH.
Qed.

Lemma leadingPoint_unit s : all_unit s = true → leadingPoint s = (0, float64 1, s, false).
Proof.
  destruct s as [|c s]; [done|]. simpl. intros [Hc _]%andb_true_iff.
  by destruct c as [[] [] [] [] [] [] [] []].
Qed.

Lemma leadingInt_digits x s u : 0 ≤ x ≤ two63 → all_digits s = true → all_unit u = true →
  leadingInt x (s +:+ u) = if dec_value x s <=? two63 then Some (dec_value x s, u) else None.
Proof.
  revert x. induction s as [|c s IH]; intros x Hx; simpl.
  { intros _ Hu. rewrite (proj2 (Z.leb_le _ _)) by lia. destruct u as [|c u]; [done|]. simpl in *.
    apply andb_true_iff in Hu as [Hc _]. unfold unit_char in Hc. apply negb_true_iff, orb_false_iff in Hc as [_ ->]. done. }
  intros [Hc Hs]%andb_true_iff Hu. rewrite Hc. simpl. apply is_digit_value in Hc.
  pose proof (Z.div_mod two63 10 ltac:(lia)). pose proof (Z.mod_pos_bound two63 10 ltac:(lia)).
  pose proof (dec_value_le (x * 10 + (code c - 48)) s ltac:(lia) Hs).
  destruct (Z.ltb_spec (two63 / 10) x); [by rewrite (proj2 (Z.leb_gt _ _)) by lia|].
  destruct (Z.ltb_spec two63 (x * 10 + (code c - 48))); [by rewrite (proj2 (Z.leb_gt _ _)) by lia|].
  apply IH; [lia|done..].
Qed.

(** One term: the number times the unit, unless it exceeds 2^63. *)
Lemma durationTerm_number s u k : s ≠ "" → all_digits s = true → (u, k) ∈ unitMap →
  durationTerm (s +:+ u) = if dec_value 0 s * k <=? two63 then Ok (dec_value 0 s * k, "") else Err bad_duration.
Proof.
  intros Hne Hs (Hu & Hu0 & Hk & Hpos)%unitMap_ok. pose proof (leadingInt_digits 0 s u ltac:(done) Hs Hu) as Hl.
  pose proof (dec_value_le 0 s ltac:(done) Hs) as Hv.
  assert (Nat.eqb (String.length (s +:+ u)) (String.length u) = false) as Hlen.
  { apply Nat.eqb_neq. rewrite str_app_length. destruct s; [done|simpl; lia]. }
  destruct s as [|c s]; [done|]. set (n := dec_value 0 (String c s)) in *.
  change (String c s +:+ u) with (String c (s +:+ u)) in *. unfold durationTerm. rewrite Hl.
  simpl in Hs. apply andb_true_iff in Hs as [-> _]. rewrite orb_true_r. cbn [negb].
  destruct (Z.leb_spec n two63) as [Hn|Hn].
  2: { assert (two63 < n * k) by nia. by rewrite (proj2 (Z.leb_gt _ _)) by lia. }
  rewrite Hlen, leadingPoint_unit, leadingUnit_all by done. simpl.
  rewrite (proj2 (String.eqb_neq _ _) Hu0), Hk.
  pose proof (Z.div_mod two63 k ltac:(lia)). pose proof (Z.mod_pos_bound two63 k ltac:(lia)).
  destruct (Z.ltb_spec (two63 / k) n); [by rewrite (proj2 (Z.leb_gt _ _)) by nia|].
  assert (n * k ≤ two63) by (assert (n * k ≤ two63 / k * k) by (apply Z.mul_le_mono_nonneg_r; lia); lia).
  rewrite (proj2 (Z.leb_le _ _)) by lia. unfold u64. rewrite Z.mod_small; [done|].
  assert (two63 < two64) by done. split; [apply Z.mul_nonneg_nonneg|]; lia.
Qed.

Lemma FormatInt_unit_digits z : 0 ≤ z → ∀ c t, FormatInt z = String c t → c ≠ "-"%char ∧ c ≠ "+"%char.
Proof.
  intros Hz c t E. destruct (FormatInt_digits z) as (s & E' & Hd & _ & _ & _).
  rewrite (proj2 (Z.ltb_ge _ _)), E in E' by lia. subst s. simpl in Hd. apply andb_true_iff in Hd as [Hd _].
  by split; intros ->.
Qed.

(** A count of units is read as that many nanoseconds, or refused when it does
    not fit in 64 bits. *)
Lemma ParseDuration_FormatInt z u k : (u, k) ∈ unitMap →
  ParseDuration (FormatInt z +:+ u) = Some (if decide (int64_ok (z * k)) then Ok (z * k) else Err bad_duration).
Proof.
  intros Hu. destruct (unitMap_ok u k Hu) as (_ & Hu0 & _ & Hk).
  destruct (FormatInt_digits z) as (s & E & Hd & Hv & Hne & _).
  assert (FormatInt z +:+ u = if z <? 0 then String "-" (s +:+ u) else s +:+ u) as -> by (rewrite E; by destruct (z <? 0)).
  assert (s +:+ u ≠ "0" ∧ s +:+ u ≠ "") as [H0 H1].
  { destruct s as [|c [|c' s]], u; try done. }
  rewrite ParseDuration_sign; [|intros Hz c t Et; destruct s as [|c' s]; [done|]; injection Et as -> _;
    eapply (FormatInt_unit_digits z); [by apply Z.ltb_ge|by rewrite E, Hz]|done..].
  assert (String.length (s +:+ u) = S (pred (String.length (s +:+ u)))) as -> by (destruct (s +:+ u); [done|simpl; lia]).
  simpl. rewrite (proj2 (String.eqb_neq _ _) H1), (durationTerm_number s u k) by done. rewrite Hv.
  unfold int64_ok. destruct (Z.leb_spec (Z.abs z * k) two63) as [Hle|Hgt]; unfold two63 in *.
  - unfold u64. rewrite Z.add_0_l, Z.mod_small by (unfold two64; nia).
    rewrite (proj2 (Z.ltb_ge (2 ^ 63) _)) by lia.
    destruct (pred _); simpl; (destruct (Z.ltb_spec z 0);
      [rewrite decide_True by nia; repeat f_equal; lia|]);
    (destruct (Z.ltb_spec (2 ^ 63 - 1) (Z.abs z * k)); [by rewrite decide_False by nia|]);
    rewrite decide_True by nia; repeat f_equal; lia.
  - rewrite decide_False by nia. done.
Qed.
