(* ===== verification/GoFlag.v ===== *)
(** The standard library's flag package with ContinueOnError: the parser of
    [flag.FlagSet], and the grammar of the command lines it accepts. *)

From S2P Require Import Prelude GoStrings GoPath FileSystem.

Open Scope Z_scope.

Definition ErrHelp : error := Sentinel "flag: help requested".

(** ** The parser *)

Section Flags.
(** The state the flags write to. *)
Context {C : Type}.

(** A [flag.Flag]: its name, whether its value is a boolFlag, and its Set. *)
Record Flag := mkFlag {
  fl_Name : string;
  fl_IsBoolFlag : bool;
  fl_Set : string → C → result C
}.

(** FlagSet.formal *)
Definition lookup_flag (formal : list Flag) (name : string) : option Flag :=
  find (λ f, String.eqb name (fl_Name f)) formal.

(** The loop that looks for an equals sign, from the second character on: the
    name, the value and whether there is one. *)
Fixpoint split_equals (rest : string) : string * option string :=
  match rest with
  | EmptyString => (EmptyString, None)
  | String c rest' =>
      if Ascii.eqb c "=" then (EmptyString, Some rest')
      else let '(n, v) := split_equals rest' in (String c n, v)
  end.

(** What one call of parseOne did. *)
Inductive seen :=
  | Seen (c : C) (args : list string)
  | Done (args : list string)
  | Failed (e : error).

(** The end of parseOne: the flag is known by its name. *)
Definition setFlag (f : Flag) (value : option string) (args : list string) (c : C) : seen :=
  if fl_IsBoolFlag f then
    match fl_Set f (default "true" value) c with
    | Err e => Failed (Errorf ("invalid boolean value for -" +:+ fl_Name f) e)
    | Ok c' => Seen c' args
    end
  else
    let '(value', args') :=
      match value, args with
      | None, v :: args' => (Some v, args')
      | _, _ => (value, args)
      end in
    match value' with
    | None => Failed (Errors ("flag needs an argument: -" +:+ fl_Name f))
    | Some v =>
        match fl_Set f v c with
        | Err e => Failed (Errorf ("invalid value for flag -" +:+ fl_Name f) e)
        | Ok c' => Seen c' args'
        end
    end.

(** The part of parseOne after the minus signs. *)
Definition parseNamed (formal : list Flag) (s name : string) (args : list string) (c : C) : seen :=
  match name with
  | EmptyString => Failed (Errors ("bad flag syntax: " +:+ s))
  | String c0 rest =>
      if Ascii.eqb c0 "-" || Ascii.eqb c0 "=" then Failed (Errors ("bad flag syntax: " +:+ s))
      else
        let '(n, value) := split_equals rest in
        let name' := String c0 n in
        match lookup_flag formal name' with
        | None =>
            if String.eqb name' "help" || String.eqb name' "h" then Failed ErrHelp
            else Failed (Errors ("flag provided but not defined: -" +:+ name'))
        | Some f => setFlag f value args c
        end
  end.

(** [FlagSet.parseOne] *)
Definition parseOne (formal : list Flag) (args : list string) (c : C) : seen :=
  match args with
  | [] => Done []
  | s :: args' =>
      match s with
      | String "-" (String "-" EmptyString) => Done args'
      | String "-" (String "-" name) => parseNamed formal s name args' c
      | String "-" (String c1 rest) => parseNamed formal s (String c1 rest) args' c
      | _ => Done args
      end
  end.

(** The loop of [FlagSet.Parse]; [None] when the fuel is used up. *)
Fixpoint parse_loop (fuel : nat) (formal : list Flag) (args : list string) (c : C) : option (result C) :=
  match fuel with
  | O => None
  | S n =>
      match parseOne formal args c with
      | Seen c' args' => parse_loop n formal args' c'
      | Done _ => Some (Ok c)
      | Failed e => Some (Err e)
      end
  end.

(** [FlagSet.Parse]: every round but the last consumes an argument. *)
Definition Parse (formal : list Flag) (args : list string) (c : C) : option (result C) :=
  parse_loop (S (length args)) formal args c.

(** ** The grammar *)

(** A flag with its value as one or two arguments. *)
Inductive spelled (f : Flag) : string → list string → Prop :=
  | spelled_equals d v : d ∈ ["-"; "--"] → spelled f v [d +:+ fl_Name f +:+ "=" +:+ v]
  | spelled_next d v : d ∈ ["-"; "--"] → fl_IsBoolFlag f = false → spelled f v [d +:+ fl_Name f; v]
  | spelled_bool d : d ∈ ["-"; "--"] → fl_IsBoolFlag f = true → spelled f "true" [d +:+ fl_Name f].

(** Where the flags end: no argument is left, the next one is no flag, or it is
    the terminator. *)
Definition ends_flags (args : list string) : Prop :=
  match args with
  | [] => True
  | s :: _ => s = "--" ∨ (String.length s < 2)%nat ∨ ∀ t, s ≠ String "-" t
  end.

(** A command line with its effect on the state. *)
Inductive accepts (formal : list Flag) : list string → C → C → Prop :=
  | accepts_end args c : ends_flags args → accepts formal args c c
  | accepts_flag f v words args c c1 c2 :
      f ∈ formal → spelled f v words → fl_Set f v c = Ok c1 → accepts formal args c1 c2 →
      accepts formal (words ++ args) c c2.

(** Names that can be told apart: without equals sign or leading minus, and
    each used once (Var panics on a redefinition). *)
Definition flag_name (n : string) : Prop :=
  no_char "=" n = true ∧ ∃ c t, n = String c t ∧ c ≠ "-"%char.

Definition good_flags (formal : list Flag) : Prop :=
  NoDup (fl_Name <$> formal) ∧ Forall (λ f, flag_name (fl_Name f)) formal.

(** ** The parser decides the grammar *)

Lemma lookup_flag_Some formal name f : lookup_flag formal name = Some f → f ∈ formal ∧ fl_Name f = name.
Proof.
  unfold lookup_flag. intros [Hin Heq]%find_some. split; [by apply list_elem_of_In|].
  by apply String.eqb_eq in Heq.
Qed.

Lemma lookup_flag_in formal f : NoDup (fl_Name <$> formal) → f ∈ formal → lookup_flag formal (fl_Name f) = Some f.
Proof.
  unfold lookup_flag. induction formal as [|g l IH]; [by intros _ ?%elem_of_nil|]. simpl.
  intros [Hg Hl]%NoDup_cons [->|Hf]%elem_of_cons; [by rewrite String.eqb_refl|].
  destruct (String.eqb_spec (fl_Name f) (fl_Name g)) as [E|_]; [|by apply IH].
  destruct Hg. rewrite <-E. by apply list_elem_of_fmap_2.
Qed.

Lemma split_equals_app n v : no_char "=" n = true → split_equals (n +:+ "=" +:+ v) = (n, Some v).
Proof.
  induction n as [|c n IH]; simpl; [done|]. intros [Hc Hn]%andb_true_iff.
  change (String c n +:+ "=" +:+ v) with (String c (n +:+ "=" +:+ v)). simpl.
  apply negb_true_iff in Hc. rewrite IH by done. by rewrite Ascii.eqb_sym, Hc || rewrite Hc.
Qed.

Lemma split_equals_none n : no_char "=" n = true → split_equals n = (n, None).
Proof.
  induction n as [|c n IH]; simpl; [done|]. intros [Hc Hn]%andb_true_iff. apply negb_true_iff in Hc.
  rewrite IH by done. by rewrite Ascii.eqb_sym, Hc || rewrite Hc.
Qed.

Lemma split_equals_spec s n v : split_equals s = (n, v) →
  match v with Some v' => s = n +:+ "=" +:+ v' | None => s = n end.
Proof.
  revert n v. induction s as [|c s IH]; intros n v; simpl; [by intros [= <- <-]|].
  destruct (Ascii.eqb_spec c "=") as [->|_]; [by intros [= <- <-]|].
  destruct (split_equals s) as [n' v'] eqn:E. intros [= <- <-]. specialize (IH n' v' eq_refl).
  by destruct v'; rewrite IH.
Qed.
(** What the minus signs leave. *)
Lemma parseOne_dash formal d n args (c : C) : d ∈ ["-"; "--"] → (∃ c0 t, n = String c0 t ∧ c0 ≠ "-"%char) →
  parseOne formal ((d +:+ n) :: args) c = parseNamed formal (d +:+ n) n args c.
Proof.
  intros Hd (c0 & t & -> & Hc0). apply elem_of_cons in Hd as [->|Hd%list_elem_of_singleton]; [|by subst d].
  by destruct c0 as [[] [] [] [] [] [] [] []].
Qed.

Lemma parseNamed_flag formal f s value args (c : C) : good_flags formal → f ∈ formal →
  parseNamed formal s (fl_Name f +:+ match value with Some v => "=" +:+ v | None => "" end) args c = setFlag f value args c.
Proof.
  intros [Hnd Hall] Hf. destruct (proj1 (Forall_forall _ _) Hall f Hf) as (Hno & c0 & t & En & Hc0).
  pose proof (lookup_flag_in formal f Hnd Hf) as Hl. rewrite En in *.
  change (String c0 t +:+ ?x) with (String c0 (t +:+ x)).
  simpl in Hno. apply andb_true_iff in Hno as [Heq Hno]. apply negb_true_iff in Heq. unfold parseNamed.
  rewrite (proj2 (Ascii.eqb_neq _ _) Hc0), Heq. simpl.
  destruct value as [v|]; [rewrite split_equals_app by done|rewrite str_app_nil_r, split_equals_none by done]; by rewrite Hl.
Qed.

(** A flag of the grammar is read as such, with its value. *)
Lemma parseOne_spelled formal f v words args (c : C) :
  good_flags formal → f ∈ formal → spelled f v words →
  parseOne formal (words ++ args) c =
    match fl_Set f v c with
    | Ok c' => Seen c' args
    | Err e => Failed (Errorf ((if fl_IsBoolFlag f then "invalid boolean value for -" else "invalid value for flag -")
                                 +:+ fl_Name f) e)
    end.
Proof.
  intros Hg Hf Hs. pose proof (parseNamed_flag formal f) as Hn.
  destruct (proj1 (Forall_forall _ _) (proj2 Hg) f Hf) as (_ & c0 & t & En & Hc0).
  destruct Hs as [d v Hd|d v Hd Hb|d Hd Hb]; cbn [app].
  - rewrite parseOne_dash; [|done|rewrite En; by eexists _, _].
    rewrite (Hn _ (Some v)) by done. unfold setFlag. simpl. destruct (fl_IsBoolFlag f), (fl_Set f v c); reflexivity.
  - rewrite parseOne_dash; [|done|rewrite En; by eexists _, _].
    rewrite <-(str_app_nil_r (fl_Name f)) at 2. rewrite (Hn _ None) by done. unfold setFlag. rewrite Hb. destruct (fl_Set f v c); reflexivity.
  - rewrite parseOne_dash; [|done|rewrite En; by eexists _, _].
    rewrite <-(str_app_nil_r (fl_Name f)) at 2. rewrite (Hn _ None) by done. unfold setFlag. rewrite Hb. simpl. destruct (fl_Set f "true" c); reflexivity.
Qed.

Lemma parseOne_ends formal args (c : C) : ends_flags args → ∃ rest, parseOne formal args c = Done rest.
Proof.
  destruct args as [|s args]; [by eexists|]. unfold ends_flags, parseOne.
  destruct s as [|c0 s]; [by eexists|].
  destruct (decide (c0 = "-"%char)) as [->|Hc0].
  - intros [[= ->]|[Hlen|Hne]]; [by eexists| |by destruct (Hne s)].
    simpl in Hlen. destruct s; [by eexists|simpl in Hlen; lia].
  - intros _. eexists. by destruct c0 as [[] [] [] [] [] [] [] []].
Qed.

Lemma setFlag_seen f value args (c c' : C) args' : setFlag f value args c = Seen c' args' →
  ∃ v, fl_Set f v c = Ok c'
    ∧ ((value = Some v ∧ args' = args)
       ∨ (value = None ∧ fl_IsBoolFlag f = false ∧ args = v :: args')
       ∨ (value = None ∧ fl_IsBoolFlag f = true ∧ v = "true" ∧ args' = args)).
Proof.
  unfold setFlag. destruct (fl_IsBoolFlag f).
  - destruct (fl_Set f (default "true" value) c) as [c1|] eqn:E; [|done]. intros [= <- <-].
    exists (default "true" value). split; [done|]. destruct value; simpl; auto 10.
  - destruct value as [v|]; [|destruct args as [|v args]; [done|]];
      destruct (fl_Set f v c) as [c1|] eqn:E; try done; intros [= <- <-]; exists v; auto 10.
Qed.

Lemma parseNamed_seen formal s name args (c c' : C) args' d :
  d ∈ ["-"; "--"] → s = d +:+ name → parseNamed formal s name args c = Seen c' args' →
  ∃ f v words, f ∈ formal ∧ spelled f v words ∧ s :: args = words ++ args' ∧ fl_Set f v c = Ok c'.
Proof.
  intros Hd ->. unfold parseNamed. destruct name as [|c0 rest]; [done|].
  destruct (Ascii.eqb c0 "-" || Ascii.eqb c0 "="); [done|].
  destruct (split_equals rest) as [n value] eqn:E. apply split_equals_spec in E.
  destruct (lookup_flag formal (String c0 n)) as [f|] eqn:Ef; [|by destruct (_ || _)].
  apply lookup_flag_Some in Ef as [Hf Hname]. intros (v & Hset & Hv)%setFlag_seen.
  destruct Hv as [(-> & ->)|[(-> & Hb & ->)|(-> & Hb & -> & ->)]]; subst rest.
  - exists f, v, [d +:+ fl_Name f +:+ "=" +:+ v]. rewrite Hname. split_and!; [done| |done..].
    rewrite <-Hname. by constructor.
  - exists f, v, [d +:+ fl_Name f; v]. rewrite Hname. split_and!; [done| |done..]. rewrite <-Hname. by constructor.
  - exists f, "true", [d +:+ fl_Name f]. rewrite Hname. split_and!; [done| |done..]. rewrite <-Hname. by constructor.
Qed.

(** What parseOne accepted is a flag of the grammar; where it stops, the flags
    end. *)
Lemma parseOne_inv formal args (c : C) :
  match parseOne formal args c with
  | Seen c' args' => ∃ f v words, f ∈ formal ∧ spelled f v words ∧ args = words ++ args' ∧ fl_Set f v c = Ok c'
  | Done _ => ends_flags args
  | Failed _ => True
  end.
Proof.
  destruct (parseOne formal args c) as [c' args'| |] eqn:E; [| |done].
  - unfold parseOne in E. destruct args as [|s args]; [done|].
    repeat case_match; try done; subst;
      first [eapply (parseNamed_seen _ _ _ _ _ _ _ "--"); [set_solver|reflexivity|exact E]
            |eapply (parseNamed_seen _ _ _ _ _ _ _ "-"); [set_solver|reflexivity|exact E]].
  - assert (∀ s n a, parseNamed formal s n a c ≠ Done args0) as Hnot.
    { intros s n a. unfold parseNamed, setFlag. repeat case_match; congruence. }
    unfold parseOne in E. destruct args as [|s args]; [done|].
    repeat case_match; try (by destruct (Hnot _ _ _ E)); simplify_eq; simpl; auto with lia;
      right; right; by intros t [= ].
Qed.

Lemma spelled_nonempty f v words : spelled f v words → words ≠ [].
Proof. by destruct 1. Qed.

(** ** Parsing ends, and decides the grammar *)

Lemma parse_loop_total n formal args (c : C) : (length args < n)%nat → ∃ r, parse_loop n formal args c = Some r.
Proof.
  revert args c. induction n as [|n IH]; intros args c Hn; [lia|]. simpl.
  pose proof (parseOne_inv formal args c) as Hp. destruct (parseOne formal args c) as [c' args'| |]; [|by eexists..].
  destruct Hp as (f & v & words & _ & Hw & -> & _). apply spelled_nonempty in Hw. apply IH.
  rewrite length_app in Hn. destruct words; [done|simpl in Hn; lia].
Qed.

Lemma parse_loop_accepts n formal args (c c' : C) :
  parse_loop n formal args c = Some (Ok c') → accepts formal args c c'.
Proof.
  revert args c. induction n as [|n IH]; intros args c; simpl; [done|].
  pose proof (parseOne_inv formal args c) as Hp. destruct (parseOne formal args c) as [c1 args'| |]; [| |done].
  - destruct Hp as (f & v & words & Hf & Hw & -> & Hset). intros H%IH. by eapply accepts_flag.
  - intros [= ->]. by constructor.
Qed.

Lemma accepts_parse_loop formal args (c c' : C) : good_flags formal → accepts formal args c c' →
  ∀ n, (length args < n)%nat → parse_loop n formal args c = Some (Ok c').
Proof.
  intros Hg Ha. induction Ha as [args c Hend|f v words args c c1 c2 Hf Hw Hset _ IH]; intros [|n] Hn; try lia; simpl.
  - by destruct (parseOne_ends formal args c Hend) as [rest ->].
  - rewrite (parseOne_spelled formal f v) by done. rewrite Hset. apply IH.
    apply spelled_nonempty in Hw. rewrite length_app in Hn. destruct words; [done|simpl in Hn; lia].
Qed.

Lemma Parse_total formal args (c : C) : ∃ r, Parse formal args c = Some r.
Proof. apply parse_loop_total. lia. Qed.

(** The parser accepts the command lines of the grammar, with their effect. *)
Lemma Parse_accepts formal args (c c' : C) : good_flags formal →
  Parse formal args c = Some (Ok c') ↔ accepts formal args c c'.
Proof. intros Hg. split; [apply parse_loop_accepts|]. intros Ha. apply (accepts_parse_loop _ _ _ _ Hg Ha). lia. Qed.
End Flags.
Arguments Flag : clear implicits.
Arguments seen : clear implicits.
