(* ===== verification/AtomicFile.v ===== *)
(** internal/atomicfile/atomicfile.go: atomic replacement of a file with one
    backup, and restoring the backup. *)

From S2P Require Import Prelude GoStrings GoPath FileSystem.

Open Scope Z_scope.

Definition BackupSuffix : string := ".bak".

(** atomicfile.copyFile *)
Definition copyFile (src dst : string) (perm : Z) : M OS (option error) :=
  r ← ReadFile src;
  match r with
  | Err e => mret (Some (Errorf ("read " +:+ src) e))
  | Ok data =>
      err ← WriteFile dst data perm;
      mret (Errorf ("write " +:+ dst) <$> err)
  end.

(** The body of WriteAtomic between the creation of the temporary file and the
    deferred removal of it. *)
Definition fillAndRename (tmp : tmpfile) (path : string) (data : bytes) (perm : Z)
    : M OS (bool * option error) :=
  err ← tmp_Write tmp data;
  match err with
  | Some e => _ ← tmp_Close tmp; mret (false, Some (Errorf ("write temp for " +:+ path) e))
  | None =>
      err ← tmp_Chmod tmp perm;
      match err with
      | Some e => _ ← tmp_Close tmp; mret (false, Some (Errorf ("chmod temp for " +:+ path) e))
      | None =>
          err ← tmp_Close tmp;
          match err with
          | Some e => mret (false, Some (Errorf ("close temp for " +:+ path) e))
          | None =>
              err ← Rename (tmp_Name tmp) path;
              match err with
              | Some e => mret (false, Some (Errorf ("rename temp to " +:+ path) e))
              | None => mret (true, None)
              end
          end
      end
  end.

(** The rest of WriteAtomic from the creation of the temporary file on. *)
Definition replaceFile (path : string) (data : bytes) (perm : Z) : M OS (bool * option error) :=
  tmp ← CreateTemp (Dir path);
  match tmp with
  | Err e => mret (false, Some (Errorf ("create temp for " +:+ path) e))
  | Ok tmp =>
      r ← fillAndRename tmp path data perm;
      _ ← Remove (tmp_Name tmp);
      mret r
  end.

(** atomicfile.WriteAtomic *)
Definition WriteAtomic (path : string) (data : bytes) (perm : Z) : M OS (bool * option error) :=
  existing ← ReadFile path;
  match existing with
  | Ok existing =>
      if decide (existing = data) then mret (false, None)
      else
        err ← copyFile path (path +:+ BackupSuffix) perm;
        match err with
        | Some e => mret (false, Some e)
        | None => replaceFile path data perm
        end
  | Err _ => replaceFile path data perm
  end.

(** atomicfile.Restore *)
Definition Restore (path : string) : M OS (option error) :=
  let bak := path +:+ BackupSuffix in
  st ← Stat bak;
  match st with
  | Err e => mret (if os_IsNotExist e then None else Some e)
  | Ok _ =>
      err ← Rename bak path;
      mret (Errorf ("restore " +:+ path) <$> err)
  end.

(** The loop of RestoreDir over the names of the directory; it stops at the
    first error. *)
Fixpoint restoreEntries (dir : string) (entries : list dirent) : M OS (option error) :=
  match entries with
  | [] => mret None
  | e :: entries' =>
      let name := de_Name e in
      if negb (HasSuffix name BackupSuffix) then restoreEntries dir entries'
      else
        let orig := Join [dir; TrimSuffix name BackupSuffix] in
        err ← Rename (Join [dir; name]) orig;
        match err with
        | Some e => mret (Some (Errorf ("restore " +:+ orig) e))
        | None => restoreEntries dir entries'
        end
  end.

(** atomicfile.RestoreDir *)
Definition RestoreDir (dir : string) : M OS (option error) :=
  entries ← ReadDir dir;
  match entries with
  | Err e => mret (if os_IsNotExist e then None else Some (Errorf ("read " +:+ dir) e))
  | Ok entries => restoreEntries dir entries
  end.

(** ** A file the package manages *)

(** The path [p] names the entry [b] of the directory at [d]; neither it nor
    its backup is a directory or a link, and it is not named like a temporary
    file. *)
Record managed (s : OS) (p q b : string) (d : phys) : Prop := {
  mg_path : file_path p q b;
  mg_dir : dir_at s q d;
  mg_file : dir_part (os_tree s !! (d ++ [b])) = None;
  mg_bak : dir_part (os_tree s !! (d ++ [b +:+ BackupSuffix])) = None;
  mg_name : ∀ n, b ≠ tmp_name n
}.

Lemma managed_bak_path s p q b d :
  managed s p q b d → file_path (p +:+ BackupSuffix) q (b +:+ BackupSuffix).
Proof. intros [Hp _ _ _ _]. apply file_path_suffix; [exact Hp|reflexivity|simpl; lia]. Qed.

(** What the functions leave alone keeps a path managed. *)
Lemma managed_step s s' p q b d :
  managed s p q b d → same_dirs (os_tree s) (os_tree s') → same_env s s' → managed s' p q b d.
Proof.
  intros [Hp Hd Hf Hb Hn] Hs (Hc & _). split; [exact Hp| | | |exact Hn].
  - eapply dir_at_same; [exact Hs|exact Hc|exact Hd].
  - rewrite <-Hs. exact Hf.
  - rewrite <-Hs. exact Hb.
Qed.

Lemma no_char_k_digits u : no_char "k" (DecimalString.NilEmpty.string_of_uint u) = true.
Proof. induction u; simpl; auto. Qed.

Lemma bak_not_tmp b n : b +:+ BackupSuffix ≠ tmp_name n.
Proof.
  intros Heq. assert (no_char "k" (tmp_name n) = true) as Hk.
  { unfold tmp_name, FormatInt. rewrite no_char_app. simpl.
    pose proof (Z_to_int_nonnil (Z.of_nat n)) as Hd.
    destruct (Z.to_int (Z.of_nat n)) as [u|u]; simpl; rewrite NilZero_string_of_uint by done;
      apply no_char_k_digits. }
  rewrite <-Heq, no_char_app in Hk. apply andb_true_iff in Hk as [_ Hk]. done.
Qed.

Lemma bak_neq b : b +:+ BackupSuffix ≠ b.
Proof.
  intros Heq. apply (f_equal String.length) in Heq. rewrite str_app_length in Heq. simpl in Heq. lia.
Qed.

Lemma snoc_neq (d : phys) b b' : b ≠ b' → d ++ [b] ≠ d ++ [b'].
Proof. intros Hne [_ [=]]%app_inj_tail. done. Qed.

(** ** WriteAtomic, whatever fails *)

Section Faults.
Context (p q b : string) (d : phys).
Let k := d ++ [b].
Let kbak := d ++ [b +:+ BackupSuffix].

(** The handle CreateTemp returns. *)
Definition tmp_handle (n : nat) : tmpfile :=
  mkTmp (d ++ [tmp_name n]) (Dir p +:+ (if HasSuffix (Dir p) "/" then "" else "/") +:+ tmp_name n).

Lemma tmp_handle_located s n :
  managed s p q b d → locate s (tmp_Name (tmp_handle n)) = Ok (d, tmp_name n).
Proof.
  intros [Hp Hd _ _ _]. apply locate_tmp.
  - rewrite (Dir_file_path p q b Hp). apply Clean_nonempty.
  - eapply resolve_dir_Dir; [exact Hp|exact Hd].
Qed.

Lemma managed_located s : managed s p q b d → locate s p = Ok (d, b).
Proof. intros [Hp Hd _ _ _]. eapply locate_file; [exact Hp|exact Hd]. Qed.

Lemma managed_insert s t f k' :
  managed s p q b d → dir_part (os_tree s !! k') = None → os_tree t = <[k' := IFile f]> (os_tree s) →
  same_env s t → managed t p q b d.
Proof.
  intros Hm Hk Ht He. eapply managed_step; [exact Hm| |exact He].
  rewrite Ht. by apply same_dirs_insert.
Qed.

Lemma managed_same s t :
  managed s p q b d → os_tree t = os_tree s → same_env s t → managed t p q b d.
Proof. intros Hm Ht He. eapply managed_step; [exact Hm|by rewrite Ht|exact He]. Qed.

Lemma mg_not_dir s : managed s p q b d → os_tree s !! k ≠ Some IDir.
Proof. intros [_ _ Hf _ _] H. fold k in Hf. by rewrite H in Hf. Qed.

(** Filling the temporary file and renaming it: either the target is the
    complete new file, or only the temporary file has changed. *)
Lemma fillAndRename_spec s n f0 data perm ch err s' :
  managed s p q b d → os_tree s !! (d ++ [tmp_name n]) = Some (IFile f0) → f_data f0 = [] →
  fillAndRename (tmp_handle n) p data perm s = ((ch, err), s') →
  same_env s s' ∧
  if ch then err = None
     ∧ os_tree s' = <[k := IFile (mkFile data perm (os_clock s))]> (delete (d ++ [tmp_name n]) (os_tree s))
  else err ≠ None ∧ ∃ f, os_tree s' = <[d ++ [tmp_name n] := IFile f]> (os_tree s)
     ∧ (f_perm f = f_perm f0 ∨ f_perm f = perm).
Proof.
  intros Hm Hf0 He0. unfold fillAndRename. unfold_M.
  destruct (tmp_Write _ _ s) as [r1 s1] eqn:E1. eapply (tmp_Write_spec) in E1; [|exact Hf0].
  destruct E1 as (Hv1 & f1 & Ht1 & Hp1 & Hd1). simpl in Ht1.
  destruct r1 as [e1|].
  { destruct (tmp_Close _ s1) as [r2 s2] eqn:E2. apply tmp_Close_spec in E2 as [Ht2 Hv2].
    intros [= <- <- <-]. split; [by etransitivity|]. split; [done|]. exists f1. rewrite Ht2. auto. }
  assert (os_tree s1 !! tmp_at (tmp_handle n) = Some (IFile f1)) as Hf1 by (rewrite Ht1; apply lookup_insert_eq).
  destruct (tmp_Chmod _ _ s1) as [r2 s2] eqn:E2. eapply tmp_Chmod_spec in E2; [|exact Hf1].
  destruct E2 as (Hv2 & f2 & Ht2 & Hd2 & Hm2 & Hp2' & Hp2). rewrite Hp1 in Hp2'. simpl in Ht2. rewrite Ht1, insert_insert_eq in Ht2.
  destruct r2 as [e2|].
  { destruct (tmp_Close _ s2) as [r3 s3] eqn:E3. apply tmp_Close_spec in E3 as [Ht3 Hv3].
    intros [= <- <- <-]. split; [by rewrite Hv1, Hv2|]. split; [done|]. exists f2. rewrite Ht3. auto. }
  destruct (tmp_Close _ s2) as [r3 s3] eqn:E3. apply tmp_Close_spec in E3 as [Ht3 Hv3].
  assert (same_env s s3) as Hv by (by rewrite Hv1, Hv2).
  destruct r3 as [e3|].
  { intros [= <- <- <-]. split; [done|]. split; [done|]. exists f2. rewrite Ht3. auto. }
  assert (managed s3 p q b d) as Hm3.
  { apply (managed_insert s s3 f2 (d ++ [tmp_name n])); [exact Hm|by rewrite Hf0|congruence|exact Hv]. }
  destruct (Rename _ _ s3) as [r4 s4] eqn:E4.
  apply (Rename_spec d s3 _ _ (tmp_name n) b f2) in E4; [|by apply tmp_handle_located|by apply managed_located| |].
  - destruct E4 as [Hv4 Ht4]. destruct r4 as [e4|]; intros [= <- <- <-]; (split; [by etransitivity|]).
    + split; [done|]. exists f2. rewrite Ht4, Ht3. auto.
    + split; [done|]. rewrite Ht4, Ht3, Ht2, delete_insert_eq. fold k. f_equal. f_equal.
      destruct (Hd1 eq_refl) as [Hdata Hmt]. destruct f2 as [dd pp mm]; simpl in *.
      rewrite (Hp2 eq_refl), Hd2, Hm2, Hdata, Hmt, He0. done.
  - rewrite Ht3, Ht2. apply lookup_insert_eq.
  - by apply mg_not_dir.
Qed.

(** The files a replacement may touch besides the target. *)
Definition scratch (k' : phys) : Prop := k' = kbak ∨ ∃ n, k' = d ++ [tmp_name n].

Lemma k_not_tmp n s : managed s p q b d → k ≠ d ++ [tmp_name n].
Proof. intros [_ _ _ _ Hn]. apply snoc_neq. apply Hn. Qed.

(** The tree after the temporary file has been created and filled. *)
Lemma filled_tree s s1 s2 n data perm ch err :
  managed s p q b d → same_env s s1 → os_tree s !! (d ++ [tmp_name n]) = None →
  os_tree s1 = <[d ++ [tmp_name n] := IFile (mkFile [] (masked s 384) (os_clock s))]> (os_tree s) →
  fillAndRename (tmp_handle n) p data perm s1 = ((ch, err), s2) →
  same_env s1 s2 ∧ same_dirs (os_tree s) (os_tree s2) ∧ dir_part (os_tree s2 !! (d ++ [tmp_name n])) = None
  ∧ (if ch then err = None ∧ os_tree s2 !! k = Some (IFile (mkFile data perm (os_clock s)))
     else err ≠ None ∧ os_tree s2 !! k = os_tree s !! k)
  ∧ (∀ k', k' ≠ k → k' ≠ d ++ [tmp_name n] → os_tree s2 !! k' = os_tree s !! k')
  ∧ ∀ f, os_tree s2 !! (d ++ [tmp_name n]) = Some (IFile f) → f_perm f = masked s 384 ∨ f_perm f = perm.
Proof.
  intros Hm Hv1 Hfree Ht1 E2.
  assert (managed s1 p q b d) as Hm1 by (eapply managed_insert; [exact Hm| |exact Ht1|exact Hv1]; by rewrite Hfree).
  eapply fillAndRename_spec in E2; [|exact Hm1|rewrite Ht1; apply lookup_insert_eq|done].
  destruct E2 as [Hv2 H2]. split; [exact Hv2|].
  pose proof (k_not_tmp n s Hm) as Hne. rewrite Ht1 in H2. destruct ch.
  - destruct H2 as [He2 Ht2]. rewrite delete_insert_id in Ht2 by done.
    destruct Hv1 as (_ & _ & Hclk). rewrite Hclk in Ht2. rewrite Ht2. split_and!.
    + apply same_dirs_insert. apply Hm.
    + rewrite lookup_insert_ne by done. by rewrite Hfree.
    + done.
    + apply lookup_insert_eq.
    + intros k' Hk' _. by rewrite lookup_insert_ne.
    + intros f. by rewrite lookup_insert_ne, Hfree.
  - destruct H2 as [He2 (f & Ht2 & Hpf)]. rewrite insert_insert_eq in Ht2. rewrite Ht2. split_and!.
    + apply same_dirs_insert. by rewrite Hfree.
    + by rewrite lookup_insert_eq.
    + done.
    + by rewrite lookup_insert_ne.
    + intros k' _ Hk'. by rewrite lookup_insert_ne.
    + intros f'. rewrite lookup_insert_eq. by intros [= <-].
Qed.

(** From the creation of the temporary file on. *)
Lemma replaceFile_spec s data perm ch err s' :
  managed s p q b d → replaceFile p data perm s = ((ch, err), s') →
  same_env s s' ∧ same_dirs (os_tree s) (os_tree s')
  ∧ (if ch then err = None ∧ os_tree s' !! k = Some (IFile (mkFile data perm (os_clock s)))
     else err ≠ None ∧ os_tree s' !! k = os_tree s !! k)
  ∧ ∃ n, (∀ k', k' ≠ k → k' ≠ d ++ [tmp_name n] → os_tree s' !! k' = os_tree s !! k')
      ∧ ∀ f, os_tree s' !! (d ++ [tmp_name n]) = Some (IFile f) →
          os_tree s !! (d ++ [tmp_name n]) = Some (IFile f) ∨ f_perm f = masked s 384 ∨ f_perm f = perm.
Proof.
  intros Hm. unfold replaceFile. unfold_M.
  destruct (CreateTemp (Dir p) s) as [r1 s1] eqn:E1.
  apply (CreateTemp_spec q d s p b) in E1; [|apply Hm|apply Hm].
  destruct E1 as [Hv1 H1]. destruct r1 as [h|e1].
  2: { intros [= <- <- <-]. rewrite H1. split_and!; try done. exists O. auto. }
  destruct H1 as (n & -> & Hfree & Ht1). fold (tmp_handle n).
  destruct (fillAndRename _ _ _ _ s1) as [[ch2 err2] s2] eqn:E2.
  destruct (filled_tree s s1 s2 n data perm ch2 err2 Hm Hv1 Hfree Ht1 E2) as (Hv2 & Hs2 & Hd2 & Hk2 & Ho2 & Hf2).
  assert (same_env s s2) as Hv by (by etransitivity).
  assert (managed s2 p q b d) as Hm2 by (eapply managed_step; [exact Hm|exact Hs2|exact Hv]).
  destruct (Remove _ s2) as [r3 s3] eqn:E3.
  apply (Remove_spec d s2 _ (tmp_name n)) in E3; [|by apply tmp_handle_located|done].
  destruct E3 as (Hv3 & Ht3 & _). intros [= <- <- <-].
  assert (∀ k', k' ≠ d ++ [tmp_name n] → os_tree s3 !! k' = os_tree s2 !! k') as Heq.
  { intros k' Hk'. destruct Ht3 as [->| ->]; [done|]. by rewrite lookup_delete_ne. }
  split_and!.
  - by etransitivity.
  - rewrite Hs2. destruct Ht3 as [->| ->]; [done|]. by apply same_dirs_delete.
  - rewrite Heq by (by eapply k_not_tmp). done.
  - exists n. split; [intros k' H1 H2'; rewrite Heq by done; by apply Ho2|].
    intros f Hf. right. apply Hf2. destruct Ht3 as [Ht3|Ht3]; rewrite Ht3 in Hf; [done|by rewrite lookup_delete_eq in Hf].
Qed.

(** The permissions of the backup: those of the backup before, or new ones. *)
Definition backup_perm (s : OS) (perm : Z) (f : file) : Prop :=
  f_perm f = masked s perm ∨ ∃ f0, os_tree s !! kbak = Some (IFile f0) ∧ f_perm f = f_perm f0.

Lemma written_perm s data perm : backup_perm s perm (written s kbak data perm).
Proof. unfold backup_perm, written. destruct (os_tree s !! kbak) as [[f0| |tg]|]; simpl; eauto. Qed.

(** Copying the old contents touches the backup only. *)
Lemma copyFile_spec s perm err s' :
  managed s p q b d → copyFile p (p +:+ BackupSuffix) perm s = (err, s') →
  same_env s s' ∧ same_dirs (os_tree s) (os_tree s')
  ∧ (∀ k', k' ≠ kbak → os_tree s' !! k' = os_tree s !! k')
  ∧ (err = None → ∃ f, os_tree s !! k = Some (IFile f)
       ∧ os_tree s' = <[kbak := IFile (written s kbak (f_data f) perm)]> (os_tree s))
  ∧ ∀ f, os_tree s' !! kbak = Some (IFile f) → backup_perm s perm f.
Proof.
  intros Hm. pose proof Hm as [Hp Hd Hf Hb Hn]. unfold copyFile. unfold_M.
  destruct (ReadFile p s) as [r1 s1] eqn:E1.
  eapply ReadFile_spec in E1; [|exact Hp|exact Hd|by intros tg Htg; rewrite Htg in Hf].
  destruct E1 as (Ht1 & Hv1 & Hr1). destruct r1 as [data|e1].
  2: { intros [= <- <-]. rewrite Ht1. split_and!; try done. intros f0 Hf0. right. by exists f0. }
  destruct (Hr1 data eq_refl) as (f & Hkf & ->).
  assert (managed s1 p q b d) as Hm1 by (eapply managed_same; [exact Hm|exact Ht1|exact Hv1]).
  destruct (WriteFile _ _ _ s1) as [r2 s2] eqn:E2.
  eapply WriteFile_spec in E2; [|by eapply managed_bak_path|apply Hm1|apply Hm1].
  fold kbak in E2. destruct E2 as (Hv2 & Ht2 & Hok2).
  assert (∀ x, written s1 kbak x perm = written s kbak x perm) as Hw.
  { intros x. unfold written, masked. destruct Hv1 as (_ & -> & ->). by rewrite Ht1. }
  intros [= <- <-]. rewrite Ht1 in Ht2. split_and!.
  - by etransitivity.
  - destruct Ht2 as [->|(m & ->)]; [done|]. by apply same_dirs_insert.
  - intros k' Hk'. destruct Ht2 as [->|(m & ->)]; [done|]. by rewrite lookup_insert_ne.
  - destruct r2; [done|]. intros _. exists f. by rewrite Hok2, Ht1, Hw.
  - intros f'. destruct Ht2 as [->|(m & ->)]; [intros Hf'; right; by exists f'|].
    rewrite lookup_insert_eq, Hw. intros [= <-]. apply written_perm.
Qed.

Lemma k_not_bak : k ≠ kbak.
Proof. apply snoc_neq. intros Heq. by apply (bak_neq b). Qed.

Lemma WriteAtomic_spec s data perm ch err s' :
  managed s p q b d → WriteAtomic p data perm s = ((ch, err), s') →
  same_env s s' ∧ same_dirs (os_tree s) (os_tree s')
  ∧ (if ch then err = None ∧ os_tree s' !! k = Some (IFile (mkFile data perm (os_clock s)))
     else os_tree s' !! k = os_tree s !! k
          ∧ (err = None → ∃ f, os_tree s !! k = Some (IFile f) ∧ f_data f = data))
  ∧ ∀ k', k' ≠ k → ¬ scratch k' → os_tree s' !! k' = os_tree s !! k'.
Proof.
  intros Hm. pose proof Hm as [Hp Hd Hf Hb Hn]. unfold WriteAtomic. unfold_M.
  destruct (ReadFile p s) as [r1 s1] eqn:E1.
  eapply ReadFile_spec in E1; [|exact Hp|exact Hd|by intros tg Htg; rewrite Htg in Hf].
  destruct E1 as (Ht1 & Hv1 & Hr1).
  assert (managed s1 p q b d) as Hm1 by (eapply managed_same; [exact Hm|exact Ht1|exact Hv1]).
  (* from a state that differs in the backup only *)
  assert (∀ s2, managed s2 p q b d → same_env s s2 → same_dirs (os_tree s) (os_tree s2) →
    (∀ k', k' ≠ kbak → os_tree s2 !! k' = os_tree s !! k') →
    replaceFile p data perm s2 = ((ch, err), s') →
    same_env s s' ∧ same_dirs (os_tree s) (os_tree s')
    ∧ (if ch then err = None ∧ os_tree s' !! k = Some (IFile (mkFile data perm (os_clock s)))
       else os_tree s' !! k = os_tree s !! k
          ∧ (err = None → ∃ f, os_tree s !! k = Some (IFile f) ∧ f_data f = data))
    ∧ ∀ k', k' ≠ k → ¬ scratch k' → os_tree s' !! k' = os_tree s !! k') as Hrest.
  { intros s2 Hm2 Hv2 Hs2 Ho2 E2. apply replaceFile_spec in E2; [|exact Hm2].
    destruct E2 as (Hv3 & Hs3 & Hk3 & n & Ho3 & _).
    pose proof (k_not_bak) as Hkb. split_and!.
    - by etransitivity.
    - by rewrite Hs2.
    - destruct Hv2 as (_ & _ & Hclk). rewrite Hclk in Hk3. rewrite (Ho2 k Hkb) in Hk3.
      destruct ch; [done|]. destruct Hk3 as [Herr Hk3]. done.
    - intros k' Hne Hsc. rewrite Ho3; [apply Ho2|done|]; intros ->; apply Hsc; [by left|right; eauto]. }
  destruct r1 as [old|e1].
  2: { apply Hrest; [exact Hm1|exact Hv1|by rewrite Ht1|by rewrite Ht1]. }
  destruct (Hr1 old eq_refl) as (f & Hkf & ->).
  case_decide as Hsame.
  { intros [= <- <- <-]. rewrite Ht1. split_and!; try done. intros _. by exists f. }
  destruct (copyFile _ _ _ s1) as [r2 s2] eqn:E2. apply copyFile_spec in E2; [|exact Hm1].
  destruct E2 as (Hv2 & Hs2 & Ho2 & _ & _). rewrite Ht1 in Hs2, Ho2.
  assert (same_env s s2) as Hv by (by etransitivity).
  destruct r2 as [e2|].
  - intros [= <- <- <-]. split_and!; try done; [apply Ho2, k_not_bak|].
    intros k' _ Hsc. apply Ho2. intros ->. apply Hsc. by left.
  - apply Hrest; [|exact Hv|exact Hs2|exact Ho2].
    eapply managed_step; [exact Hm|exact Hs2|exact Hv].
Qed.

(** The permissions of a file that a call of WriteAtomic has made or changed. *)
Definition fresh_perm (s : OS) (perm : Z) (k' : phys) (f : file) : Prop :=
  f_perm f = perm ∨ f_perm f = masked s 384 ∨ (k' = kbak ∧ backup_perm s perm f).

Lemma backup_perm_same s s1 perm f : os_tree s1 = os_tree s → same_env s s1 → backup_perm s1 perm f → backup_perm s perm f.
Proof. unfold backup_perm, masked. by intros -> (_ & -> & _). Qed.

Lemma replaceFile_perms s data perm ch err s' :
  managed s p q b d → replaceFile p data perm s = ((ch, err), s') →
  ∀ k' f, os_tree s' !! k' = Some (IFile f) →
    os_tree s !! k' = Some (IFile f) ∨ f_perm f = perm ∨ f_perm f = masked s 384.
Proof.
  intros Hm E k' f Hf. apply replaceFile_spec in E; [|exact Hm]. destruct E as (_ & _ & Hk & n & Ho & Htmp).
  destruct (decide (k' = k)) as [->|Hne].
  - destruct ch; destruct Hk as [_ Hk]; rewrite Hk in Hf; [injection Hf as <-; by right; left|by left].
  - destruct (decide (k' = d ++ [tmp_name n])) as [->|Hnt]; [|left; by rewrite <-Ho].
    destruct (Htmp f Hf) as [?|[?|?]]; auto.
Qed.

Lemma WriteAtomic_perms s data perm ch err s' :
  managed s p q b d → WriteAtomic p data perm s = ((ch, err), s') →
  ∀ k' f, os_tree s' !! k' = Some (IFile f) → os_tree s !! k' = Some (IFile f) ∨ fresh_perm s perm k' f.
Proof.
  intros Hm. pose proof Hm as [Hp Hd Hf Hb Hn]. unfold WriteAtomic. unfold_M.
  destruct (ReadFile p s) as [r1 s1] eqn:E1.
  eapply ReadFile_spec in E1; [|exact Hp|exact Hd|by intros tg Htg; rewrite Htg in Hf].
  destruct E1 as (Ht1 & Hv1 & _).
  assert (managed s1 p q b d) as Hm1 by (eapply managed_same; [exact Hm|exact Ht1|exact Hv1]).
  destruct r1 as [old|e1].
  2: { intros E k' f Hk'. destruct (replaceFile_perms _ _ _ _ _ _ Hm1 E k' f Hk') as [H|[H|H]]; rewrite ?Ht1 in H;
       [by left|right; by left|right; right; left]. rewrite H. unfold masked. by destruct Hv1 as (_ & -> & _). }
  case_decide as Hsame; [intros [= <- <- <-] k' f; rewrite Ht1; by left|].
  destruct (copyFile _ _ _ s1) as [r2 s2] eqn:E2. apply copyFile_spec in E2; [|exact Hm1].
  destruct E2 as (Hv2 & Hs2 & Ho2 & _ & Hbak). rewrite Ht1 in Hs2, Ho2.
  assert (∀ k' f, os_tree s2 !! k' = Some (IFile f) → os_tree s !! k' = Some (IFile f) ∨ fresh_perm s perm k' f) as Hcopy.
  { intros k' f Hk'. destruct (decide (k' = kbak)) as [->|Hne]; [|left; by rewrite <-Ho2].
    right. right. right. split; [done|]. apply (backup_perm_same s s1); [done|done|by apply Hbak]. }
  destruct r2 as [e2|]; [intros [= <- <- <-]; exact Hcopy|].
  assert (same_env s s2) as Hv by (by etransitivity).
  intros E k' f Hk'. eapply replaceFile_perms in E; [|eapply managed_step; [exact Hm|exact Hs2|exact Hv]|exact Hk'].
  destruct E as [H|[H|H]]; [by apply Hcopy|right; by left|right; right; left].
  rewrite H. unfold masked. by destruct Hv as (_ & -> & _).
Qed.
End Faults.

(** ** When nothing fails *)

(** No temporary file is left over in the directory. *)
Definition no_tmp (s : OS) (d : phys) : Prop := ∀ n, os_tree s !! (d ++ [tmp_name n]) = None.

(** The file a successful replacement leaves. *)
Definition new_file (s : OS) (data : bytes) (perm : Z) : inode := IFile (mkFile data perm (os_clock s)).

(** What happens to the world apart from the tree: nothing that matters. *)
Definition calm (s s' : OS) : Prop := same_env s s' ∧ os_faults s' = [].

Section NoFaults.
Context (p q b : string) (d : phys).
Let k := d ++ [b].
Let kbak := d ++ [b +:+ BackupSuffix].

Lemma fillAndRename_ok s n f0 data perm :
  os_faults s = [] → managed s p q b d →
  os_tree s !! (d ++ [tmp_name n]) = Some (IFile f0) → f_data f0 = [] → ∃ s',
  fillAndRename (tmp_handle p d n) p data perm s = ((true, None), s') ∧ calm s s'
  ∧ os_tree s' = <[k := new_file s data perm]> (delete (d ++ [tmp_name n]) (os_tree s)).
Proof.
  intros Hnf Hm Hf0 He0. unfold fillAndRename. unfold_M.
  rewrite (tmp_Write_ok s Hnf _ f0) by exact Hf0. rewrite He0. simpl.
  set (s1 := set_tree _ s).
  rewrite (tmp_Chmod_ok s1 Hnf (tmp_handle p d n) (mkFile data (f_perm f0) (os_clock s)))
    by apply lookup_insert_eq.
  set (s2 := set_tree _ s1). rewrite (tmp_Close_ok s2 Hnf).
  set (fn := mkFile data perm (os_clock s)).
  assert (os_tree s2 = <[d ++ [tmp_name n] := IFile fn]> (os_tree s)) as Ht2
    by (subst s2 s1; simpl; apply insert_insert_eq).
  assert (managed s2 p q b d) as Hm2.
  { apply (managed_insert p q b d s s2 fn (d ++ [tmp_name n])); [exact Hm|by rewrite Hf0|exact Ht2|done]. }
  rewrite (Rename_ok d s2 Hnf _ _ d (tmp_name n) b fn).
  - eexists. split; [done|]. split; [done|].
    transitivity (<[k := IFile fn]> (delete (d ++ [tmp_name n]) (os_tree s2))); [done|].
    by rewrite Ht2, delete_insert_eq.
  - by eapply tmp_handle_located.
  - by eapply managed_located.
  - rewrite Ht2. apply lookup_insert_eq.
  - by eapply mg_not_dir.
Qed.

Lemma replaceFile_ok s data perm :
  os_faults s = [] → managed s p q b d → no_tmp s d → ∃ s',
  replaceFile p data perm s = ((true, None), s') ∧ calm s s'
  ∧ os_tree s' = <[k := new_file s data perm]> (os_tree s).
Proof.
  intros Hnf Hm Hno. unfold replaceFile. unfold_M.
  destruct (CreateTemp_ok d s Hnf (Dir p)) as (n & s1 & E1 & Ht1 & Hv1 & Hnf1); [|exact Hno|].
  { eapply resolve_dir_Dir; [apply Hm|apply Hm]. }
  rewrite E1. fold (tmp_handle p d n).
  assert (managed s1 p q b d) as Hm1.
  { eapply managed_insert; [exact Hm| |exact Ht1|exact Hv1]. by rewrite Hno. }
  destruct (fillAndRename_ok s1 n (mkFile [] (masked s 384) (os_clock s)) data perm)
    as (s2 & E2 & [Hv2 Hnf2] & Ht2); [exact Hnf1|exact Hm1|rewrite Ht1; apply lookup_insert_eq|done|].
  rewrite E2. rewrite Ht1, delete_insert_id in Ht2 by apply Hno.
  assert (new_file s1 data perm = new_file s data perm) as Hnew.
  { unfold new_file. by destruct Hv1 as (_ & _ & ->). }
  rewrite Hnew in Ht2. assert (same_env s s2) as Hv by (by etransitivity).
  rewrite (Remove_absent d s2 Hnf2 _ (tmp_name n)).
  - exists s2. split; [done|]. split; [done|exact Ht2].
  - apply (tmp_handle_located p q b d s2 n). eapply managed_insert; [exact Hm|apply Hm|exact Ht2|exact Hv].
  - rewrite Ht2. rewrite lookup_insert_ne; [apply Hno|]. by eapply k_not_tmp.
Qed.

(** The three branches of WriteAtomic. *)
Lemma WriteAtomic_same s f data perm :
  os_faults s = [] → managed s p q b d → os_tree s !! k = Some (IFile f) → f_data f = data →
  WriteAtomic p data perm s = ((false, None), s).
Proof.
  intros Hnf Hm Hf Hd. unfold WriteAtomic. unfold_M.
  rewrite (ReadFile_ok q d s Hnf p b f) by (apply Hm || exact Hf). by rewrite decide_True.
Qed.

Lemma WriteAtomic_new s data perm :
  os_faults s = [] → managed s p q b d → no_tmp s d → os_tree s !! k = None → ∃ s',
  WriteAtomic p data perm s = ((true, None), s') ∧ calm s s'
  ∧ os_tree s' = <[k := new_file s data perm]> (os_tree s).
Proof.
  intros Hnf Hm Hno Hk. unfold WriteAtomic. unfold_M.
  rewrite (ReadFile_absent q d s Hnf p b) by (apply Hm || exact Hk). by apply replaceFile_ok.
Qed.

Lemma WriteAtomic_replace s f data perm :
  os_faults s = [] → managed s p q b d → no_tmp s d →
  os_tree s !! k = Some (IFile f) → f_data f ≠ data → ∃ s',
  WriteAtomic p data perm s = ((true, None), s') ∧ calm s s'
  ∧ os_tree s' = <[k := new_file s data perm]>
                   (<[kbak := IFile (written s kbak (f_data f) perm)]> (os_tree s)).
Proof.
  intros Hnf Hm Hno Hk Hne. unfold WriteAtomic, copyFile. unfold_M.
  rewrite (ReadFile_ok q d s Hnf p b f) by (apply Hm || exact Hk). rewrite decide_False by done.
  rewrite (ReadFile_ok q d s Hnf p b f) by (apply Hm || exact Hk).
  rewrite (WriteFile_ok q d s Hnf _ (b +:+ BackupSuffix)) by (apply Hm || by eapply managed_bak_path).
  fold kbak. set (s1 := set_tree _ s). simpl.
  assert (managed s1 p q b d) as Hm1.
  { eapply (managed_insert p q b d s s1 _ kbak); [exact Hm|apply Hm|done|done]. }
  destruct (replaceFile_ok s1 data perm Hnf Hm1) as (s2 & E2 & Hc2 & Ht2).
  { intros n. subst s1; simpl. rewrite lookup_insert_ne; [apply Hno|].
    apply snoc_neq. apply bak_not_tmp. }
  exists s2. split; [exact E2|]. split; [exact Hc2|exact Ht2].
Qed.

(** Restoring puts the backup over the file and consumes it. *)
Lemma Restore_ok s f :
  os_faults s = [] → managed s p q b d → os_tree s !! kbak = Some (IFile f) →
  Restore p s = (None, set_tree (<[k := IFile f]> (delete kbak (os_tree s))) s).
Proof.
  intros Hnf Hm Hk. unfold Restore. unfold_M.
  rewrite (Stat_file q d s Hnf _ (b +:+ BackupSuffix) f) by (apply Hm || exact Hk || by eapply managed_bak_path).
  rewrite (Rename_ok d s Hnf _ _ d (b +:+ BackupSuffix) b f); [done| | |exact Hk|by eapply mg_not_dir].
  - eapply locate_file; [by eapply managed_bak_path|apply Hm].
  - by eapply managed_located.
Qed.

Lemma Restore_no_backup s :
  os_faults s = [] → managed s p q b d → os_tree s !! kbak = None → Restore p s = (None, s).
Proof.
  intros Hnf Hm Hk. unfold Restore. unfold_M.
  by rewrite (Stat_absent q d s Hnf _ (b +:+ BackupSuffix))
    by (apply Hm || exact Hk || by eapply managed_bak_path).
Qed.
End NoFaults.

(** ** RestoreDir *)

(** The effect of restoring one name on the tree. *)
Definition restore_name (d : phys) (t : tree) (name : string) : tree :=
  if HasSuffix name BackupSuffix then
    match t !! (d ++ [name]) with
    | Some i => <[d ++ [TrimSuffix name BackupSuffix] := i]> (delete (d ++ [name]) t)
    | None => t
    end
  else t.

(** A directory in which backups are files beside their originals, and there
    is no backup of a backup. *)
Definition backups_ok (t : tree) (d : phys) : Prop :=
  ∀ x, is_Some (t !! (d ++ [x +:+ BackupSuffix])) →
    good_name x = true ∧ HasSuffix x BackupSuffix = false
    ∧ (∃ f, t !! (d ++ [x +:+ BackupSuffix]) = Some (IFile f)) ∧ dir_part (t !! (d ++ [x])) = None.

Lemma good_name_bak x : good_name x = true → good_name (x +:+ BackupSuffix) = true.
Proof.
  intros (_ & _ & Hx)%good_name_spec. apply good_name_long; [rewrite str_app_length; simpl; lia|].
  by rewrite no_char_app, Hx.
Qed.

(** Handling one name: the tree changes as described and stays in shape. *)
Lemma restore_one s dir d x :
  os_faults s = [] → abs_dir s dir d → backups_ok (os_tree s) d →
  is_Some (os_tree s !! (d ++ [x +:+ BackupSuffix])) →
  Rename (Join [dir; x +:+ BackupSuffix]) (Join [dir; x]) s
    = (None, set_tree (restore_name d (os_tree s) (x +:+ BackupSuffix)) s)
  ∧ same_dirs (os_tree s) (restore_name d (os_tree s) (x +:+ BackupSuffix)).
Proof.
  intros Hnf Had Hok Hx. destruct (Hok x Hx) as (Hg & _ & (f & Hf) & Hd).
  destruct (abs_dir_file s dir d x Had Hg) as (q & Hp & Hq).
  destruct (abs_dir_file s dir d _ Had (good_name_bak x Hg)) as (q' & Hp' & Hq').
  unfold restore_name. rewrite (proj2 (HasSuffix_spec _ _)) by eauto. rewrite Hf, TrimSuffix_app. split.
  - rewrite (Rename_ok d s Hnf _ _ d (x +:+ BackupSuffix) x f); [done| | |exact Hf|].
    + eapply locate_file; [exact Hp'|exact Hq'].
    + eapply locate_file; [exact Hp|exact Hq].
    + intros E. by rewrite E in Hd.
  - etransitivity; [apply (same_dirs_delete _ (d ++ [x +:+ BackupSuffix])); by rewrite Hf|].
    apply same_dirs_insert. rewrite lookup_delete_ne; [done|]. apply snoc_neq. apply bak_neq.
Qed.

(** After a restore, an entry is its backup if there was one. *)
Lemma restore_name_lookup d t x k :
  is_Some (t !! (d ++ [x +:+ BackupSuffix])) →
  restore_name d t (x +:+ BackupSuffix) !! k
  = if decide (k = d ++ [x]) then t !! (d ++ [x +:+ BackupSuffix])
    else if decide (k = d ++ [x +:+ BackupSuffix]) then None else t !! k.
Proof.
  intros [i Hi]. unfold restore_name. rewrite (proj2 (HasSuffix_spec _ _)) by eauto.
  rewrite Hi, TrimSuffix_app. repeat case_decide; subst.
  - by rewrite lookup_insert_eq.
  - rewrite lookup_insert_ne by done. by rewrite lookup_delete_eq.
  - rewrite lookup_insert_ne by done. by rewrite lookup_delete_ne.
Qed.

Lemma HasSuffix_bak x : HasSuffix (x +:+ BackupSuffix) BackupSuffix = true.
Proof. apply HasSuffix_spec. eauto. Qed.

Lemma backups_ok_restore d t x :
  backups_ok t d → is_Some (t !! (d ++ [x +:+ BackupSuffix])) →
  backups_ok (restore_name d t (x +:+ BackupSuffix)) d.
Proof.
  intros Hok Hx y Hy. rewrite restore_name_lookup in Hy by done.
  destruct (Hok x Hx) as (_ & Hxs & (fx & Hfx) & _).
  case_decide as H1; [apply app_inj_tail in H1 as [_ H1]|].
  { rewrite <-H1, HasSuffix_bak in Hxs. done. }
  case_decide as H2; [by destruct Hy|].
  destruct (Hok y Hy) as (Hg & Hs & (f & Hf) & Hd). split_and!; [done|done| |].
  - exists f. rewrite restore_name_lookup by done. by rewrite !decide_False.
  - rewrite restore_name_lookup by done. case_decide; [by rewrite Hfx|]. by case_decide.
Qed.

(** The tree after RestoreDir over a list of names. *)
Definition restored (d : phys) (t : tree) (names : list string) : tree := foldl (restore_name d) t names.

Lemma restoreEntries_ok s dir d entries :
  os_faults s = [] → abs_dir s dir d → backups_ok (os_tree s) d →
  NoDup (de_Name <$> entries) →
  (∀ e, e ∈ entries → is_Some (os_tree s !! (d ++ [de_Name e]))) →
  restoreEntries dir entries s
    = (None, set_tree (restored d (os_tree s) (de_Name <$> entries)) s)
  ∧ same_dirs (os_tree s) (restored d (os_tree s) (de_Name <$> entries)).
Proof.
  revert s. induction entries as [|e entries IH]; intros s Hnf Had Hok Hnd Hin; simpl.
  { split; [|done]. by destruct s. }
  apply NoDup_cons in Hnd as [Hne Hnd].
  destruct (HasSuffix (de_Name e) BackupSuffix) eqn:Esuf; simpl.
  - apply HasSuffix_spec in Esuf as [x Hx]. rewrite Hx, TrimSuffix_app.
    assert (is_Some (os_tree s !! (d ++ [x +:+ BackupSuffix]))) as Hxin.
    { rewrite <-Hx. apply Hin. left. }
    destruct (restore_one s dir d x Hnf Had Hok Hxin) as [E Hs]. unfold_M. rewrite E.
    set (s1 := set_tree _ s).
    assert (abs_dir s1 dir d) as Had1 by (eapply abs_dir_step; [exact Hs|done|exact Had]).
    destruct (IH s1) as [E1 Hs1]; [done|exact Had1|by apply backups_ok_restore|done| |].
    + intros e' He'. simpl. rewrite restore_name_lookup by done.
      case_decide as H1; [done|]. case_decide as H2; [|apply Hin; by right].
      exfalso. apply Hne. apply app_inj_tail in H2 as [_ H2].
      rewrite Hx, <-H2. apply list_elem_of_fmap. eauto.
    + rewrite E1. split; [done|]. by etransitivity.
  - assert (restore_name d (os_tree s) (de_Name e) = os_tree s) as ->.
    { unfold restore_name. by rewrite Esuf. }
    apply IH; try done. intros e' He'. apply Hin. by right.
Qed.

(** What [restored] leaves, for names that exist and are listed once. *)
Lemma restored_lookup d names t :
  backups_ok t d → NoDup names → (∀ n, n ∈ names → is_Some (t !! (d ++ [n]))) →
  (∀ x, x +:+ BackupSuffix ∈ names →
     restored d t names !! (d ++ [x]) = t !! (d ++ [x +:+ BackupSuffix])
     ∧ restored d t names !! (d ++ [x +:+ BackupSuffix]) = None)
  ∧ ∀ k, (∀ x, x +:+ BackupSuffix ∈ names → k ≠ d ++ [x] ∧ k ≠ d ++ [x +:+ BackupSuffix]) →
     restored d t names !! k = t !! k.
Proof.
  revert t. induction names as [|n names IH]; intros t Hok Hnd Hin; simpl.
  { split; [by intros x ?%elem_of_nil|done]. }
  apply NoDup_cons in Hnd as [Hn Hnd].
  destruct (HasSuffix n BackupSuffix) eqn:Esuf.
  - apply HasSuffix_spec in Esuf as [y ->].
    assert (is_Some (t !! (d ++ [y +:+ BackupSuffix]))) as Hy by (apply Hin; left).
    destruct (Hok y Hy) as (_ & Hys & _ & _).
    assert (∀ x, x +:+ BackupSuffix ∈ names → x ≠ y ∧ x ≠ y +:+ BackupSuffix ∧ x +:+ BackupSuffix ≠ y) as Hdiff.
    { intros x Hx. split_and!; intros Heq; subst.
      - done.
      - destruct (Hok (y +:+ BackupSuffix)) as (_ & H & _ & _); [apply Hin; by right|].
        by rewrite HasSuffix_bak in H.
      - by rewrite HasSuffix_bak in Hys. }
    destruct (IH (restore_name d t (y +:+ BackupSuffix))) as [H1 H2].
    + by apply backups_ok_restore.
    + done.
    + intros n' Hn'. rewrite restore_name_lookup by done. case_decide as E1; [done|].
      case_decide as E2; [|apply Hin; by right]. apply app_inj_tail in E2 as [_ ->]. done.
    + split.
      * intros x [Hx|Hx]%elem_of_cons.
        -- apply str_app_inj_r in Hx as ->. rewrite !H2.
           ++ rewrite !restore_name_lookup by done. rewrite decide_True by done.
              rewrite decide_False by (apply snoc_neq; apply bak_neq). by rewrite decide_True.
           ++ intros x Hx. destruct (Hdiff x Hx) as (Ha & Hb & Hc).
              split; apply snoc_neq; [congruence|]. intros E. by apply str_app_inj_r in E.
           ++ intros x Hx. destruct (Hdiff x Hx) as (Ha & Hb & Hc). split; apply snoc_neq; congruence.
        -- destruct (Hdiff x Hx) as (Ha & Hb & Hc). destruct (H1 x Hx) as [-> ->]. split; [|done].
           rewrite restore_name_lookup by done. rewrite decide_False by (by apply snoc_neq).
           rewrite decide_False; [done|]. apply snoc_neq. intros E. by apply str_app_inj_r in E.
      * intros k Hk. rewrite H2 by (intros x Hx; apply Hk; by right).
        rewrite restore_name_lookup by done. destruct (Hk y ltac:(left)) as [Hk1 Hk2].
        by rewrite !decide_False.
  - assert (restore_name d t n = t) as -> by (unfold restore_name; by rewrite Esuf).
    destruct (IH t Hok Hnd) as [H1 H2]; [intros n' Hn'; apply Hin; by right|]. split.
    + intros x [Hx|Hx]%elem_of_cons; [|by apply H1]. by rewrite <-Hx, HasSuffix_bak in Esuf.
    + intros k Hk. apply H2. intros x Hx. apply Hk. by right.
Qed.

(** Every file that has a backup becomes its backup, the backups are used up,
    and nothing else changes. *)
Lemma RestoreDir_ok s dir d :
  os_faults s = [] → abs_dir s dir d → backups_ok (os_tree s) d → ∃ s',
  RestoreDir dir s = (None, s') ∧ calm s s' ∧ same_dirs (os_tree s) (os_tree s')
  ∧ (∀ x, is_Some (os_tree s !! (d ++ [x +:+ BackupSuffix])) →
       os_tree s' !! (d ++ [x]) = os_tree s !! (d ++ [x +:+ BackupSuffix])
       ∧ os_tree s' !! (d ++ [x +:+ BackupSuffix]) = None)
  ∧ ∀ k, (∀ x, is_Some (os_tree s !! (d ++ [x +:+ BackupSuffix])) →
            k ≠ d ++ [x] ∧ k ≠ d ++ [x +:+ BackupSuffix]) → os_tree s' !! k = os_tree s !! k.
Proof.
  intros Hnf Had Hok. unfold RestoreDir, ReadDir, syscall. unfold_M. rewrite next_fault_none by done.
  rewrite (ad_resolve s dir d Had), (ad_entry s dir d Had).
  set (entries := _ <$> children (os_tree s) d).
  assert (de_Name <$> entries = (children (os_tree s) d).*1) as Hnames.
  { unfold entries. rewrite <-list_fmap_compose. apply list_fmap_ext. by intros ? [b i] _. }
  assert (∀ n, n ∈ (de_Name <$> entries) ↔ is_Some (os_tree s !! (d ++ [n]))) as Hin.
  { intros n. rewrite Hnames, list_elem_of_fmap. split.
    - intros ([n' i] & -> & H). apply children_elem in H. eauto.
    - intros [i Hi]. exists (n, i). split; [done|]. by apply children_elem. }
  destruct (restoreEntries_ok s dir d entries) as [E Hs]; try done.
  { rewrite Hnames. apply children_NoDup. }
  { intros e He. apply Hin. apply list_elem_of_fmap. eauto. }
  destruct (restored_lookup d (de_Name <$> entries) (os_tree s) Hok) as [H1 H2].
  { rewrite Hnames. apply children_NoDup. }
  { intros n. apply Hin. }
  rewrite E. eexists. split; [done|]. split; [done|]. split; [done|]. simpl. split.
  - intros x Hx. apply H1. by apply Hin.
  - intros k Hk. apply H2. intros x Hx. apply Hk. by apply Hin.
Qed.

(** ** The specification of one write, as a function on trees *)

(** The file WriteFile leaves at [k], from the umask and the clock. *)
Definition written_in (umask clock : Z) (t : tree) (k : phys) (data : bytes) (perm : Z) : file :=
  match t !! k with
  | Some (IFile f) => mkFile data (f_perm f) clock
  | _ => mkFile data (Z.land perm (Z.lnot umask)) clock
  end.

(** Replacing [b] in the directory [d] by [data]: nothing if the contents are
    the same, otherwise a new file, with the old one as backup. *)
Definition write_tree (umask clock : Z) (d : phys) (b : string) (data : bytes) (perm : Z) (t : tree)
    : bool * tree :=
  let k := d ++ [b] in
  let kbak := d ++ [b +:+ BackupSuffix] in
  match t !! k with
  | Some (IFile f) =>
      if decide (f_data f = data) then (false, t)
      else (true, <[k := IFile (mkFile data perm clock)]>
                    (<[kbak := IFile (written_in umask clock t kbak (f_data f) perm)]> t))
  | _ => (true, <[k := IFile (mkFile data perm clock)]> t)
  end.

(** WriteAtomic implements it. *)
Lemma WriteAtomic_refines p q b d s data perm :
  os_faults s = [] → managed s p q b d → no_tmp s d → ∃ s',
  WriteAtomic p data perm s
    = (((write_tree (os_umask s) (os_clock s) d b data perm (os_tree s)).1, None), s')
  ∧ os_tree s' = (write_tree (os_umask s) (os_clock s) d b data perm (os_tree s)).2 ∧ calm s s'.
Proof.
  intros Hnf Hm Hno. unfold write_tree. pose proof (mg_file _ _ _ _ _ Hm) as Hf.
  destruct (os_tree s !! (d ++ [b])) as [[f| |tg]|] eqn:Ek; try done.
  - case_decide as Hd; simpl.
    + exists s. rewrite (WriteAtomic_same p q b d s f data perm) by done. done.
    + destruct (WriteAtomic_replace p q b d s f data perm Hnf Hm Hno Ek Hd) as (s' & -> & Hc & Ht).
      exists s'. done.
  - simpl. destruct (WriteAtomic_new p q b d s data perm Hnf Hm Hno Ek) as (s' & -> & Hc & Ht).
    exists s'. done.
Qed.

Section WriteTree.
Context (umask clock : Z) (d : phys).
Implicit Types (t : tree) (b : string).

(** Directories and links stay; a name that is not a file or a backup of one
    that was written stays. *)
Lemma write_tree_same_dirs b data perm t :
  dir_part (t !! (d ++ [b])) = None → dir_part (t !! (d ++ [b +:+ BackupSuffix])) = None →
  same_dirs t (write_tree umask clock d b data perm t).2.
Proof.
  intros Hk Hb. unfold write_tree.
  destruct (t !! (d ++ [b])) as [[f| |tg]|] eqn:E; try done; simpl.
  - case_decide; [done|]. simpl. etransitivity; [by apply (same_dirs_insert _ (d ++ [b +:+ BackupSuffix]))|].
    apply same_dirs_insert. rewrite lookup_insert_ne; [by rewrite E|].
    apply snoc_neq. apply bak_neq.
  - apply same_dirs_insert. by rewrite E.
Qed.

Lemma write_tree_lookup_ne b data perm t k :
  k ≠ d ++ [b] → k ≠ d ++ [b +:+ BackupSuffix] → (write_tree umask clock d b data perm t).2 !! k = t !! k.
Proof.
  intros H1 H2. unfold write_tree. destruct (t !! (d ++ [b])) as [[f| |tg]|]; simpl.
  - case_decide; simpl; [done|]. by rewrite !lookup_insert_ne.
  - by rewrite lookup_insert_ne.
  - by rewrite lookup_insert_ne.
  - by rewrite lookup_insert_ne.
Qed.

Lemma write_tree_content b data perm t :
  ∃ f, (write_tree umask clock d b data perm t).2 !! (d ++ [b]) = Some (IFile f) ∧ f_data f = data.
Proof.
  unfold write_tree. destruct (t !! (d ++ [b])) as [[f| |tg]|] eqn:E; simpl;
    [case_decide; simpl; [by exists f|]|..]; eexists; rewrite lookup_insert_eq; done.
Qed.

Lemma write_tree_again b data perm t f :
  t !! (d ++ [b]) = Some (IFile f) → f_data f = data → write_tree umask clock d b data perm t = (false, t).
Proof. intros E Hd. unfold write_tree. rewrite E. by rewrite decide_True. Qed.

(** A write that replaces a file leaves its old contents in the backup. *)
Lemma write_tree_backup b data perm t f :
  t !! (d ++ [b]) = Some (IFile f) → f_data f ≠ data →
  ∃ fb, (write_tree umask clock d b data perm t).2 !! (d ++ [b +:+ BackupSuffix]) = Some (IFile fb)
        ∧ f_data fb = f_data f.
Proof.
  intros E Hne. unfold write_tree. rewrite E, decide_False by done. simpl.
  rewrite lookup_insert_ne by (apply snoc_neq; intros H; by apply (bak_neq b)).
  rewrite lookup_insert_eq. eexists. split; [done|]. unfold written_in. by destruct (t !! (d ++ [b +:+ BackupSuffix])) as [[]|].
Qed.
End WriteTree.

(** ** The guarantees of the package *)

(** (C4) WriteAtomic is all or nothing, whichever of its system calls fail and
    however often, partial writes included; a crash is the schedule in which
    every call from some point on fails. Whatever it returns, the file at the
    path is either exactly the one that was there before or a complete file
    with the new data and the requested mode, and it is the new one exactly if
    a change is reported; no change and no error is only reported if the file
    already had the data. Nothing else is touched but the backup and temporary
    files in the same directory, and no directory is added or removed. *)
Theorem write_atomic_all_or_nothing p q b d s data perm ch err s' :
  managed s p q b d → WriteAtomic p data perm s = ((ch, err), s') →
  (if ch then err = None ∧ os_tree s' !! (d ++ [b]) = Some (IFile (mkFile data perm (os_clock s)))
   else os_tree s' !! (d ++ [b]) = os_tree s !! (d ++ [b])
        ∧ (err = None → content (os_tree s) (d ++ [b]) = Some data))
  ∧ same_dirs (os_tree s) (os_tree s')
  ∧ ∀ k', k' ≠ d ++ [b] → ¬ scratch b d k' → os_tree s' !! k' = os_tree s !! k'.
Proof.
  intros Hm E. destruct (WriteAtomic_spec p q b d s data perm ch err s' Hm E) as (_ & Hs & Hk & Ho).
  split_and!; [|exact Hs|exact Ho]. destruct ch; [exact Hk|]. destruct Hk as [Hk He]. split; [exact Hk|].
  intros Herr. apply content_Some. by apply He.
Qed.

(** A write can be undone. If nothing fails, replacing a file by different
    data and then restoring it brings back the old contents and leaves no
    backup; nothing else in the file system has changed. *)
Theorem write_then_restore p q b d s f data perm :
  os_faults s = [] → managed s p q b d → no_tmp s d →
  os_tree s !! (d ++ [b]) = Some (IFile f) → f_data f ≠ data → ∃ s1 s2,
  WriteAtomic p data perm s = ((true, None), s1)
  ∧ content (os_tree s1) (d ++ [b]) = Some data
  ∧ Restore p s1 = (None, s2)
  ∧ content (os_tree s2) (d ++ [b]) = Some (f_data f)
  ∧ os_tree s2 !! (d ++ [b +:+ BackupSuffix]) = None
  ∧ ∀ k, k ≠ d ++ [b] → k ≠ d ++ [b +:+ BackupSuffix] → os_tree s2 !! k = os_tree s !! k.
Proof.
  intros Hnf Hm Hno Hf Hne. pose proof (bak_neq b) as Hbn.
  assert (d ++ [b +:+ BackupSuffix] ≠ d ++ [b]) as Hbk by (by apply snoc_neq).
  destruct (WriteAtomic_replace p q b d s f data perm Hnf Hm Hno Hf Hne) as (s1 & E1 & [Henv Hnf1] & Ht1).
  assert (managed s1 p q b d) as Hm1.
  { destruct (WriteAtomic_spec p q b d s data perm _ _ s1 Hm E1) as (Hv & Hs & _).
    eapply managed_step; [exact Hm|exact Hs|exact Hv]. }
  set (fb := written s (d ++ [b +:+ BackupSuffix]) (f_data f) perm) in *.
  assert (os_tree s1 !! (d ++ [b +:+ BackupSuffix]) = Some (IFile fb)) as Hb1.
  { rewrite Ht1, lookup_insert_ne by done. apply lookup_insert_eq. }
  eexists s1, _. split; [exact E1|]. split; [|split; [exact (Restore_ok p q b d s1 fb Hnf1 Hm1 Hb1)|]].
  - unfold content. by rewrite Ht1, lookup_insert_eq.
  - simpl. split_and!.
    + unfold content. rewrite lookup_insert_eq. f_equal.
      unfold fb, written. by destruct (os_tree s !! (d ++ [b +:+ BackupSuffix])) as [[]|].
    + by rewrite lookup_insert_ne, lookup_delete_eq.
    + intros k H1 H2. by rewrite lookup_insert_ne, lookup_delete_ne, Ht1, !lookup_insert_ne.
Qed.

(** RestoreDir restores every backup of a directory and nothing else: if
    nothing fails, each file with a backup is replaced by it, the backups are
    gone, and every other entry of the file system is as before. *)
Theorem restore_dir_correct s dir d :
  os_faults s = [] → abs_dir s dir d → backups_ok (os_tree s) d → ∃ s',
  RestoreDir dir s = (None, s')
  ∧ (∀ x, is_Some (os_tree s !! (d ++ [x +:+ BackupSuffix])) →
       os_tree s' !! (d ++ [x]) = os_tree s !! (d ++ [x +:+ BackupSuffix])
       ∧ os_tree s' !! (d ++ [x +:+ BackupSuffix]) = None)
  ∧ ∀ k, (∀ x, is_Some (os_tree s !! (d ++ [x +:+ BackupSuffix])) →
            k ≠ d ++ [x] ∧ k ≠ d ++ [x +:+ BackupSuffix]) → os_tree s' !! k = os_tree s !! k.
Proof.
  intros Hnf Hd Hb. destruct (RestoreDir_ok s dir d Hnf Hd Hb) as (s' & E & _ & _ & H). by exists s'.
Qed.
