(* ===== verification/Cert.v ===== *)
(** internal/cert/cert.go: loading certificates and keys. PEM, X.509, the key
    formats and SHA-256 are Go's crypto libraries; they are the parameter
    [Crypto] of the model. *)

From S2P Require Import Prelude GoStrings GoPath FileSystem.

Open Scope Z_scope.

(** The fields of x509.Certificate the sources read. Times are instants in
    nanoseconds since the epoch. *)
Record Certificate := mkCertificate {
  c_NotBefore : Z;
  c_NotAfter : Z;
  c_SerialNumber : Z;
  c_DNSNames : list string;
  c_CommonName : string
}.

(** The first PEM block of the input: its type and its bytes. *)
Record pem_block := mkBlock { pem_Type : string; pem_Bytes : bytes }.

Class Crypto := {
  pem_Decode : bytes → option pem_block;
  ParseCertificate : bytes → result Certificate;
  ParsePKCS8PrivateKey : bytes → bool;
  ParsePKCS1PrivateKey : bytes → bool;
  ParseECPrivateKey : bytes → bool;
  sha256_Sum256 : bytes → bytes
}.

(** [hex.EncodeToString] *)
Definition hex_digit (n : N) : ascii :=
  if (n <? 10)%N then ascii_of_N (48 + n) else ascii_of_N (87 + n).

Fixpoint hex_EncodeToString (data : bytes) : string :=
  match data with
  | [] => ""
  | x :: data' =>
      let n := Byte.to_N x in
      String (hex_digit (n / 16)) (String (hex_digit (n mod 16)) (hex_EncodeToString data'))
  end.

Section Cert.
Context `{!Crypto}.

(** cert.parseCertificate *)
Definition parseCertificate (raw : bytes) : result Certificate :=
  match pem_Decode raw with
  | Some block =>
      if negb (String.eqb (pem_Type block) "CERTIFICATE")
      then Err (Errors ("expected CERTIFICATE PEM block, got " +:+ pem_Type block))
      else ParseCertificate (pem_Bytes block)
  | None => ParseCertificate raw
  end.

(** cert.LooksLikePrivateKey *)
Definition LooksLikePrivateKey (raw : bytes) : bool :=
  match pem_Decode raw with
  | None => false
  | Some block =>
      ParsePKCS8PrivateKey (pem_Bytes block)
      || ParsePKCS1PrivateKey (pem_Bytes block)
      || ParseECPrivateKey (pem_Bytes block)
  end.

(** cert.LooksLikeCertificate *)
Definition LooksLikeCertificate (raw : bytes) : bool :=
  match parseCertificate raw with Ok _ => true | Err _ => false end.

(** cert.LooksLikeCertificateFile *)
Definition LooksLikeCertificateFile (path : string) : M OS bool :=
  r ← ReadFile path;
  mret (match r with Ok raw => LooksLikeCertificate raw | Err _ => false end).

(** cert.Load *)
Definition Load (path : string) : M OS (result Certificate) :=
  r ← ReadFile path;
  mret (match r with
        | Err e => Err (Errorf ("read " +:+ path) e)
        | Ok raw =>
            match parseCertificate raw with
            | Err e => Err (Errorf ("parse " +:+ path) e)
            | Ok parsed => Ok parsed
            end
        end).

(** cert.LoadKey *)
Definition LoadKey (path : string) : M OS (result bytes) :=
  r ← ReadFile path;
  mret (match r with
        | Err e => Err (Errorf ("read " +:+ path) e)
        | Ok raw =>
            if negb (LooksLikePrivateKey raw)
            then Err (Errors (path +:+ ": not a parseable private key"))
            else Ok raw
        end).

(** cert.PrimaryDomain; a nil certificate is [None]. *)
Definition PrimaryDomain (c : option Certificate) (fallback : string) : string :=
  match c with
  | None => fallback
  | Some c =>
      match c_DNSNames c with
      | n :: _ => n
      | [] => if negb (String.eqb (c_CommonName c) "") then c_CommonName c else fallback
      end
  end.
End Cert.
