(* ===== verification/Bundle.v ===== *)
(** internal/bundle/bundle.go: reading and writing a certificate bundle, and
    the order on bundle versions. *)

From Stdlib Require Import HexadecimalString HexadecimalZ.
From S2P Require Import Prelude GoStrings GoPath FileSystem AtomicFile Cert.

Open Scope Z_scope.

Definition CertFile : string := "cert.pem".
Definition KeyFile : string := "privkey.pem".
Definition ChainFile : string := "chain.pem".
Definition FullchainFile : string := "fullchain.pem".

(** bundle.Version. Times are instants in nanoseconds since the epoch, so
    [time.Time.Equal] and [After] are the comparison of integers. *)
Record BVersion := mkBVersion {
  NotBefore : Z;
  NotAfter : Z;
  Serial : string;
  SHA256 : string
}.

(** bundle.Bundle *)
Record Bundle := mkBundle {
  Lineage : string;
  Domain : string;
  b_Version : BVersion;
  CertPEM : bytes;
  KeyPEM : bytes;
  ChainPEM : bytes;
  FullPEM : bytes
}.

#[export] Instance BVersion_eq_dec : EqDecision BVersion.
Proof. solve_decision. Defined.

(** [big.Int.Text(16)] *)
Definition Text16 (z : Z) : string := NilZero.string_of_int (Z.to_hex_int z).

(** bundle.sha256Hex *)
Definition sha256Hex `{!Crypto} (data : bytes) : string := hex_EncodeToString (sha256_Sum256 data).

(** An optional file: nil when it cannot be read. *)
Definition readOptional (path : string) : M OS bytes :=
  r ← ReadFile path;
  mret (match r with Ok data => data | Err _ => [] end).

(** bundle.ReadLineage *)
Definition ReadLineage `{!Crypto} (lineage dir : string) : M OS (result Bundle) :=
  let certPath := Join [dir; CertFile] in
  let keyPath := Join [dir; KeyFile] in
  leaf ← Load certPath;
  match leaf with
  | Err e => mret (Err e)
  | Ok leaf =>
      certPEM ← ReadFile certPath;
      match certPEM with
      | Err e => mret (Err (Errorf ("read " +:+ certPath) e))
      | Ok certPEM =>
          keyPEM ← LoadKey keyPath;
          match keyPEM with
          | Err e => mret (Err e)
          | Ok keyPEM =>
              chain ← readOptional (Join [dir; ChainFile]);
              full ← readOptional (Join [dir; FullchainFile]);
              mret (Ok {| Lineage := lineage;
                          Domain := PrimaryDomain (Some leaf) lineage;
                          b_Version := mkBVersion (c_NotBefore leaf) (c_NotAfter leaf)
                                         (Text16 (c_SerialNumber leaf)) (sha256Hex certPEM);
                          CertPEM := certPEM;
                          KeyPEM := keyPEM;
                          ChainPEM := chain;
                          FullPEM := full |})
          end
      end
  end.

(** bundle.Compare *)
Definition Compare (a b : BVersion) : Z :=
  if negb (NotBefore a =? NotBefore b) then
    if NotBefore b <? NotBefore a then 1 else -1
  else if negb (NotAfter a =? NotAfter b) then
    if NotAfter b <? NotAfter a then 1 else -1
  else
    let c := strings_Compare (Serial a) (Serial b) in
    if negb (c =? 0) then c else strings_Compare (SHA256 a) (SHA256 b).

(** bundle.Newer *)
Definition BNewer (a b : BVersion) : bool := 0 <? Compare a b.

(** The files of a bundle in the order they are written, with permissions
    0644 for certificates and 0600 for the key. *)
Definition bundleFiles (b : Bundle) : list (string * bytes * Z) :=
  [(CertFile, CertPEM b, 420); (KeyFile, KeyPEM b, 384);
   (ChainFile, ChainPEM b, 420); (FullchainFile, FullPEM b, 420)].

(** The loop of WriteAtomic over the files; it stops at the first error. *)
Fixpoint writeFiles (dir : string) (changed : bool) (files : list (string * bytes * Z))
    : M OS (bool * option error) :=
  match files with
  | [] => mret (changed, None)
  | (name, data, perm) :: files' =>
      if bool_decide (data = []) then writeFiles dir changed files'
      else
        '(c, err) ← WriteAtomic (Join [dir; name]) data perm;
        match err with
        | Some e => mret (changed, Some e)
        | None => writeFiles dir (changed || c) files'
        end
  end.

(** Bundle.WriteAtomic *)
Definition BundleWriteAtomic (b : Bundle) (dir : string) : M OS (bool * option error) :=
  err ← MkdirAll dir;
  match err with
  | Some e => mret (false, Some (Errorf ("mkdir " +:+ dir) e))
  | None => writeFiles dir false (bundleFiles b)
  end.

(** bundle.Rollback *)
Definition Rollback (dir : string) : M OS (option error) := RestoreDir dir.

(** ** Compare is a total order *)

Lemma strings_Compare_antisym s t : strings_Compare s t = - strings_Compare t s.
Proof. unfold strings_Compare. rewrite (str_compare_antisym s t). by destruct (String.compare t s). Qed.

Lemma strings_Compare_zero s t : strings_Compare s t = 0 ↔ s = t.
Proof. unfold strings_Compare. rewrite <-str_compare_eq. by destruct (String.compare s t). Qed.

Lemma strings_Compare_pos s t : 0 < strings_Compare s t ↔ str_ltb t s = true.
Proof.
  unfold strings_Compare, str_ltb. rewrite (str_compare_antisym t s).
  destruct (String.compare s t); simpl; split; try done; lia.
Qed.

(** The lexicographic reading of a positive result. *)
Lemma Compare_pos a b :
  0 < Compare a b ↔ NotBefore b < NotBefore a
    ∨ (NotBefore a = NotBefore b ∧ NotAfter b < NotAfter a)
    ∨ (NotBefore a = NotBefore b ∧ NotAfter a = NotAfter b
        ∧ (str_ltb (Serial b) (Serial a) = true
           ∨ (Serial a = Serial b ∧ str_ltb (SHA256 b) (SHA256 a) = true))).
Proof.
  unfold Compare. destruct (Z.eqb_spec (NotBefore a) (NotBefore b)); simpl.
  2: { destruct (Z.ltb_spec (NotBefore b) (NotBefore a)); intuition lia. }
  destruct (Z.eqb_spec (NotAfter a) (NotAfter b)); simpl.
  2: { destruct (Z.ltb_spec (NotAfter b) (NotAfter a)); intuition lia. }
  destruct (Z.eqb_spec (strings_Compare (Serial a) (Serial b)) 0) as [E|E]; simpl.
  - apply strings_Compare_zero in E as E'. rewrite E', str_ltb_irrefl, strings_Compare_pos. naive_solver lia.
  - rewrite strings_Compare_pos. rewrite strings_Compare_zero in E. naive_solver lia.
Qed.

Lemma Compare_antisym a b : Compare a b = - Compare b a.
Proof.
  unfold Compare. rewrite (Z.eqb_sym (NotBefore b)), (Z.eqb_sym (NotAfter b)).
  rewrite (strings_Compare_antisym (Serial b)), (strings_Compare_antisym (SHA256 b)).
  destruct (Z.eqb_spec (NotBefore a) (NotBefore b)); simpl.
  2: { destruct (Z.ltb_spec (NotBefore b) (NotBefore a)), (Z.ltb_spec (NotBefore a) (NotBefore b)); lia. }
  destruct (Z.eqb_spec (NotAfter a) (NotAfter b)); simpl.
  2: { destruct (Z.ltb_spec (NotAfter b) (NotAfter a)), (Z.ltb_spec (NotAfter a) (NotAfter b)); lia. }
  destruct (Z.eqb_spec (strings_Compare (Serial a) (Serial b)) 0),
    (Z.eqb_spec (- strings_Compare (Serial a) (Serial b)) 0); simpl; lia.
Qed.

Lemma Compare_zero a b : Compare a b = 0 ↔ a = b.
Proof.
  split.
  - unfold Compare. destruct (Z.eqb_spec (NotBefore a) (NotBefore b)); simpl.
    2: { by destruct (Z.ltb _ _). }
    destruct (Z.eqb_spec (NotAfter a) (NotAfter b)); simpl.
    2: { by destruct (Z.ltb _ _). }
    destruct (Z.eqb_spec (strings_Compare (Serial a) (Serial b)) 0) as [E|E]; simpl; [|done].
    apply strings_Compare_zero in E. rewrite strings_Compare_zero.
    destruct a, b; simpl in *; naive_solver.
  - intros ->. unfold Compare. rewrite !Z.eqb_refl. simpl.
    by rewrite (proj2 (strings_Compare_zero (Serial b) _) eq_refl), (proj2 (strings_Compare_zero (SHA256 b) _) eq_refl).
Qed.

Lemma Compare_trans a b c : 0 < Compare a b → 0 < Compare b c → 0 < Compare a c.
Proof.
  rewrite !Compare_pos.
  intros [?|[[??]|(?&?&Hs)]] [?|[[??]|(?&?&Ht)]]; try (left; lia); try (right; left; lia).
  right; right. split; [lia|]. split; [lia|].
  destruct Hs as [Hs|[Hs Hs']], Ht as [Ht|[Ht Ht']].
  - left. by eapply str_ltb_trans.
  - left. by rewrite <-Ht.
  - left. by rewrite Hs.
  - right. split; [congruence|]. by eapply str_ltb_trans.
Qed.

(** ** Writing the files of a bundle when nothing fails *)

(** A directory in which the given names can be written. *)
Record writable (s : OS) (dir : string) (d : phys) (names : list string) : Prop := {
  wr_dir : abs_dir s dir d;
  wr_tmp : no_tmp s d;
  wr_names : ∀ x, x ∈ names → good_name x = true ∧ (∀ n, x ≠ tmp_name n)
    ∧ dir_part (os_tree s !! (d ++ [x])) = None
    ∧ dir_part (os_tree s !! (d ++ [x +:+ BackupSuffix])) = None
}.

Lemma writable_managed s dir d names x :
  writable s dir d names → x ∈ names → ∃ q, managed s (Join [dir; x]) q x d.
Proof.
  intros [Hd _ Hn] Hx. destruct (Hn x Hx) as (Hg & Ht & Hk & Hb).
  destruct (abs_dir_file s dir d x Hd Hg) as (q & Hp & Hq). exists q. split; assumption.
Qed.

(** The effect of the loop on the tree: the writes in order, skipping empty
    data. *)
Fixpoint files_tree (umask clock : Z) (d : phys) (changed : bool) (files : list (string * bytes * Z))
    (t : tree) : bool * tree :=
  match files with
  | [] => (changed, t)
  | (name, data, perm) :: files' =>
      if bool_decide (data = []) then files_tree umask clock d changed files' t
      else let '(c, t') := write_tree umask clock d name data perm t in
           files_tree umask clock d (changed || c) files' t'
  end.

Lemma writable_write s s' dir d names x data perm :
  writable s dir d names → x ∈ names → calm s s' →
  os_tree s' = (write_tree (os_umask s) (os_clock s) d x data perm (os_tree s)).2 →
  writable s' dir d names.
Proof.
  intros [Hd Ht Hn] Hx [(Hcwd & _) _] Htree. destruct (Hn x Hx) as (_ & Hxt & Hk & Hb).
  assert (same_dirs (os_tree s) (os_tree s')) as Hs by (rewrite Htree; by apply write_tree_same_dirs).
  split.
  - eapply abs_dir_step; [exact Hs|exact Hcwd|exact Hd].
  - intros n. rewrite Htree, write_tree_lookup_ne; [apply Ht|..]; apply snoc_neq.
    + intros E. by apply (Hxt n).
    + intros E. by apply (bak_not_tmp x n).
  - intros y Hy. destruct (Hn y Hy) as (? & ? & ? & ?). by rewrite <-!Hs.
Qed.

Lemma writeFiles_refines s dir d names changed files :
  os_faults s = [] → writable s dir d names → (∀ f, f ∈ files → f.1.1 ∈ names) → ∃ s',
  writeFiles dir changed files s
    = (((files_tree (os_umask s) (os_clock s) d changed files (os_tree s)).1, None), s')
  ∧ os_tree s' = (files_tree (os_umask s) (os_clock s) d changed files (os_tree s)).2
  ∧ calm s s' ∧ writable s' dir d names ∧ same_dirs (os_tree s) (os_tree s').
Proof.
  revert s changed. induction files as [|[[x data] perm] files IH]; intros s changed Hnf Hw Hin; simpl.
  { exists s. done. }
  assert (∀ f, f ∈ files → f.1.1 ∈ names) as Hin' by (intros f Hf; apply Hin; by right).
  case_bool_decide as Hdata; [by apply IH|].
  assert (x ∈ names) as Hx by (apply (Hin (x, data, perm)); left).
  destruct (writable_managed s dir d names x Hw Hx) as [q Hm].
  destruct (WriteAtomic_refines _ q x d s data perm Hnf Hm (wr_tmp _ _ _ _ Hw)) as (s1 & E1 & Ht1 & Hc1).
  unfold_M. rewrite E1.
  destruct (write_tree _ _ d x data perm (os_tree s)) as [c t1] eqn:Ew; simpl in *.
  pose proof Hc1 as [(Hcwd & Hum & Hck) Hnf1].
  destruct (IH s1 (changed || c)) as (s2 & E2 & Ht2 & [Hc2 Hnf2] & Hw2 & Hs2);
    [done|eapply writable_write; [exact Hw|exact Hx|exact Hc1|by rewrite Ew]|done|].
  rewrite Hum, Hck, Ht1 in E2, Ht2. exists s2. split; [exact E2|]. split; [exact Ht2|].
  destruct (wr_names _ _ _ _ Hw x Hx) as (_ & _ & Hk & Hb).
  pose proof (write_tree_same_dirs (os_umask s) (os_clock s) d x data perm (os_tree s) Hk Hb) as Hs1.
  rewrite Ew in Hs1. simpl in Hs1. rewrite <-Ht1 in Hs1. split_and!.
  - split; [|done]. by etransitivity; [|exact Hc2].
  - exact Hw2.
  - by etransitivity.
Qed.

Section FilesTree.
Context (umask clock : Z) (d : phys).
Implicit Types (files : list (string * bytes * Z)) (t : tree).

(** Names are distinct and no name is the backup of another. *)
Definition names_ok (names : list string) : Prop :=
  NoDup names ∧ ∀ x y, x ∈ names → y ∈ names → x ≠ y +:+ BackupSuffix.

(** Every file with data ends up with that data. *)
Definition has_files (t : tree) (files : list (string * bytes * Z)) : Prop :=
  ∀ name data perm, (name, data, perm) ∈ files → data ≠ [] →
    ∃ f, t !! (d ++ [name]) = Some (IFile f) ∧ f_data f = data.

Lemma files_tree_ne changed files t k :
  (∀ f, f ∈ files → k ≠ d ++ [f.1.1] ∧ k ≠ d ++ [f.1.1 +:+ BackupSuffix]) →
  (files_tree umask clock d changed files t).2 !! k = t !! k.
Proof.
  revert changed t. induction files as [|[[x data] perm] files IH]; intros changed t Hk; simpl; [done|].
  assert (∀ f, f ∈ files → k ≠ d ++ [f.1.1] ∧ k ≠ d ++ [f.1.1 +:+ BackupSuffix]) as Hk'
    by (intros f Hf; apply Hk; by right).
  case_bool_decide; [by apply IH|].
  destruct (Hk (x, data, perm) ltac:(left)) as [H1 H2].
  pose proof (write_tree_lookup_ne umask clock d x data perm t k H1 H2) as Hne.
  destruct (write_tree umask clock d x data perm t) as [c t1]. simpl in *. by rewrite IH.
Qed.

Lemma names_ok_tail x names :
  names_ok (x :: names) → names_ok names ∧ ∀ y, y ∈ names →
    d ++ [x] ≠ d ++ [y] ∧ d ++ [x] ≠ d ++ [y +:+ BackupSuffix].
Proof.
  intros [Hnd Hb]. apply NoDup_cons in Hnd as [Hx Hnd]. split.
  - split; [done|]. intros y z Hy Hz. apply Hb; by right.
  - intros y Hy. split; apply snoc_neq.
    + intros ->. done.
    + apply Hb; [left|by right].
Qed.

Lemma files_tree_content changed files t :
  names_ok (files.*1.*1) → has_files (files_tree umask clock d changed files t).2 files.
Proof.
  revert changed t. induction files as [|[[x data] perm] files IH]; intros changed t Hok name dt pm Hin Hne.
  { by apply elem_of_nil in Hin. }
  apply names_ok_tail in Hok as [Hok Hdiff]. simpl.
  apply elem_of_cons in Hin as [[= -> -> ->]|Hin].
  - rewrite bool_decide_false by done.
    destruct (write_tree_content umask clock d x data perm t) as (f & Hf & Hd).
    destruct (write_tree umask clock d x data perm t) as [c t1]. simpl in *.
    exists f. split; [|done]. rewrite files_tree_ne; [done|]. intros g Hg. apply Hdiff.
    apply list_elem_of_fmap_2, list_elem_of_fmap_2. done.
  - case_bool_decide.
    + by apply (IH changed t Hok name dt pm).
    + destruct (write_tree umask clock d x data perm t) as [c t1]. by apply (IH (changed || c) t1 Hok name dt pm).
Qed.

(** Writing what is already there changes nothing and says so. *)
Lemma files_tree_again changed files t :
  has_files t files → files_tree umask clock d changed files t = (changed, t).
Proof.
  revert changed. induction files as [|[[x data] perm] files IH]; intros changed Hall; simpl; [done|].
  assert (has_files t files) as Hall' by (intros n dt pm Hin; apply (Hall n dt pm); by right).
  case_bool_decide as Hd; [by apply IH|].
  destruct (Hall x data perm ltac:(left) Hd) as (f & Hf & Hfd).
  rewrite (write_tree_again umask clock d x data perm t f Hf Hfd), orb_false_r. by apply IH.
Qed.

Lemma names_of_files (files : list (string * bytes * Z)) g : g ∈ files → g.1.1 ∈ files.*1.*1.
Proof. intros Hg. by do 2 apply list_elem_of_fmap_2. Qed.

(** The backup of the first file is neither a later file nor its backup. *)
Lemma backup_apart x data perm (files : list (string * bytes * Z)) g :
  names_ok (((x, data, perm) :: files).*1.*1) → g ∈ files →
  x +:+ BackupSuffix ≠ g.1.1 ∧ x +:+ BackupSuffix ≠ g.1.1 +:+ BackupSuffix.
Proof.
  intros Hok Hg%names_of_files. split.
  - intros E. apply (proj2 Hok g.1.1 x); [by right|left|done].
  - intros E. apply str_app_inj_r in E. destruct Hok as [Hnd _]. apply NoDup_cons in Hnd as [Hx _].
    apply Hx. simpl. by rewrite E.
Qed.

(** When no backup was there and every file to write was: afterwards a file is
    either untouched and without a backup, or its backup has the old data. *)
Lemma files_tree_backup changed files t :
  names_ok (files.*1.*1) →
  (∀ f, f ∈ files → t !! (d ++ [f.1.1 +:+ BackupSuffix]) = None) →
  (∀ f, f ∈ files → f.1.2 ≠ [] → ∃ f0, t !! (d ++ [f.1.1]) = Some (IFile f0)) →
  let t' := (files_tree umask clock d changed files t).2 in
  ∀ f, f ∈ files →
    (t' !! (d ++ [f.1.1 +:+ BackupSuffix]) = None ∧ t' !! (d ++ [f.1.1]) = t !! (d ++ [f.1.1]))
    ∨ (∃ fb data, t' !! (d ++ [f.1.1 +:+ BackupSuffix]) = Some (IFile fb)
         ∧ content t (d ++ [f.1.1]) = Some data ∧ f_data fb = data).
Proof.
  revert changed t. induction files as [|[[x data] perm] files IH]; intros changed t Hok Hbak Hex.
  { intros t' f Hf. by apply elem_of_nil in Hf. }
  apply names_ok_tail in Hok as Htl. destruct Htl as [Hok' Hdiff].
  pose proof (names_of_files files) as Hmem. pose proof (λ g, backup_apart x data perm files g Hok) as Hdiff'.
  intros t' f Hf. subst t'. simpl.
  set (rest := λ t1 c, (files_tree umask clock d c files t1).2).
  assert (∀ t1 c, rest t1 c !! (d ++ [x]) = t1 !! (d ++ [x])
    ∧ rest t1 c !! (d ++ [x +:+ BackupSuffix]) = t1 !! (d ++ [x +:+ BackupSuffix])) as Hrest.
  { intros t1 c. split; apply files_tree_ne; intros g Hg.
    - apply Hdiff. by apply Hmem.
    - destruct (Hdiff' g Hg). split; by apply snoc_neq. }
  assert (∀ g, g ∈ files → t !! (d ++ [g.1.1 +:+ BackupSuffix]) = None) as Hbak' by (intros; apply Hbak; by right).
  assert (∀ g, g ∈ files → g.1.2 ≠ [] → ∃ f0, t !! (d ++ [g.1.1]) = Some (IFile f0)) as Hex'
    by (intros; apply Hex; [by right|done]).
  case_bool_decide as Hd.
  { apply elem_of_cons in Hf as [->|Hf]; [|by apply (IH changed t Hok' Hbak' Hex')].
    left. simpl. destruct (Hrest t changed) as [H1 H2]. unfold rest in H1, H2. rewrite H1, H2. split; [|done].
    apply (Hbak (x, data, perm)). left. }
  destruct (Hex (x, data, perm) ltac:(left) Hd) as [f0 Hf0]. simpl in Hf0.
  pose proof (write_tree_lookup_ne umask clock d x data perm t) as Hne.
  pose proof (write_tree_again umask clock d x data perm t f0 Hf0) as Hsame.
  pose proof (write_tree_backup umask clock d x data perm t f0 Hf0) as Hbk.
  destruct (write_tree umask clock d x data perm t) as [c t1]. simpl in *.
  assert (∀ g, g ∈ files → t1 !! (d ++ [g.1.1]) = t !! (d ++ [g.1.1])
    ∧ t1 !! (d ++ [g.1.1 +:+ BackupSuffix]) = t !! (d ++ [g.1.1 +:+ BackupSuffix])) as Hkeep.
  { intros g Hg. destruct (Hdiff g.1.1 (Hmem g Hg)) as [D1 D2]. destruct (Hdiff' g Hg) as [D3 D4].
    split; apply Hne; try done; apply snoc_neq; done. }
  apply elem_of_cons in Hf as [->|Hf]; simpl.
  - destruct (Hrest t1 (changed || c)) as [H1 H2]. unfold rest in H1, H2. rewrite H1, H2.
    destruct (decide (f_data f0 = data)) as [E|E].
    + left. injection (Hsame E) as _ ->. split; [|done]. apply (Hbak (x, data, perm)). left.
    + right. destruct (Hbk E) as (fb & Hb1 & Hb2). exists fb, (f_data f0). split_and!; [done| |done].
      apply content_Some. eauto.
  - destruct (Hkeep f Hf) as [K1 K2].
    destruct (IH (changed || c) t1 Hok') with (f := f) as [[? ?]|(fb & dt & ? & ? & ?)]; [..|done| |].
    + intros g Hg. destruct (Hkeep g Hg) as [_ ->]. by apply Hbak'.
    + intros g Hg Hgd. destruct (Hkeep g Hg) as [-> _]. by apply Hex'.
    + left. by rewrite <-K1.
    + right. exists fb, dt. unfold content in *. by rewrite <-K1.
Qed.
(** What the backup of a file holds after [data] has been written: the old
    contents, if there were other ones. *)
Definition kept_bak (old bak : option bytes) (data : bytes) : option bytes :=
  match old with
  | Some c => if bool_decide (c = data) then bak else Some c
  | None => bak
  end.

Lemma write_tree_contents x data perm t :
  dir_part (t !! (d ++ [x])) = None →
  let t' := (write_tree umask clock d x data perm t).2 in
  content t' (d ++ [x]) = Some data
  ∧ content t' (d ++ [x +:+ BackupSuffix])
    = kept_bak (content t (d ++ [x])) (content t (d ++ [x +:+ BackupSuffix])) data.
Proof.
  intros Hk t'. split.
  { destruct (write_tree_content umask clock d x data perm t) as (f & Hf & <-). unfold content, t'. by rewrite Hf. }
  unfold t', kept_bak, content at 2. destruct (t !! (d ++ [x])) as [[f| |tg]|] eqn:E; try done.
  - case_bool_decide as Hd; [by rewrite (write_tree_again umask clock d x data perm t f E Hd)|].
    destruct (write_tree_backup umask clock d x data perm t f E Hd) as (fb & Hb & <-).
    unfold content. by rewrite Hb.
  - unfold write_tree. rewrite E. simpl. unfold content. rewrite lookup_insert_ne; [done|].
    apply snoc_neq. intros H. by apply (bak_neq x).
Qed.

(** The contents of every file and every backup after the loop. *)
Lemma files_tree_contents changed files t :
  names_ok (files.*1.*1) → (∀ f, f ∈ files → dir_part (t !! (d ++ [f.1.1])) = None) →
  let t' := (files_tree umask clock d changed files t).2 in
  ∀ x data perm, (x, data, perm) ∈ files →
    content t' (d ++ [x]) = (if bool_decide (data = []) then content t (d ++ [x]) else Some data)
    ∧ content t' (d ++ [x +:+ BackupSuffix])
      = (if bool_decide (data = []) then content t (d ++ [x +:+ BackupSuffix])
         else kept_bak (content t (d ++ [x])) (content t (d ++ [x +:+ BackupSuffix])) data).
Proof.
  revert changed t. induction files as [|[[y dy] py] files IH]; intros changed t Hok Hf t' x data perm Hin.
  { by apply elem_of_nil in Hin. }
  apply names_ok_tail in Hok as Htl. destruct Htl as [Hok' Hdiff].
  pose proof (names_of_files files) as Hmem. pose proof (λ g, backup_apart y dy py files g Hok) as Hdiff'.
  assert (∀ g, g ∈ files → dir_part (t !! (d ++ [g.1.1])) = None) as Hf' by (intros; apply Hf; by right).
  assert (∀ t1 c, (files_tree umask clock d c files t1).2 !! (d ++ [y]) = t1 !! (d ++ [y])
    ∧ (files_tree umask clock d c files t1).2 !! (d ++ [y +:+ BackupSuffix]) = t1 !! (d ++ [y +:+ BackupSuffix])) as Hrest.
  { intros t1 c. split; apply files_tree_ne; intros g Hg; [by apply Hdiff, Hmem|].
    destruct (Hdiff' g Hg). split; by apply snoc_neq. }
  subst t'. simpl. apply elem_of_cons in Hin as [[= -> -> ->]|Hin].
  - case_bool_decide as Hd; [unfold content; by destruct (Hrest t changed) as [-> ->]|].
    pose proof (write_tree_contents y dy py t (Hf (y, dy, py) ltac:(left))) as Hw.
    destruct (write_tree umask clock d y dy py t) as [c t1]. cbn [fst snd] in Hw |- *.
    destruct (Hrest t1 (changed || c)) as [H1 H2]. unfold content in *. by rewrite H1, H2.
  - case_bool_decide as Hd; [by apply (IH changed t Hok' Hf' x data perm)|].
    pose proof (write_tree_lookup_ne umask clock d y dy py t) as Hne.
    destruct (write_tree umask clock d y dy py t) as [c t1]. simpl in Hne.
    assert (∀ g, g ∈ files → t1 !! (d ++ [g.1.1]) = t !! (d ++ [g.1.1])
      ∧ t1 !! (d ++ [g.1.1 +:+ BackupSuffix]) = t !! (d ++ [g.1.1 +:+ BackupSuffix])) as Hkeep.
    { intros g Hg. destruct (Hdiff g.1.1 (Hmem g Hg)) as [D1 D2]. destruct (Hdiff' g Hg) as [D3 D4].
      split; apply Hne; try done; apply snoc_neq; done. }
    destruct (Hkeep (x, data, perm) Hin) as [K1 K2]. simpl in K1, K2.
    destruct (IH (changed || c) t1 Hok') with (x := x) (data := data) (perm := perm) as [-> ->]; [|done|].
    + intros g Hg. destruct (Hkeep g Hg) as [-> _]. by apply Hf'.
    + unfold content. by rewrite K1, K2.
Qed.
End FilesTree.

(** Writing what is already there touches nothing at all. *)
Lemma writeFiles_again s dir d names changed files :
  os_faults s = [] → writable s dir d names → (∀ f, f ∈ files → f.1.1 ∈ names) →
  has_files d (os_tree s) files → writeFiles dir changed files s = ((changed, None), s).
Proof.
  intros Hnf Hw. revert changed. induction files as [|[[x data] perm] files IH]; intros changed Hin Hall; simpl; [done|].
  assert (∀ f, f ∈ files → f.1.1 ∈ names) as Hin' by (intros f Hf; apply Hin; by right).
  assert (has_files d (os_tree s) files) as Hall' by (intros n dt pm H; apply (Hall n dt pm); by right).
  case_bool_decide as Hd; [by apply IH|].
  destruct (Hall x data perm ltac:(left) Hd) as (f & Hf & Hfd).
  destruct (writable_managed s dir d names x Hw) as [q Hm]; [apply (Hin (x, data, perm)); left|].
  unfold_M. rewrite (WriteAtomic_same _ q x d s f data perm Hnf Hm Hf Hfd), orb_false_r. by apply IH.
Qed.

(** The four names of a bundle. *)
Definition bundleNames : list string := [CertFile; KeyFile; ChainFile; FullchainFile].

Lemma bundleNames_ok : names_ok bundleNames.
Proof.
  split; [apply (bool_decide_unpack _); vm_compute; exact I|].
  assert (Forall (λ x, Forall (λ y, x ≠ y +:+ BackupSuffix) bundleNames) bundleNames) as H
    by (apply (bool_decide_unpack _); vm_compute; exact I).
  intros x y Hx Hy. rewrite Forall_forall in H. specialize (H x Hx). rewrite Forall_forall in H. by apply H.
Qed.

Lemma bundleFiles_names b : (bundleFiles b).*1.*1 = bundleNames.
Proof. done. Qed.

(** Compare is a total order on certificate versions: swapping the
    arguments negates the result, it is zero exactly for equal versions, it is
    transitive, and its sign is the lexicographic order of NotBefore, NotAfter,
    serial and SHA-256. *)
Theorem compare_total_order a b c :
  Compare a b = - Compare b a ∧ (Compare a b = 0 ↔ a = b)
  ∧ (0 < Compare a b → 0 < Compare b c → 0 < Compare a c)
  ∧ (BNewer a b = true ↔ NotBefore b < NotBefore a
      ∨ (NotBefore a = NotBefore b ∧ NotAfter b < NotAfter a)
      ∨ (NotBefore a = NotBefore b ∧ NotAfter a = NotAfter b
          ∧ (str_ltb (Serial b) (Serial a) = true
             ∨ (Serial a = Serial b ∧ str_ltb (SHA256 b) (SHA256 a) = true)))).
Proof.
  split_and!; [apply Compare_antisym|apply Compare_zero|apply Compare_trans|].
  unfold BNewer. rewrite Z.ltb_lt. apply Compare_pos.
Qed.
