(* ===== verification/KeyPrivacy.v ===== *)
(** Private keys on disk. README promises that keys in the serving directory
    are written with mode 0600; here, that no failure of the file system makes
    a key readable by anyone but its owner. *)

From S2P Require Import Prelude GoStrings GoPath FileSystem AtomicFile Cert Bundle.

Open Scope Z_scope.

(** No permission for group and others (the bits of 0077). *)
Definition private (f : file) : Prop := Z.land (f_perm f) 63 = 0.

#[export] Instance private_dec f : Decision (private f).
Proof. unfold private. apply _. Defined.

(** The umask only takes permissions away. *)
Lemma private_masked s perm f : Z.land perm 63 = 0 → f_perm f = masked s perm → private f.
Proof.
  unfold private, masked. intros Hp ->. rewrite <-Z.land_assoc, (Z.land_comm _ 63), Z.land_assoc, Hp. done.
Qed.

(** Everything a private write makes or changes is private: the file, its
    backup and whatever is left of the temporary file. *)
Lemma WriteAtomic_private p q b d s data perm ch err s' :
  managed s p q b d → Z.land perm 63 = 0 →
  (∀ f, os_tree s !! (d ++ [b +:+ BackupSuffix]) = Some (IFile f) → private f) →
  WriteAtomic p data perm s = ((ch, err), s') →
  ∀ k f, os_tree s' !! k = Some (IFile f) → os_tree s !! k = Some (IFile f) ∨ private f.
Proof.
  intros Hm Hperm Hbak E k f Hf. destruct (WriteAtomic_perms p q b d s data perm ch err s' Hm E k f Hf) as [H|H]; [by left|right].
  destruct H as [H|[H|(-> & [H|(f0 & H0 & H)])]].
  - unfold private. by rewrite H.
  - by apply (private_masked s 384).
  - by apply (private_masked s perm).
  - unfold private. rewrite H. by apply Hbak.
Qed.

(** The key of a lineage and its backup. *)
Definition key_private (t : tree) (d : phys) : Prop :=
  ∀ x f, x ∈ [KeyFile; KeyFile +:+ BackupSuffix] → t !! (d ++ [x]) = Some (IFile f) → private f.

Definition all_managed (s : OS) (dir : string) (d : phys) (names : list string) : Prop :=
  ∀ x, x ∈ names → ∃ q, managed s (Join [dir; x]) q x d.

(** The other files of a bundle are not taken for the key. *)
Lemma key_names_apart x y n :
  x ∈ bundleNames → x ≠ KeyFile → y ∈ [KeyFile; KeyFile +:+ BackupSuffix] →
  y ≠ x ∧ y ≠ x +:+ BackupSuffix ∧ y ≠ tmp_name n.
Proof.
  intros Hx Hne Hy.
  assert (Forall (λ x, x = KeyFile ∨ Forall (λ y, y ≠ x ∧ y ≠ x +:+ BackupSuffix) [KeyFile; KeyFile +:+ BackupSuffix])
    bundleNames) as H by (apply (bool_decide_unpack _); vm_compute; exact I).
  rewrite Forall_forall in H. destruct (H x Hx) as [|Hall]; [done|]. rewrite Forall_forall in Hall.
  destruct (Hall y Hy) as [H1 H2]. split_and!; [done|done|].
  apply elem_of_cons in Hy as [->|Hy%list_elem_of_singleton]; [done|]. by rewrite Hy.
Qed.

(** One file of the bundle. *)
Lemma write_keeps_private s dir d x data perm ch err s' :
  all_managed s dir d bundleNames → key_private (os_tree s) d → x ∈ bundleNames → (x = KeyFile → Z.land perm 63 = 0) →
  WriteAtomic (Join [dir; x]) data perm s = ((ch, err), s') →
  all_managed s' dir d bundleNames ∧ key_private (os_tree s') d.
Proof.
  intros Hall Hkey Hx Hperm E. destruct (Hall x Hx) as [q Hm].
  destruct (WriteAtomic_spec _ q x d s data perm ch err s' Hm E) as (Henv & Hdirs & _ & Hother). split.
  { intros y Hy. destruct (Hall y Hy) as [q' Hm']. exists q'. by eapply managed_step. }
  intros y f Hy Hf. destruct (decide (x = KeyFile)) as [->|Hne].
  - eapply WriteAtomic_private in E; [|exact Hm|by apply Hperm| |exact Hf].
    + destruct E as [H|H]; [by apply (Hkey y)|done].
    + intros f0 H0. apply (Hkey (KeyFile +:+ BackupSuffix)); [right; left|done].
  - apply (Hkey y); [done|]. rewrite <-Hother; [done|..].
    + apply snoc_neq. by apply (key_names_apart x y 0).
    + intros [[_ Hb]%app_inj_tail|(n & [_ Ht]%app_inj_tail)].
      * by destruct (key_names_apart x y 0 Hx Hne Hy) as (_ & ? & _).
      * by destruct (key_names_apart x y n Hx Hne Hy) as (_ & _ & ?).
Qed.

(** (C5) Keys stay private, whatever fails. In the directory of a lineage whose
    key and backup of the key, if they exist, give no permission to group and
    others: writing the key (mode 0600) leaves no file behind that is new or
    changed and gives them one, be it the key, its backup or a temporary file;
    and writing a whole bundle, certificates included, keeps the key and its
    backup private. This holds for every schedule of failing and short system
    calls, whether the write succeeds or not. *)
Theorem keys_stay_private s dir d :
  all_managed s dir d bundleNames → key_private (os_tree s) d →
  (∀ data r s', WriteAtomic (Join [dir; KeyFile]) data 384 s = (r, s') →
     ∀ k f, os_tree s' !! k = Some (IFile f) → os_tree s !! k = Some (IFile f) ∨ private f)
  ∧ ∀ b r s', writeFiles dir false (bundleFiles b) s = (r, s') → key_private (os_tree s') d.
Proof.
  intros Hall Hkey. split.
  - intros data [ch err] s' E. destruct (Hall KeyFile) as [q Hm]; [by right; left|].
    apply (WriteAtomic_private _ q KeyFile d s data 384 ch err s' Hm); [done| |exact E]. intros f Hf. apply (Hkey (KeyFile +:+ BackupSuffix)); [right; left|done].
  - intros b. assert (∀ files changed s1 r s', (∀ f, f ∈ files → f ∈ bundleFiles b) → all_managed s1 dir d bundleNames →
      key_private (os_tree s1) d → writeFiles dir changed files s1 = (r, s') → key_private (os_tree s') d) as Hloop.
    { induction files as [|[[x data] perm] files IH]; intros changed s1 r s' Hin Ha1 Hk1; simpl; [by intros [= <- <-]|].
      case_bool_decide; [by apply IH; [set_solver|..]|]. unfold_M.
      destruct (WriteAtomic (Join [dir; x]) data perm s1) as [[ch err] s2] eqn:E.
      assert (x ∈ bundleNames ∧ (x = KeyFile → Z.land perm 63 = 0)) as [Hx Hp].
      { assert ((x, data, perm) ∈ bundleFiles b) as Hf by (apply Hin; left).
        split; [rewrite <-(bundleFiles_names b); apply (list_elem_of_fmap_2 fst _ (x, data)), (list_elem_of_fmap_2 fst _ _ Hf)|].
        intros ->. unfold bundleFiles in Hf. set_unfold in Hf. naive_solver. }
      destruct (write_keeps_private s1 dir d x data perm ch err s2 Ha1 Hk1 Hx Hp E) as [Ha2 Hk2].
      destruct err as [e|]; [by intros [= <- <-]|]. apply IH; [set_solver|done..]. }
    intros r s' E. by apply (Hloop (bundleFiles b) false s r s').
Qed.

(** ** A sample *)

(** A lineage with a key and a backup of it, under a umask that takes nothing
    away; the second write of the replacement of the key is cut short. *)
Definition key_os : OS :=
  mkOS (list_to_map [(["s"], IDir); (["s"; "privkey.pem"], IFile (mkFile [Byte.x01] 384 0));
                     (["s"; "privkey.pem.bak"], IFile (mkFile [Byte.x00] 384 0))])
    [] 0 0 [] [NoFault; NoFault; NoFault; NoFault; Short 1 EIO; NoFault; Fail EIO].

Lemma keys_stay_private_witness :
  let '(r, s') := WriteAtomic (Join ["/s"; KeyFile]) [Byte.x02; Byte.x03] 384 key_os in
  ∃ f, os_tree s' !! ["s"; tmp_name 0] = Some (IFile f) ∧ f_data f = [Byte.x02] ∧ private f.
Proof.
  assert (all_managed key_os "/s" ["s"] bundleNames) as Hall.
  { intros x Hx. exists "/s". unfold bundleNames in Hx. split.
    - repeat (apply elem_of_cons in Hx as [->|Hx]; [by repeat constructor|]). by apply elem_of_nil in Hx.
    - vm_compute. reflexivity.
    - repeat (apply elem_of_cons in Hx as [->|Hx]; [vm_compute; reflexivity|]). by apply elem_of_nil in Hx.
    - repeat (apply elem_of_cons in Hx as [->|Hx]; [vm_compute; reflexivity|]). by apply elem_of_nil in Hx.
    - intros n. repeat (apply elem_of_cons in Hx as [->|Hx]; [done|]). by apply elem_of_nil in Hx. }
  assert (key_private (os_tree key_os) ["s"]) as Hkey.
  { intros x f Hx Hf. apply elem_of_cons in Hx as [->|Hx%list_elem_of_singleton]; [|rewrite Hx in Hf];
      vm_compute in Hf; injection Hf as <-; reflexivity. }
  destruct (WriteAtomic (Join ["/s"; KeyFile]) [Byte.x02; Byte.x03] 384 key_os) as [r s'] eqn:E.
  pose proof (proj1 (keys_stay_private key_os "/s" ["s"] Hall Hkey) _ _ _ E) as H.
  assert (∃ f, os_tree s' !! ["s"; tmp_name 0] = Some (IFile f) ∧ f_data f = [Byte.x02]) as (f & Hf & Hd).
  { vm_compute in E. injection E as _ <-. eexists. split; vm_compute; reflexivity. }
  exists f. split; [exact Hf|]. split; [exact Hd|]. destruct (H _ f Hf) as [H0|H0]; [|exact H0].
  vm_compute in H0. discriminate H0.
Defined.
