(* ===== verification/Hook.v ===== *)
(** internal/hook/hook.go: verify, then reload. Commands are external programs:
    running one is a parameter, which may do anything to the node's files. *)

From S2P Require Import Prelude GoStrings Version Metrics GoPath FileSystem Engine.

Open Scope Z_scope.

(** A node as its providers see it: the operating system, the updates of the
    collectors, and the commands that were run with their outcome. *)
Record Node := mkNode {
  nd_os : OS;
  nd_metrics : list metric_event;
  nd_ran : list (list string * option error)
}.

(** Running a system call on the node. *)
Definition on_os {A} (m : M OS A) : M Node A := λ n,
  let '(a, s') := m (nd_os n) in (a, mkNode s' (nd_metrics n) (nd_ran n)).

(** Updating a collector. *)
Definition emit_metric (ev : metric_event) : M Node unit := λ n,
  (tt, mkNode (nd_os n) (nd_metrics n ++ [ev]) (nd_ran n)).

(** [exec.CommandContext(ctx, args[0], args[1:]...).CombinedOutput()] with the
    timeout of the context. *)
Class Commands := exec_Command : list string → Z → M OS (option error).

(** hook.Runner; the collectors may be nil. *)
Record Runner := mkRunner {
  r_Kind : string;
  r_Verify : list string;
  r_Reload : list string;
  r_Timeout : Z;
  r_Metrics : bool
}.

Section Hook.
Context {cmds : Commands}.

(** Runner.exec *)
Definition runner_exec (r : Runner) (args : list string) : M Node (option error) := λ n,
  let timeout := if r_Timeout r <=? 0 then 30 * second else r_Timeout r in
  let '(err, s') := exec_Command args timeout (nd_os n) in
  (Errorf (join_char " " args) <$> err, mkNode s' (nd_metrics n) (nd_ran n ++ [(args, err)])).

(** Runner.bump of Runner.metricsVerify or Runner.metricsReload *)
Definition bump (r : Runner) (c : collector) : M Node unit :=
  if r_Metrics r then emit_metric (mkEvent c [r_Kind r] Inc) else mret tt.

(** The second half of Runner.Run. *)
Definition runReload (r : Runner) : M Node (option error) :=
  match r_Reload r with
  | [] => mret None
  | _ =>
      err ← runner_exec r (r_Reload r);
      match err with
      | Some e => _ ← bump r ReloadErrors; mret (Some (Errorf "reload failed" e))
      | None => mret None
      end
  end.

(** Runner.Run *)
Definition runner_Run (r : Runner) : M Node (option error) :=
  match r_Verify r with
  | [] => runReload r
  | _ =>
      err ← runner_exec r (r_Verify r);
      match err with
      | Some e => _ ← bump r VerifyErrors; mret (Some (Errorf "verify failed" e))
      | None => runReload r
      end
  end.

(** The trace of an optional command. *)
Definition ran_one (args : list string) (res : option error) : list (list string * option error) :=
  match args with [] => [] | _ => [(args, res)] end.

Lemma runReload_ran r n :
  let '(err, n') := runReload r n in
  ∃ res, nd_ran n' = nd_ran n ++ ran_one (r_Reload r) res
    ∧ (r_Reload r = [] → res = None) ∧ (err = None ↔ res = None).
Proof.
  unfold runReload, runner_exec, bump, emit_metric, ran_one. unfold_M.
  destruct (r_Reload r) as [|a l]; [exists None; rewrite app_nil_r; naive_solver|].
  destruct (exec_Command (a :: l) _ (nd_os n)) as [[e|] s']; simpl.
  - destruct (r_Metrics r); exists (Some e); naive_solver.
  - exists None. naive_solver.
Qed.

(** (C9) The reload command is run only after the verify command, if there is
    one, has succeeded in the same run. With [rv] and [rr] the outcomes of the
    two commands, a run executes the verify command first, executes the reload
    command exactly if [rv] is a success, executes nothing else, and reports no
    error exactly if both succeeded. *)
Theorem reload_only_after_verify r n :
  let '(err, n') := runner_Run r n in
  ∃ rv rr, nd_ran n' = nd_ran n ++ ran_one (r_Verify r) rv
                       ++ (if rv is None then ran_one (r_Reload r) rr else [])
    ∧ (r_Verify r = [] → rv = None) ∧ (r_Reload r = [] → rr = None)
    ∧ (err = None ↔ rv = None ∧ rr = None).
Proof.
  unfold runner_Run. destruct (r_Verify r) as [|v vs] eqn:Ev.
  - pose proof (runReload_ran r n) as H. destruct (runReload r n) as [err n'].
    destruct H as (res & Hran & Hnil & Herr). exists None, res. naive_solver.
  - unfold_M. unfold runner_exec at 1.
    destruct (exec_Command (v :: vs) _ (nd_os n)) as [[e|] s'] eqn:Ee; simpl.
    + unfold bump, emit_metric. unfold_M.
      destruct (r_Metrics r); simpl; exists (Some e), None; naive_solver.
    + set (n1 := mkNode _ _ _). pose proof (runReload_ran r n1) as H.
      destruct (runReload r n1) as [err n']. destruct H as (res & Hran & Hnil & Herr). simpl in Hran.
      rewrite <-app_assoc in Hran. exists None, res. naive_solver.
Qed.
End Hook.
