(* ===== verification/Discovery.v ===== *)
(** internal/discovery: scanning certbot's live directory. *)

From S2P Require Import Prelude GoStrings GoPath FileSystem.

(** discovery.Cert *)
Record Cert := mkCert { CertPath : string; FallbackID : string }.

(** discovery.Entry *)
Record Entry := mkEntry { e_Cert : Cert; e_Error : option error }.

#[export] Instance Cert_eq_dec : EqDecision Cert.
Proof. solve_decision. Defined.
#[export] Instance Entry_eq_dec : EqDecision Entry.
Proof. solve_decision. Defined.

Definition DefaultRoot : string := "/etc/letsencrypt".

(** [filepath.EvalSymlinks] followed by [filepath.Abs], as in resolveCertPath:
    the path from the root of the entry itself, which must exist. For a
    relative path Abs joins os.Getwd, which is taken to report the physical
    path of the working directory (with PWD set to another name of that
    directory it would report that name). *)
Definition resolveCertPath (path : string) : M OS (result string) :=
  syscall (λ s,
    (match resolve s path with
     | Err e => Err e
     | Ok k => match entry_at (os_tree s) k with
               | None => Err (Errno ENOENT)
               | Some _ => Ok (String sep (join_char sep k))
               end
     end, s)).

(** The body of the loop of scanCertbotVerbose for one directory entry; the
    accumulator is the slice [out]. *)
Definition scanEntry (liveDir : string) (out : list Entry) (e : dirent) : M OS (list Entry) :=
  let name := de_Name e in
  if String.eqb name "" || String.eqb name "README" then mret out
  else
    let fail err := mret (out ++ [mkEntry (mkCert "" name) (Some err)]) in
    let resolve_cert :=
      r ← resolveCertPath (Join [liveDir; name; "cert.pem"]);
      match r with
      | Err e => fail (Errorf "resolve cert.pem" e)
      | Ok resolved => mret (out ++ [mkEntry (mkCert resolved name) None])
      end in
    if de_IsDir e then resolve_cert
    else
      st ← Stat (Join [liveDir; name]);
      match st with
      | Err e => fail (Errorf "stat" e)
      | Ok i => if negb (i_IsDir i) then fail (Errors "not a directory") else resolve_cert
      end.

(** discovery.scanCertbotVerbose *)
Definition scanCertbotVerbose (root : string) : M OS (result (list Entry)) :=
  let root := if String.eqb root "" then DefaultRoot else root in
  let liveDir := Join [root; "live"] in
  r ← ReadDir liveDir;
  match r with
  | Err e => mret (if os_IsNotExist e then Ok [] else Err (Errorf ("read " +:+ liveDir) e))
  | Ok dirEntries => out ← foldM (scanEntry liveDir) [] dirEntries; mret (Ok out)
  end.

(** The order of the final sort: by FallbackID, then by CertPath. *)
Definition entry_le (x y : Entry) : Prop :=
  if decide (FallbackID (e_Cert x) ≠ FallbackID (e_Cert y))
  then str_le (FallbackID (e_Cert x)) (FallbackID (e_Cert y))
  else str_le (CertPath (e_Cert x)) (CertPath (e_Cert y)).

#[export] Instance entry_le_dec x y : Decision (entry_le x y).
Proof. unfold entry_le. destruct (decide _); apply _. Defined.

(** The first loop of mergeEntries: entries in error and entries without a
    path are kept, of the others the first with each path. *)
Fixpoint dedupEntries (seen : gset string) (entries : list Entry) : list Entry :=
  match entries with
  | [] => []
  | e :: entries' =>
      if bool_decide (e_Error e ≠ None) || String.eqb (CertPath (e_Cert e)) ""
      then e :: dedupEntries seen entries'
      else if decide (CertPath (e_Cert e) ∈ seen) then dedupEntries seen entries'
      else e :: dedupEntries ({[CertPath (e_Cert e)]} ∪ seen) entries'
  end.

(** discovery.mergeEntries *)
Definition mergeEntries (entries : list Entry) : list Entry :=
  merge_sort entry_le (dedupEntries ∅ entries).

(** discovery.ScanAllVerbose *)
Definition ScanAllVerbose (certbotRoot : string) : M OS (result (list Entry)) :=
  if String.eqb certbotRoot "" then mret (Ok (mergeEntries []))
  else
    r ← scanCertbotVerbose certbotRoot;
    mret (match r with
          | Err e => Err e
          | Ok entries => Ok (mergeEntries entries)
          end).

(** discovery.ScanAll *)
Definition ScanAll (certbotRoot : string) : M OS (result (list Cert)) :=
  r ← ScanAllVerbose certbotRoot;
  mret (match r with
        | Err e => Err e
        | Ok entries => Ok (e_Cert <$> filter (λ e, e_Error e = None) entries)
        end).

(** ** What merging keeps *)

(** An entry that merging compares by its path. *)
Definition keyed (e : Entry) : bool :=
  negb (bool_decide (e_Error e ≠ None) || String.eqb (CertPath (e_Cert e)) "").

#[export] Instance entry_le_total : Total entry_le.
Proof.
  intros x y. unfold entry_le, str_le.
  destruct (decide (FallbackID (e_Cert x) = FallbackID (e_Cert y))) as [Heq|Hne].
  - rewrite Heq, !decide_False by (intros H; by destruct H).
    destruct (str_ltb (CertPath (e_Cert y)) (CertPath (e_Cert x))) eqn:E; [right|by left].
    apply not_true_is_false. intros E'. pose proof (str_ltb_trans _ _ _ E E'). by rewrite str_ltb_irrefl in *.
  - rewrite !decide_True by done.
    destruct (str_ltb (FallbackID (e_Cert y)) (FallbackID (e_Cert x))) eqn:E; [right|by left].
    apply not_true_is_false. intros E'. pose proof (str_ltb_trans _ _ _ E E'). by rewrite str_ltb_irrefl in *.
Qed.

Lemma dedup_elem seen entries e :
  e ∈ dedupEntries seen entries → e ∈ entries.
Proof.
  revert seen. induction entries as [|x entries IH]; intros seen; simpl; [done|].
  destruct (_ || _); [rewrite !elem_of_cons; naive_solver|].
  case_decide; rewrite ?elem_of_cons; naive_solver.
Qed.

(** Entries without a path of their own are all kept. *)
Lemma dedup_unkeyed seen entries :
  filter (λ e, keyed e = false) (dedupEntries seen entries) = filter (λ e, keyed e = false) entries.
Proof.
  revert seen. induction entries as [|x entries IH]; intros seen; [done|]. cbn [dedupEntries].
  destruct (bool_decide (e_Error x ≠ None) || String.eqb (CertPath (e_Cert x)) "") eqn:E.
  - rewrite !filter_cons_True by (unfold keyed; by rewrite E). by rewrite IH.
  - rewrite (filter_cons_False _ x entries) by (unfold keyed; by rewrite E).
    case_decide; [apply IH|]. rewrite filter_cons_False by (unfold keyed; by rewrite E). apply IH.
Qed.

(** No entry of the list has a path of its own that is this one. *)
Definition no_path (path : string) (entries : list Entry) : Prop :=
  ∀ x, x ∈ entries → keyed x = true → CertPath (e_Cert x) ≠ path.

(** The first entry with a path is kept. *)
Lemma dedup_first seen before e after :
  keyed e = true → CertPath (e_Cert e) ∉ seen → no_path (CertPath (e_Cert e)) before →
  e ∈ dedupEntries seen (before ++ e :: after).
Proof.
  intros Hk. revert seen. induction before as [|x before IH]; intros seen Hs Hb; simpl.
  - unfold keyed in Hk. apply negb_true_iff in Hk. rewrite Hk, decide_False by done. left.
  - assert (no_path (CertPath (e_Cert e)) before) as Hb' by (intros y Hy; apply Hb; by right).
    destruct (_ || _) eqn:E; [right; by apply IH|]. case_decide; [by apply IH|]. right. apply IH; [|done].
    assert (CertPath (e_Cert x) ≠ CertPath (e_Cert e)); [|set_solver].
    apply Hb; [left|]. unfold keyed. by rewrite E.
Qed.

Lemma first_with_path entries e :
  e ∈ entries → keyed e = true → ∃ before first after, entries = before ++ first :: after
    ∧ keyed first = true ∧ CertPath (e_Cert first) = CertPath (e_Cert e)
    ∧ no_path (CertPath (e_Cert e)) before.
Proof.
  intros Hin Hk. induction entries as [|x entries IH]; [by apply elem_of_nil in Hin|].
  destruct (decide (keyed x = true ∧ CertPath (e_Cert x) = CertPath (e_Cert e))) as [[H1 H2]|Hno].
  { exists [], x, entries. split_and!; try done. by intros y ?%elem_of_nil. }
  apply elem_of_cons in Hin as [->|Hin]; [by destruct Hno|].
  destruct (IH Hin) as (before & first & after & -> & H1 & H2 & H3). exists (x :: before), first, after.
  split_and!; try done. intros y [->|Hy]%elem_of_cons; [naive_solver|by apply H3].
Qed.

Lemma dedup_paths seen entries :
  NoDup (CertPath ∘ e_Cert <$> filter (λ e, keyed e = true) (dedupEntries seen entries))
  ∧ ∀ e, e ∈ dedupEntries seen entries → keyed e = true → CertPath (e_Cert e) ∉ seen.
Proof.
  revert seen. induction entries as [|x entries IH]; intros seen; simpl.
  { split; [constructor|]. by intros e ?%elem_of_nil. }
  destruct (bool_decide (e_Error x ≠ None) || String.eqb (CertPath (e_Cert x)) "") eqn:E.
  - destruct (IH seen) as [H1 H2]. split.
    + rewrite filter_cons_False; [done|]. unfold keyed. by rewrite E.
    + intros e [->|Hin]%elem_of_cons; [unfold keyed; by rewrite E|by apply H2].
  - case_decide as Hs; [apply IH|].
    destruct (IH ({[CertPath (e_Cert x)]} ∪ seen)) as [H1 H2]. split.
    + rewrite filter_cons_True by (unfold keyed; by rewrite E). simpl. constructor; [|done].
      intros (e & He & Hin)%list_elem_of_fmap. apply list_elem_of_filter in Hin as [Hk Hin].
      apply (H2 e Hin Hk). simpl in He. rewrite <-He. set_solver.
    + intros e [->|Hin]%elem_of_cons; [done|]. intros Hk. specialize (H2 e Hin Hk). set_solver.
Qed.

(** (C28) Merging is sorting the entries in error, the entries without a path,
    and of the others the first of each certificate path: the result is sorted
    by lineage and path, every entry of it was observed, all entries in error or
    without a path are still there as often as they were, no path is there
    twice, and for each path that was observed the entry that is there is the
    one no other entry with that path comes before. *)
Theorem merge_entries_correct entries :
  let out := mergeEntries entries in
  Sorted entry_le out
  ∧ (∀ e, e ∈ out → e ∈ entries)
  ∧ filter (λ e, keyed e = false) out ≡ₚ filter (λ e, keyed e = false) entries
  ∧ NoDup (CertPath ∘ e_Cert <$> filter (λ e, keyed e = true) out)
  ∧ (∀ e, e ∈ entries → keyed e = true → ∃ before first after,
       entries = before ++ first :: after ∧ keyed first = true
       ∧ CertPath (e_Cert first) = CertPath (e_Cert e) ∧ no_path (CertPath (e_Cert e)) before
       ∧ first ∈ out).
Proof.
  simpl. unfold mergeEntries. pose proof (merge_sort_Permutation entry_le (dedupEntries ∅ entries)) as Hp.
  split_and!.
  - apply Sorted_merge_sort. apply _.
  - intros e He. rewrite Hp in He. by eapply dedup_elem.
  - rewrite Hp. by rewrite dedup_unkeyed.
  - rewrite Hp. apply dedup_paths.
  - intros e He Hk. destruct (first_with_path entries e He Hk) as (before & first & after & -> & H1 & H2 & H3).
    exists before, first, after. split_and!; try done. rewrite Hp.
    apply dedup_first; [done|set_solver|by rewrite H2].
Qed.
