(* ===== verification/Certs.v ===== *)
(** internal/modules/certs/certs.go: the provider that replicates certificate
    bundles and writes them to the serving directory. *)

From S2P Require Import Prelude GoStrings Version Metrics Engine EngineSpec.
From S2P Require Import GoPath FileSystem AtomicFile Cert Bundle Hook Discovery.

Open Scope Z_scope.

Definition CertsKind : string := "certs".

(** certs.provider *)
Record certsProvider := mkCertsProvider {
  cp_root : string;
  cp_servingDir : string;
  cp_host : string;
  cp_metrics : bool;
  cp_runner : Runner
}.

(** [time.Time.Unix] of an instant in nanoseconds. *)
Definition Unix (t : Z) : Z := t / second.

(** The engine's version of a bundle version, as in toRecord. *)
Definition recordVersion (v : BVersion) : Version :=
  mkVersion (Unix (NotBefore v)) (Unix (NotAfter v)) (Serial v +:+ ":" +:+ SHA256 v).

(** certs.toRecord *)
Definition toRecord (b : Bundle) (host : string) : Record_ :=
  {| Kind := CertsKind;
     Key := Lineage b;
     version := recordVersion (b_Version b);
     Blobs := {["cert" := CertPEM b; "key" := KeyPEM b; "chain" := ChainPEM b; "full" := FullPEM b]};
     Meta := {["domain" := Domain b; "serial" := Serial (b_Version b);
               "sha256" := SHA256 (b_Version b);
               "not_after" := FormatInt (Unix (NotAfter (b_Version b)))]};
     Source := host |}.

(** Reading a Go map: the zero value for a key that is absent. *)
Definition map_get {A} (zero : A) (m : gmap string A) (k : string) : A := default zero (m !! k).

(** The zero time.Time, 1 January of year 1. *)
Definition zero_time : Z := -62135596800 * second.

(** certs.fromRecord; the version is left at its zero value. *)
Definition fromRecord (r : Record_) : Bundle :=
  {| Lineage := Key r;
     Domain := map_get "" (Meta r) "domain";
     b_Version := mkBVersion zero_time zero_time "" "";
     CertPEM := map_get [] (Blobs r) "cert";
     KeyPEM := map_get [] (Blobs r) "key";
     ChainPEM := map_get [] (Blobs r) "chain";
     FullPEM := map_get [] (Blobs r) "full" |}.

Section Certs.
Context {crypto : Crypto} {commands : Commands}.

(** The body of the loop of provider.Local. *)
Definition readCert (p : certsProvider) (recs : list Record_) (c : Cert) : M OS (list Record_) :=
  let lineage := FallbackID c in
  r ← ReadLineage lineage (Join [cp_root p; "live"; lineage]);
  mret (match r with
        | Err _ => recs
        | Ok b => recs ++ [toRecord b (cp_host p)]
        end).

(** provider.Local *)
Definition certs_Local (p : certsProvider) : M OS (list Record_ * option error) :=
  r ← ScanAll (cp_root p);
  match r with
  | Err e => mret ([], Some e)
  | Ok certs => recs ← foldM (readCert p) [] certs; mret (recs, None)
  end.

(** provider.Apply *)
Definition certs_Apply (p : certsProvider) (r : Record_) : M Node (bool * option error) :=
  let b := fromRecord r in
  let dir := Join [cp_servingDir p; Key r] in
  '(changed, err) ← on_os (BundleWriteAtomic b dir);
  match err with
  | Some e => mret (false, Some e)
  | None =>
      _ ← (if (changed : bool) && cp_metrics p then
             match ParseInt (map_get "" (Meta r) "not_after") with
             | Some na => emit_metric (mkEvent Metrics.NotAfter [CertsKind; Key r] (SetTo na))
             | None => mret tt
             end
           else mret tt);
      mret (changed, None)
  end.

(** The loop shared by the Rollback methods: every key is tried, the first
    error is reported. *)
Definition firstErr (f : string → M OS (option error)) (acc : option error) (key : string)
    : M OS (option error) :=
  err ← f key;
  mret (match acc with Some e => Some e | None => err end).

(** provider.Rollback *)
Definition certs_Rollback (p : certsProvider) (keys : list string) : M OS (option error) :=
  foldM (firstErr (λ key, Rollback (Join [cp_servingDir p; key]))) None keys.

(** The provider as the engine sees it; Flush is the hook. *)
Definition certs_provider (p : certsProvider) : Provider (M Node) :=
  {| p_Kind := CertsKind;
     p_Local := on_os (certs_Local p);
     p_Apply := certs_Apply p;
     p_Flush := runner_Run (cp_runner p);
     p_Rollback keys := on_os (certs_Rollback p keys) |}.
End Certs.

(** ** Records and bundles *)

(** (C26) A bundle survives the trip through a record: lineage, domain and all
    four PEM files come back, the record's key is the lineage, and the NotAfter
    the metadata carries parses to the one of the certificate. *)
Theorem record_roundtrip b host :
  int64_ok (Unix (NotAfter (b_Version b))) →
  let r := toRecord b host in
  let b' := fromRecord r in
  Lineage b' = Lineage b ∧ Domain b' = Domain b ∧ CertPEM b' = CertPEM b ∧ KeyPEM b' = KeyPEM b
  ∧ ChainPEM b' = ChainPEM b ∧ FullPEM b' = FullPEM b ∧ Key r = Lineage b
  ∧ ParseInt (map_get "" (Meta r) "not_after") = Some (Unix (NotAfter (b_Version b)))
  ∧ Secondary (version r) = Unix (NotAfter (b_Version b)).
Proof. intros Hr. simpl. split_and!; try done. by apply ParseInt_FormatInt. Qed.

(** Times of X.509 certificates are whole seconds. *)
Definition whole (v : BVersion) : Prop :=
  NotBefore v = Unix (NotBefore v) * second ∧ NotAfter v = Unix (NotAfter v) * second.

Lemma str_ltb_tiebreak s t h h' :
  String.length s = String.length t →
  str_ltb (s +:+ ":" +:+ h) (t +:+ ":" +:+ h') = true
  ↔ str_ltb s t = true ∨ (s = t ∧ str_ltb h h' = true).
Proof.
  intros Hlen. unfold str_ltb. rewrite str_compare_app_same_length by done.
  destruct (String.compare s t) eqn:E.
  - apply str_compare_eq in E as ->. rewrite (str_compare_app_l ":").
    destruct (String.compare h h'); naive_solver.
  - naive_solver.
  - split; [done|]. intros [|[-> _]]; [done|]. by rewrite str_compare_refl in E.
Qed.

(** For certificates whose serial numbers have the same number of hex
    digits, the order the engine replicates by is the order of bundle.Compare:
    NotBefore, then NotAfter, then serial, then SHA-256. *)
Theorem record_order_agrees a b :
  whole a → whole b → String.length (Serial a) = String.length (Serial b) →
  Newer (recordVersion a) (recordVersion b) = BNewer a b.
Proof.
  intros [Ha1 Ha2] [Hb1 Hb2] Hlen. apply eq_true_iff_eq. unfold BNewer. rewrite Z.ltb_lt.
  rewrite Newer_spec, Compare_pos. unfold recordVersion; simpl.
  rewrite (str_ltb_tiebreak (Serial b) (Serial a)) by done.
  unfold second in *.
  assert (Unix (NotBefore b) < Unix (NotBefore a) ↔ NotBefore b < NotBefore a) as -> by lia.
  assert (Unix (NotAfter b) < Unix (NotAfter a) ↔ NotAfter b < NotAfter a) as -> by lia.
  assert (Unix (NotBefore a) = Unix (NotBefore b) ↔ NotBefore a = NotBefore b) as -> by lia.
  assert (Unix (NotAfter a) = Unix (NotAfter b) ↔ NotAfter a = NotAfter b) as -> by lia.
  assert (Serial b = Serial a ↔ Serial a = Serial b) as -> by (split; congruence).
  done.
Qed.

Lemma str_ltb_cons x y s t :
  str_ltb (String x s) (String y t)
  = match Ascii.compare x y with Lt => true | Eq => str_ltb s t | Gt => false end.
Proof. unfold str_ltb. simpl. by destruct (Ascii.compare x y). Qed.

Lemma ascii_compare_opp x y : Ascii.compare y x = CompOpp (Ascii.compare x y).
Proof. unfold Ascii.compare. apply N.compare_antisym. Qed.

(** Where the separator of the tie-break turns the order of two serial numbers
    around: it is compared with the character after the common prefix. *)
Lemma tiebreak_turned s t h h' :
  no_char ":" t = true →
  str_ltb s t = true ∧ str_ltb (t +:+ ":" +:+ h') (s +:+ ":" +:+ h) = true
  ↔ ∃ d u, t = s +:+ String d u ∧ Ascii.compare d ":" = Lt.
Proof.
  revert t. induction s as [|x s IH]; intros [|y t] Ht.
  - split; [by intros [? _]|]. by intros (d & u & E & _).
  - change ("" +:+ ":" +:+ h) with (String ":" h).
    change (String y t +:+ ":" +:+ h') with (String y (t +:+ ":" +:+ h')). rewrite str_ltb_cons.
    simpl in Ht. apply andb_true_iff in Ht as [Hy _]. apply negb_true_iff, Ascii.eqb_neq in Hy. split.
    + intros [_ H]. exists y, t. split; [done|]. destruct (Ascii.compare y ":") eqn:E; [|done|done].
      by apply Ascii.compare_eq_iff in E.
    + intros (d & u & [= -> ->] & ->). done.
  - split; [by intros [? _]|]. by intros (d & u & E & _).
  - change (String x s +:+ ":" +:+ h) with (String x (s +:+ ":" +:+ h)).
    change (String y t +:+ ":" +:+ h') with (String y (t +:+ ":" +:+ h')). rewrite !str_ltb_cons, (ascii_compare_opp x y).
    simpl in Ht. apply andb_true_iff in Ht as [_ Ht]. destruct (Ascii.compare x y) eqn:E; simpl.
    + apply Ascii.compare_eq_iff in E as ->. rewrite (IH t Ht).
      split; intros (d & u & Et & Hd); exists d, u; (split; [|done]); [by rewrite Et|by injection Et].
    + split; [by intros [_ ?]|]. intros (d & u & [= <- _] & _). by rewrite ascii_compare_refl in E.
    + split; [by intros [? _]|]. intros (d & u & [= <- _] & _). by rewrite ascii_compare_refl in E.
Qed.

(** (C39) Exactly when the engine replicates by another order than
    bundle.Compare. For certificates with times in whole seconds and serial
    numbers without a colon (they are hexadecimal): Compare says [b] is newer
    and the records say [a] is, if and only if both are valid at the same times
    and the serial number of [b] is that of [a] followed by at least one digit,
    the first of which sorts before the colon, as 0 to 9 do and a to f do not. *)
Theorem record_order_diverges a b :
  whole a → whole b → no_char ":" (Serial b) = true →
  BNewer b a = true ∧ Newer (recordVersion a) (recordVersion b) = true
  ↔ NotBefore a = NotBefore b ∧ NotAfter a = NotAfter b
    ∧ ∃ d u, Serial b = Serial a +:+ String d u ∧ Ascii.compare d ":" = Lt.
Proof.
  intros [Ha1 Ha2] [Hb1 Hb2] Hs.
  rewrite <-(tiebreak_turned (Serial a) (Serial b) (SHA256 a) (SHA256 b) Hs).
  unfold BNewer. rewrite Z.ltb_lt, Newer_spec, Compare_pos. unfold recordVersion; simpl. unfold second in *.
  assert (Unix (NotBefore b) < Unix (NotBefore a) ↔ NotBefore b < NotBefore a) as -> by lia.
  assert (Unix (NotAfter b) < Unix (NotAfter a) ↔ NotAfter b < NotAfter a) as -> by lia.
  assert (Unix (NotBefore a) = Unix (NotBefore b) ↔ NotBefore a = NotBefore b) as -> by lia.
  assert (Unix (NotAfter a) = Unix (NotAfter b) ↔ NotAfter a = NotAfter b) as -> by lia.
  split.
  - intros [H1 H2]. assert (NotBefore a = NotBefore b) as E1 by lia. assert (NotAfter a = NotAfter b) as E2 by lia.
    destruct H1 as [?|[[_ ?]|(_ & _ & [H1|[H1 H1']])]]; [lia|lia| |].
    + destruct H2 as [?|[[_ ?]|(_ & _ & H2)]]; [lia|lia|]. by split_and!.
    + destruct H2 as [?|[[_ ?]|(_ & _ & H2)]]; [lia|lia|]. exfalso. revert H2. rewrite H1.
      rewrite (str_ltb_tiebreak (Serial a) (Serial a)) by done. rewrite str_ltb_irrefl.
      intros [|[_ H2]]; [done|]. pose proof (str_ltb_trans _ _ _ H1' H2) as H3. by rewrite str_ltb_irrefl in H3.
  - intros (E1 & E2 & H1 & H2). split; right; right; split_and!; try done. by left.
Qed.

(** Two certificates that differ only in the serial numbers 1 and 10 (hex). *)
Lemma record_order_diverges_witness :
  let a := mkBVersion 0 second "1" "h" in
  let b := mkBVersion 0 second "10" "h" in
  BNewer b a = true ∧ Newer (recordVersion a) (recordVersion b) = true.
Proof.
  apply (record_order_diverges (mkBVersion 0 second "1" "h") (mkBVersion 0 second "10" "h")); [done|done|done|].
  split; [done|]. split; [done|]. by exists "0"%char, "".
Defined.

(** ** Applying a record to the serving directory *)

(** A serving directory the provider can work in: every lineage directory is
    absent, with nothing below it, or a directory whose bundle files and
    backups are files; no temporary file is left over. *)
Record serving (s : OS) (dir : string) (sd : phys) : Prop := {
  sv_nf : os_faults s = [];
  sv_dir : abs_dir s dir sd;
  sv_key : ∀ key, os_tree s !! (sd ++ [key]) = Some IDir
    ∨ (os_tree s !! (sd ++ [key]) = None ∧ ∀ x, os_tree s !! ((sd ++ [key]) ++ [x]) = None);
  sv_names : ∀ key x, x ∈ bundleNames → dir_part (os_tree s !! ((sd ++ [key]) ++ [x])) = None
    ∧ dir_part (os_tree s !! ((sd ++ [key]) ++ [x +:+ BackupSuffix])) = None;
  sv_tmp : ∀ key, no_tmp s (sd ++ [key])
}.

(** The lineage directory holds every file of the bundle that has data. *)
Definition holds (s : OS) (sd : phys) (key : string) (b : Bundle) : Prop :=
  os_tree s !! (sd ++ [key]) = Some IDir ∧ has_files (sd ++ [key]) (os_tree s) (bundleFiles b).

Lemma bundleNames_good x : x ∈ bundleNames → good_name x = true ∧ ∀ n, x ≠ tmp_name n.
Proof.
  intros Hx. split.
  - assert (Forall (λ x, good_name x = true) bundleNames) as H by (repeat constructor).
    rewrite Forall_forall in H. by apply H.
  - intros n ->. assert (Forall (λ x, match x with String "." _ => False | _ => True end) bundleNames) as H
      by (repeat constructor).
    rewrite Forall_forall in H. by specialize (H _ Hx).
Qed.

Lemma serving_writable s dir sd key :
  serving s dir sd → good_name key = true → os_tree s !! (sd ++ [key]) = Some IDir →
  writable s (Join [dir; key]) (sd ++ [key]) bundleNames.
Proof.
  intros [_ Hd _ Hn Ht] Hk He. split.
  - by apply abs_dir_child.
  - apply Ht.
  - intros x Hx. destruct (bundleNames_good x Hx) as [Hg Htmp]. destruct (Hn key x Hx). done.
Qed.

(** Everything outside a lineage directory that a write to it leaves alone. *)
Definition outside (sd : phys) (key : string) (t t' : tree) : Prop :=
  ∀ k, (∀ x, k ≠ (sd ++ [key]) ++ [x]) → k ≠ sd ++ [key] → t' !! k = t !! k.

Lemma snoc_snoc_neq (d : phys) x y : (d ++ [x]) ++ [y] ≠ d.
Proof. intros E. apply (f_equal length) in E. rewrite !length_app in E. simpl in E. lia. Qed.

Lemma snoc2_neq_snoc (d : phys) x y z : (d ++ [x]) ++ [y] ≠ d ++ [z].
Proof. intros E. apply (f_equal length) in E. rewrite !length_app in E. simpl in E. lia. Qed.

(** Writing into an existing lineage directory. *)
Lemma writeFiles_serving s dir sd key b :
  serving s dir sd → good_name key = true → os_tree s !! (sd ++ [key]) = Some IDir → ∃ s',
  writeFiles (Join [dir; key]) false (bundleFiles b) s
    = (((files_tree (os_umask s) (os_clock s) (sd ++ [key]) false (bundleFiles b) (os_tree s)).1, None), s')
  ∧ serving s' dir sd ∧ holds s' sd key b ∧ outside sd key (os_tree s) (os_tree s')
  ∧ same_env s s' ∧ dirs_le (os_tree s) (os_tree s').
Proof.
  intros Hs Hk He. pose proof (serving_writable s dir sd key Hs Hk He) as Hw.
  destruct (writeFiles_refines s (Join [dir; key]) (sd ++ [key]) bundleNames false (bundleFiles b))
    as (s' & E & Ht & [Henv Hnf'] & Hw' & Hdirs).
  { apply Hs. } { exact Hw. } { intros f Hf. rewrite <-(bundleFiles_names b). by do 2 apply list_elem_of_fmap_2. }
  assert (∀ k, (∀ x, k ≠ (sd ++ [key]) ++ [x]) → os_tree s' !! k = os_tree s !! k) as Hout.
  { intros k Hne. rewrite Ht. apply files_tree_ne. intros f _. split; apply Hne. }
  exists s'. split; [exact E|]. destruct Hs as [_ Hd Hkey Hnames Htmp].
  assert (∀ key', os_tree s' !! (sd ++ [key']) = os_tree s !! (sd ++ [key'])) as Hkeys.
  { intros key'. apply Hout. intros x E'. by apply (snoc2_neq_snoc sd key x key'). }
  assert (∀ key' x, key' ≠ key → os_tree s' !! ((sd ++ [key']) ++ [x]) = os_tree s !! ((sd ++ [key']) ++ [x])) as Hother.
  { intros key' x Hne. apply Hout. intros y [E' _]%app_inj_tail. apply app_inj_tail in E' as [_ E']. done. }
  split_and!.
  - split.
    + exact Hnf'.
    + eapply abs_dir_step; [exact Hdirs|apply Henv|exact Hd].
    + intros key'. rewrite Hkeys. destruct (Hkey key') as [?|[Hn Hbelow]]; [by left|]. right. split; [done|].
      intros x. destruct (decide (key' = key)) as [->|Hne]; [congruence|]. by rewrite Hother.
    + intros key' x Hx. destruct (decide (key' = key)) as [->|Hne].
      * by destruct (wr_names _ _ _ _ Hw' x Hx) as (_ & _ & ? & ?).
      * rewrite !Hother by done. by apply Hnames.
    + intros key' n. destruct (decide (key' = key)) as [->|Hne]; [apply (wr_tmp _ _ _ _ Hw')|].
      rewrite Hother by done. apply Htmp.
  - split; [by rewrite Hkeys|]. rewrite Ht. apply files_tree_content. rewrite bundleFiles_names. apply bundleNames_ok.
  - intros k Hk1 _. by apply Hout.
  - exact Henv.
  - by apply same_dirs_le.
Qed.

Lemma serving_mkdir s dir sd key :
  serving s dir sd → good_name key = true → ∃ s',
  MkdirAll (Join [dir; key]) s = (None, s') ∧ serving s' dir sd
  ∧ os_tree s' !! (sd ++ [key]) = Some IDir ∧ (∀ k, k ≠ sd ++ [key] → os_tree s' !! k = os_tree s !! k)
  ∧ (os_tree s !! (sd ++ [key]) = Some IDir → s' = s)
  ∧ same_env s s' ∧ dirs_le (os_tree s) (os_tree s').
Proof.
  intros Hs Hk. pose proof Hs as [Hnf Hd Hkey Hnames Htmp]. destruct (Hkey key) as [He|[He Hbelow]].
  - exists s. split_and!; try done.
    pose proof (abs_dir_child s dir sd key Hd Hk He) as Hc.
    eapply MkdirAll_exists; [exact Hnf|exact (ad_resolve _ _ _ Hc)|exact (ad_entry _ _ _ Hc)].
  - destruct (MkdirAll_child s dir sd key Hnf Hd Hk He) as (E & Hle & _).
    set (s' := set_tree _ s) in *. exists s'.
    assert (∀ k, k ≠ sd ++ [key] → os_tree s' !! k = os_tree s !! k) as Hother
      by (intros k Hne; by apply lookup_insert_ne).
    assert (os_tree s' !! (sd ++ [key]) = Some IDir) as Hnew by apply lookup_insert_eq.
    assert (∀ key' x, os_tree s' !! ((sd ++ [key']) ++ [x]) = os_tree s !! ((sd ++ [key']) ++ [x])) as Hin.
    { intros key' x. apply Hother. apply snoc2_neq_snoc. }
    split_and!; [exact E| |done|done|congruence|done|done]. split; [done| | | |].
    + eapply abs_dir_le; [exact Hle|done|exact Hd].
    + intros key'. destruct (decide (key' = key)) as [->|Hne]; [by left|].
      rewrite Hother by (by apply snoc_neq). destruct (Hkey key') as [?|[? Hb]]; [by left|].
      right. split; [done|]. intros x. by rewrite Hin.
    + intros key' x. rewrite !Hin. apply Hnames.
    + intros key' n. rewrite Hin. apply Htmp.
Qed.

(** Bundle.WriteAtomic on a serving directory. *)
Lemma BundleWriteAtomic_serving s dir sd key b :
  serving s dir sd → good_name key = true → ∃ ch s',
  BundleWriteAtomic b (Join [dir; key]) s = ((ch, None), s')
  ∧ serving s' dir sd ∧ holds s' sd key b ∧ outside sd key (os_tree s) (os_tree s')
  ∧ same_env s s' ∧ dirs_le (os_tree s) (os_tree s').
Proof.
  intros Hs Hk. unfold BundleWriteAtomic. unfold_M.
  destruct (serving_mkdir s dir sd key Hs Hk) as (s1 & -> & Hs1 & He1 & Ho1 & _ & Hen1 & Hle1).
  destruct (writeFiles_serving s1 dir sd key b Hs1 Hk He1) as (s2 & -> & Hs2 & Hh2 & Ho2 & Hen2 & Hle2).
  exists (files_tree (os_umask s1) (os_clock s1) (sd ++ [key]) false (bundleFiles b) (os_tree s1)).1, s2.
  split_and!; [done|done|done| |by transitivity s1|by transitivity (os_tree s1)].
  intros k H1 H2. rewrite Ho2 by done. by apply Ho1.
Qed.

Lemma BundleWriteAtomic_again s dir sd key b :
  serving s dir sd → good_name key = true → holds s sd key b →
  BundleWriteAtomic b (Join [dir; key]) s = ((false, None), s).
Proof.
  intros Hs Hk [He Hh]. unfold BundleWriteAtomic. unfold_M.
  destruct (serving_mkdir s dir sd key Hs Hk) as (s1 & -> & _ & _ & _ & Heq & _). rewrite (Heq He).
  apply (writeFiles_again s _ (sd ++ [key]) bundleNames); [apply Hs|by apply serving_writable| |done].
  intros f Hf. rewrite <-(bundleFiles_names b). by do 2 apply list_elem_of_fmap_2.
Qed.

(** What is held by one lineage survives a write to another. *)
Lemma holds_outside s s' sd key key' b :
  key' ≠ key → outside sd key (os_tree s) (os_tree s') → holds s sd key' b → holds s' sd key' b.
Proof.
  intros Hne Ho [He Hh]. split.
  - rewrite Ho; [done| |by apply snoc_neq]. intros x E. by apply (snoc2_neq_snoc sd key x key').
  - intros name data perm Hin Hd. destruct (Hh name data perm Hin Hd) as (f & Hf & Hfd). exists f.
    split; [|done]. rewrite Ho; [done| |apply snoc2_neq_snoc].
    intros x [E _]%app_inj_tail. apply app_inj_tail in E as [_ E]. done.
Qed.

Section CertsApply.
Context {crypto : Crypto} {commands : Commands} (p : certsProvider) (sd : phys).

(** The part of Apply after the write only reports to the collectors. *)
Lemma certs_Apply_run r n ch s' :
  BundleWriteAtomic (fromRecord r) (Join [cp_servingDir p; Key r]) (nd_os n) = ((ch, None), s') →
  ∃ ms, certs_Apply p r n = ((ch, None), mkNode s' (nd_metrics n ++ ms) (nd_ran n)) ∧ (ch = false → ms = []).
Proof.
  intros E. unfold certs_Apply, on_os, emit_metric. unfold_M. rewrite E.
  destruct (ch && cp_metrics p) eqn:Em.
  - destruct (ParseInt _) as [na|]; [exists [mkEvent Metrics.NotAfter [CertsKind; Key r] (SetTo na)]|exists []].
    + split; [done|]. by intros ->.
    + by rewrite app_nil_r.
  - exists []. by rewrite app_nil_r.
Qed.

(** (C7) Apply is correct and idempotent: from a serving directory in order,
    applying a record whose key is a plain name succeeds, leaves the directory
    in order, leaves in the lineage's directory every file of the record that
    has data with exactly that data, disturbs nothing any other lineage holds,
    and applying the same record again reports no change and changes nothing. *)
Theorem certs_apply_correct r n :
  serving (nd_os n) (cp_servingDir p) sd → good_name (Key r) = true → ∃ ch n',
  certs_Apply p r n = ((ch, None), n') ∧ serving (nd_os n') (cp_servingDir p) sd
  ∧ holds (nd_os n') sd (Key r) (fromRecord r)
  ∧ (∀ key b, key ≠ Key r → holds (nd_os n) sd key b → holds (nd_os n') sd key b)
  ∧ certs_Apply p r n' = ((false, None), n').
Proof.
  intros Hs Hk.
  destruct (BundleWriteAtomic_serving (nd_os n) _ sd (Key r) (fromRecord r) Hs Hk) as (ch & s' & E & Hs' & Hh & Ho & _).
  destruct (certs_Apply_run r n ch s' E) as (ms & Ea & _).
  eexists ch, _. split; [exact Ea|]. simpl. split_and!; [done|done| |].
  - intros key b Hne. by apply (holds_outside _ _ sd (Key r)).
  - pose proof (BundleWriteAtomic_again s' _ sd (Key r) (fromRecord r) Hs' Hk Hh) as E2.
    set (n1 := mkNode _ _ _).
    destruct (certs_Apply_run r n1 false s' E2) as (ms2 & Ea2 & Hms). rewrite (Hms eq_refl), app_nil_r in Ea2.
    exact Ea2.
Qed.
End CertsApply.

(** ** Rolling back *)

Lemma bundleNames_no_bak x : x ∈ bundleNames → HasSuffix x BackupSuffix = false.
Proof.
  intros Hx. assert (Forall (λ x, HasSuffix x BackupSuffix = false) bundleNames) as H by (repeat constructor).
  rewrite Forall_forall in H. by apply H.
Qed.

(** A lineage directory that holds bundle files only, and no backup. *)
Definition clean_lineage (s : OS) (kd : phys) : Prop :=
  ∀ x, is_Some (os_tree s !! (kd ++ [x])) → x ∈ bundleNames.

(** After writing to such a directory, the backups in it are the backups of
    bundle files. *)
Lemma written_backups_ok s s1 dir kd b :
  writable s1 dir kd bundleNames → clean_lineage s kd →
  os_tree s1 = (files_tree (os_umask s) (os_clock s) kd false (bundleFiles b) (os_tree s)).2 →
  (∀ x, is_Some (os_tree s1 !! (kd ++ [x +:+ BackupSuffix])) → x ∈ bundleNames)
  ∧ backups_ok (os_tree s1) kd.
Proof.
  intros Hw Hclean Ht.
  assert (∀ x, is_Some (os_tree s1 !! (kd ++ [x +:+ BackupSuffix])) → x ∈ bundleNames) as Hx.
  { intros x Hsome. destruct (decide (x ∈ bundleNames)) as [|Hno]; [done|exfalso].
    rewrite Ht, files_tree_ne in Hsome.
    - apply Hclean, bundleNames_no_bak in Hsome. by rewrite HasSuffix_bak in Hsome.
    - intros f Hf. assert (f.1.1 ∈ bundleNames) as Hfn
        by (rewrite <-(bundleFiles_names b); by do 2 apply list_elem_of_fmap_2).
      split; apply snoc_neq; intros E.
      + apply bundleNames_no_bak in Hfn. by rewrite <-E, HasSuffix_bak in Hfn.
      + apply str_app_inj_r in E. by rewrite E in Hno. }
  split; [done|]. intros x Hsome. specialize (Hx x Hsome).
  destruct (wr_names _ _ _ _ Hw x Hx) as (Hg & _ & Hd & Hb).
  split_and!; [done|by apply bundleNames_no_bak| |done].
  destruct Hsome as [i Hi]. rewrite Hi in Hb |- *. destruct i; try done. eauto.
Qed.

(** (C21) Rolling back undoes a write. If a lineage directory holds bundle
    files only, without a backup from an earlier tick, and already has every
    file the bundle writes, then after Bundle.WriteAtomic and Rollback every
    file of the bundle has the contents it had before. *)
Theorem rollback_undoes_write s dir sd key b :
  serving s dir sd → good_name key = true → os_tree s !! (sd ++ [key]) = Some IDir →
  clean_lineage s (sd ++ [key]) →
  (∀ name data perm, (name, data, perm) ∈ bundleFiles b → data ≠ [] →
     is_Some (os_tree s !! ((sd ++ [key]) ++ [name]))) →
  ∃ ch s1 s2, BundleWriteAtomic b (Join [dir; key]) s = ((ch, None), s1)
  ∧ Rollback (Join [dir; key]) s1 = (None, s2)
  ∧ ∀ x, x ∈ bundleNames →
      content (os_tree s2) ((sd ++ [key]) ++ [x]) = content (os_tree s) ((sd ++ [key]) ++ [x]).
Proof.
  intros Hs Hk He Hclean Hex. set (kd := sd ++ [key]) in *. unfold BundleWriteAtomic. unfold_M.
  destruct (serving_mkdir s dir sd key Hs Hk) as (s0 & -> & _ & _ & _ & Heq & _). rewrite (Heq He).
  pose proof (serving_writable s dir sd key Hs Hk He) as Hw. fold kd in Hw.
  destruct (writeFiles_refines s (Join [dir; key]) kd bundleNames false (bundleFiles b))
    as (s1 & E1 & Ht1 & [_ Hnf1] & Hw1 & Hdirs); [apply Hs|exact Hw| |].
  { intros f Hf. rewrite <-(bundleFiles_names b). by do 2 apply list_elem_of_fmap_2. }
  destruct (written_backups_ok s s1 _ kd b Hw1 Hclean Ht1) as [Hbn Hbok].
  destruct (RestoreDir_ok s1 _ kd Hnf1 (wr_dir _ _ _ _ Hw1) Hbok) as (s2 & E2 & _ & _ & Hrest & Hkeep).
  eexists _, s1, s2. split; [exact E1|]. split; [exact E2|]. intros x Hx.
  assert (∃ f, f ∈ bundleFiles b ∧ f.1.1 = x) as (f & Hf & <-).
  { rewrite <-(bundleFiles_names b) in Hx. apply list_elem_of_fmap in Hx as (y & -> & Hy).
    apply list_elem_of_fmap in Hy as (z & -> & Hz). eauto. }
  destruct (files_tree_backup (os_umask s) (os_clock s) kd false (bundleFiles b) (os_tree s))
    with (f := f) as [[Hb Hsame]|(fb & data & Hb & Hc & Hd)]; [..|done| |].
  - rewrite bundleFiles_names. apply bundleNames_ok.
  - intros g Hg. destruct (os_tree s !! (kd ++ [g.1.1 +:+ BackupSuffix])) eqn:E; [|done].
    apply mk_is_Some, Hclean, bundleNames_no_bak in E. by rewrite HasSuffix_bak in E.
  - intros [[name data] perm] Hg Hd. simpl in *. destruct (Hex name data perm Hg Hd) as [i Hi].
    assert (name ∈ bundleNames) as Hname
      by (rewrite <-(bundleFiles_names b); apply (list_elem_of_fmap_2 fst _ (name, data)), (list_elem_of_fmap_2 fst _ (name, data, perm)), Hg).
    destruct (wr_names _ _ _ _ Hw name Hname) as (_ & _ & Hdp & _). rewrite Hi in Hdp |- *.
    destruct i; try done. eauto.
  - rewrite <-Ht1 in Hb, Hsame. unfold content. rewrite Hkeep; [by rewrite Hsame|].
    intros y Hy. split; apply snoc_neq.
    + intros E. rewrite <-E, Hb in Hy. by destruct Hy.
    + intros E. apply bundleNames_no_bak in Hx. by rewrite E, HasSuffix_bak in Hx.
  - rewrite <-Ht1 in Hb. destruct (Hrest f.1.1) as [Hr _]; [eauto|]. unfold content at 1. by rewrite Hr, Hb, Hc, Hd.
Qed.
