(* ===== verification/Frame.v ===== *)
(** What a lookup depends on. A path lookup consults some entries of the tree;
    when none of them is in the region that the agent writes, the lookup gives
    the same result after any of the agent's writes. With that, scanning the
    certbot directory and reading bundles from it do not depend on what the
    providers write. *)

From S2P Require Import Prelude GoStrings Version Metrics Engine.
From S2P Require Import GoPath FileSystem AtomicFile Cert Bundle Hook Discovery Certs.

Open Scope Z_scope.

(** ** The entries a lookup consults *)

(** As [walk], collecting the entries looked at. *)
Fixpoint walk_keys (links : nat) (t : tree) (cur todo : phys) {struct links} : list phys :=
  (fix go (cur todo : phys) {struct todo} : list phys :=
     match todo with
     | [] => []
     | c :: todo' =>
         if String.eqb c ".." then go (removelast cur) todo'
         else (cur ++ [c]) ::
              match t !! (cur ++ [c]) with
              | Some IDir => go (cur ++ [c]) todo'
              | Some (ILink target) =>
                  match links with
                  | O => []
                  | S l => walk_keys l t (if IsAbs target then [] else cur) (comps target ++ todo')
                  end
              | _ => []
              end
     end) cur todo.

Definition locate_keys (t : tree) (start : phys) (p : string) : list phys :=
  match reverse (comps p) with
  | [] => []
  | _ :: rdir => walk_keys max_links t start (reverse rdir)
  end.

Fixpoint follow_keys (links : nat) (t : tree) (d : phys) (b : string) : list phys :=
  (d ++ [b]) ::
  match t !! (d ++ [b]) with
  | Some (ILink target) =>
      match links with
      | O => []
      | S l =>
          locate_keys t (start_of d target) target ++
          match locate_from t (start_of d target) target with
          | Ok (d', b') => follow_keys l t d' b'
          | Err _ => []
          end
      end
  | _ => []
  end.

(** The entries consulted by [resolve], and by reading the entry it finds. *)
Definition resolve_keys (s : OS) (p : string) : list phys :=
  start_of (os_cwd s) p :: locate_keys (os_tree s) (start_of (os_cwd s) p) p ++
  match locate s p with
  | Ok (d, b) => follow_keys max_links (os_tree s) d b
  | Err _ => []
  end.

Abbreviation agree ks t t' := (∀ k : phys, k ∈ (ks : list phys) → (t' : tree) !! k = (t : tree) !! k).

Lemma agree_app ks1 ks2 t t' : agree (ks1 ++ ks2) t t' → agree ks1 t t' ∧ agree ks2 t t'.
Proof. intros H. split; intros k Hk; apply H, elem_of_app; auto. Qed.

Lemma walk_frame links t t' cur todo :
  agree (walk_keys links t cur todo) t t' →
  walk links t' cur todo = walk links t cur todo ∧ walk_keys links t' cur todo = walk_keys links t cur todo.
Proof.
  revert cur todo. induction links as [|l IHl]; intros cur todo; revert cur;
    induction todo as [|c todo IH]; intros cur Hag; simpl in *; try done;
    (destruct (String.eqb c ".."); [by apply IH|]);
    pose proof (Hag (cur ++ [c]) ltac:(left)) as Hk; rewrite Hk;
    destruct (t !! (cur ++ [c])) as [[f| |tg]|]; try done;
    first [destruct (IH (cur ++ [c])) as [-> ->]|edestruct IHl as [-> ->]]; try done;
    intros k' Hk'; apply Hag; by right.
Qed.

Lemma locate_frame t t' start p :
  agree (locate_keys t start p) t t' →
  locate_from t' start p = locate_from t start p ∧ locate_keys t' start p = locate_keys t start p.
Proof.
  unfold locate_keys, locate_from. destruct (reverse (comps p)) as [|b rdir]; [done|].
  intros [-> ->]%walk_frame. done.
Qed.

Lemma follow_frame links t t' d b :
  agree (follow_keys links t d b) t t' →
  follow links t' d b = follow links t d b ∧ follow_keys links t' d b = follow_keys links t d b.
Proof.
  revert d b. induction links as [|l IH]; intros d b Hag; simpl in *;
    rewrite (Hag (d ++ [b])) by left; destruct (t !! (d ++ [b])) as [[f| |tg]|]; try done.
  assert (agree (locate_keys t (start_of d tg) tg ++ match locate_from t (start_of d tg) tg with
    | Ok (d', b') => follow_keys l t d' b' | Err _ => [] end) t t') as [Hl Hf]%agree_app
    by (intros k Hk; apply Hag; by right).
  apply locate_frame in Hl as [-> ->]. destruct (locate_from t (start_of d tg) tg) as [[d' b']|e]; [|done].
  by apply IH in Hf as [-> ->].
Qed.

(** A lookup is the same in two trees that agree on what it consults. *)
Lemma resolve_frame s s' p :
  os_cwd s' = os_cwd s → agree (resolve_keys s p) (os_tree s) (os_tree s') →
  resolve s' p = resolve s p ∧ resolve_keys s' p = resolve_keys s p.
Proof.
  intros Hc Hag. unfold resolve, resolve_keys, locate in *. rewrite Hc.
  assert (agree (locate_keys (os_tree s) (start_of (os_cwd s) p) p ++
    match locate_from (os_tree s) (start_of (os_cwd s) p) p with
    | Ok (d, b) => follow_keys max_links (os_tree s) d b | Err _ => [] end) (os_tree s) (os_tree s'))
    as [Hl Hf]%agree_app by (intros k Hk; apply Hag; by right).
  apply locate_frame in Hl as [-> ->]. destruct (locate_from (os_tree s) _ p) as [[d b]|e]; [|done].
  apply follow_frame in Hf as [-> ->]. done.
Qed.

Lemma follow_keys_end links t d b k : follow links t d b = Ok k → k ∈ follow_keys links t d b.
Proof.
  revert d b. induction links as [|l IH]; intros d b; simpl;
    destruct (t !! (d ++ [b])) as [[f| |tg]|]; try (intros [= <-]; left); try done.
  intros H. right. apply elem_of_app. right.
  destruct (locate_from t (start_of d tg) tg) as [[d' b']|e]; [by apply IH|done].
Qed.

(** The entry found is one of those consulted. *)
Lemma resolve_keys_end s p k : resolve s p = Ok k → k ∈ resolve_keys s p.
Proof.
  unfold resolve, resolve_keys. destruct (String.eqb p ""); [done|]. case_decide; [intros [= <-]; left|].
  destruct (locate s p) as [[d b]|e]; [|done]. intros E%follow_keys_end. right. apply elem_of_app. by right.
Qed.

(** ** Regions *)

(** The part of the tree that the agent writes: everything below a directory,
    and single entries. *)
Record region := mkRegion { rg_dir : phys; rg_files : list phys }.

Definition below (d k : phys) : Prop := d `prefix_of` k ∧ k ≠ d.
#[export] Instance below_dec d k : Decision (below d k).
Proof. unfold below. apply _. Defined.

Definition in_region (R : region) (k : phys) : Prop := below (rg_dir R) k ∨ k ∈ rg_files R.
#[export] Instance in_region_dec R k : Decision (in_region R k).
Proof. unfold in_region. apply _. Defined.

(** Nothing directly in the directory [d] is in the region. *)
Definition clear_dir (R : region) (d : phys) : Prop :=
  ¬ rg_dir R `prefix_of` d ∧ Forall (λ k, k = [] ∨ removelast k ≠ d) (rg_files R).
#[export] Instance clear_dir_dec R d : Decision (clear_dir R d).
Proof. unfold clear_dir. apply _. Defined.

Lemma clear_dir_child R d b : clear_dir R d → ¬ in_region R (d ++ [b]).
Proof.
  intros [Hd Hf] [[Hp Hne]|Hin].
  - apply Hd. destruct Hp as [l Hl]. destruct l as [|x l _] using rev_ind.
    + rewrite app_nil_r in Hl. congruence.
    + rewrite app_assoc in Hl. apply app_inj_tail in Hl as [-> _]. by exists l.
  - rewrite Forall_forall in Hf. destruct (Hf _ Hin) as [E|E]; [by destruct d|]. by rewrite removelast_last in E.
Qed.

(** The trees are the same outside the region. *)
Definition same_outside (R : region) (t t' : tree) : Prop := ∀ k, ¬ in_region R k → t' !! k = t !! k.

#[export] Instance same_outside_equiv R : Equivalence (same_outside R).
Proof.
  split; [by intros t k|intros t t' H k Hk; by rewrite H|]. intros t1 t2 t3 H1 H2 k Hk. by rewrite H2, H1.
Qed.

(** The path leads through nothing of the region. *)
Definition apart (R : region) (s : OS) (p : string) : Prop := Forall (λ k, ¬ in_region R k) (resolve_keys s p).

(** A command that changes nothing and gives the same result in both states. *)
Definition framed {A} (s s' : OS) (m : M OS A) : Prop := ∃ a, m s = (a, s) ∧ m s' = (a, s').

Lemma framed_ret {A} s s' (a : A) : framed s s' (mret a).
Proof. by exists a. Qed.

Lemma framed_bind {A B} s s' (m : M OS A) (f : A → M OS B) :
  framed s s' m → (∀ a, m s = (a, s) → framed s s' (f a)) → framed s s' (m ≫= f).
Proof.
  intros (a & E & E') Hf. destruct (Hf a E) as (b & Eb & Eb'). exists b.
  by rewrite (bind_run _ _ _ _ _ E), (bind_run _ _ _ _ _ E').
Qed.

Lemma framed_foldM {A B} s s' (f : A → B → M OS A) l a :
  (∀ a x, x ∈ l → framed s s' (f a x)) → framed s s' (foldM f a l).
Proof.
  revert a. induction l as [|x l IH]; intros a Hf; [apply framed_ret|].
  apply framed_bind; [apply Hf; left|]. intros a' _. apply IH. intros a2 y Hy. apply Hf. by right.
Qed.

#[export] Hint Resolve framed_ret framed_bind framed_foldM : lbsync.

Section Framed.
Context (R : region) (s s' : OS) (Hnf : os_faults s = []) (Hnf' : os_faults s' = [])
  (Hcwd : os_cwd s' = os_cwd s) (Hout : same_outside R (os_tree s) (os_tree s')).

Lemma apart_resolve p : apart R s p →
  resolve s' p = resolve s p ∧ apart R s' p
  ∧ ∀ k, resolve s p = Ok k → entry_at (os_tree s') k = entry_at (os_tree s) k.
Proof.
  intros Hp. unfold apart in *. rewrite Forall_forall in Hp.
  destruct (resolve_frame s s' p Hcwd) as [-> ->]; [intros k Hk; by apply Hout, Hp|].
  split_and!; [done|by apply Forall_forall|]. intros k Hk%resolve_keys_end. unfold entry_at.
  destruct k; [done|]. by apply Hout, Hp.
Qed.

Lemma syscall_framed {A} (body : OS → result A) :
  body s' = body s → framed s s' (syscall (λ s, (body s, s))).
Proof.
  intros E. exists (body s). unfold syscall. unfold_M. rewrite !next_fault_none by done. by rewrite E.
Qed.

Lemma ReadFile_framed p : apart R s p → framed s s' (ReadFile p).
Proof.
  intros (E & _ & He)%apart_resolve. apply syscall_framed. rewrite E.
  destruct (resolve s p) as [k|e]; [|done]. by rewrite (He k).
Qed.

Lemma resolveCertPath_framed p : apart R s p → framed s s' (resolveCertPath p).
Proof.
  intros (E & _ & He)%apart_resolve. apply syscall_framed. rewrite E.
  destruct (resolve s p) as [k|e]; [|done]. by rewrite (He k).
Qed.

Lemma Stat_framed p : os_clock s' = os_clock s → apart R s p → framed s s' (Stat p).
Proof.
  intros Hck (E & _ & He)%apart_resolve. apply syscall_framed. rewrite E, Hck.
  destruct (resolve s p) as [k|e]; [|done]. by rewrite (He k).
Qed.
End Framed.

(** ** Listing a directory outside the region *)

#[export] Instance str_le_trans : Transitive str_le.
Proof.
  intros a b c Hab Hbc. unfold str_le in *. apply not_true_is_false. intros Hca.
  destruct (decide (a = b)) as [->|Hne]; [congruence|].
  destruct (str_ltb a b) eqn:E; [by rewrite (str_ltb_trans _ _ _ Hca E) in Hbc|].
  by destruct (Hne (str_ltb_total _ _ E Hab)).
Qed.

#[export] Instance str_le_total : Total str_le.
Proof.
  intros a b. unfold str_le. destruct (str_ltb b a) eqn:E; [right|by left].
  apply not_true_is_false. intros E'. pose proof (str_ltb_trans _ _ _ E E') as Hc. by rewrite str_ltb_irrefl in Hc.
Qed.

Lemma children_sorted t d : Sorted (λ x y, str_le x.1 y.1) (children t d).
Proof. apply Sorted_merge_sort. intros x y. apply str_le_total. Qed.

(** The listing is determined by the entries: it is sorted by name and has each
    name once. *)
Lemma children_ext t t' d : (∀ b, t' !! (d ++ [b]) = t !! (d ++ [b])) → children t' d = children t d.
Proof.
  intros Heq.
  assert (∀ x, x ∈ children t' d ↔ x ∈ children t d) as Hin.
  { intros [b i]. by rewrite !children_elem, Heq. }
  assert (Transitive (λ x y : string * inode, str_le x.1 y.1)) by (intros x y z; apply str_le_trans).
  apply (Sorted_unique_strong (λ x y : string * inode, str_le x.1 y.1)).
  - intros [b1 i1] [b2 i2] H1 H2 Hle1 Hle2. rewrite Hin in H1. apply children_elem in H1, H2.
    assert (b1 = b2) as -> by (by apply str_ltb_total). congruence.
  - apply children_sorted.
  - apply children_sorted.
  - apply NoDup_Permutation; [eapply NoDup_fmap_1, children_NoDup..|done].
Qed.

Lemma ReadDir_framed R s s' p :
  os_faults s = [] → os_faults s' = [] → os_cwd s' = os_cwd s → same_outside R (os_tree s) (os_tree s') →
  apart R s p → (∀ k, resolve s p = Ok k → clear_dir R k) → framed s s' (ReadDir p).
Proof.
  intros Hnf Hnf' Hcwd Hout Hp Hk. destruct (apart_resolve R s s' Hcwd Hout p Hp) as (E & _ & He).
  apply syscall_framed; [done..|]. rewrite E. destruct (resolve s p) as [k|e]; [|done]. rewrite (He k) by done.
  destruct (entry_at (os_tree s) k) as [[]|]; try done. do 2 f_equal. apply children_ext.
  intros b. by apply Hout, clear_dir_child, Hk.
Qed.

(** ** Scanning the certbot directory *)

(** The names in certbot's live directory. *)
Definition lineage_names (s : OS) (root : string) : list string :=
  match resolve s (Join [root; "live"]) with
  | Ok k => (children (os_tree s) k).*1
  | Err _ => []
  end.

(** The paths provider.Local looks up. *)
Definition scan_paths (s : OS) (root : string) : list string :=
  let live := Join [root; "live"] in
  live :: (name ← lineage_names s root;
           let dir := Join [root; "live"; name] in
           [Join [live; name]; Join [live; name; "cert.pem"];
            Join [dir; CertFile]; Join [dir; KeyFile]; Join [dir; ChainFile]; Join [dir; FullchainFile]]).

(** None of them leads through the region, and the live directory holds nothing
    of it. *)
Definition scan_apart (R : region) (s : OS) (root : string) : Prop :=
  Forall (apart R s) (scan_paths s root)
  ∧ match resolve s (Join [root; "live"]) with Ok k => clear_dir R k | Err _ => True end.

#[export] Instance scan_apart_dec R s root : Decision (scan_apart R s root).
Proof. unfold scan_apart, apart. destruct (resolve s (Join [root; "live"])); apply _. Defined.

Section Scan.
Context {crypto : Crypto} (R : region) (s s' : OS) (Hnf : os_faults s = []) (Hnf' : os_faults s' = [])
  (Hcwd : os_cwd s' = os_cwd s) (Hck : os_clock s' = os_clock s)
  (Hout : same_outside R (os_tree s) (os_tree s')).
Context (root : string) (Hscan : scan_apart R s root).

Lemma scan_path_apart p : p ∈ scan_paths s root → apart R s p.
Proof. destruct Hscan as [H _]. rewrite Forall_forall in H. apply H. Qed.

Lemma lineage_path_apart name p :
  name ∈ lineage_names s root →
  p ∈ (let live := Join [root; "live"] in let dir := Join [root; "live"; name] in
       [Join [live; name]; Join [live; name; "cert.pem"];
        Join [dir; CertFile]; Join [dir; KeyFile]; Join [dir; ChainFile]; Join [dir; FullchainFile]]) →
  apart R s p.
Proof.
  intros Hn Hp. apply scan_path_apart. right. apply list_elem_of_bind. exists name. by split.
Qed.

(** The scan still looks up the same paths, and they are still apart. *)
Lemma scan_apart_frame : scan_apart R s' root ∧ lineage_names s' root = lineage_names s root.
Proof.
  destruct (apart_resolve R s s' Hcwd Hout (Join [root; "live"])) as (E & _ & _).
  { apply scan_path_apart. left. }
  assert (lineage_names s' root = lineage_names s root) as Hn.
  { unfold lineage_names. rewrite E. pose proof (proj2 Hscan) as Hk.
    destruct (resolve s (Join [root; "live"])) as [k|]; [|done]. f_equal. apply children_ext.
    intros b. by apply Hout, clear_dir_child. }
  split; [|done]. split.
  - unfold scan_paths. rewrite Hn. apply Forall_forall. intros p Hp.
    by apply (apart_resolve R s s' Hcwd Hout p), scan_path_apart.
  - rewrite E. apply Hscan.
Qed.

Lemma ReadFile_scan name p :
  name ∈ lineage_names s root →
  p ∈ (let dir := Join [root; "live"; name] in
       [Join [dir; CertFile]; Join [dir; KeyFile]; Join [dir; ChainFile]; Join [dir; FullchainFile]]) →
  framed s s' (ReadFile p).
Proof.
  intros Hn Hp. apply (ReadFile_framed R); [done..|]. apply (lineage_path_apart name); [done|]. by do 2 right.
Qed.

Lemma ReadLineage_framed name :
  name ∈ lineage_names s root → framed s s' (ReadLineage name (Join [root; "live"; name])).
Proof.
  intros Hn. pose proof (ReadFile_scan name) as Hr. unfold ReadLineage, Load, LoadKey, readOptional.
  assert (∀ p, p ∈ (let dir := Join [root; "live"; name] in
    [Join [dir; CertFile]; Join [dir; KeyFile]; Join [dir; ChainFile]; Join [dir; FullchainFile]]) →
    framed s s' (ReadFile p)) as Hrd by (intros p Hp; by apply Hr).
  repeat first
    [ apply framed_ret
    | apply framed_bind; [apply framed_bind; [apply Hrd; simpl; by repeat (left || right)|]|]
    | apply framed_bind; [apply Hrd; simpl; by repeat (left || right)|]
    | intros [?|?] _ | intros ? _ | case_match ].
Qed.

Lemma scanEntry_framed out e :
  de_Name e ∈ lineage_names s root → framed s s' (scanEntry (Join [root; "live"]) out e).
Proof.
  intros Hn. unfold scanEntry. destruct (_ || _); [apply framed_ret|].
  assert (framed s s' (resolveCertPath (Join [Join [root; "live"]; de_Name e; "cert.pem"]))) as Hc.
  { apply (resolveCertPath_framed R); [done..|]. apply (lineage_path_apart (de_Name e)); [done|]. right. left. }
  destruct (de_IsDir e).
  - apply framed_bind; [done|]. intros [?|?] _; apply framed_ret.
  - apply framed_bind.
    + apply (Stat_framed R); [done..|]. apply (lineage_path_apart (de_Name e)); [done|]. left.
    + intros [i|e'] _; [|apply framed_ret]. destruct (i_IsDir i); [|apply framed_ret].
      apply framed_bind; [done|]. intros [?|?] _; apply framed_ret.
Qed.

Lemma listed_names es : ReadDir (Join [root; "live"]) s = (Ok es, s) → de_Name <$> es = lineage_names s root.
Proof.
  unfold ReadDir, syscall. unfold_M. rewrite next_fault_none by done. unfold lineage_names.
  destruct (resolve s (Join [root; "live"])) as [k|e]; [|done].
  destruct (entry_at (os_tree s) k) as [[]|]; try done. intros [= <-]. rewrite <-list_fmap_compose.
  apply list_fmap_ext. by intros i [].
Qed.

Lemma ReadDir_live_framed : framed s s' (ReadDir (Join [root; "live"])).
Proof.
  apply (ReadDir_framed R); [done..| |].
  - apply scan_path_apart. left.
  - intros k Hk. pose proof (proj2 Hscan) as H. by rewrite Hk in H.
Qed.

Lemma ScanAll_framed : framed s s' (ScanAll root).
Proof.
  unfold ScanAll, ScanAllVerbose. apply framed_bind; [|intros [?|?] _; apply framed_ret].
  destruct (String.eqb_spec root "") as [|Hne]; [apply framed_ret|].
  apply framed_bind; [|intros [?|?] _; apply framed_ret].
  unfold scanCertbotVerbose. rewrite (proj2 (String.eqb_neq root "") Hne).
  apply framed_bind; [apply ReadDir_live_framed|]. intros [es|e] E; [|apply framed_ret].
  apply framed_bind; [|intros; apply framed_ret]. apply framed_foldM. intros out e He.
  apply scanEntry_framed. rewrite <-(listed_names es E). by apply list_elem_of_fmap_2.
Qed.

(** Every certificate the scan reports is of a lineage in the live directory. *)
Lemma scan_fold_ids live es out s0 e :
  e ∈ (foldM (scanEntry live) out es s0).1 → e ∈ out ∨ FallbackID (e_Cert e) ∈ de_Name <$> es.
Proof.
  revert out s0. induction es as [|x es IH]; intros out s0; [by left|]. rewrite foldM_cons.
  assert (∀ e', e' ∈ (scanEntry live out x s0).1 → e' ∈ out ∨ FallbackID (e_Cert e') = de_Name x) as Hx.
  { unfold scanEntry. unfold_M. intros e'.
    repeat (case_match || rewrite elem_of_snoc); simplify_eq/=; rewrite ?elem_of_snoc; naive_solver. }
  destruct (scanEntry live out x s0) as [out1 s1]. intros [Hin|Hin]%IH.
  - destruct (Hx e Hin) as [|E]; [by left|]. right. rewrite E. left.
  - right. by right.
Qed.

Lemma ScanAll_ids certs c : ScanAll root s = (Ok certs, s) → c ∈ certs → FallbackID c ∈ lineage_names s root.
Proof.
  unfold ScanAll, ScanAllVerbose. unfold_M. destruct (String.eqb_spec root "") as [|Hne]; simpl.
  { intros [= <-] H. by apply elem_of_nil in H. }
  unfold scanCertbotVerbose. rewrite (proj2 (String.eqb_neq root "") Hne). unfold_M.
  destruct ReadDir_live_framed as (r & E & _). rewrite E. destruct r as [es|e].
  - pose proof (scan_fold_ids (Join [root; "live"]) es [] s) as Hids.
    destruct (foldM (scanEntry (Join [root; "live"])) [] es s) as [out s1]. simpl in *. intros [= <- _].
    intros (e & -> & He)%list_elem_of_fmap. apply list_elem_of_filter in He as [_ He].
    unfold mergeEntries in He. rewrite merge_sort_Permutation in He. apply dedup_elem in He.
    destruct (Hids e He) as [Hc|Hc]; [by apply elem_of_nil in Hc|]. by rewrite (listed_names es E) in Hc.
  - destruct (os_IsNotExist e); [|done]. simpl. intros [= <-] Hc. by apply elem_of_nil in Hc.
Qed.

(** provider.Local of the certs module gives the same records, and changes
    nothing. *)
Lemma certs_Local_framed p : cp_root p = root → framed s s' (certs_Local p).
Proof.
  intros Hroot. unfold certs_Local. rewrite Hroot. apply framed_bind; [apply ScanAll_framed|].
  intros [certs|e] E; [|apply framed_ret]. apply framed_bind; [|intros; apply framed_ret].
  apply framed_foldM. intros recs c Hc. unfold readCert. rewrite Hroot.
  apply framed_bind; [|intros; apply framed_ret]. apply ReadLineage_framed. by apply (ScanAll_ids certs).
Qed.
End Scan.
