(* ===== verification/Blob.v ===== *)
(** internal/modules/blob/blob.go: the provider for single files. *)

From S2P Require Import Prelude GoStrings Version Metrics Engine EngineSpec.
From S2P Require Import GoPath FileSystem AtomicFile Cert Bundle Hook Certs.

Open Scope Z_scope.

Definition BlobKind : string := "blob".

(** blob.resource *)
Record resource := mkResource {
  rs_name : string;
  rs_source : string;
  rs_dest : string;
  rs_strategy : string;
  rs_runner : Runner
}.

(** The fields of blob.provider that do not change. *)
Record blobProvider := mkBlobProvider {
  bp_resources : list resource;
  bp_byName : gmap string resource;
  bp_host : string
}.

(** The node and the provider's set of resources with a pending hook. *)
Abbreviation BlobNode := (Node * gset string)%type.

Section Blob.
Context {crypto : Crypto} {commands : Commands}.

(** The record of a source file with its contents, as in provider.Local. *)
Definition blobRecord (p : blobProvider) (r : resource) (data : bytes) (primary : Z) : Record_ :=
  let sha := sha256Hex data in
  {| Kind := BlobKind;
     Key := rs_name r;
     version := mkVersion primary 0 sha;
     Blobs := {["data" := data]};
     Meta := {["sha256" := sha]};
     Source := bp_host p |}.

(** The body of the loop of provider.Local. *)
Definition readResource (p : blobProvider) (recs : list Record_) (r : resource) : M OS (list Record_) :=
  data ← ReadFile (rs_source r);
  match data with
  | Err _ => mret recs
  | Ok data =>
      primary ← (if negb (String.eqb (rs_strategy r) "sha") then
                   st ← Stat (rs_source r);
                   mret (match st with Ok i => Unix (i_ModTime i) | Err _ => 0 end)
                 else mret 0);
      mret (recs ++ [blobRecord p r data primary])
  end.

(** provider.Local *)
Definition blob_Local (p : blobProvider) : M BlobNode (list Record_ * option error) := λ w,
  let '(recs, n') := on_os (foldM (readResource p) [] (bp_resources p)) w.1 in
  ((recs, None), (n', ∅)).

(** [p.pending[key] = struct{}{}] *)
Definition mark_pending (key : string) : M BlobNode unit := λ w, (tt, (w.1, {[key]} ∪ w.2)).

(** provider.Apply *)
Definition blob_Apply (p : blobProvider) (r : Record_) : M BlobNode (bool * option error) :=
  match bp_byName p !! Key r with
  | None => mret (false, None)
  | Some res =>
      '(changed, err) ← lift_fst (on_os (WriteAtomic (rs_dest res) (map_get [] (Blobs r) "data") 420));
      match err with
      | Some e => mret (false, Some e)
      | None =>
          _ ← (if changed : bool then mark_pending (Key r) else mret tt);
          mret (changed, None)
      end
  end.

(** The body of the loop of provider.Flush. *)
Definition flushOne (p : blobProvider) (first : option error) (name : string) : M Node (option error) :=
  match bp_byName p !! name with
  | None => mret first
  | Some res =>
      err ← runner_Run (rs_runner res);
      mret (match first with Some e => Some e | None => err end)
  end.

(** provider.Flush; [range] is the order of the iteration over [pending]. *)
Definition blob_Flush (range : gset string → list string) (p : blobProvider) : M BlobNode (option error) := λ w,
  let '(err, n') := foldM (flushOne p) None (range w.2) w.1 in
  (err, (n', match err with None => ∅ | Some _ => w.2 end)).

(** provider.Rollback *)
Definition blob_Rollback (p : blobProvider) (keys : list string) : M OS (option error) :=
  foldM (firstErr (λ key,
    match bp_byName p !! key with
    | None => mret None
    | Some res => Restore (rs_dest res)
    end)) None keys.

Definition blob_provider (range : gset string → list string) (p : blobProvider) : Provider (M BlobNode) :=
  {| p_Kind := BlobKind;
     p_Local := blob_Local p;
     p_Apply := blob_Apply p;
     p_Flush := blob_Flush range p;
     p_Rollback keys := lift_fst (on_os (blob_Rollback p keys)) |}.
End Blob.

(** ** A node whose sources and destinations are in order *)

(** Where a path leads: the directory as written, its place, the name. *)
Record place := mkPlace { pl_q : string; pl_d : phys; pl_b : string }.
Definition pl_key (l : place) : phys := pl_d l ++ [pl_b l].
Definition pl_bak (l : place) : phys := pl_d l ++ [pl_b l +:+ BackupSuffix].

Section BlobSpec.
Context {crypto : Crypto} {commands : Commands} (p : blobProvider).
(** The place of each source, the file there if there is one, and the place of
    each destination by resource name. *)
Context (src : resource → place) (sfile : resource → option file) (dst : string → place).

(** What the layout of the configuration must ensure: the destinations and
    their backups are different files, and none of them is a source. *)
Record layout_ok : Prop := {
  lo_dst : ∀ a b ra rb, bp_byName p !! a = Some ra → bp_byName p !! b = Some rb → a ≠ b →
    pl_key (dst a) ≠ pl_key (dst b) ∧ pl_key (dst a) ≠ pl_bak (dst b) ∧ pl_bak (dst a) ≠ pl_bak (dst b);
  lo_src : ∀ r a ra, r ∈ bp_resources p → bp_byName p !! a = Some ra →
    pl_key (src r) ≠ pl_key (dst a) ∧ pl_key (src r) ≠ pl_bak (dst a);
  lo_tmp : ∀ a b ra n, bp_byName p !! a = Some ra → pl_key (dst a) ≠ pl_d (dst b) ++ [tmp_name n]
}.

Record blob_inv (w : BlobNode) : Prop := {
  bi_nf : os_faults (nd_os w.1) = [];
  bi_dst : ∀ a ra, bp_byName p !! a = Some ra →
    managed (nd_os w.1) (rs_dest ra) (pl_q (dst a)) (pl_b (dst a)) (pl_d (dst a))
    ∧ no_tmp (nd_os w.1) (pl_d (dst a));
  bi_src : ∀ r, r ∈ bp_resources p →
    file_path (rs_source r) (pl_q (src r)) (pl_b (src r))
    ∧ dir_at (nd_os w.1) (pl_q (src r)) (pl_d (src r))
    ∧ os_tree (nd_os w.1) !! pl_key (src r) = IFile <$> sfile r
}.

(** The destination of the record has the record's data. A record for a
    resource this node does not configure asks for nothing. *)
Definition blob_shows (w : BlobNode) (r : Record_) : Prop :=
  is_Some (bp_byName p !! Key r) →
  content (os_tree (nd_os w.1)) (pl_key (dst (Key r))) = Some (map_get [] (Blobs r) "data").

(** The record Local builds for a resource. *)
Definition sourceRecord (r : resource) : option Record_ :=
  f ← sfile r;
  Some (blobRecord p r (f_data f) (if negb (String.eqb (rs_strategy r) "sha") then Unix (f_mtime f) else 0)).

Lemma readResource_ok s recs r :
  os_faults s = [] → file_path (rs_source r) (pl_q (src r)) (pl_b (src r)) →
  dir_at s (pl_q (src r)) (pl_d (src r)) → os_tree s !! pl_key (src r) = IFile <$> sfile r →
  readResource p recs r s = (recs ++ match sourceRecord r with Some x => [x] | None => [] end, s).
Proof.
  intros Hnf Hp Hd Hf. unfold readResource, sourceRecord. unfold_M. destruct (sfile r) as [f|]; simpl in *.
  - rewrite (ReadFile_ok _ _ s Hnf _ _ f Hp Hd Hf).
    destruct (negb (String.eqb (rs_strategy r) "sha")); [|done].
    by rewrite (Stat_file _ _ s Hnf _ _ f Hp Hd Hf).
  - rewrite (ReadFile_absent _ _ s Hnf _ _ Hp Hd Hf). by rewrite app_nil_r.
Qed.

Lemma readResources_ok s rs :
  os_faults s = [] →
  (∀ r, r ∈ rs → file_path (rs_source r) (pl_q (src r)) (pl_b (src r))
    ∧ dir_at s (pl_q (src r)) (pl_d (src r)) ∧ os_tree s !! pl_key (src r) = IFile <$> sfile r) →
  ∀ recs, foldM (readResource p) recs rs s = (recs ++ omap sourceRecord rs, s).
Proof.
  intros Hnf. induction rs as [|r rs IH]; intros Hrs recs; [by rewrite foldM_nil, app_nil_r|].
  destruct (Hrs r ltac:(left)) as (H1 & H2 & H3).
  rewrite foldM_cons, readResource_ok by done.
  rewrite IH by (intros r' Hr'; apply Hrs; by right). rewrite <-app_assoc.
  cbn [omap list_omap]. by destruct (sourceRecord r).
Qed.

(** A write to the destination of one resource keeps the node in order. *)
Lemma blob_inv_write w s' a ra data :
  layout_ok → blob_inv w → bp_byName p !! a = Some ra →
  os_tree s' = (write_tree (os_umask (nd_os w.1)) (os_clock (nd_os w.1)) (pl_d (dst a)) (pl_b (dst a))
                  data 420 (os_tree (nd_os w.1))).2 →
  calm (nd_os w.1) s' → ∀ m ran pending, blob_inv (mkNode s' m ran, pending).
Proof.
  intros Hlo [Hnf Hdst Hsrc] Ha Ht [Henv Hnf'] m ran pending.
  destruct (Hdst a ra Ha) as [Hm Hno].
  assert (same_dirs (os_tree (nd_os w.1)) (os_tree s')) as Hs.
  { rewrite Ht. apply write_tree_same_dirs; apply Hm. }
  split; simpl; [done| |].
  - intros b rb Hb. destruct (Hdst b rb Hb) as [Hmb Hnob]. split.
    + eapply managed_step; [exact Hmb|exact Hs|exact Henv].
    + intros n. rewrite Ht, write_tree_lookup_ne; [apply Hnob|..].
      * intros E. by apply (lo_tmp Hlo a b ra n Ha).
      * intros E. apply app_inj_tail in E as [_ E]. by apply (bak_not_tmp (pl_b (dst a)) n).
  - intros r Hr. destruct (Hsrc r Hr) as (H1 & H2 & H3). destruct (lo_src Hlo r a ra Hr Ha) as [D1 D2].
    split_and!; [done| |].
    + eapply dir_at_same; [exact Hs|apply Henv|exact H2].
    + rewrite Ht, write_tree_lookup_ne by done. done.
Qed.

(** The write behind Apply, in a node in order. *)
Lemma blob_write w a ra data :
  blob_inv w → bp_byName p !! a = Some ra → ∃ c s',
  WriteAtomic (rs_dest ra) data 420 (nd_os w.1) = ((c, None), s') ∧ calm (nd_os w.1) s'
  ∧ os_tree s' = (write_tree (os_umask (nd_os w.1)) (os_clock (nd_os w.1)) (pl_d (dst a)) (pl_b (dst a))
                  data 420 (os_tree (nd_os w.1))).2
  ∧ (content (os_tree (nd_os w.1)) (pl_key (dst a)) = Some data → c = false ∧ s' = nd_os w.1).
Proof.
  intros [Hnf Hdst _] Ha. destruct (Hdst a ra Ha) as [Hm Hno].
  destruct (WriteAtomic_refines _ _ _ _ _ data 420 Hnf Hm Hno) as (s' & E & Ht & Hc).
  eexists _, s'. split; [exact E|]. split_and!; [exact Hc|exact Ht|].
  intros (f & Hf & Hd)%content_Some.
  rewrite (WriteAtomic_same _ _ _ _ _ f data 420 Hnf Hm Hf Hd) in E. by simplify_eq.
Qed.

Lemma blob_Apply_run w r ra c s' :
  bp_byName p !! Key r = Some ra →
  WriteAtomic (rs_dest ra) (map_get [] (Blobs r) "data") 420 (nd_os w.1) = ((c, None), s') →
  blob_Apply p r w = ((c, None), (mkNode s' (nd_metrics w.1) (nd_ran w.1), if c then {[Key r]} ∪ w.2 else w.2)).
Proof.
  intros Ha E. unfold blob_Apply. rewrite Ha. unfold lift_fst, on_os, mark_pending. unfold_M. rewrite E.
  by destruct c.
Qed.

(** Commands that succeed and leave the files alone. *)
Definition tame_commands : Prop := ∀ args timeout s, exec_Command args timeout s = (None, s).

Lemma runner_Run_tame r n : tame_commands → ∃ n', runner_Run r n = (None, n') ∧ nd_os n' = nd_os n.
Proof.
  intros Ht. unfold runner_Run, runReload, runner_exec. unfold_M.
  destruct (r_Verify r), (r_Reload r); rewrite ?Ht; simpl; rewrite ?Ht; simpl; eexists; split; done.
Qed.

Lemma flushAll_tame names n :
  tame_commands → ∃ n', foldM (flushOne p) None names n = (None, n') ∧ nd_os n' = nd_os n.
Proof.
  intros Ht. revert n. induction names as [|a names IH]; intros n; [by exists n|].
  rewrite foldM_cons. unfold flushOne at 1. destruct (bp_byName p !! a) as [res|]; [|apply IH].
  unfold_M. destruct (runner_Run_tame (rs_runner res) n Ht) as (n1 & -> & H1). simpl.
  destruct (IH n1) as (n2 & E2 & H2). exists n2. split; [exact E2|congruence].
Qed.

Lemma blob_inv_os w w' : nd_os w'.1 = nd_os w.1 → blob_inv w → blob_inv w'.
Proof. intros E [H1 H2 H3]. split; rewrite E; assumption. Qed.

(** The provider meets the engine's contract. *)
Lemma blob_stable range :
  layout_ok → tame_commands →
  StableProvider (blob_provider range p) (omap sourceRecord (bp_resources p)) blob_inv blob_shows (λ _, True).
Proof.
  intros Hlo Hcmd. split.
  - intros w Hw. exists (w.1, ∅). simpl. unfold blob_Local, on_os.
    rewrite (readResources_ok (nd_os w.1)); [|apply Hw|apply Hw]. split_and!.
    + by destruct w as [[]].
    + by apply (blob_inv_os w).
    + done.
  - intros w r Hw _. simpl. destruct (bp_byName p !! Key r) as [ra|] eqn:Ha.
    + destruct (blob_write w (Key r) ra (map_get [] (Blobs r) "data") Hw Ha) as (c & s' & E & Hc & Ht & _).
      eexists c, _. split; [by apply (blob_Apply_run w r ra c s')|]. split_and!.
      * by apply (blob_inv_write w s' (Key r) ra (map_get [] (Blobs r) "data")).
      * intros _. apply content_Some. simpl. rewrite Ht. apply write_tree_content.
      * intros r' _ Hne Hsh [rb Hb]. specialize (Hsh (mk_is_Some _ _ Hb)). revert Hsh.
        unfold content. simpl. rewrite Ht. destruct (lo_dst Hlo _ _ _ _ Hb Ha Hne) as (D1 & D2 & _).
        by rewrite write_tree_lookup_ne.
    + exists false, w. split; [unfold blob_Apply; by rewrite Ha|]. split_and!; [done| |done].
      intros [x Hx]. congruence.
  - intros w r Hw _ Hsh. simpl. destruct (bp_byName p !! Key r) as [ra|] eqn:Ha.
    + destruct (blob_write w (Key r) ra (map_get [] (Blobs r) "data") Hw Ha) as (c & s' & E & _ & _ & Hsame).
      destruct (Hsame (Hsh ltac:(eauto))) as [-> ->]. rewrite (blob_Apply_run w r ra _ _ Ha E).
      by destruct w as [[]].
    + unfold blob_Apply. by rewrite Ha.
  - intros w Hw. simpl. unfold blob_Flush.
    destruct (flushAll_tame (range w.2) w.1 Hcmd) as (n' & -> & Hos). exists (n', ∅). split_and!; [done| |].
    + by apply (blob_inv_os w).
    + intros r Hsh Hr. unfold content. simpl. rewrite Hos. by apply Hsh.
Qed.
End BlobSpec.
