(* ===== verification/CertsStable.v ===== *)
(** The certs provider meets the engine's contract [StableProvider]: on a
    serving directory in order, with commands that succeed, and with a certbot
    directory whose lookups avoid the region the agent writes ([Frame.v]), its
    local records do not change and applying a record makes the node serve
    it. *)

From S2P Require Import Prelude GoStrings Version Metrics Engine EngineSpec.
From S2P Require Import GoPath FileSystem AtomicFile Cert Bundle Hook Discovery Certs Frame Blob.

Open Scope Z_scope.

(** ReadLineage keeps the name it is given. *)
Lemma ReadLineage_name `{!Crypto} lineage dir s b s' :
  ReadLineage lineage dir s = (Ok b, s') → Lineage b = lineage.
Proof.
  unfold ReadLineage, mbind, mret, M_bind, M_ret.
  repeat (match goal with |- (let '(_, _) := ?m ?w in _) = _ → _ => destruct (m w) as [[?|?] ?] end; try done).
  destruct (readOptional _ _), (readOptional _ _). by intros [= <- _].
Qed.

Section CertsStable.
Context {crypto : Crypto} {commands : Commands}.
(** The provider, the place of its serving directory, the region the agent
    writes, and the records of the certbot directory. *)
Context (p : certsProvider) (R : region) (L : list Record_).
Let sd := rg_dir R.

Record certs_inv (n : Node) : Prop := {
  ci_serving : serving (nd_os n) (cp_servingDir p) sd;
  ci_apart : scan_apart R (nd_os n) (cp_root p);
  ci_local : certs_Local p (nd_os n) = ((L, None), nd_os n)
}.

(** The lineage's directory holds every file of the record that has data. *)
Definition certs_shows (n : Node) (r : Record_) : Prop := holds (nd_os n) sd (Key r) (fromRecord r).

(** A key that names a directory below the serving directory. *)
Definition plain_key (r : Record_) : Prop := good_name (Key r) = true.

(** What a change outside the reach of the scan leaves. *)
Lemma certs_inv_frame n n' :
  certs_inv n → serving (nd_os n') (cp_servingDir p) sd → same_env (nd_os n) (nd_os n') →
  same_outside R (os_tree (nd_os n)) (os_tree (nd_os n')) → certs_inv n'.
Proof.
  intros [Hs Ha Hl] Hs' (Hcwd & _ & Hck) Hout. pose proof (sv_nf _ _ _ Hs) as Hnf. pose proof (sv_nf _ _ _ Hs') as Hnf'.
  split; [done| |].
  - by apply (scan_apart_frame R (nd_os n) (nd_os n')).
  - destruct (certs_Local_framed R (nd_os n) (nd_os n') Hnf Hnf' Hcwd Hck Hout (cp_root p) Ha p eq_refl)
      as (a & E & E'). rewrite Hl in E. injection E as <-. exact E'.
Qed.

Lemma certs_inv_os n n' : nd_os n' = nd_os n → certs_inv n → certs_inv n'.
Proof. intros E [H1 H2 H3]. split; rewrite E; assumption. Qed.

Lemma outside_region key t t' : outside sd key t t' → same_outside R t t'.
Proof.
  intros Ho k Hk. apply Ho; [intros x ->|intros ->]; apply Hk; left; (split; [|intros E]).
  - rewrite <-app_assoc. by exists [key; x].
  - by apply snoc_snoc_neq in E.
  - by exists [key].
  - apply (f_equal length) in E. unfold sd in E. rewrite length_app in E. simpl in E. lia.
Qed.

(** Apply, with all that it changes. *)
Lemma certs_Apply_ok r n :
  certs_inv n → plain_key r → ∃ ch n',
  certs_Apply p r n = ((ch, None), n') ∧ certs_inv n' ∧ certs_shows n' r
  ∧ outside sd (Key r) (os_tree (nd_os n)) (os_tree (nd_os n'))
  ∧ same_env (nd_os n) (nd_os n') ∧ dirs_le (os_tree (nd_os n)) (os_tree (nd_os n')).
Proof.
  intros Hn Hk. pose proof (ci_serving _ Hn) as Hs.
  destruct (BundleWriteAtomic_serving (nd_os n) _ sd (Key r) (fromRecord r) Hs Hk)
    as (ch & s' & E & Hs' & Hh & Ho & Henv & Hle).
  destruct (certs_Apply_run p r n ch s' E) as (ms & Ea & _).
  eexists ch, _. split; [exact Ea|]. simpl. split_and!; try done.
  apply (certs_inv_frame n); [done|done|done|]. by apply (outside_region (Key r)).
Qed.

Lemma certs_stable :
  tame_commands → StableProvider (certs_provider p) L certs_inv certs_shows plain_key.
Proof.
  intros Hcmd. split.
  - intros n Hn. exists n. simpl. unfold on_os. rewrite (ci_local _ Hn). split_and!; try done. by destruct n.
  - intros n r Hn Hk. destruct (certs_Apply_ok r n Hn Hk) as (ch & n' & E & Hn' & Hsh & Ho & _).
    exists ch, n'. split_and!; try done. intros r' _ Hne. by apply (holds_outside _ _ sd (Key r)).
  - intros n r Hn Hk Hsh. simpl.
    pose proof (BundleWriteAtomic_again (nd_os n) _ sd (Key r) (fromRecord r) (ci_serving _ Hn) Hk Hsh) as E.
    destruct (certs_Apply_run p r n false (nd_os n) E) as (ms & Ea & Hms). rewrite (Hms eq_refl), app_nil_r in Ea.
    rewrite Ea. by destruct n.
  - intros n Hn. destruct (runner_Run_tame (cp_runner p) n Hcmd) as (n' & E & Hos). exists n'.
    split_and!; [exact E|by apply (certs_inv_os n)|]. intros r. unfold certs_shows. by rewrite Hos.
Qed.

(** The records are of the provider's kind, from this host, and named after a
    directory of certbot. *)
Lemma certs_records n r :
  certs_inv n → r ∈ L → Kind r = CertsKind ∧ Source r = cp_host p ∧ Key r ∈ lineage_names (nd_os n) (cp_root p).
Proof.
  intros Hn Hr. pose proof (ci_local _ Hn) as E. pose proof (sv_nf _ _ _ (ci_serving _ Hn)) as Hnf.
  revert E. unfold certs_Local. unfold_M.
  destruct (ScanAll_framed R (nd_os n) (nd_os n) Hnf Hnf eq_refl eq_refl ltac:(done) (cp_root p) (ci_apart _ Hn))
    as (res & Es & _). rewrite Es.
  destruct res as [certs|e]; [|intros [= <-]; by apply elem_of_nil in Hr].
  pose proof (ScanAll_ids R (nd_os n) (nd_os n) Hnf Hnf eq_refl ltac:(done) (cp_root p) (ci_apart _ Hn) certs) as Hids.
  assert (∀ cs recs s0, (∀ c, c ∈ cs → c ∈ certs) → r ∈ (foldM (readCert p) recs cs s0).1 →
    r ∈ recs ∨ (Kind r = CertsKind ∧ Source r = cp_host p ∧ Key r ∈ lineage_names (nd_os n) (cp_root p))) as Hfold.
  { induction cs as [|c cs IH]; intros recs s0 Hin; [by left|]. rewrite foldM_cons.
    assert (r ∈ (readCert p recs c s0).1 → r ∈ recs ∨
      (Kind r = CertsKind ∧ Source r = cp_host p ∧ Key r ∈ lineage_names (nd_os n) (cp_root p))) as Hc.
    { unfold readCert. unfold_M. destruct (ReadLineage (FallbackID c) _ s0) as [[b|e] s1] eqn:Eb; [|by left].
      simpl. intros [?| ->]%elem_of_snoc; [by left|]. right. simpl. split_and!; [done|done|].
      assert (Lineage b = FallbackID c) as ->.
      { by eapply ReadLineage_name. }
      apply Hids; [exact Es|]. apply Hin. left. }
    destruct (readCert p recs c s0) as [recs1 s1]. intros H. destruct (IH recs1 s1) as [?|?]; [|done|by apply Hc|by right].
    intros c' Hc'. apply Hin. by right. }
  specialize (Hfold certs [] (nd_os n) ltac:(done)).
  destruct (foldM (readCert p) [] certs (nd_os n)) as [recs s1]. intros [= <- _].
  destruct (Hfold Hr) as [Hnil|Hres]; [by apply elem_of_nil in Hnil|exact Hres].
Qed.
End CertsStable.
