(* ===== verification/RollbackSpec.v ===== *)
(** What a rollback of the certs provider leaves, exactly: the contents of every
    file of a lineage after Bundle.WriteAtomic and after Rollback, for a
    directory in which earlier writes have left backups. Two consequences are
    what the rollback does not undo. *)

From S2P Require Import Prelude GoStrings Version Metrics Engine EngineSpec.
From S2P Require Import GoPath FileSystem AtomicFile Cert Bundle Hook Discovery Certs Frame Blob CertsStable.

Open Scope Z_scope.

(** A lineage directory that holds bundle files and backups of them only. *)
Definition lineage_only (t : tree) (kd : phys) : Prop :=
  ∀ x, is_Some (t !! (kd ++ [x])) → x ∈ bundleNames ∨ ∃ y, y ∈ bundleNames ∧ x = y +:+ BackupSuffix.

Lemma bundle_name b x data perm : (x, data, perm) ∈ bundleFiles b → x ∈ bundleNames.
Proof. intros Hin. rewrite <-(bundleFiles_names b). apply (names_of_files _ _ Hin). Qed.

Lemma bundle_file b x : x ∈ bundleNames → ∃ data perm, (x, data, perm) ∈ bundleFiles b.
Proof.
  rewrite <-(bundleFiles_names b). intros ([y dt] & -> & Hy)%list_elem_of_fmap.
  apply list_elem_of_fmap in Hy as ([[z data] perm] & [= -> ->] & Hf). eauto.
Qed.

Lemma lineage_only_backups s dir kd :
  writable s dir kd bundleNames → lineage_only (os_tree s) kd → backups_ok (os_tree s) kd.
Proof.
  intros Hw Hl x Hx. assert (x ∈ bundleNames) as Hin.
  { destruct (Hl _ Hx) as [Hn|(y & Hy & E)].
    - apply bundleNames_no_bak in Hn. by rewrite HasSuffix_bak in Hn.
    - apply str_app_inj_r in E. by subst. }
  destruct (wr_names _ _ _ _ Hw x Hin) as (Hg & _ & Hd & Hb). split_and!; [done|by apply bundleNames_no_bak| |done].
  destruct Hx as [i Hi]. rewrite Hi in Hb |- *. destruct i; try done. eauto.
Qed.

Lemma lineage_only_write umask clock kd b t :
  lineage_only t kd → lineage_only (files_tree umask clock kd false (bundleFiles b) t).2 kd.
Proof.
  intros Hl x Hx. destruct (decide (x ∈ bundleNames)) as [|Hno]; [by left|right].
  destruct (decide (Exists (λ f, x = f.1.1 +:+ BackupSuffix) (bundleFiles b))) as [Hex|Hne].
  - apply Exists_exists in Hex as ([[y data] perm] & Hf & ->). eauto using bundle_name.
  - rewrite files_tree_ne in Hx; [by destruct (Hl x Hx) as [?|?]|].
    intros [[y data] perm] Hf. split; apply snoc_neq; intros ->.
    + by apply Hno, (bundle_name b y data perm).
    + apply Hne, Exists_exists. eauto.
Qed.

(** Bundle.WriteAtomic on an existing lineage. *)
Lemma bundle_write s dir sd key b :
  serving s dir sd → good_name key = true → let kd := sd ++ [key] in
  os_tree s !! kd = Some IDir → lineage_only (os_tree s) kd → ∃ ch s',
  BundleWriteAtomic b (Join [dir; key]) s = ((ch, None), s') ∧ serving s' dir sd
  ∧ os_tree s' !! kd = Some IDir ∧ lineage_only (os_tree s') kd
  ∧ ∀ x data perm, (x, data, perm) ∈ bundleFiles b →
      content (os_tree s') (kd ++ [x])
        = (if bool_decide (data = []) then content (os_tree s) (kd ++ [x]) else Some data)
      ∧ content (os_tree s') (kd ++ [x +:+ BackupSuffix])
        = (if bool_decide (data = []) then content (os_tree s) (kd ++ [x +:+ BackupSuffix])
           else kept_bak (content (os_tree s) (kd ++ [x])) (content (os_tree s) (kd ++ [x +:+ BackupSuffix])) data).
Proof.
  intros Hs Hk kd He Hl. pose proof (serving_writable s dir sd key Hs Hk He) as Hw.
  destruct (writeFiles_refines s (Join [dir; key]) kd bundleNames false (bundleFiles b))
    as (s' & E & Ht & _); [apply Hs|exact Hw|intros [[x data] perm] Hf; by eapply bundle_name|].
  destruct (writeFiles_serving s dir sd key b Hs Hk He) as (s2 & E2 & Hs2 & [He2 _] & _). fold kd in E2.
  rewrite E in E2. injection E2 as <-.
  eexists _, s'. split.
  { unfold BundleWriteAtomic. destruct (serving_mkdir s dir sd key Hs Hk) as (s0 & E0 & _ & _ & _ & Heq & _).
    run_bind E0. rewrite (Heq He). exact E. }
  split_and!; [done|done|rewrite Ht; by apply lineage_only_write|]. rewrite Ht.
  apply files_tree_contents; [rewrite bundleFiles_names; apply bundleNames_ok|].
  intros [[x data] perm] Hf. by apply (wr_names _ _ _ _ Hw x (bundle_name b x data perm Hf)).
Qed.

(** Rollback: every backup replaces its file. *)
Lemma bundle_rollback s dir sd key :
  serving s dir sd → good_name key = true → let kd := sd ++ [key] in
  os_tree s !! kd = Some IDir → lineage_only (os_tree s) kd → ∃ s',
  Rollback (Join [dir; key]) s = (None, s')
  ∧ ∀ x, x ∈ bundleNames → content (os_tree s') (kd ++ [x])
      = match content (os_tree s) (kd ++ [x +:+ BackupSuffix]) with
        | Some c => Some c | None => content (os_tree s) (kd ++ [x]) end.
Proof.
  intros Hs Hk kd He Hl. pose proof (serving_writable s dir sd key Hs Hk He) as Hw.
  pose proof (lineage_only_backups s _ kd Hw Hl) as Hbok.
  destruct (RestoreDir_ok s (Join [dir; key]) kd (sv_nf _ _ _ Hs) (wr_dir _ _ _ _ Hw) Hbok)
    as (s' & E & _ & _ & Hrest & Hkeep).
  exists s'. split; [exact E|]. intros x Hx. unfold content.
  destruct (os_tree s !! (kd ++ [x +:+ BackupSuffix])) as [i|] eqn:Eb.
  - destruct (Hrest x) as [-> _]; [eauto|]. rewrite Eb. destruct (Hbok x) as (_ & _ & (f & Hf) & _); [eauto|].
    rewrite Eb in Hf. by simplify_eq.
  - rewrite Hkeep; [done|]. intros y Hy. split; apply snoc_neq.
    + intros <-. rewrite Eb in Hy. by destruct Hy.
    + intros ->. apply bundleNames_no_bak in Hx. by rewrite HasSuffix_bak in Hx.
Qed.

(** (C37) A rollback can restore a file that the tick did not write. Take any
    lineage that is served from files without backups, with key [k1]. A first
    bundle [b2] replaces the certificate and the key; a second one, [b3], is a
    renewal that keeps the key of [b2]. Rolling back the write of [b3] brings
    back the certificate of [b2], but also the key [k1], from the backup the
    write of [b2] has left behind: the certificate and the key that are served
    then do not belong together. *)
Theorem rollback_restores_stale_key s dir sd key b2 b3 c1 k1 :
  let kd := sd ++ [key] in
  serving s dir sd → good_name key = true → os_tree s !! kd = Some IDir → clean_lineage s kd →
  content (os_tree s) (kd ++ [CertFile]) = Some c1 → content (os_tree s) (kd ++ [KeyFile]) = Some k1 →
  CertPEM b2 ≠ [] → KeyPEM b2 ≠ [] → KeyPEM b2 ≠ k1 →
  CertPEM b3 ≠ [] → CertPEM b3 ≠ CertPEM b2 → KeyPEM b3 = KeyPEM b2 →
  ∃ ch2 s2 ch3 s3 s4,
    BundleWriteAtomic b2 (Join [dir; key]) s = ((ch2, None), s2)
    ∧ content (os_tree s2) (kd ++ [CertFile]) = Some (CertPEM b2)
    ∧ content (os_tree s2) (kd ++ [KeyFile]) = Some (KeyPEM b2)
    ∧ BundleWriteAtomic b3 (Join [dir; key]) s2 = ((ch3, None), s3)
    ∧ Rollback (Join [dir; key]) s3 = (None, s4)
    ∧ content (os_tree s4) (kd ++ [CertFile]) = Some (CertPEM b2)
    ∧ content (os_tree s4) (kd ++ [KeyFile]) = Some k1.
Proof.
  intros kd Hs Hk He Hclean Hc Hy Hc2 Hk2 Hne2 Hc3 Hne3 Hk3.
  destruct (bundle_write s dir sd key b2 Hs Hk He) as (ch2 & s2 & E2 & Hs2 & He2 & Hl2 & Hf2).
  { intros x Hx. left. by apply Hclean. }
  destruct (bundle_write s2 dir sd key b3 Hs2 Hk He2 Hl2) as (ch3 & s3 & E3 & Hs3 & He3 & Hl3 & Hf3).
  destruct (bundle_rollback s3 dir sd key Hs3 Hk He3 Hl3) as (s4 & E4 & Hf4).
  exists ch2, s2, ch3, s3, s4. fold kd in Hf2, Hf3, Hf4.
  destruct (Hf2 CertFile (CertPEM b2) 420) as [Hc2' _]; [left|]. destruct (Hf2 KeyFile (KeyPEM b2) 384) as [Hk2' Hkb2]; [right; left|].
  destruct (Hf3 CertFile (CertPEM b3) 420) as [_ Hcb3]; [left|].
  destruct (Hf3 KeyFile (KeyPEM b3) 384) as [_ Hkb3]; [right; left|].
  rewrite bool_decide_false in Hc2', Hk2', Hkb2 by done. rewrite bool_decide_false in Hcb3 by done.
  rewrite Hy in Hkb2. unfold kept_bak in *. rewrite bool_decide_false in Hkb2 by congruence.
  rewrite bool_decide_false in Hkb3 by congruence. rewrite Hc2' in Hcb3. rewrite bool_decide_false in Hcb3 by congruence.
  rewrite Hk2', Hk3 in Hkb3. rewrite bool_decide_true, Hkb2 in Hkb3 by done.
  split_and!; try done.
  - rewrite Hf4 by left. by rewrite Hcb3.
  - rewrite Hf4 by (right; left). by rewrite Hkb3.
Qed.

(** ** A rollback with nothing to restore *)

Lemma RestoreDir_none s dir d :
  os_faults s = [] → abs_dir s dir d → (∀ x, os_tree s !! (d ++ [x +:+ BackupSuffix]) = None) →
  RestoreDir dir s = (None, s).
Proof.
  intros Hnf Had Hno. unfold RestoreDir, ReadDir, syscall. unfold_M. rewrite next_fault_none by done.
  rewrite (ad_resolve s dir d Had), (ad_entry s dir d Had).
  assert (∀ x i, (x, i) ∈ children (os_tree s) d → HasSuffix x BackupSuffix = false) as Hch.
  { intros x i Hx%children_elem. destruct (HasSuffix x BackupSuffix) eqn:E; [|done].
    apply HasSuffix_spec in E as [y ->]. by rewrite Hno in Hx. }
  induction (children (os_tree s) d) as [|[x i] l IH]; [done|]. rewrite fmap_cons. cbn [restoreEntries de_Name].
  rewrite (Hch x i) by left. simpl. apply IH. intros y j Hy. apply (Hch y j). by right.
Qed.

(** Bundle.WriteAtomic, whether or not the lineage's directory is there. *)
Lemma bundle_write_any s dir sd key b :
  serving s dir sd → good_name key = true → ∃ ch s' t0,
  BundleWriteAtomic b (Join [dir; key]) s = ((ch, None), s')
  ∧ (∀ x, t0 !! ((sd ++ [key]) ++ [x]) = os_tree s !! ((sd ++ [key]) ++ [x]))
  ∧ os_tree s' = (files_tree (os_umask s) (os_clock s) (sd ++ [key]) false (bundleFiles b) t0).2.
Proof.
  intros Hs Hk. unfold BundleWriteAtomic.
  destruct (serving_mkdir s dir sd key Hs Hk) as (s0 & E0 & Hs0 & He0 & Ho0 & _ & (Hcwd & Hum & Hck) & _). run_bind E0.
  destruct (writeFiles_refines s0 (Join [dir; key]) (sd ++ [key]) bundleNames false (bundleFiles b))
    as (s' & E & Ht & _); [apply Hs0|by apply serving_writable|intros [[x data] perm] Hf; by eapply bundle_name|].
  rewrite Hum, Hck in Ht. eexists _, s', (os_tree s0). split; [exact E|]. split; [|exact Ht].
  intros x. apply Ho0. apply snoc2_neq_snoc.
Qed.

(** ** A bundle the hook rejects *)

(** Two states of a node with the same files in which the same commands have
    been run. *)
Definition same_node (n n' : Node) : Prop := nd_os n' = nd_os n ∧ nd_ran n' = nd_ran n.

#[export] Instance same_node_preorder : PreOrder same_node.
Proof. split; [done|]. intros n1 n2 n3 [H1 H2] [H3 H4]. split; congruence. Qed.

Section Rejected.
Context {crypto : Crypto} {commands : Commands}.
(** A certs provider without certificates of its own, the place of its serving
    directory, and the records of the cluster. *)
Context (p : certsProvider) (R : region) (T : gmap (string * string) Record_).
Let sd := rg_dir R.

Definition wanted (r : Record_) : Prop := plain_key r ∧ T !! (CertsKind, Key r) = Some r.

(** The node has no backups, and each file of the cluster's records is absent
    or as in the record; [ran] are the commands that have been run. *)
Record joining (ran : list (list string * option error)) (n : Node) : Prop := {
  jn_inv : certs_inv p R [] n;
  jn_bak : ∀ key x, os_tree (nd_os n) !! ((sd ++ [key]) ++ [x +:+ BackupSuffix]) = None;
  jn_new : ∀ r x data perm, wanted r → (x, data, perm) ∈ bundleFiles (fromRecord r) → data ≠ [] →
    content (os_tree (nd_os n)) ((sd ++ [Key r]) ++ [x]) ∈ [None; Some data];
  jn_ran : nd_ran n = ran
}.

Lemma joining_same ran n n' : same_node n n' → joining ran n → joining ran n'.
Proof.
  intros [Hos Hran] [H1 H2 H3 H4]. split; [by apply (certs_inv_os p R [] n)|by rewrite Hos|by rewrite Hos|congruence].
Qed.

(** Writing files that are absent or the same leaves no backup. *)
Lemma joining_apply ran n r :
  joining ran n → wanted r → ∃ ch n', certs_Apply p r n = ((ch, None), n') ∧ joining ran n'
  ∧ certs_shows R n' r ∧ outside sd (Key r) (os_tree (nd_os n)) (os_tree (nd_os n')).
Proof.
  intros [Hi Hb Hn Hr] [Hk HT]. pose proof (ci_serving _ _ _ _ Hi) as Hs.
  destruct (certs_Apply_ok p R [] r n Hi Hk) as (ch & n' & E & Hi' & Hsh & Ho & _). exists ch, n'.
  split_and!; [done| |done|done].
  destruct (bundle_write_any (nd_os n) _ sd (Key r) (fromRecord r) Hs Hk) as (ch2 & s' & t0 & E2 & Ht0 & Ht).
  destruct (certs_Apply_run p r n ch2 s' E2) as (ms & E3 & _). rewrite E in E3. injection E3 as <- ->. cbn [nd_os nd_ran] in *.
  assert (∀ key' x, key' ≠ Key r → os_tree s' !! ((sd ++ [key']) ++ [x]) = os_tree (nd_os n) !! ((sd ++ [key']) ++ [x])) as Hother.
  { intros key' x Hne. apply Ho; [|apply snoc2_neq_snoc]. intros y [E' _]%app_inj_tail. by apply app_inj_tail in E' as [_ ?]. }
  assert (∀ f, f ∈ bundleFiles (fromRecord r) → dir_part (t0 !! ((sd ++ [Key r]) ++ [f.1.1])) = None) as Hfile.
  { intros [[x data] perm] Hf%bundle_name. rewrite Ht0. by apply (sv_names _ _ _ Hs). }
  pose proof (files_tree_contents (os_umask (nd_os n)) (os_clock (nd_os n)) (sd ++ [Key r]) false
    (bundleFiles (fromRecord r)) t0 ltac:(rewrite bundleFiles_names; apply bundleNames_ok) Hfile) as Hc. cbv zeta in Hc.
  rewrite <-Ht in Hc. split; [done| | |done].
  - intros key x. destruct (decide (key = Key r)) as [->|Hne]; [|cbn [nd_os]; by rewrite Hother].
    destruct (decide (x ∈ bundleNames)) as [Hx|Hx]; cbn [nd_os].
    + destruct (bundle_file (fromRecord r) x Hx) as (data & perm & Hf). destruct (Hc x data perm Hf) as [_ Hbc].
      assert (content (os_tree s') ((sd ++ [Key r]) ++ [x +:+ BackupSuffix]) = None) as Hnone.
      { rewrite Hbc. unfold content at 1 3. rewrite Ht0, Hb. case_bool_decide as Hd; [done|].
        unfold kept_bak, content. rewrite Ht0. fold (content (os_tree (nd_os n)) ((sd ++ [Key r]) ++ [x])).
        pose proof (Hn r x data perm ltac:(done) Hf Hd) as Hin. rewrite !elem_of_cons, elem_of_nil in Hin.
        destruct Hin as [->|[->|[]]]; [done|]. by rewrite bool_decide_true. }
      destruct (sv_names _ _ _ (ci_serving _ _ _ _ Hi') (Key r) x Hx) as [_ Hdp]. cbn [nd_os] in Hdp. fold sd in Hdp.
      revert Hnone Hdp. unfold content. by destruct (os_tree s' !! _) as [[]|].
    + rewrite Ht, files_tree_ne; [by rewrite Ht0|]. intros [[y data] perm] Hf%bundle_name. split; apply snoc_neq; simpl.
      * intros <-. apply bundleNames_no_bak in Hf. by rewrite HasSuffix_bak in Hf.
      * intros ->%str_app_inj_r. done.
  - intros r' x data perm [Hk' HT'] Hf Hd. destruct (decide (Key r' = Key r)) as [Ek|Hne]; cbn [nd_os].
    + assert (r' = r) as -> by congruence. destruct (Hc x data perm Hf) as [-> _]. rewrite bool_decide_false by done.
      right. left.
    + unfold content. rewrite Hother by done. by apply (Hn r' x data perm).
Qed.

(** The provider with a hook that does nothing: what the engine does up to the
    Flush is the same. *)
Definition hookless : Provider (M Node) :=
  {| p_Kind := CertsKind;
     p_Local := on_os (certs_Local p);
     p_Apply := certs_Apply p;
     p_Flush := mret None;
     p_Rollback keys := on_os (certs_Rollback p keys) |}.

#[local] Instance hookless_stable ran : StableProvider hookless [] (joining ran) (certs_shows R) wanted.
Proof.
  split.
  - intros n Hn. exists n. simpl. unfold on_os. rewrite (ci_local _ _ _ _ (jn_inv _ _ Hn)). split_and!; try done.
    by destruct n.
  - intros n r Hn Hr. destruct (joining_apply ran n r Hn Hr) as (ch & n' & E & Hn' & Hsh & Ho).
    exists ch, n'. split_and!; try done. intros r' _ Hne. by apply (holds_outside _ _ sd (Key r)).
  - intros n r Hn [Hk _] Hsh. simpl.
    pose proof (BundleWriteAtomic_again (nd_os n) _ sd (Key r) (fromRecord r) (ci_serving _ _ _ _ (jn_inv _ _ Hn)) Hk Hsh) as E.
    destruct (certs_Apply_run p r n false (nd_os n) E) as (ms & Ea & Hms). rewrite (Hms eq_refl), app_nil_r in Ea.
    rewrite Ea. by destruct n.
  - intros n Hn. by exists n.
Qed.
(** The engine, on a client of a reliable store. *)
Context {C : Type} {view : C → gmap (string * string) Record_} {inv : C → Prop} {kind_ok key_ok : string → Prop}.
Context (Hcerts : kind_ok CertsKind) (kv : ClusterKV (M C)) {Hkv : ReliableKV kv view inv kind_ok key_ok}.
Context (e : Engine (M (C * Node))) (Hcl : e_cl e = lift_kv kv)
  (Hnow : ∀ c n, ∃ t n', e_now e (c, n) = (t, (c, n')) ∧ same_node n n')
  (Hmetrics : ∀ emit, e_metrics e = Some emit → ∀ ev c n, ∃ u n', emit ev (c, n) = (u, (c, n')) ∧ same_node n n').

(** The verify command of the hook fails and leaves the files alone. *)
Definition rejects : Prop :=
  r_Verify (cp_runner p) ≠ []
  ∧ ∀ timeout s, ∃ er, exec_Command (r_Verify (cp_runner p)) timeout s = (Some er, s).

Lemma shows_same n n' r : same_node n n' → certs_shows R n r → certs_shows R n' r.
Proof. intros [Hos _]. unfold certs_shows. by rewrite Hos. Qed.

Lemma quiet_same ran {A} (cmd : M (C * Node) A) :
  (∀ c n, ∃ x n', cmd (c, n) = (x, (c, n')) ∧ same_node n n') →
  quiet (pinv := joining ran) (shows := certs_shows R) cmd.
Proof.
  intros H c n Hn. destruct (H c n) as (x & n' & E & Hs). exists x, n'.
  split_and!; [done|by apply (joining_same ran n)|]. intros r. by apply shows_same.
Qed.

(** A Flush that is rejected and the Rollback after it. *)
Lemma rejected_flush ran c n changed :
  rejects → joining ran n → (∀ k, k ∈ changed → ∃ r, Key r = k ∧ plain_key r ∧ certs_shows R n r) → changed ≠ [] →
  ∃ er n', flushChanged e (lift_provider (certs_provider p)) CertsKind changed (c, n) = (tt, (c, n'))
    ∧ nd_os n' = nd_os n ∧ nd_ran n' = ran ++ [(r_Verify (cp_runner p), Some er)].
Proof.
  intros [Hne Hrej] Hn Hch Hchanged.
  assert (∃ er er' n1, runner_Run (cp_runner p) n = (Some er', n1) ∧ nd_os n1 = nd_os n
    ∧ nd_ran n1 = ran ++ [(r_Verify (cp_runner p), Some er)]) as (er & er' & n1 & Er & Hos1 & Hran1).
  { unfold runner_Run, runner_exec, bump, emit_metric. unfold_M.
    destruct (Hrej (if r_Timeout (cp_runner p) <=? 0 then 30 * second else r_Timeout (cp_runner p)) (nd_os n)) as [er E].
    destruct (r_Verify (cp_runner p)) as [|v vs]; [done|]. rewrite E. rewrite <-(jn_ran _ _ Hn).
    destruct (r_Metrics (cp_runner p)); exists er; eexists _, _; (split; [reflexivity|]); by split. }
  assert (certs_Rollback p changed (nd_os n) = (None, nd_os n)) as Eb.
  { unfold certs_Rollback. clear Hchanged. induction changed as [|k ks IH]; [done|]. rewrite foldM_cons. unfold firstErr at 1.
    destruct (Hch k ltac:(left)) as (r & <- & Hk & He & _). pose proof (ci_serving _ _ _ _ (jn_inv _ _ Hn)) as Hs.
    assert (Rollback (Join [cp_servingDir p; Key r]) (nd_os n) = (None, nd_os n)) as E0.
    { apply (RestoreDir_none _ _ (sd ++ [Key r])); [apply Hs|eapply abs_dir_child; [apply Hs|exact Hk|exact He]|].
      apply (jn_bak _ _ Hn). }
    rewrite (bind_run _ _ _ _ _ E0). apply IH. intros k Hin. apply Hch. by right. }
  assert (∃ n2, flushChanged e (lift_provider (certs_provider p)) CertsKind changed (c, n) = (tt, (c, n2)) ∧ same_node n1 n2)
    as (n2 & E & Hos2 & Hran2).
  { unfold flushChanged. destruct changed as [|k ks]; [done|].
    assert (p_Flush (lift_provider (certs_provider p)) (c, n) = (Some er', (c, n1))) as Ef
      by (unfold lift_provider, lift_snd; simpl; by rewrite Er).
    run_bind Ef.
    assert (p_Rollback (lift_provider (certs_provider p)) (k :: ks) (c, n1) = (None, (c, n1))) as Erb.
    { change (lift_snd (on_os (certs_Rollback p (k :: ks))) (c, n1) = (None, (c, n1))).
      rewrite <-Hos1 in Eb. unfold lift_snd, on_os. cbn [fst snd]. rewrite Eb. by destruct n1. }
    run_bind Erb. unfold with_metrics. destruct (e_metrics e) as [emit|] eqn:Em; [|by exists n1].
    destruct (Hmetrics emit eq_refl (mkEvent RollbackTotal [CertsKind] Inc) c n1) as ([] & n2 & E2 & H2). by exists n2. }
  exists er, n2. split; [exact E|]. split; congruence.
Qed.

Abbreviation join_good ran := (good (view := view) (inv := inv) (p := hookless) (pinv := joining ran) (rec_ok := wanted)).
Abbreviation join_settled := (settled (view := view) (p := hookless) (L := []) (shows := certs_shows R)).

Lemma no_locals r : r ∈ ([] : list Record_) → Kind r = p_Kind hookless ∧ key_ok (Key r) ∧ wanted r.
Proof. by intros ?%elem_of_nil. Qed.

Lemma join_calm ran : calm_parts (p := hookless) (pinv := joining ran) e same_node.
Proof.
  split_and!; [intros c n _; apply Hnow|intros emit Hemit ev c n _; by apply Hmetrics|].
  intros n1 x n2 Hn El. simpl in El. unfold on_os in El. rewrite (ci_local _ _ _ _ (jn_inv _ _ Hn)) in El.
  simplify_eq. by destruct n1.
Qed.

(** What follows the Flush at the end of a tick. *)
Lemma duration_same ran t c n : joining ran n → ∃ n',
  with_metrics e (λ emit, t' ← e_now e; emit (mkEvent ReconcileDur [CertsKind] (Observe (t' - t)))) (c, n)
    = (tt, (c, n')) ∧ same_node n n'.
Proof.
  intros Hn. destruct (duration_calm (p := hookless) (pinv := joining ran) (shows := certs_shows R) e
    (quiet_same ran _ Hnow) (λ emit Hemit ev, quiet_same ran _ (Hmetrics emit Hemit ev)) same_node t c n (join_calm ran) Hn)
    as (n' & E & Hs & _). by exists n'.
Qed.

(** Ticks of a node that serves every record run no command. *)
Lemma settled_no_hook ran ranges c n :
  Forall range_ok ranges → join_good ran c n → join_settled c n → ∃ c' n',
  foldM (λ _ range, tickProvider range e (lift_provider (certs_provider p))) tt ranges (c, n) = (tt, (c', n'))
  ∧ same_node n n'.
Proof.
  revert c n. induction ranges as [|range ranges IH]; intros c n Hr Hg Hset; [by exists c, n|].
  apply Forall_cons in Hr as [Hrange Hr]. rewrite foldM_cons.
  destruct (until_flush_settled (p := hookless) (pinv := joining ran) (shows := certs_shows R) (rec_ok := wanted) e Hcl Hcerts
    (quiet_same ran _ Hnow) no_locals same_node range c n (join_calm ran) Hrange Hg Hset) as (t & c1 & n1 & E & Hv & Hi & Hs1 & Hk1).
  destruct (duration_same ran t c1 n1 (proj1 Hk1)) as (n2 & E2 & Hs2).
  assert (tickProvider range e (lift_provider (certs_provider p)) (c, n) = (tt, (c1, n2))) as ->.
  { rewrite tickProvider_until. change (until_flush (p := certs_provider p)) with (until_flush (C := C) (p := hookless)).
    rewrite E. exact E2. }
  assert (same_node n n2) as Hs by (by transitivity n1). destruct Hg as (_ & Hn & Hok).
  destruct (IH c1 n2 Hr) as (c3 & n3 & E3 & Hs3).
  - split_and!; [done|by apply (joining_same ran n)|by rewrite Hv].
  - intros k. rewrite Hv. destruct (Hset k) as [H1 H2]. split; [done|]. intros r Hrr. by apply (shows_same n), H2.
  - exists c3, n3. split; [done|]. by transitivity n2.
Qed.

Lemma rejected_ticks range ranges c n :
  rejects → inv c → joining (nd_ran n) n → (∀ k r, view c !! (CertsKind, k) = Some r → wanted r) →
  range_ok range → Forall range_ok ranges → ∃ start changed c1 n1 er n2 c3 n3,
  until_flush (p := certs_provider p) e range (c, n) = ((start, changed), (c1, n1))
  ∧ tickProvider range e (lift_provider (certs_provider p)) (c, n) = (tt, (c1, n2))
  ∧ nd_ran n2 = nd_ran n ++ match changed with [] => [] | _ => [(r_Verify (cp_runner p), Some er)] end
  ∧ (∀ k r, view c !! (CertsKind, k) = Some r → certs_shows R n2 r)
  ∧ foldM (λ _ range, tickProvider range e (lift_provider (certs_provider p))) tt ranges (c1, n2) = (tt, (c3, n3))
  ∧ same_node n2 n3.
Proof.
  intros Hrej Hc Hn Hok Hrange Hranges. set (ran := nd_ran n) in *.
  destruct (until_flush_spec (p := hookless) (pinv := joining ran) (shows := certs_shows R) (rec_ok := wanted) e Hcl Hcerts
    (quiet_same ran _ Hnow) (λ emit Hemit ev, quiet_same ran _ (Hmetrics emit Hemit ev)) no_locals range c n Hrange)
    as (start & changed & c1 & n1 & E & Hg1 & Hset & Hview & _ & Hch); [by split_and!|].
  pose proof Hg1 as (Hc1 & Hn1 & Hok1).
  assert (∃ er n2, (_ ← flushChanged e (lift_provider (certs_provider p)) CertsKind changed;
      with_metrics e (λ emit, t ← e_now e; emit (mkEvent ReconcileDur [CertsKind] (Observe (t - start))))) (c1, n1)
      = (tt, (c1, n2)) ∧ nd_os n2 = nd_os n1
      ∧ nd_ran n2 = ran ++ match changed with [] => [] | _ => [(r_Verify (cp_runner p), Some er)] end)
    as (er & n2 & E2 & Hos2 & Hran2).
  { destruct (decide (changed = [])) as [->|Hne].
    - destruct (duration_same ran start c1 n1 Hn1) as (n2 & E2 & Hos & Hran). exists (Errors ""), n2.
      split; [exact E2|]. split; [done|]. rewrite app_nil_r, Hran. apply (jn_ran _ _ Hn1).
    - destruct (rejected_flush ran c1 n1 changed Hrej Hn1) as (er & n2 & E2 & Hos2 & Hran2); [|done|].
      { intros k' Hk'. destruct (Hch k' Hk') as [r Hr]. exists r. destruct (kv_view_wf c1 CertsKind k' r Hc1 Hr) as (_ & Hkey & _).
        split_and!; [done|by apply (Hok1 k')|by apply (Hset k')]. }
      run_bind E2. assert (joining (nd_ran n2) n2) as Hn2.
      { destruct Hn1 as [H1 H2 H3 H4]. split; [by apply (certs_inv_os p R [] n1)|by rewrite Hos2|by rewrite Hos2|done]. }
      destruct (duration_same (nd_ran n2) start c1 n2 Hn2) as (n3 & E3 & Hos3 & Hran3). exists er, n3.
      split; [exact E3|]. split; [congruence|].
      rewrite Hran3, Hran2. by destruct changed. }
  assert (∀ k, view c1 !! (CertsKind, k) = view c !! (CertsKind, k)) as Hv by (intros k; apply Hview).
  assert (∀ r, certs_shows R n1 r → certs_shows R n2 r) as Hsh by (intros r; unfold certs_shows; by rewrite Hos2).
  destruct (settled_no_hook (nd_ran n2) ranges c1 n2 Hranges) as (c3 & n3 & E3 & Hs3).
  - split_and!; [done| |exact Hok1]. destruct Hn1 as [H1 H2 H3 H4].
    split; [by apply (certs_inv_os p R [] n1)|by rewrite Hos2|by rewrite Hos2|done].
  - intros k. destruct (Hset k) as [H1 H2]. split; [done|]. intros r Hr. by apply Hsh, H2.
  - exists start, changed, c1, n1, er, n2, c3, n3. split_and!; [exact E| |exact Hran2| |exact E3|exact Hs3].
    + rewrite tickProvider_until. change (until_flush (p := certs_provider p)) with (until_flush (C := C) (p := hookless)).
      rewrite E. exact E2.
    + intros k r Hr. apply Hsh. apply (Hset k). by rewrite Hv.
Qed.
End Rejected.

(** (C38) A rollback does not remove what the tick created, and the hook is not
    run again. Take a node with the certs module and no certificates of its
    own, on any cluster that works, without backups, on which every file of the
    cluster's records is absent or as in the record (a new node, for example),
    and a verify command that fails. The tick writes the files and runs the
    verify command if that changed anything; the command fails and the engine
    rolls back. Still, after the tick all records of the cluster are served,
    the rejected ones too, and however often the node ticks afterwards it
    writes nothing and runs no command. *)
Theorem rollback_keeps_new_files {crypto : Crypto} {commands : Commands} (p : certsProvider) (R : region)
    {C} {view : C → gmap (string * string) Record_} {inv : C → Prop} {kind_ok key_ok : string → Prop}
    (kv : ClusterKV (M C)) {Hkv : ReliableKV kv view inv kind_ok key_ok} (e : Engine (M (C * Node))) range ranges c n :
  kind_ok CertsKind → e_cl e = lift_kv kv →
  (∀ c n, ∃ t n', e_now e (c, n) = (t, (c, n')) ∧ same_node n n') →
  (∀ emit, e_metrics e = Some emit → ∀ ev c n, ∃ u n', emit ev (c, n) = (u, (c, n')) ∧ same_node n n') →
  rejects p → inv c → joining p R (view c) (nd_ran n) n →
  (∀ k r, view c !! (CertsKind, k) = Some r → plain_key r) → range_ok range → Forall range_ok ranges →
  ∃ start changed c1 n1 er n2 c3 n3,
  until_flush (p := certs_provider p) e range (c, n) = ((start, changed), (c1, n1))
  ∧ tickProvider range e (lift_provider (certs_provider p)) (c, n) = (tt, (c1, n2))
  ∧ nd_ran n2 = nd_ran n ++ match changed with [] => [] | _ => [(r_Verify (cp_runner p), Some er)] end
  ∧ (∀ k r, view c !! (CertsKind, k) = Some r → certs_shows R n2 r)
  ∧ foldM (λ _ range, tickProvider range e (lift_provider (certs_provider p))) tt ranges (c1, n2) = (tt, (c3, n3))
  ∧ same_node n2 n3.
Proof.
  intros Hcerts Hcl Hnow Hmetrics Hrej Hc Hn Hok Hrange Hranges.
  apply (rejected_ticks p R (view c) Hcerts kv e Hcl Hnow Hmetrics); try done.
  intros k r Hr. split; [by apply (Hok k)|]. by destruct (kv_view_wf c CertsKind k r Hc Hr) as (_ & -> & _).
Qed.
