(* ===== verification/Gobcodec.v ===== *)
(** internal/gobcodec/gobcodec.go: encoding and decoding through
    [encoding/gob], which is a parameter of the model. *)

From S2P Require Import Prelude GoStrings Version GoPath FileSystem.

(** [gob.Encoder.Encode] and [gob.Decoder.Decode] at the two types the sources
    use: records and lists of strings. *)
Class Gob := {
  gob_enc_record : Record_ → result bytes;
  gob_dec_record : bytes → result Record_;
  gob_enc_strings : list string → result bytes;
  gob_dec_strings : bytes → result (list string)
}.

(** What the package documents: values of these types can be encoded, and
    decoding gives the value back. *)
Class GobLaws `{!Gob} := {
  gob_record_law r : ∃ raw, gob_enc_record r = Ok raw ∧ gob_dec_record raw = Ok r;
  gob_strings_law l : ∃ raw, gob_enc_strings l = Ok raw ∧ gob_dec_strings raw = Ok l
}.

(** gobcodec.Encode *)
Definition Encode {A} (enc : A → result bytes) (v : A) : result bytes :=
  match enc v with
  | Err e => Err (Errorf "gob encode" e)
  | Ok raw => Ok raw
  end.

(** gobcodec.Decode *)
Definition Decode {A} (dec : bytes → result A) (raw : bytes) : result A :=
  match dec raw with
  | Err e => Err (Errorf "gob decode" e)
  | Ok v => Ok v
  end.

Section Codec.
Context `{!Gob}.

(** encodeRecord, decodeRecord, encodeStrings and decodeStrings of the two
    backends. *)
Definition encodeRecord : Record_ → result bytes := Encode gob_enc_record.
Definition decodeRecord : bytes → result Record_ := Decode gob_dec_record.
Definition encodeStrings : list string → result bytes := Encode gob_enc_strings.
Definition decodeStrings : bytes → result (list string) := Decode gob_dec_strings.

Lemma encodeRecord_ok `{!GobLaws} r : ∃ raw, encodeRecord r = Ok raw ∧ decodeRecord raw = Ok r.
Proof.
  destruct (gob_record_law r) as (raw & E & D). exists raw.
  unfold encodeRecord, decodeRecord, Encode, Decode. by rewrite E, D.
Qed.

Lemma encodeStrings_ok `{!GobLaws} l : ∃ raw, encodeStrings l = Ok raw ∧ decodeStrings raw = Ok l.
Proof.
  destruct (gob_strings_law l) as (raw & E & D). exists raw.
  unfold encodeStrings, decodeStrings, Encode, Decode. by rewrite E, D.
Qed.
End Codec.

(** ** A codec that satisfies the laws

    The fields in a fixed order, each coded through [Countable]; the positive
    number is written in base two, one digit per byte. It serves to show that
    the laws can hold and to run the models on concrete records. *)

Fixpoint bits_of (p : positive) : bytes :=
  match p with
  | xH => []
  | xO p' => Byte.x00 :: bits_of p'
  | xI p' => Byte.x01 :: bits_of p'
  end.

Fixpoint of_bits (l : bytes) : positive :=
  match l with
  | [] => xH
  | b :: l' => if Byte.eqb b Byte.x00 then xO (of_bits l') else xI (of_bits l')
  end.

Lemma of_bits_of p : of_bits (bits_of p) = p.
Proof. induction p as [p IH|p IH|]; simpl; by rewrite ?IH. Qed.

#[export] Instance byte_countable : Countable Byte.byte.
Proof.
  refine (inj_countable Byte.to_N (λ n, Byte.of_N n) _). intros b. apply Byte.of_to_N.
Defined.

#[export] Instance Version_countable : Countable Version.
Proof.
  refine (inj_countable' (λ v, (Primary v, Secondary v, Tiebreak v))
    (λ '(a, b, c), mkVersion a b c) _). by intros [].
Defined.

#[export] Instance Record_countable : Countable Record_.
Proof.
  refine (inj_countable' (λ r, (Kind r, Key r, version r, map_to_list (Blobs r), map_to_list (Meta r), Source r))
    (λ '(a, b, c, d, e, f), mkRecord a b c (list_to_map d) (list_to_map e) f) _).
  intros []. simpl. by rewrite !list_to_map_to_list.
Defined.

Definition bits_gob : Gob := {|
  gob_enc_record r := Ok (bits_of (encode r));
  gob_dec_record raw :=
    match decode (of_bits raw) with Some r => Ok r | None => Err (Errors "bad record") end;
  gob_enc_strings l := Ok (bits_of (encode l));
  gob_dec_strings raw :=
    match decode (of_bits raw) with Some l => Ok l | None => Err (Errors "bad list") end
|}.

Lemma bits_gob_laws : @GobLaws bits_gob.
Proof.
  split.
  - intros r. exists (bits_of (encode r)). simpl. by rewrite of_bits_of, decode_encode.
  - intros l. exists (bits_of (encode l)). simpl. by rewrite of_bits_of, decode_encode.
Qed.
