(* ===== verification/Cluster.v ===== *)
(** internal/cluster/cluster.go: the facade over an embedded Olric member.

    Olric is a library of its own: its client is the record [Olric] of
    operations the facade calls. Like the engine, the facade is written over
    any monad. *)

From S2P Require Import Prelude GoStrings Version Metrics Engine EngineSpec.
From S2P Require Import GoPath FileSystem Gobcodec.

Open Scope Z_scope.

Definition indexKey : string := "__lbsync_index__".
Definition indexLockKey : string := "__lbsync_index_lock__".
Definition lockPrefix : string := "__lbsync_lock__:".

(** The name of [olric.ErrKeyNotFound]. *)
Definition ErrKeyNotFound : string := "olric.ErrKeyNotFound".

(** ** Configuration *)

(** cluster.Config *)
Record ClusterConfig := mkClusterConfig {
  cc_Env : string;
  cc_BindAddr : string;
  cc_BindPort : Z;
  cc_MemberlistPort : Z;
  cc_AdvertiseAddr : string;
  cc_Peers : list string;
  cc_Password : string;
  cc_GossipKey : bytes;
  cc_ReplicaCount : Z
}.

(** The fields of Olric's configuration that NewCluster sets; [oc_ml] marks
    those of the memberlist configuration in it. *)
Record OlricConfig := mkOlricConfig {
  oc_BindAddr : string;
  oc_BindPort : Z;
  oc_ml_BindAddr : string;
  oc_ml_BindPort : Z;
  oc_ml_AdvertisePort : Z;
  oc_ml_AdvertiseAddr : string;
  oc_Peers : list string;
  oc_Authentication : option string;
  oc_SecretKey : bytes;
  oc_ReplicaCount : Z;
  oc_ReadQuorum : Z;
  oc_WriteQuorum : Z
}.

(** The first part of NewCluster; [config_New] is Olric's [config.New]. *)
Definition olricConfig (config_New : string → OlricConfig) (cfg : ClusterConfig) : OlricConfig :=
  let c := config_New (if String.eqb (cc_Env cfg) "" then "lan" else cc_Env cfg) in
  let replicas := 0 <? cc_ReplicaCount cfg in
  {| oc_BindAddr := cc_BindAddr cfg;
     oc_BindPort := cc_BindPort cfg;
     oc_ml_BindAddr := cc_BindAddr cfg;
     oc_ml_BindPort := cc_MemberlistPort cfg;
     oc_ml_AdvertisePort := cc_MemberlistPort cfg;
     oc_ml_AdvertiseAddr :=
       if negb (String.eqb (cc_AdvertiseAddr cfg) "") then cc_AdvertiseAddr cfg else oc_ml_AdvertiseAddr c;
     oc_Peers := cc_Peers cfg;
     oc_Authentication :=
       if negb (String.eqb (cc_Password cfg) "") then Some (cc_Password cfg) else oc_Authentication c;
     oc_SecretKey := match cc_GossipKey cfg with [] => oc_SecretKey c | key => key end;
     oc_ReplicaCount := if replicas then cc_ReplicaCount cfg else oc_ReplicaCount c;
     oc_ReadQuorum := if replicas then 1 else oc_ReadQuorum c;
     oc_WriteQuorum := if replicas then 1 else oc_WriteQuorum c |}.

(** What the [select] of NewCluster can receive while the member starts. *)
Inductive start_event := EvStarted | EvStartErr (e : error) | EvCtxDone (e : error).

(** The second part of NewCluster: [created] is the result of [olric.New], [ev]
    the first event after it. The second component says whether the member is
    shut down again. *)
Definition startMember {DB} (created : result DB) (ev : start_event) : result DB * bool :=
  match created with
  | Err e => (Err (Errorf "olric.New" e), false)
  | Ok db =>
      match ev with
      | EvStarted => (Ok db, false)
      | EvStartErr e => (Err (Errorf "olric.Start" e), false)
      | EvCtxDone e => (Err e, true)
      end
  end.

(** ** The client *)

(** What a response of Olric's Get holds: its [Byte] method can fail. *)
Abbreviation response := (result bytes).

Section Cluster.
Context {m : Type → Type} `{!MRet m, !MBind m}.

(** The Olric client, with the facade's cache of DMap handles. A handle is the
    name of its DMap; a lock is identified by a token. *)
Record Olric := {
  ol_cached : string → m (option string);
  ol_cache : string → string → m unit;
  ol_NewDMap : string → m (result string);
  ol_Get : string → string → m (result response);
  ol_Put : string → string → bytes → m (option error);
  ol_LockWithTimeout : string → string → Z → Z → m (result nat);
  ol_Unlock : string → string → nat → m (option error);
  ol_Members : m (result (list string))
}.

Context `{!Gob} (ol : Olric).

(** Cluster.dmap; the two accesses to the cache are under one mutex. *)
Definition dmap (kind : string) : m (result string) :=
  cached ← ol_cached ol kind;
  match cached with
  | Some dm => mret (Ok dm)
  | None =>
      dm ← ol_NewDMap ol kind;
      match dm with
      | Err e => mret (Err (Errorf ("new dmap " +:+ kind) e))
      | Ok dm => _ ← ol_cache ol kind dm; mret (Ok dm)
      end
  end.

(** Cluster.Get *)
Definition cluster_Get (kind key : string) : m (option Record_ * bool * option error) :=
  dm ← dmap kind;
  match dm with
  | Err e => mret (None, false, Some e)
  | Ok dm =>
      resp ← ol_Get ol dm key;
      match resp with
      | Err e =>
          if errors_Is e ErrKeyNotFound then mret (None, false, None)
          else mret (None, false, Some (Errorf ("get " +:+ kind +:+ "/" +:+ key) e))
      | Ok (Err e) => mret (None, false, Some (Errorf ("decode get " +:+ kind +:+ "/" +:+ key) e))
      | Ok (Ok raw) =>
          match decodeRecord raw with
          | Err e => mret (None, false, Some e)
          | Ok rec => mret (Some rec, true, None)
          end
      end
  end.

(** Cluster.readIndex *)
Definition readIndex (dm : string) : m (result (list string)) :=
  resp ← ol_Get ol dm indexKey;
  mret (match resp with
        | Err e => if errors_Is e ErrKeyNotFound then Ok [] else Err (Errorf "read index" e)
        | Ok (Err e) => Err (Errorf "decode index" e)
        | Ok (Ok raw) => decodeStrings raw
        end).

(** The body of Cluster.addToIndex between the lock and its deferred release. *)
Definition updateIndex (dm key : string) : m (option error) :=
  keys ← readIndex dm;
  match keys with
  | Err e => mret (Some e)
  | Ok keys =>
      if decide (key ∈ keys) then mret None
      else match encodeStrings (keys ++ [key]) with
           | Err e => mret (Some e)
           | Ok raw =>
               err ← ol_Put ol dm indexKey raw;
               mret (Errorf "put index" <$> err)
           end
  end.

(** Cluster.addToIndex *)
Definition addToIndex (dm key : string) : m (option error) :=
  lc ← ol_LockWithTimeout ol dm indexLockKey (10 * second) (5 * second);
  err ← updateIndex dm key;
  match lc with
  | Ok token => _ ← ol_Unlock ol dm indexLockKey token; mret err
  | Err _ => mret err
  end.

(** Cluster.Put *)
Definition cluster_Put (r : Record_) : m (option error) :=
  dm ← dmap (Kind r);
  match dm with
  | Err e => mret (Some e)
  | Ok dm =>
      match encodeRecord r with
      | Err e => mret (Some e)
      | Ok raw =>
          err ← ol_Put ol dm (Key r) raw;
          match err with
          | Some e => mret (Some (Errorf ("put " +:+ Kind r +:+ "/" +:+ Key r) e))
          | None => addToIndex dm (Key r)
          end
      end
  end.

(** Cluster.Keys *)
Definition cluster_Keys (kind : string) : m (list string * option error) :=
  dm ← dmap kind;
  match dm with
  | Err e => mret ([], Some e)
  | Ok dm =>
      keys ← readIndex dm;
      mret (match keys with Ok keys => (keys, None) | Err e => ([], Some e) end)
  end.

(** Cluster.Lock *)
Definition cluster_Lock (kind key : string) (ttl : Z) : m (option (m unit) * option error) :=
  dm ← dmap kind;
  match dm with
  | Err e => mret (None, Some e)
  | Ok dm =>
      lc ← ol_LockWithTimeout ol dm (lockPrefix +:+ key) ttl ttl;
      match lc with
      | Err e => mret (None, Some (Errorf ("lock " +:+ kind +:+ "/" +:+ key) e))
      | Ok token =>
          mret (Some (_ ← ol_Unlock ol dm (lockPrefix +:+ key) token; mret tt), None)
      end
  end.

(** Cluster.Members *)
Definition cluster_Members : m Z :=
  members ← ol_Members ol;
  mret (match members with Ok l => Z.of_nat (length l) | Err _ => 0 end).

(** The facade as the engine's ClusterKV. *)
Definition cluster_kv : ClusterKV m :=
  {| kv_Get := cluster_Get;
     kv_Put := cluster_Put;
     kv_Keys := cluster_Keys;
     kv_Lock := cluster_Lock;
     kv_Members := cluster_Members |}.
End Cluster.

Arguments Olric : clear implicits.

(** ** The facade is a reliable store *)

(** What Olric documents of a reachable cluster: [raw] is the contents of its
    DMaps. A lock is stored as an entry of its own key, and neither taking nor
    releasing one touches another entry; whether a lock is granted is left
    open. The cache of handles holds a DMap under its own name. *)
Class OlricLaws {C} (ol : Olric (M C)) (raw : C → gmap (string * string) bytes)
    (oinv : C → Prop) := {
  ol_cached_law c kind : oinv c → ∃ o c', ol_cached ol kind c = (o, c')
    ∧ (o = None ∨ o = Some kind) ∧ raw c' = raw c ∧ oinv c';
  ol_cache_law c kind : oinv c → ∃ c', ol_cache ol kind kind c = (tt, c') ∧ raw c' = raw c ∧ oinv c';
  ol_NewDMap_law c kind : oinv c → ∃ c',
    ol_NewDMap ol kind c = (Ok kind, c') ∧ raw c' = raw c ∧ oinv c';
  ol_Get_law c dm key : oinv c → ∃ c',
    ol_Get ol dm key c
      = (match raw c !! (dm, key) with
         | Some b => Ok (Ok b) | None => Err (Sentinel ErrKeyNotFound) end, c')
    ∧ raw c' = raw c ∧ oinv c';
  ol_Put_law c dm key b : oinv c → ∃ c',
    ol_Put ol dm key b c = (None, c') ∧ raw c' = <[(dm, key) := b]> (raw c) ∧ oinv c';
  ol_Lock_law c dm key t1 t2 : oinv c → ∃ res c',
    ol_LockWithTimeout ol dm key t1 t2 c = (res, c') ∧ oinv c'
    ∧ ∀ kk, kk ≠ (dm, key) → raw c' !! kk = raw c !! kk;
  ol_Unlock_law c dm key token : oinv c → ∃ res c',
    ol_Unlock ol dm key token c = (res, c') ∧ oinv c'
    ∧ ∀ kk, kk ≠ (dm, key) → raw c' !! kk = raw c !! kk;
  ol_Members_law c : oinv c → ∃ res c', ol_Members ol c = (res, c') ∧ raw c' = raw c ∧ oinv c'
}.

(** The keys that do not collide with the reserved ones. *)
Definition key_ok (key : string) : Prop :=
  key ≠ indexKey ∧ key ≠ indexLockKey ∧ String.prefix lockPrefix key = false.

#[export] Instance key_ok_dec key : Decision (key_ok key).
Proof. unfold key_ok. apply _. Defined.

Lemma prefix_app p s : String.prefix p (p +:+ s) = true.
Proof.
  induction p as [|a p IH]; [by destruct s|].
  change (String a p +:+ s) with (String a (p +:+ s)). simpl. by destruct (ascii_dec a a).
Qed.

Lemma key_ok_not_lock key key' : key_ok key → key ≠ lockPrefix +:+ key'.
Proof. intros (_ & _ & H) ->. by rewrite prefix_app in H. Qed.

Section Reliable.
Context {C : Type} {gob : Gob} {gob_laws : GobLaws} {ol : Olric (M C)}
  {raw : C → gmap (string * string) bytes} {oinv : C → Prop} {ol_laws : OlricLaws ol raw oinv}.
Implicit Types c : C.

(** The list stored as the index of a kind. *)
Definition index_of (t : gmap (string * string) bytes) (kind : string) : result (list string) :=
  match t !! (kind, indexKey) with None => Ok [] | Some b => decodeStrings b end.

(** The record stored under a data key. *)
Definition record_of (kk : string * string) (b : bytes) : option Record_ :=
  if decide (key_ok kk.2)
  then match decodeRecord b with Ok r => Some r | Err _ => None end
  else None.

Definition cluster_view c : gmap (string * string) Record_ := map_imap record_of (raw c).

(** Every data entry is a record under its own name, and the index of a kind
    lists exactly its data keys. *)
Definition raw_ok (t : gmap (string * string) bytes) : Prop :=
  (∀ kind key b, key_ok key → t !! (kind, key) = Some b →
     ∃ r, decodeRecord b = Ok r ∧ Kind r = kind ∧ Key r = key)
  ∧ ∀ kind, ∃ ks, index_of t kind = Ok ks
     ∧ ∀ k, k ∈ ks ↔ key_ok k ∧ is_Some (t !! (kind, k)).

Definition cluster_inv c : Prop := oinv c ∧ raw_ok (raw c).

Lemma cluster_view_lookup c kind key :
  cluster_view c !! (kind, key) = raw c !! (kind, key) ≫= record_of (kind, key).
Proof. unfold cluster_view. by rewrite map_lookup_imap. Qed.

(** Entries at reserved lock keys do not matter. *)
Definition same_data (t t' : gmap (string * string) bytes) : Prop :=
  ∀ kind k, key_ok k ∨ k = indexKey → t' !! (kind, k) = t !! (kind, k).

Lemma same_data_ok t t' : same_data t t' → raw_ok t → raw_ok t'.
Proof.
  intros Hs [H1 H2]. split.
  - intros kind key b Hk. rewrite Hs by auto. by apply H1.
  - intros kind. destruct (H2 kind) as (ks & Hks & Hin). exists ks. unfold index_of in *.
    rewrite Hs by auto. split; [done|]. intros k. rewrite Hin.
    split; intros [Hk Hx]; (split; [done|]); by rewrite Hs in * by auto.
Qed.

Lemma same_data_view c c' : same_data (raw c) (raw c') → cluster_view c' = cluster_view c.
Proof.
  intros Hs. apply map_eq. intros [kind k]. rewrite !cluster_view_lookup.
  destruct (decide (key_ok k)) as [Hk|Hk].
  - by rewrite Hs by auto.
  - unfold record_of. simpl. destruct (raw c !! _), (raw c' !! _); simpl; by rewrite ?decide_False.
Qed.

Lemma same_data_frame t t' dm key :
  (∀ kk, kk ≠ (dm, key) → t' !! kk = t !! kk) → ¬ key_ok key → key ≠ indexKey → same_data t t'.
Proof. intros Hf Hk Hi kind k Hor. apply Hf. intros [= -> ->]. naive_solver. Qed.

Lemma dmap_run c kind : oinv c → ∃ c', dmap ol kind c = (Ok kind, c') ∧ raw c' = raw c ∧ oinv c'.
Proof.
  intros Hc. unfold dmap. unfold_M.
  destruct (ol_cached_law c kind Hc) as (o & c1 & -> & Ho & H1 & Hc1).
  destruct Ho as [->| ->]; [|by exists c1].
  destruct (ol_NewDMap_law c1 kind Hc1) as (c2 & -> & H2 & Hc2).
  destruct (ol_cache_law c2 kind Hc2) as (c3 & -> & H3 & Hc3).
  exists c3. split_and!; [done|congruence|done].
Qed.

Lemma cluster_Get_run c kind key : cluster_inv c → key_ok key → ∃ c',
  cluster_Get ol kind key c
    = (cluster_view c !! (kind, key), bool_decide (is_Some (cluster_view c !! (kind, key))), None, c')
  ∧ raw c' = raw c ∧ oinv c'.
Proof.
  intros [Hc [Hdata _]] Hk. unfold cluster_Get.
  destruct (dmap_run c kind Hc) as (c1 & E1 & H1 & Hc1). run_bind E1.
  destruct (ol_Get_law c1 kind key Hc1) as (c2 & E2 & H2 & Hc2). run_bind E2.
  exists c2. rewrite cluster_view_lookup, H2, H1.
  destruct (raw c !! (kind, key)) as [b|] eqn:E; [|done]. simpl. unfold record_of. simpl.
  rewrite decide_True by done. destruct (Hdata _ _ _ Hk E) as (r & -> & _). done.
Qed.

Lemma readIndex_run c kind : cluster_inv c → ∃ ks c',
  readIndex ol kind c = (Ok ks, c') ∧ raw c' = raw c ∧ oinv c'
  ∧ index_of (raw c) kind = Ok ks.
Proof.
  intros [Hc [_ Hidx]]. destruct (Hidx kind) as (ks & Hks & _). unfold readIndex. unfold_M.
  destruct (ol_Get_law c kind indexKey Hc) as (c1 & -> & H1 & Hc1). exists ks, c1.
  split_and!; try done. unfold index_of in Hks. by destruct (raw c !! (kind, indexKey)); rewrite ?Hks.
Qed.
(** The entries after a Put and its index update. *)
Lemma raw_ok_put t t' kind key b r ks :
  raw_ok t → key_ok key → decodeRecord b = Ok r → Kind r = kind → Key r = key →
  index_of t kind = Ok ks →
  (∀ kd k, key_ok k → t' !! (kd, k) = <[(kind, key) := b]> t !! (kd, k)) →
  (∀ kd, kd ≠ kind → index_of t' kd = index_of t kd) →
  index_of t' kind = Ok (if decide (key ∈ ks) then ks else ks ++ [key]) → raw_ok t'.
Proof.
  intros [Hdata Hidx] Hk Hb Hkind Hkey Hks Hd Ho Hi. split.
  - intros kind' key' b' Hk'. rewrite Hd by done.
    rewrite lookup_insert_Some. intros [[[= <- <-] <-]|[_ H]]; eauto.
  - intros kind'. destruct (Hidx kind') as (ks' & Hks' & Hin').
    destruct (decide (kind' = kind)) as [->|Hkd].
    + rewrite Hks in Hks'. simplify_eq. eexists. split; [exact Hi|]. intros k.
      assert (k ∈ (if decide (Key r ∈ ks') then ks' else ks' ++ [Key r]) ↔ k ∈ ks' ∨ k = Key r) as ->.
      { case_decide; [naive_solver|apply elem_of_snoc]. }
      rewrite Hin'. destruct (decide (k = Key r)) as [->|Hkk].
      * rewrite Hd, lookup_insert_eq by done. naive_solver.
      * split.
        { intros [[Hk1 Hs]|]; [|done]. by rewrite Hd, lookup_insert_ne by congruence. }
        { intros [Hk1 Hs]. rewrite Hd, lookup_insert_ne in Hs by congruence. by left. }
    + rewrite Ho, Hks' by done. eexists. split; [done|]. intros k. rewrite Hin'.
      split; intros [Hk1 Hs]; (split; [done|]); rewrite Hd, lookup_insert_ne in * by congruence; done.
Qed.

(** The index update stores the list extended with the key. *)
Lemma updateIndex_run c kind key ks :
  oinv c → index_of (raw c) kind = Ok ks → ∃ c',
  updateIndex ol kind key c = (None, c') ∧ oinv c'
  ∧ index_of (raw c') kind = Ok (if decide (key ∈ ks) then ks else ks ++ [key])
  ∧ ∀ kk, kk ≠ (kind, indexKey) → raw c' !! kk = raw c !! kk.
Proof.
  intros Hc Hks. unfold updateIndex, readIndex.
  destruct (ol_Get_law c kind indexKey Hc) as (c1 & E1 & H1 & Hc1).
  assert (readIndex ol kind c = (Ok ks, c1)) as Er.
  { unfold readIndex. run_bind E1. unfold mret, M_ret. f_equal. unfold index_of in Hks.
    by destruct (raw c !! (kind, indexKey)); rewrite ?Hks. }
  run_bind Er. case_decide as Hin; [exists c1; by rewrite H1|].
  destruct (encodeStrings_ok (ks ++ [key])) as (ib & -> & Hdec).
  destruct (ol_Put_law c1 kind indexKey ib Hc1) as (c2 & E2 & H2 & Hc2). run_bind E2.
  exists c2. split_and!; [done|done| |].
  - unfold index_of. by rewrite H2, lookup_insert_eq.
  - intros kk Hkk. by rewrite H2, lookup_insert_ne, H1 by congruence.
Qed.

Lemma index_of_ext t t' kind :
  t' !! (kind, indexKey) = t !! (kind, indexKey) → index_of t' kind = index_of t kind.
Proof. unfold index_of. by intros ->. Qed.

Lemma addToIndex_run c kind key ks :
  oinv c → index_of (raw c) kind = Ok ks → ∃ c',
  addToIndex ol kind key c = (None, c') ∧ oinv c'
  ∧ index_of (raw c') kind = Ok (if decide (key ∈ ks) then ks else ks ++ [key])
  ∧ ∀ kk, kk ≠ (kind, indexKey) → kk ≠ (kind, indexLockKey) → raw c' !! kk = raw c !! kk.
Proof.
  intros Hc Hks. unfold addToIndex.
  destruct (ol_Lock_law c kind indexLockKey (10 * second) (5 * second) Hc) as (lc & c1 & E1 & Hc1 & H1).
  run_bind E1.
  destruct (updateIndex_run c1 kind key ks Hc1) as (c2 & E2 & Hc2 & Hi2 & H2).
  { rewrite <-Hks. apply index_of_ext, H1. by intros [= ]. }
  run_bind E2. destruct lc as [token|e].
  - destruct (ol_Unlock_law c2 kind indexLockKey token Hc2) as (u & c3 & E3 & Hc3 & H3).
    run_bind E3. exists c3. split_and!; [done|done| |].
    + rewrite <-Hi2. apply index_of_ext, H3. by intros [= ].
    + intros kk ??. by rewrite H3, H2, H1.
  - exists c2. split_and!; try done. intros kk ??. by rewrite H2, H1.
Qed.

Lemma cluster_Put_run c r : cluster_inv c → key_ok (Key r) → ∃ c',
  cluster_Put ol r c = (None, c') ∧ cluster_view c' = <[(Kind r, Key r) := r]> (cluster_view c)
  ∧ cluster_inv c'.
Proof.
  intros [Hc Hraw] Hk. unfold cluster_Put.
  destruct (dmap_run c (Kind r) Hc) as (c1 & E1 & H1 & Hc1). run_bind E1.
  destruct (encodeRecord_ok r) as (b & -> & Hdec).
  destruct (ol_Put_law c1 (Kind r) (Key r) b Hc1) as (c2 & E2 & H2 & Hc2). run_bind E2.
  destruct (proj2 Hraw (Kind r)) as (ks & Hks & _).
  destruct (addToIndex_run c2 (Kind r) (Key r) ks Hc2) as (c3 & E3 & Hc3 & Hi3 & H3).
  { rewrite <-Hks. apply index_of_ext. rewrite H2, lookup_insert_ne, H1; [done|].
    intros [= E]. by destruct Hk as [? _]. }
  rewrite E3. exists c3.
  assert (∀ kd k, key_ok k → raw c3 !! (kd, k) = <[(Kind r, Key r) := b]> (raw c) !! (kd, k)) as Hd.
  { intros kd k Hk'. rewrite H3, H2, H1; [done|..]; intros [= -> ->]; by destruct Hk' as (? & ? & ?). }
  split_and!; [done| |].
  - apply map_eq. intros [kd k]. rewrite cluster_view_lookup.
    destruct (decide (key_ok k)) as [Hk'|Hk'].
    + rewrite Hd by done. destruct (decide ((kd, k) = (Kind r, Key r))) as [[= -> ->]|Hne].
      * rewrite !lookup_insert_eq. simpl. unfold record_of. simpl. by rewrite decide_True, Hdec.
      * by rewrite !lookup_insert_ne, cluster_view_lookup by done.
    + rewrite lookup_insert_ne by (intros [= E4 E5]; congruence). rewrite cluster_view_lookup.
      unfold record_of. by destruct (raw c3 !! _), (raw c !! _); simpl; rewrite ?decide_False.
  - split; [done|]. apply (raw_ok_put (raw c) (raw c3) (Kind r) (Key r) b r ks); try done.
    intros kd Hkd. apply index_of_ext. rewrite H3, H2, lookup_insert_ne, H1; congruence.
Qed.

Lemma lock_key_reserved key : ¬ key_ok (lockPrefix +:+ key) ∧ lockPrefix +:+ key ≠ indexKey.
Proof.
  split.
  - intros (_ & _ & H). by rewrite prefix_app in H.
  - intros E. pose proof (prefix_app lockPrefix key) as H. rewrite E in H. discriminate H.
Qed.

Lemma cluster_Keys_run c kind : cluster_inv c → ∃ ks c',
  cluster_Keys ol kind c = (ks, None, c')
  ∧ (∀ k, k ∈ ks ↔ is_Some (cluster_view c !! (kind, k))) ∧ cluster_view c' = cluster_view c ∧ cluster_inv c'.
Proof.
  intros Hc. unfold cluster_Keys.
  destruct (dmap_run c kind (proj1 Hc)) as (c1 & E1 & H1 & Hc1). run_bind E1.
  assert (cluster_inv c1) as Hci by (split; [done|rewrite H1; apply Hc]).
  destruct (readIndex_run c1 kind Hci) as (ks & c2 & E2 & H2 & Hc2 & Hi). run_bind E2.
  exists ks, c2. rewrite H1 in *. split_and!; [done| | |split; [done|rewrite H2; apply Hc]].
  - intros k. destruct Hc as [_ [Hdata Hidx]]. destruct (Hidx kind) as (ks' & Hks' & Hin).
    rewrite Hi in Hks'. simplify_eq. rewrite Hin, cluster_view_lookup. unfold record_of. simpl.
    split.
    + intros [Hk [b Hb]]. rewrite Hb. simpl. rewrite decide_True by done.
      destruct (Hdata _ _ _ Hk Hb) as (r & -> & _). eauto.
    + intros [r Hr]. destruct (raw c !! (kind, k)); simpl in Hr; [|done].
      case_decide; [eauto|done].
  - apply same_data_view. intros ???. by rewrite H2.
Qed.

Lemma cluster_Lock_run c kind key ttl : cluster_inv c → ∃ rel err c',
  cluster_Lock ol kind key ttl c = (rel, err, c') ∧ cluster_view c' = cluster_view c ∧ cluster_inv c'
  ∧ ∀ f c1, rel = Some f → cluster_inv c1 → cluster_view (f c1).2 = cluster_view c1 ∧ cluster_inv (f c1).2.
Proof.
  intros Hc. unfold cluster_Lock.
  destruct (dmap_run c kind (proj1 Hc)) as (c1 & E1 & H1 & Hc1). run_bind E1.
  destruct (lock_key_reserved key) as [Hl1 Hl2].
  destruct (ol_Lock_law c1 kind (lockPrefix +:+ key) ttl ttl Hc1) as (lc & c2 & E2 & Hc2 & H2).
  run_bind E2.
  assert (same_data (raw c) (raw c2)) as Hs.
  { rewrite <-H1. by apply (same_data_frame _ _ kind (lockPrefix +:+ key)). }
  destruct lc as [token|er].
  - eexists _, None, c2. split; [done|]. split_and!; [by apply same_data_view| |].
    + split; [done|]. apply (same_data_ok _ _ Hs), Hc.
    + intros f cs [= <-] [Hcs Hraw].
      destruct (ol_Unlock_law cs kind (lockPrefix +:+ key) token Hcs) as (u & c4 & E4 & Hc4 & H4).
      rewrite (bind_run _ _ _ _ _ E4). simpl.
      assert (same_data (raw cs) (raw c4)) as Hs4 by (by apply (same_data_frame _ _ kind (lockPrefix +:+ key))).
      split; [by apply same_data_view|]. split; [done|]. by apply (same_data_ok _ _ Hs4).
  - eexists None, _, c2. split; [done|]. split_and!; [by apply same_data_view| |done].
    split; [done|]. apply (same_data_ok _ _ Hs), Hc.
Qed.

(** The facade meets the contract of the engine's store. *)
Lemma cluster_reliable : ReliableKV (cluster_kv ol) cluster_view cluster_inv (λ _, True) key_ok.
Proof.
  split.
  - intros c kind key Hc _ Hk. destruct (cluster_Get_run c kind key Hc Hk) as (c' & E & H & Hc').
    exists c'. split; [exact E|]. split.
    + apply same_data_view. intros ???. by rewrite H.
    + split; [done|]. rewrite H. apply Hc.
  - intros c r Hc _ Hk _. exact (cluster_Put_run c r Hc Hk).
  - intros c kind Hc _. by apply cluster_Keys_run.
  - intros c kind key ttl. apply cluster_Lock_run.
  - intros c Hc. simpl. unfold cluster_Members.
    destruct (ol_Members_law c (proj1 Hc)) as (res & c1 & E1 & H1 & Hc1). rewrite (bind_run _ _ _ _ _ E1). simpl.
    split; [apply same_data_view; intros ???; by rewrite H1|]. split; [done|]. rewrite H1. apply Hc.
  - intros c kind key r [_ [Hdata _]]. rewrite cluster_view_lookup. unfold record_of. simpl.
    destruct (raw c !! (kind, key)) as [b|] eqn:Hb; simpl; [|done]. case_decide as Hk; [|done].
    destruct (Hdata _ _ _ Hk Hb) as (r' & -> & <- & <-). by intros [= <-].
Qed.
End Reliable.
