(* ===== verification/MemOlric.v ===== *)
(** A store that satisfies the laws asked of Olric, with a schedule of
    failures: it shows that the laws of [Cluster.v] can hold and runs the
    facade on concrete inputs. *)

From S2P Require Import Prelude GoStrings Version Metrics Engine EngineSpec.
From S2P Require Import GoPath FileSystem Gobcodec Cluster.

Open Scope Z_scope.

(** The entries of all DMaps, the cached handles, and for each coming call of
    the client whether it fails. *)
Record Mem := mkMem {
  mm_raw : gmap (string * string) bytes;
  mm_dmaps : gset string;
  mm_faults : list (option error)
}.

Definition empty_mem : Mem := mkMem ∅ ∅ [].

(** A call: the next item of the schedule decides whether it fails, and a call
    that fails has no effect. *)
Definition mm_call {A} (fail : error → A) (ok : Mem → A * Mem) : M Mem A := λ c,
  let rest := mkMem (mm_raw c) (mm_dmaps c) (tail (mm_faults c)) in
  match mm_faults c with
  | Some e :: _ => (fail e, rest)
  | _ => ok rest
  end.

(** What a lock stores under its key. *)
Definition token_bytes : bytes := ["001"%byte].

Definition mem_cached (kind : string) : M Mem (option string) := λ c,
  (if decide (kind ∈ mm_dmaps c) then Some kind else None, c).
Definition mem_cache (kind _ : string) : M Mem unit := λ c,
  (tt, mkMem (mm_raw c) ({[kind]} ∪ mm_dmaps c) (mm_faults c)).
Definition mem_NewDMap (kind : string) : M Mem (result string) := mm_call Err (λ c, (Ok kind, c)).
Definition mem_Get (dm key : string) : M Mem (result response) :=
  mm_call Err (λ c,
    (match mm_raw c !! (dm, key) with
     | Some b => Ok (Ok b) | None => Err (Sentinel ErrKeyNotFound) end, c)).
Definition mem_Put (dm key : string) (b : bytes) : M Mem (option error) :=
  mm_call Some (λ c, (None, mkMem (<[(dm, key) := b]> (mm_raw c)) (mm_dmaps c) (mm_faults c))).
Definition mem_Lock (dm key : string) (_ _ : Z) : M Mem (result nat) :=
  mm_call Err (λ c,
    match mm_raw c !! (dm, key) with
    | Some _ => (Err (Errors "lock not acquired"), c)
    | None => (Ok 0%nat, mkMem (<[(dm, key) := token_bytes]> (mm_raw c)) (mm_dmaps c) (mm_faults c))
    end).
Definition mem_Unlock (dm key : string) (_ : nat) : M Mem (option error) :=
  mm_call Some (λ c, (None, mkMem (delete (dm, key) (mm_raw c)) (mm_dmaps c) (mm_faults c))).
Definition mem_Members : M Mem (result (list string)) := mm_call Err (λ c, (Ok [], c)).

Definition mem_olric : Olric (M Mem) :=
  @Build_Olric (M Mem) mem_cached mem_cache mem_NewDMap mem_Get mem_Put mem_Lock mem_Unlock mem_Members.

Definition mem_ok (c : Mem) : Prop := mm_faults c = [].

Lemma mem_olric_laws : OlricLaws mem_olric mm_raw mem_ok.
Proof.
  split; intros c *; unfold mem_ok; simpl;
    unfold mem_cached, mem_cache, mem_NewDMap, mem_Get, mem_Put, mem_Lock, mem_Unlock, mem_Members, mm_call;
    intros Hc; rewrite ?Hc; simpl.
  - case_decide; eauto 10.
  - eauto.
  - eauto.
  - eauto.
  - eauto.
  - destruct (mm_raw c !! _) eqn:E; eexists _, _; (split; [done|]); (split; [done|]); simpl.
    + done.
    + intros kk ?. by rewrite lookup_insert_ne.
  - eexists _, _. split; [done|]. split; [done|]. simpl. intros kk ?. by rewrite lookup_delete_ne.
  - eauto.
Qed.

Lemma empty_mem_inv {gob : Gob} : cluster_inv (raw := mm_raw) (oinv := mem_ok) empty_mem.
Proof.
  split; [done|]. split.
  - intros kind key b _ H. simpl in H. by rewrite lookup_empty in H.
  - intros kind. exists []. split.
    + unfold index_of. simpl. by rewrite lookup_empty.
    + intros k. rewrite elem_of_nil. split; [done|]. intros [_ [b Hb]]. simpl in Hb. by rewrite lookup_empty in Hb.
Qed.
