(* ===== verification/BlobFleet.v ===== *)
(** Nodes that run the engine with the blob provider, on any reliable store:
    the convergence of the fleet as a statement about the files on the nodes'
    disks. [Lan.v] and [WanFleet.v] apply it to the two backends. *)

From S2P Require Import Prelude GoStrings Version Metrics Engine EngineSpec Converge Fleet.
From S2P Require Import GoPath FileSystem AtomicFile Cert Bundle Hook Certs Blob.

Open Scope Z_scope.

(** The configuration of a node, with the places its paths lead to, the
    source files it has, and the order in which its pending set is visited. *)
Record blob_node := mkBlobNode {
  bn_blob : blobProvider;
  bn_src : resource → place;
  bn_sfile : resource → option file;
  bn_dst : string → place;
  bn_range : gset string → list string;
  bn_interval : Z
}.

(** Two states of a node with the same files in which the same commands have
    been run. *)
Definition untouched (w w' : BlobNode) : Prop :=
  nd_os w'.1 = nd_os w.1 ∧ nd_ran w'.1 = nd_ran w.1.

#[export] Instance untouched_preorder : PreOrder untouched.
Proof. split; [done|]. intros w1 w2 w3 [H1 H2] [H3 H4]. split; congruence. Qed.

Section BlobFleet.
Context {crypto : Crypto} {commands : Commands}.
Context {C : Type} {view : C → gmap (string * string) Record_} {inv : C → Prop} {kind_ok key_ok : string → Prop}.
Context (Hblob : kind_ok BlobKind).

Definition time_Now : M (C * BlobNode) Z := λ w, (os_clock (nd_os w.2.1), w).
Definition metrics_sink (ev : metric_event) : M (C * BlobNode) unit :=
  lift_snd (lift_fst (emit_metric ev)).

Definition node_engine (kv : ClusterKV (M C)) (nd : blob_node) : Engine (M (C * BlobNode)) :=
  New time_Now (lift_kv kv) (Some metrics_sink) (mkOptions (bn_interval nd) 0 None).

Definition node_inv (nd : blob_node) : BlobNode → Prop :=
  blob_inv (bn_blob nd) (bn_src nd) (bn_sfile nd) (bn_dst nd).

Definition node_member (kv : ClusterKV (M C)) (nd : blob_node) : member :=
  {| mb_kv := kv;
     mb_provider := blob_provider (bn_range nd) (bn_blob nd);
     mb_engine := node_engine kv nd;
     mb_locals := omap (sourceRecord (bn_blob nd) (bn_sfile nd)) (bp_resources (bn_blob nd));
     mb_pinv := node_inv nd;
     mb_shows := blob_shows (bn_blob nd) (bn_dst nd) |}.

(** The configuration keeps the files of the resources apart, and every
    resource has a name the store can hold. *)
Definition node_ok (nd : blob_node) : Prop :=
  layout_ok (bn_blob nd) (bn_src nd) (bn_dst nd)
  ∧ ∀ r, r ∈ bp_resources (bn_blob nd) → key_ok (rs_name r).

Abbreviation good_kv kv := (ReliableKV kv view inv kind_ok key_ok).
Abbreviation good_member :=
  (member_ok (view := view) (inv := inv) (kind_ok := kind_ok) (key_ok := key_ok) (rec_ok := λ _, True) BlobKind).

Lemma node_member_ok kv nd : tame_commands → good_kv kv → node_ok nd → good_member (node_member kv nd).
Proof.
  intros Hcmd Hkv [Hlo Hnames]. split.
  - done.
  - by apply blob_stable.
  - done.
  - done.
  - intros c n Hn. eexists _, n. by split_and!.
  - intros emit [= <-] ev c n Hn. destruct n as [n pending].
    exists tt, (mkNode (nd_os n) (nd_metrics n ++ [ev]) (nd_ran n), pending). split_and!; [done| |done].
    by apply (blob_inv_os _ _ _ _ (n, pending)).
  - intros r Hr. apply list_elem_of_omap in Hr as (res & Hres & Hr). split; [|split; [|done]].
    + unfold sourceRecord in Hr. destruct (bn_sfile nd res); by simplify_eq/=.
    + apply Hnames in Hres. unfold sourceRecord in Hr. destruct (bn_sfile nd res); by simplify_eq/=.
Qed.

(** A tick of a settled node: nothing is written, no command is run. *)
Lemma settled_tick kv nd range c w :
  tame_commands → good_kv kv → node_ok nd → inv c → node_inv nd w → range_ok range →
  (∀ name, covers (view c !! (BlobKind, name)) (index_by_key (mb_locals (node_member kv nd)) !! name)
           ∧ ∀ r, view c !! (BlobKind, name) = Some r → blob_shows (bn_blob nd) (bn_dst nd) w r) →
  ∃ c' w', tickProvider range (node_engine kv nd) (lift_provider (blob_provider (bn_range nd) (bn_blob nd))) (c, w)
           = (tt, (c', w')) ∧ view c' = view c ∧ untouched w w'.
Proof.
  intros Hcmd Hkv Hnd Hc Hw Hrange Hset.
  pose proof (node_member_ok kv nd Hcmd Hkv Hnd) as [_ Hst _ Hcl Hnow Hmet HL].
  destruct (tickProvider_settled (rec_ok := λ _, True) (p := blob_provider (bn_range nd) (bn_blob nd))
    (node_engine kv nd) Hcl Hblob Hnow Hmet HL untouched range c w)
    as (c' & w' & E & Hv & _ & HR); [| | |done| |done|].
  - intros cs n _. by exists (os_clock (nd_os n.1)), n.
  - intros emit [= <-] ev cs [n pending] _.
    by exists tt, (mkNode (nd_os n) (nd_metrics n ++ [ev]) (nd_ran n), pending).
  - intros n1 x n2 [Hnf _ Hsrc] El. simpl in El. unfold blob_Local, on_os in El.
    rewrite (readResources_ok (bn_blob nd) (bn_src nd) (bn_sfile nd) (nd_os n1.1) _ Hnf Hsrc) in El.
    by simplify_eq.
  - by split_and!.
  - exists c', w'. split; [exact E|]. split; [exact Hv|exact HR].
Qed.

(** The clients and the configurations of the nodes of a fleet. *)
Context (kvs : list (ClusterKV (M C))) (nodes : list blob_node) (Hlen : length kvs = length nodes).
Let members := zip_with node_member kvs nodes.

Lemma members_lookup i nd : nodes !! i = Some nd → ∃ kv, kvs !! i = Some kv ∧ members !! i = Some (node_member kv nd).
Proof.
  intros Hnd. destruct (lookup_lt_is_Some_2 kvs i) as [kv Hkv].
  { rewrite Hlen. by eapply lookup_lt_Some. }
  exists kv. split; [done|]. unfold members. by rewrite lookup_zip_with, Hkv; simpl; rewrite Hnd.
Qed.

Lemma members_ok : tame_commands → Forall (λ kv, good_kv kv) kvs → Forall node_ok nodes → Forall good_member members.
Proof.
  intros Hcmd Hkvs Hnodes. apply Forall_lookup. intros i mb Hmb. unfold members in Hmb.
  apply lookup_zip_with_Some in Hmb as (kv & nd & -> & Hkv & Hnd).
  rewrite Forall_lookup in Hkvs. rewrite Forall_lookup in Hnodes. apply node_member_ok; [done|by apply (Hkvs i)|by apply (Hnodes i)].
Qed.

Lemma members_inv ns : Forall2 node_inv nodes ns → Forall2 mb_pinv members ns.
Proof.
  intros Hns. apply Forall2_same_length_lookup. split.
  - unfold members. rewrite length_zip_with, Hlen. apply Forall2_length in Hns. lia.
  - intros i mb n Hmb Hn. unfold members in Hmb.
    apply lookup_zip_with_Some in Hmb as (kv & nd & -> & _ & Hnd). simpl.
    exact (Forall2_lookup_lr _ _ _ _ _ _ Hns Hnd Hn).
Qed.

(** The fleet converges, down to the files. *)
Lemma blob_fleet_converges c0 ns0 sched1 sched2 more :
  tame_commands → Forall (λ kv, good_kv kv) kvs → Forall node_ok nodes →
  inv c0 → Forall2 node_inv nodes ns0 →
  sched_ok sched1 → sched_ok sched2 → sched_ok more → round members sched1 → round members sched2 →
  let '(c, ns) := fleet_run members (c0, ns0) (sched1 ++ sched2 ++ more) in
  ∀ name, let best := view c !! (BlobKind, name) in
  covers best (view c0 !! (BlobKind, name))
  ∧ (∀ i, covers best (local_of members i name))
  ∧ (best = view c0 !! (BlobKind, name) ∨ ∃ i, best = local_of members i name)
  ∧ ∀ i nd n ra r, nodes !! i = Some nd → ns !! i = Some n →
      bp_byName (bn_blob nd) !! name = Some ra → best = Some r →
      content (os_tree (nd_os n.1)) (pl_key (bn_dst nd name)) = Some (map_get [] (Blobs r) "data").
Proof.
  intros Hcmd Hkvs Hnodes Hc Hns H1 H2 H3 Hr1 Hr2.
  pose proof (members_ok Hcmd Hkvs Hnodes) as Hmem.
  assert (fleet_ok (view := view) (inv := inv) (rec_ok := λ _, True) BlobKind members (c0, ns0)) as Hok.
  { split_and!; [done|by apply members_inv|done]. }
  pose proof (fleet_newest_wins BlobKind members Hmem) as Hnw.
  destruct (converges (NW := Hnw) (c0, ns0) sched1 (sched2 ++ more)) as (Hend & Hbest & Hserve);
    [done|done|by apply Forall_app|done|by apply round_app|].
  change (run (step := fleet_step members)) with (fleet_run members) in *.
  destruct (fleet_run members (c0, ns0) (sched1 ++ sched2 ++ more)) as [c ns] eqn:E.
  intros name. simpl. destruct (Hbest name) as (Hb1 & Hb2 & Hb3). split_and!; [done|done|done|].
  intros i nd n ra r Hnd Hn Hra Hr. destruct (members_lookup i nd Hnd) as (kv & Hkv & Hmb).
  pose proof (Hserve i ltac:(by eapply lookup_lt_Some) (node_member kv nd) n name r Hmb Hn Hr) as Hsh.
  rewrite Forall_lookup in Hkvs. pose proof (Hkvs i kv Hkv) as Hkv'.
  destruct (kv_view_wf c BlobKind name r) as (_ & Hkey & _); [|done|].
  { apply Hend. }
  rewrite <-Hkey in *. apply Hsh. eauto.
Qed.
End BlobFleet.
