(* ===== verification/Lan.v ===== *)
(** A LAN deployment: a fleet of blob nodes ([BlobFleet.v]) on the Olric facade
    ([Cluster.v]). *)

From S2P Require Import Prelude GoStrings Version Metrics Engine EngineSpec Fleet.
From S2P Require Import GoPath FileSystem AtomicFile Cert Bundle Hook Certs Blob BlobFleet.
From S2P Require Import Gobcodec Cluster MemOlric.

Open Scope Z_scope.

Section Lan.
Context {crypto : Crypto} {commands : Commands} {gob : Gob} {gob_laws : GobLaws}.
Context {C : Type} {ol : Olric (M C)} {raw : C → gmap (string * string) bytes} {oinv : C → Prop}
  {ol_laws : OlricLaws ol raw oinv}.

Definition lan_node_ok : blob_node → Prop := node_ok (key_ok := key_ok).

(** The nodes, each with the facade over its member of the Olric cluster. *)
Definition lan_members (nodes : list blob_node) : list member :=
  zip_with node_member (repeat (cluster_kv ol) (length nodes)) nodes.

Lemma lan_clients (nodes : list blob_node) :
  Forall (λ kv, ReliableKV kv (cluster_view (raw := raw)) (cluster_inv (raw := raw) (oinv := oinv)) (λ _, True) key_ok)
    (repeat (cluster_kv ol) (length nodes)).
Proof. apply Forall_forall. intros kv Hkv. apply list_elem_of_In, repeat_spec in Hkv as ->. apply cluster_reliable. Qed.

(** (C18) A settled node is left alone. If no source file of the node is newer
    than the cluster's entry and the destinations already have the data of the
    entries, a tick writes nothing to the disk, runs neither verify nor reload,
    and changes no entry of the cluster. *)
Theorem settled_tick_is_idle nd range c w :
  tame_commands → lan_node_ok nd → cluster_inv (raw := raw) (oinv := oinv) c → node_inv nd w →
  range_ok range →
  (∀ name, covers (cluster_view (raw := raw) c !! (BlobKind, name))
             (index_by_key (mb_locals (node_member (cluster_kv ol) nd)) !! name)
           ∧ ∀ r, cluster_view (raw := raw) c !! (BlobKind, name) = Some r → blob_shows (bn_blob nd) (bn_dst nd) w r) →
  ∃ c' w', tickProvider range (node_engine (cluster_kv ol) nd)
             (lift_provider (blob_provider (bn_range nd) (bn_blob nd))) (c, w) = (tt, (c', w'))
    ∧ cluster_view (raw := raw) c' = cluster_view (raw := raw) c
    ∧ nd_os w'.1 = nd_os w.1 ∧ nd_ran w'.1 = nd_ran w.1.
Proof.
  intros Hcmd Hnd Hc Hw Hrange Hset.
  destruct (settled_tick I (cluster_kv ol) nd range c w Hcmd cluster_reliable Hnd Hc Hw Hrange Hset)
    as (c' & w' & E & Hv & Hu).
  exists c', w'. split; [exact E|]. split; [exact Hv|exact Hu].
Qed.

Context (nodes : list blob_node).
Let members := lan_members nodes.

(** A LAN fleet converges, down to the files. Nodes share an Olric
    cluster that is reachable and run the blob provider on disks without
    failures, with any configurations that keep their own files apart. After
    any schedule in which every node has ticked and then every node has ticked
    again, whatever follows: for every resource name there is a winning record
    that is at least as new as the one of every node's source file and as what
    the cluster held before, it is one of those, and on every node that
    configures the resource the destination file has exactly its data. *)
Theorem lan_fleet_converges c0 ns0 sched1 sched2 more :
  tame_commands → Forall lan_node_ok nodes →
  cluster_inv (raw := raw) (oinv := oinv) c0 → Forall2 node_inv nodes ns0 →
  sched_ok sched1 → sched_ok sched2 → sched_ok more →
  round members sched1 → round members sched2 →
  let '(c, ns) := fleet_run members (c0, ns0) (sched1 ++ sched2 ++ more) in
  ∀ name, let best := cluster_view (raw := raw) c !! (BlobKind, name) in
  let before := cluster_view (raw := raw) c0 !! (BlobKind, name) in
  covers best before
  ∧ (∀ i, covers best (local_of members i name))
  ∧ (best = before ∨ ∃ i, best = local_of members i name)
  ∧ ∀ i nd n ra r, nodes !! i = Some nd → ns !! i = Some n →
      bp_byName (bn_blob nd) !! name = Some ra → best = Some r →
      content (os_tree (nd_os n.1)) (pl_key (bn_dst nd name)) = Some (map_get [] (Blobs r) "data").
Proof.
  intros Hcmd Hnodes Hc Hns H1 H2 H3 Hr1 Hr2.
  apply (blob_fleet_converges (kind_ok := λ _, True) (key_ok := key_ok) I
    (repeat (cluster_kv ol) (length nodes)) nodes (repeat_length _ _)
    c0 ns0 sched1 sched2 more Hcmd (lan_clients nodes) Hnodes Hc Hns H1 H2 H3 Hr1 Hr2).
Qed.
End Lan.
