(* ===== verification/Samples.v ===== *)
(** Concrete worlds: the theorems with hypotheses are applied here to inputs on
    which the hypotheses hold. *)

From S2P Require Import Prelude GoStrings Version Metrics Engine EngineSpec EngineTrace Converge Fleet.
From S2P Require Import GoPath FileSystem AtomicFile Cert Bundle Hook Discovery Certs Frame Blob CertsStable RollbackSpec BlobFleet.
From S2P Require Import Gobcodec Cluster MemOlric Lan.

Open Scope Z_scope.

(** ** Parameters that stand for libraries and programs *)

(** Certificates are not parsed, and a digest is the input. *)
Definition toy_crypto : Crypto := {|
  pem_Decode _ := None;
  ParseCertificate _ := Err (Errors "no certificate");
  ParsePKCS8PrivateKey _ := false;
  ParsePKCS1PrivateKey _ := false;
  ParseECPrivateKey _ := false;
  sha256_Sum256 data := data
|}.

(** Every command succeeds. *)
Definition ok_commands : Commands := λ _ _ s, (None, s).

Lemma ok_commands_tame : @tame_commands ok_commands.
Proof. done. Qed.

(** ** Trees given as lists *)

Definition tree_of (l : list (phys * inode)) : tree := list_to_map l.

Definition os_of (l : list (phys * inode)) : OS :=
  mkOS (tree_of l) [] 18 0 [1; 2; 3; 4; 5; 6; 7; 8]%nat [].

(** No entry is named like a temporary file. *)
Definition tmp_free (l : list (phys * inode)) : bool :=
  forallb (λ k : phys, match last k with Some x => negb (String.prefix ".tmp-" x) | None => true end) l.*1.

Lemma tmp_free_no_tmp l d : tmp_free l = true → no_tmp (os_of l) d.
Proof.
  intros Hl n. apply not_elem_of_list_to_map_1. intros Hin.
  unfold tmp_free in Hl. rewrite forallb_forall in Hl.
  specialize (Hl (d ++ [tmp_name n])). rewrite last_snoc in Hl. unfold tmp_name in Hl.
  rewrite prefix_app in Hl. discriminate Hl. by apply list_elem_of_In.
Qed.

Lemma tree_none l k : k ∉ l.*1 → tree_of l !! k = None.
Proof. apply not_elem_of_list_to_map_1. Qed.

(** An empty serving directory. *)
Lemma empty_serving l :
  tmp_free l = true → forallb (λ k : phys, negb (bool_decide (below ["s"] k))) l.*1 = true →
  abs_dir (os_of l) "/s" ["s"] → serving (os_of l) "/s" ["s"].
Proof.
  intros Htmp Hno Hd.
  assert (∀ k, below ["s"] k → os_tree (os_of l) !! k = None) as Hnone.
  { intros k Hk. apply tree_none. intros Hin%list_elem_of_In. rewrite forallb_forall in Hno.
    apply Hno in Hin. by rewrite bool_decide_true in Hin. }
  assert (∀ key, below ["s"] (["s"] ++ [key])) as Hb1 by (intros key; by split; [exists [key]|]).
  assert (∀ key x, below ["s"] ((["s"] ++ [key]) ++ [x])) as Hb2 by (intros key x; by split; [exists [key; x]|]).
  split; [done|done|..].
  - intros key. right. split; [by apply Hnone|]. intros x. by apply Hnone.
  - intros key x _. by rewrite !Hnone.
  - intros key. by apply tmp_free_no_tmp.
Qed.

(** ** A LAN fleet of two nodes with one resource *)

Definition sample_runner : Runner := mkRunner BlobKind ["check"] ["reload"] 0 true.
Definition sample_resource : resource := mkResource "a" "/etc/a" "/srv/a" "mtime" sample_runner.
Definition sample_blob (host : string) : blobProvider :=
  mkBlobProvider [sample_resource] {["a" := sample_resource]} host.

Definition sample_source (x : Byte.byte) (t : Z) : file := mkFile [x] 420 (t * second).

Definition sample_tree (f : file) : list (phys * inode) :=
  [(["etc"], IDir); (["srv"], IDir); (["etc"; "a"], IFile f)].

Definition sample_node (host : string) (f : file) : blob_node :=
  mkBlobNode (sample_blob host) (λ _, mkPlace "/etc" ["etc"] "a") (λ _, Some f)
    (λ name, mkPlace "/srv" ["srv"] name) elements (30 * second).

Definition sample_state (f : file) : BlobNode := (mkNode (os_of (sample_tree f)) [] [], ∅).

Lemma sample_only name host ra : bp_byName (sample_blob host) !! name = Some ra → name = "a" ∧ ra = sample_resource.
Proof. simpl. intros [<- <-]%lookup_singleton_Some. done. Qed.

Lemma not_tmp_a n : "a" ≠ tmp_name n.
Proof. intros E. pose proof (prefix_app ".tmp-" (FormatInt (Z.of_nat n))) as H. fold (tmp_name n) in H. by rewrite <-E in H. Qed.

Lemma sample_node_ok (P : string → Prop) host f : P "a" → node_ok (key_ok := P) (sample_node host f).
Proof.
  intros HP. split.
  - split.
    + intros a b ra rb [-> _]%(sample_only _ host) [-> _]%(sample_only _ host) H. by destruct H.
    + intros r a ra Hr [-> _]%(sample_only _ host). done.
    + intros a b ra n [-> _]%(sample_only _ host) [= E].
  - intros r Hr. simpl in Hr. by apply list_elem_of_singleton in Hr as ->.
Qed.

Lemma sample_inv host f : node_inv (sample_node host f) (sample_state f).
Proof.
  split.
  - done.
  - intros a ra [-> ->]%(sample_only _ host). split; [|by apply tmp_free_no_tmp]. split.
    + split_and!; [done|done|by repeat constructor].
    + by vm_compute.
    + by vm_compute.
    + by vm_compute.
    + apply not_tmp_a.
  - intros r Hr. simpl in Hr. apply list_elem_of_singleton in Hr as ->. split_and!.
    + split_and!; [done|done|by repeat constructor].
    + by vm_compute.
    + by vm_compute.
Qed.

Definition tick_of (i : nat) : tick := {| tk_node := i; tk_range := sorted_range |}.

Lemma ticks_ok l : sched_ok (tick_of <$> l).
Proof. apply Forall_fmap, Forall_true. intros i. apply sorted_range_ok. Qed.

Definition sample_nodes : list blob_node :=
  [sample_node "n1" (sample_source "001" 5); sample_node "n2" (sample_source "002" 7)].
Definition sample_states : list BlobNode :=
  [sample_state (sample_source "001" 5); sample_state (sample_source "002" 7)].

Lemma sample_nodes_ok (P : string → Prop) : P "a" → Forall (node_ok (key_ok := P)) sample_nodes.
Proof. intros HP. constructor; [by apply sample_node_ok|constructor; [by apply sample_node_ok|constructor]]. Qed.

Lemma sample_key_ok : key_ok "a".
Proof. by vm_compute. Qed.

Lemma sample_states_ok : Forall2 node_inv sample_nodes sample_states.
Proof. constructor; [apply sample_inv|constructor; [apply sample_inv|constructor]]. Qed.

Section LanSample.
#[local] Existing Instances toy_crypto ok_commands bits_gob bits_gob_laws mem_olric_laws.

Let members := lan_members (ol := mem_olric) sample_nodes.

Lemma sample_round l : 0%nat ∈ l → 1%nat ∈ l → round members (tick_of <$> l).
Proof.
  intros H0 H1 [|[|i]] Hi; [exists (tick_of 0)|exists (tick_of 1)|simpl in Hi; lia].
  all: split; [by apply list_elem_of_fmap_2|done].
Qed.

(** Both nodes end with the data of the record in the cluster. *)
Lemma lan_fleet_converges_witness :
  let '(c, ns) := fleet_run members (empty_mem, sample_states) (tick_of <$> [1; 0; 0; 1]%nat) in
  ∀ i nd n r, sample_nodes !! i = Some nd → ns !! i = Some n →
    bp_byName (bn_blob nd) !! "a" = Some sample_resource →
    cluster_view (raw := mm_raw) c !! (BlobKind, "a") = Some r →
    content (os_tree (nd_os n.1)) (pl_key (bn_dst nd "a")) = Some (map_get [] (Blobs r) "data").
Proof.
  pose proof (lan_fleet_converges sample_nodes empty_mem sample_states
    (tick_of <$> [1; 0]%nat) (tick_of <$> [0; 1]%nat) []
    ok_commands_tame (sample_nodes_ok _ sample_key_ok) empty_mem_inv sample_states_ok (ticks_ok _) (ticks_ok _)
    (Forall_nil_2 _) (sample_round [1; 0]%nat ltac:(repeat constructor) ltac:(repeat constructor))
    (sample_round [0; 1]%nat ltac:(repeat constructor) ltac:(repeat constructor))) as H.
  fold members in H.
  change ((tick_of <$> [1; 0]%nat) ++ (tick_of <$> [0; 1]%nat) ++ []) with (tick_of <$> [1; 0; 0; 1]%nat) in H.
  destruct (fleet_run members (empty_mem, sample_states) (tick_of <$> [1; 0; 0; 1]%nat)) as [c ns].
  intros i nd n r Hnd Hn Hra Hr. destruct (H "a") as (_ & _ & _ & Hfiles).
  exact (Hfiles i nd n sample_resource r Hnd Hn Hra Hr).
Defined.

(** The same run, computed: the newer source wins on both nodes, and each node
    runs its hook once. *)
Example sample_fleet_run :
  let '(c, ns) := fleet_run members (empty_mem, sample_states) (tick_of <$> [1; 0; 0; 1]%nat) in
  version <$> cluster_view (raw := mm_raw) c !! (BlobKind, "a") = Some (mkVersion 7 0 "02")
  ∧ (λ n : BlobNode, content (os_tree (nd_os n.1)) ["srv"; "a"]) <$> ns = [Some ["002"%byte]; Some ["002"%byte]]
  ∧ (λ n : BlobNode, nd_ran n.1) <$> ns
    = [[(["check"], None); (["reload"], None)]; [(["check"], None); (["reload"], None)]].
Proof. vm_compute. repeat split. Qed.
Lemma sample_members_ok :
  Forall (member_ok (view := cluster_view (raw := mm_raw)) (inv := cluster_inv (raw := mm_raw) (oinv := mem_ok))
    (kind_ok := λ _, True) (key_ok := key_ok) (rec_ok := λ _, True) BlobKind) members.
Proof.
  apply (members_ok I); [apply ok_commands_tame|apply lan_clients|apply sample_nodes_ok, sample_key_ok].
Qed.

Lemma sample_fleet_ok :
  fleet_ok (view := cluster_view (raw := mm_raw)) (inv := cluster_inv (raw := mm_raw) (oinv := mem_ok))
    (rec_ok := λ _, True) BlobKind members (empty_mem, sample_states).
Proof. split_and!; [apply empty_mem_inv|by apply members_inv, sample_states_ok|done]. Qed.

Lemma fleet_converges_witness :
  let s' := fleet_run members (empty_mem, sample_states)
              ((tick_of <$> [1; 0]%nat) ++ (tick_of <$> [0; 1]%nat)) in
  serves (view := cluster_view (raw := mm_raw)) BlobKind members s' 0
  ∧ serves (view := cluster_view (raw := mm_raw)) BlobKind members s' 1.
Proof.
  pose proof (cluster_reliable (ol := mem_olric) (raw := mm_raw) (oinv := mem_ok)) as Hkv.
  pose proof (fleet_converges BlobKind members sample_members_ok (empty_mem, sample_states)
    (tick_of <$> [1; 0]%nat) (tick_of <$> [0; 1]%nat) sample_fleet_ok (ticks_ok _) (ticks_ok _)
    (sample_round [1; 0]%nat ltac:(repeat constructor) ltac:(repeat constructor))
    (sample_round [0; 1]%nat ltac:(repeat constructor) ltac:(repeat constructor))) as [_ H].
  split; apply H; repeat constructor.
Defined.

Lemma fleet_stable_witness :
  entry (view := cluster_view (raw := mm_raw)) BlobKind
    (fleet_run members (empty_mem, sample_states) ((tick_of <$> [1; 0]%nat) ++ (tick_of <$> [0; 0; 1]%nat))) "a"
  = entry (view := cluster_view (raw := mm_raw)) BlobKind
    (fleet_run members (empty_mem, sample_states) (tick_of <$> [1; 0]%nat)) "a".
Proof.
  pose proof (cluster_reliable (ol := mem_olric) (raw := mm_raw) (oinv := mem_ok)) as Hkv.
  exact (fleet_stable BlobKind members sample_members_ok (empty_mem, sample_states)
    (tick_of <$> [1; 0]%nat) (tick_of <$> [0; 0; 1]%nat) sample_fleet_ok (ticks_ok _) (ticks_ok _)
    (sample_round [1; 0]%nat ltac:(repeat constructor) ltac:(repeat constructor)) "a").
Defined.

(** Node 0 of the converged fleet. *)
Definition converged := fleet_run members (empty_mem, sample_states)
  ((tick_of <$> [1; 0]%nat) ++ (tick_of <$> [0; 1]%nat)).
Definition node0 : blob_node := sample_node "n1" (sample_source "001" 5).

Lemma settled_tick_is_idle_witness : ∃ w c' w',
  converged.2 !! 0%nat = Some w
  ∧ tickProvider sorted_range (node_engine (cluster_kv mem_olric) node0)
      (lift_provider (blob_provider elements (sample_blob "n1"))) (converged.1, w) = (tt, (c', w'))
  ∧ nd_os w'.1 = nd_os w.1 ∧ nd_ran w'.1 = nd_ran w.1.
Proof.
  pose proof (cluster_reliable (ol := mem_olric) (raw := mm_raw) (oinv := mem_ok)) as Hkv.
  destruct (converges (NW := fleet_newest_wins BlobKind members sample_members_ok) (empty_mem, sample_states)
    (tick_of <$> [1; 0]%nat) (tick_of <$> [0; 1]%nat) sample_fleet_ok (ticks_ok _) (ticks_ok _)
    (sample_round [1; 0]%nat ltac:(repeat constructor) ltac:(repeat constructor))
    (sample_round [0; 1]%nat ltac:(repeat constructor) ltac:(repeat constructor))) as ((Hc & Hns & _) & Hbest & Hserve).
  change (run (step := fleet_step members)) with (fleet_run members) in *. fold converged in *.
  destruct (Forall2_lookup_l _ _ _ 0%nat (node_member (cluster_kv mem_olric) node0) Hns eq_refl) as (w & Hw & Hinv).
  destruct (settled_tick_is_idle node0 sorted_range converged.1 w ok_commands_tame (sample_node_ok key_ok _ _ sample_key_ok) Hc Hinv
    sorted_range_ok) as (c' & w' & E & _ & Hos & Hran).
  { intros name. split; [destruct (Hbest name) as (_ & Hloc & _); exact (Hloc 0%nat)|].
    intros r Hr. exact (Hserve 0%nat ltac:(repeat constructor) (node_member (cluster_kv mem_olric) node0) w name r eq_refl Hw Hr). }
  exists w, c', w'. split; [exact Hw|]. split; [exact E|]. split; [exact Hos|exact Hran].
Defined.

(** The first tick of node 0 in the empty cluster. *)
Lemma tick_protocol_witness : ∃ locals lerr cks kerr its ferr rerr w',
  let e := node_engine (cluster_kv mem_olric) node0 in
  let p := lift_provider (blob_provider elements (sample_blob "n1")) in
  let idx := match lerr with None => index_by_key locals | Some _ => ∅ end in
  tickProvider sorted_range (with_log e) (logged p) (empty_mem, sample_state (sample_source "001" 5), [])
    = (tt, (w', CallLocal locals lerr :: CallKeys BlobKind cks kerr
         :: concat (it_calls BlobKind (e_lockTTL e) idx <$> its)
         ++ flush_calls (changed_keys idx its) ferr rerr)).
Proof.
  destruct (tick_protocol (node_engine (cluster_kv mem_olric) node0)
    (lift_provider (blob_provider elements (sample_blob "n1"))) sorted_range
    (empty_mem, sample_state (sample_source "001" 5)) sorted_range_ok)
    as (locals & lerr & cks & kerr & its & ferr & rerr & w' & E & _).
  exists locals, lerr, cks, kerr, its, ferr, rerr, w'. exact E.
Defined.
End LanSample.

(** ** A serving directory with one lineage *)

Definition served (x : Byte.byte) : inode := IFile (mkFile [x] 384 0).

Definition serving_tree : list (phys * inode) :=
  [(["s"], IDir); (["s"; "a"], IDir); (["s"; "a"; CertFile], served "001"); (["s"; "a"; KeyFile], served "101")].

Lemma serving_entry k : is_Some (tree_of serving_tree !! k) → k ∈ serving_tree.*1.
Proof.
  intros [i Hi]. destruct (decide (k ∈ serving_tree.*1)) as [|Hno]; [done|].
  apply not_elem_of_list_to_map_1 in Hno. unfold tree_of in Hi. by rewrite Hno in Hi.
Qed.

Lemma serving_other key : key ≠ "a" → tree_of serving_tree !! (["s"] ++ [key]) = None
  ∧ ∀ x, tree_of serving_tree !! ((["s"] ++ [key]) ++ [x]) = None.
Proof.
  intros Hne. split; [|intros x]; apply not_elem_of_list_to_map_1; simpl; intros H;
    rewrite !elem_of_cons, elem_of_nil in H; naive_solver.
Qed.

Lemma serving_sample : serving (os_of serving_tree) "/s" ["s"].
Proof.
  split.
  - done.
  - split; try (by vm_compute). by repeat constructor.
  - intros key. destruct (decide (key = "a")) as [->|Hne]; [by left; vm_compute|right]. by apply serving_other.
  - intros key x Hx. destruct (decide (key = "a")) as [->|Hne].
    + assert (Forall (λ x, dir_part (tree_of serving_tree !! ((["s"] ++ ["a"]) ++ [x])) = None
        ∧ dir_part (tree_of serving_tree !! ((["s"] ++ ["a"]) ++ [x +:+ BackupSuffix])) = None) bundleNames) as H.
      { repeat constructor; by vm_compute. }
      rewrite Forall_forall in H. by apply H.
    + simpl os_tree. destruct (serving_other key Hne) as [_ H]. by rewrite !H.
  - intros key. by apply tmp_free_no_tmp.
Qed.

Definition sample_bundle : Bundle :=
  mkBundle "a" "example.org" (mkBVersion (5 * second) (9 * second) "0a" "ff") ["002"%byte] ["102"%byte] [] [].

Definition sample_certs : certsProvider := mkCertsProvider "/l" "/s" "n1" true sample_runner.

Section CertsSample.
#[local] Existing Instances toy_crypto ok_commands.

Lemma certs_apply_correct_witness :
  let r := toRecord sample_bundle "n2" in
  let n := mkNode (os_of serving_tree) [] [] in
  ∃ ch n', certs_Apply sample_certs r n = ((ch, None), n') ∧ holds (nd_os n') ["s"] "a" (fromRecord r)
    ∧ certs_Apply sample_certs r n' = ((false, None), n').
Proof.
  destruct (certs_apply_correct sample_certs ["s"] (toRecord sample_bundle "n2") (mkNode (os_of serving_tree) [] []))
    as (ch & n' & E & _ & Hh & _ & Ea); [exact serving_sample|done|].
  exists ch, n'. split; [exact E|]. split; [exact Hh|exact Ea].
Defined.
End CertsSample.

Lemma record_roundtrip_witness :
  CertPEM (fromRecord (toRecord sample_bundle "n1")) = ["002"%byte]
  ∧ ParseInt (map_get "" (Meta (toRecord sample_bundle "n1")) "not_after") = Some 9.
Proof.
  destruct (record_roundtrip sample_bundle "n1") as (_ & _ & Hc & _ & _ & _ & _ & Hp & _); [by vm_compute|].
  by split.
Defined.

Lemma record_order_agrees_witness :
  Newer (recordVersion (mkBVersion (5 * second) (9 * second) "0b" "ee"))
        (recordVersion (mkBVersion (5 * second) (9 * second) "0a" "ff")) = true.
Proof. rewrite (record_order_agrees (mkBVersion (5 * second) (9 * second) "0b" "ee") (mkBVersion (5 * second) (9 * second) "0a" "ff")); by vm_compute. Defined.

Lemma rollback_undoes_write_witness :
  ∃ ch s1 s2, BundleWriteAtomic sample_bundle "/s/a" (os_of serving_tree) = ((ch, None), s1)
  ∧ Rollback "/s/a" s1 = (None, s2)
  ∧ content (os_tree s2) ["s"; "a"; CertFile] = Some ["001"%byte]
  ∧ content (os_tree s2) ["s"; "a"; KeyFile] = Some ["101"%byte].
Proof.
  destruct (rollback_undoes_write (os_of serving_tree) "/s" ["s"] "a" sample_bundle serving_sample)
    as (ch & s1 & s2 & E1 & E2 & H); [done|by vm_compute| | |].
  - intros x Hx%serving_entry. apply list_elem_of_In in Hx. simpl in Hx.
    destruct Hx as [Hx|[Hx|[Hx|[Hx|[]]]]]; try discriminate Hx; injection Hx as <-; repeat constructor.
  - intros name data perm Hin Hd. apply list_elem_of_In in Hin. simpl in Hin.
    destruct Hin as [Hx|[Hx|[Hx|[Hx|[]]]]]; injection Hx as <- <- <-; try done; vm_compute; eauto.
  - exists ch, s1, s2. split; [exact E1|]. split; [exact E2|].
    split; [apply (H CertFile)|apply (H KeyFile)]; repeat constructor.
Defined.

(** ** Single files *)

Definition ver (n : Z) : option Record_ := Some (mkRecord "k" "a" (mkVersion n 0 "") ∅ ∅ "").

Lemma newest_order_independent_witness :
  [ver 1; None; ver 3] ≡ₚ [ver 3; None; ver 1]
  ∧ version <$> newest [ver 1; None; ver 3] = version <$> newest [ver 3; None; ver 1].
Proof.
  assert ([ver 1; None; ver 3] ≡ₚ [ver 3; None; ver 1]) as Hp.
  { rewrite (Permutation_swap None (ver 1) [ver 3]), (Permutation_swap (ver 3) (ver 1) []).
    apply Permutation_swap. }
  split; [exact Hp|]. apply (newest_order_independent _ _ Hp).
Defined.

(** A disk on which the fifth call, writing the temporary file, stops after one
    byte, and every later call fails. *)
Definition failing (s : OS) : OS :=
  mkOS (os_tree s) (os_cwd s) (os_umask s) (os_clock s) (os_rand s)
    ([NoFault; NoFault; NoFault; NoFault; Short 1 EIO] ++ repeat (Fail EIO) 5).

Definition file_tree : list (phys * inode) := [(["srv"], IDir); (["srv"; "a"], IFile (mkFile ["001"%byte] 420 0))].

Lemma file_managed s : os_tree s = tree_of file_tree → os_cwd s = [] → managed s "/srv/a" "/srv" "a" ["srv"].
Proof.
  intros Ht Hc. split.
  - split_and!; [done|done|by repeat constructor].
  - unfold dir_at, resolve_dir. rewrite Ht, Hc. by vm_compute.
  - rewrite Ht. by vm_compute.
  - rewrite Ht. by vm_compute.
  - apply not_tmp_a.
Qed.

Lemma write_atomic_all_or_nothing_witness :
  let '((ch, err), s') := WriteAtomic "/srv/a" ["002"; "003"]%byte 420 (failing (os_of file_tree)) in
  ch = false ∧ is_Some err ∧ is_Some (os_tree s' !! ["srv"; tmp_name 1])
  ∧ os_tree s' !! ["srv"; "a"] = Some (IFile (mkFile ["001"%byte] 420 0)).
Proof.
  destruct (WriteAtomic "/srv/a" ["002"; "003"]%byte 420 (failing (os_of file_tree))) as [[ch err] s'] eqn:E.
  pose proof (write_atomic_all_or_nothing "/srv/a" "/srv" "a" ["srv"] (failing (os_of file_tree))
    ["002"; "003"]%byte 420 ch err s' (file_managed (failing (os_of file_tree)) eq_refl eq_refl) E) as (H & _ & _).
  vm_compute in E. injection E as <- <- <-. destruct H as [H _].
  split; [done|]. split; [by eexists|]. split; [by vm_compute; eexists|]. exact H.
Defined.

Lemma write_then_restore_witness : ∃ s1 s2,
  WriteAtomic "/srv/a" ["002"%byte] 420 (os_of file_tree) = ((true, None), s1)
  ∧ Restore "/srv/a" s1 = (None, s2) ∧ content (os_tree s2) ["srv"; "a"] = Some ["001"%byte].
Proof.
  destruct (write_then_restore "/srv/a" "/srv" "a" ["srv"] (os_of file_tree) (mkFile ["001"%byte] 420 0) ["002"%byte] 420)
    as (s1 & s2 & E1 & _ & E2 & Hc & _ & _); [done|by apply file_managed|by apply tmp_free_no_tmp|by vm_compute|done|].
  exists s1, s2. split; [exact E1|]. split; [exact E2|exact Hc].
Defined.

Definition backup_tree : list (phys * inode) :=
  [(["srv"], IDir); (["srv"; "a"], served "001"); (["srv"; "a.bak"], served "002"); (["srv"; "b"], served "003")].

Lemma restore_dir_correct_witness : ∃ s',
  RestoreDir "/srv" (os_of backup_tree) = (None, s')
  ∧ os_tree s' !! ["srv"; "a"] = Some (served "002") ∧ os_tree s' !! ["srv"; "a.bak"] = None.
Proof.
  destruct (restore_dir_correct (os_of backup_tree) "/srv" ["srv"]) as (s' & E & H & _).
  - done.
  - split; try (by vm_compute). by repeat constructor.
  - intros x Hx. assert (x = "a") as ->.
    { destruct Hx as [i Hi]. apply elem_of_list_to_map_2, (list_elem_of_fmap_2 fst), list_elem_of_In in Hi.
      simpl in Hi. destruct Hi as [Hi|[Hi|[Hi|[Hi|[]]]]]; try discriminate Hi.
      - injection Hi as Hi. pose proof (HasSuffix_bak x) as Hs. rewrite <-Hi in Hs. discriminate Hs.
      - injection Hi as Hi. change "a.bak" with ("a" +:+ BackupSuffix) in Hi. symmetry. by apply str_app_inj_r in Hi.
      - injection Hi as Hi. pose proof (HasSuffix_bak x) as Hs. rewrite <-Hi in Hs. discriminate Hs. }
    split; [done|]. split; [done|]. split; [by vm_compute; eexists|by vm_compute].
  - exists s'. split; [exact E|]. apply (H "a"). vm_compute. eauto.
Defined.

(** ** Rollbacks *)

(** A lineage with a certificate and a key, renewed twice, the second time with
    the same key. *)
Lemma rollback_restores_stale_key_witness :
  ∃ s4, content (os_tree s4) ["s"; "a"; CertFile] = Some ["002"%byte]
      ∧ content (os_tree s4) ["s"; "a"; KeyFile] = Some ["101"%byte].
Proof.
  destruct (rollback_restores_stale_key (os_of serving_tree) "/s" ["s"] "a"
    (mkBundle "a" "a" (mkBVersion 0 0 "" "") ["002"%byte] ["102"%byte] [] [])
    (mkBundle "a" "a" (mkBVersion 0 0 "" "") ["003"%byte] ["102"%byte] [] []) ["001"%byte] ["101"%byte] serving_sample)
    as (ch2 & s2 & ch3 & s3 & s4 & _ & _ & _ & _ & _ & Hc & Hk); try (by vm_compute).
  - intros x Hx. apply serving_entry in Hx. simpl in Hx. rewrite !elem_of_cons, elem_of_nil in Hx.
    destruct Hx as [Hx|[Hx|[Hx|[Hx|[]]]]]; simplify_eq/=; [left|right; left].
  - exists s4. split; [exact Hc|exact Hk].
Defined.

Section RejectedSample.
#[local] Existing Instances toy_crypto bits_gob bits_gob_laws mem_olric_laws.

(** Every command fails. *)
Definition failing_commands : Commands := λ _ _ s, (Some (Errors "exit status 1"), s).
#[local] Existing Instance failing_commands.

Definition new_record : Record_ :=
  mkRecord CertsKind "a" (mkVersion 5 9 "0a:ff") {["cert" := ["002"%byte]; "key" := ["102"%byte]]} ∅ "n2".

Definition new_cluster : Mem := (cluster_Put mem_olric new_record empty_mem).2.
Definition new_node : Node := mkNode (os_of [(["s"], IDir)]) [] [].
Definition new_engine : Engine (M (Mem * Node)) :=
  New (m := M (Mem * Node)) (λ w, (os_clock (nd_os w.2), w)) (lift_kv (cluster_kv mem_olric)) (Some (λ ev, lift_snd (emit_metric ev)))
    (mkOptions 0 0 None).

Lemma new_cluster_ok :
  cluster_inv (raw := mm_raw) (oinv := mem_ok) new_cluster
  ∧ cluster_view (raw := mm_raw) new_cluster = {[(CertsKind, "a") := new_record]}.
Proof.
  destruct (cluster_Put_run (ol := mem_olric) (raw := mm_raw) (oinv := mem_ok) empty_mem new_record empty_mem_inv)
    as (c & E & Hv & Hi); [by vm_compute|]. unfold new_cluster. rewrite E. split; [done|]. simpl. rewrite Hv.
  vm_compute. reflexivity.
Qed.

Lemma new_node_joining T : joining sample_certs (mkRegion ["s"] []) T [] new_node.
Proof.
  assert (∀ key x, os_tree (nd_os new_node) !! ((["s"] ++ [key]) ++ [x]) = None) as Hno.
  { intros key x. apply tree_none. by intros ?%list_elem_of_singleton. }
  split; [split| | |done].
  - apply empty_serving; [done|by vm_compute|]. split; try (by vm_compute). by repeat constructor.
  - apply (bool_decide_eq_true_1 _). vm_compute. reflexivity.
  - vm_compute. reflexivity.
  - intros key x. apply Hno.
  - intros r x data perm _ _ _. unfold content. cbn [rg_dir]. rewrite Hno. left.
Qed.

Lemma new_engine_now c n : ∃ t n', e_now new_engine (c, n) = (t, (c, n')) ∧ same_node n n'.
Proof. by eexists _, n. Qed.

Lemma new_engine_metrics emit : e_metrics new_engine = Some emit →
  ∀ ev c n, ∃ u n', emit ev (c, n) = (u, (c, n')) ∧ same_node n n'.
Proof. intros [= <-] ev c n. eexists tt, _. split; [reflexivity|]. by split. Qed.

Lemma sample_rejects : rejects sample_certs.
Proof. split; [done|]. intros timeout s. by eexists. Qed.

(** The new node writes the files, the verify command fails, and two further
    ticks run nothing. *)
Lemma rollback_keeps_new_files_witness : ∃ er c1 n2 c3 n3,
  let p := lift_provider (certs_provider sample_certs) in
  tickProvider sorted_range new_engine p (new_cluster, new_node) = (tt, (c1, n2))
  ∧ nd_ran n2 = [(["check"], Some er)]
  ∧ holds (nd_os n2) ["s"] "a" (fromRecord new_record)
  ∧ foldM (λ _ range, tickProvider range new_engine p) tt [sorted_range; sorted_range] (c1, n2) = (tt, (c3, n3))
  ∧ nd_ran n3 = nd_ran n2.
Proof.
  destruct new_cluster_ok as [Hi Hv].
  assert (∃ start c1 n1, until_flush (p := certs_provider sample_certs) new_engine sorted_range (new_cluster, new_node)
    = ((start, ["a"]), (c1, n1))) as (start & c1 & n1 & E) by (eexists _, _, _; vm_compute; reflexivity).
  destruct (rollback_keeps_new_files sample_certs (mkRegion ["s"] []) (cluster_kv mem_olric)
    (Hkv := cluster_reliable (ol := mem_olric) (raw := mm_raw) (oinv := mem_ok))
    new_engine sorted_range [sorted_range; sorted_range] new_cluster new_node)
    as (start' & changed & c1' & n1' & er & n2 & c3 & n3 & E' & Et & Hran & Hsh & Ef & _ & Hran3).
  - exact I.
  - reflexivity.
  - exact new_engine_now.
  - exact new_engine_metrics.
  - exact sample_rejects.
  - exact Hi.
  - rewrite Hv. apply new_node_joining.
  - rewrite Hv. clear. intros k r H. apply lookup_singleton_Some in H as [_ <-]. reflexivity.
  - apply sorted_range_ok.
  - repeat constructor; apply sorted_range_ok.
  - rewrite E in E'. injection E' as _ <- <- _. exists er, c1, n2, c3, n3. split; [exact Et|]. split; [exact Hran|].
    split; [|split; [exact Ef|exact Hran3]]. apply (Hsh "a" new_record).
    rewrite Hv. apply lookup_singleton_eq.
Defined.
End RejectedSample.
