(* ===== verification/LanFaults.v ===== *)
(** What the engine and the facade do when calls of the cluster fail: for any
    cluster when the reads of an entry fail, and for a concrete one when an
    update of the index is lost. *)

From S2P Require Import Prelude GoStrings Version Metrics Engine EngineSpec Fleet.
From S2P Require Import GoPath FileSystem AtomicFile Cert Bundle Hook Discovery Certs Blob BlobFleet.
From S2P Require Import Gobcodec Cluster MemOlric Lan Samples.

Open Scope Z_scope.

(** ** Reads that fail *)

Section ReadErrors.
Context {C N : Type} {gob : Gob} {gob_laws : GobLaws} (ol : Olric (M C))
  {raw : C → gmap (string * string) bytes} {oinv : C → Prop} {ol_laws : OlricLaws ol raw oinv}.
(** The entry whose reads fail, and the error. *)
Context (kind key : string) (er : error) (Her : errors_Is er ErrKeyNotFound = false).

(** The client, with reads of this one entry failing; every other call is as
    before. *)
Definition deaf : Olric (M C) :=
  {| ol_cached := ol_cached ol;
     ol_cache := ol_cache ol;
     ol_NewDMap := ol_NewDMap ol;
     ol_Get dm k := if decide ((dm, k) = (kind, key)) then mret (Err er) else ol_Get ol dm k;
     ol_Put := ol_Put ol;
     ol_LockWithTimeout := ol_LockWithTimeout ol;
     ol_Unlock := ol_Unlock ol;
     ol_Members := ol_Members ol |}.

Abbreviation good_cluster := (cluster_inv (raw := raw) (oinv := oinv)).
Abbreviation entries := (cluster_view (raw := raw)).

Lemma deaf_Get c : good_cluster c → ∃ er' c',
  cluster_Get deaf kind key c = (None, false, Some er', c') ∧ entries c' = entries c ∧ good_cluster c'.
Proof.
  intros [Hc Hraw]. destruct (dmap_run (ol := ol) c kind Hc) as (c1 & E1 & H1 & Hc1).
  unfold cluster_Get. change (dmap deaf kind) with (dmap ol kind). run_bind E1.
  assert (ol_Get deaf kind key c1 = (Err er, c1)) as E2 by (simpl; by rewrite decide_True). run_bind E2. rewrite Her.
  eexists _, c1. split; [done|]. split; [apply same_data_view; intros ???; by rewrite H1|]. split; [done|by rewrite H1].
Qed.

(** Storing a record does not read the entry. *)
Lemma deaf_Put r c : key ≠ indexKey → cluster_Put deaf r c = cluster_Put ol r c.
Proof.
  intros Hk. assert (∀ dm, readIndex deaf dm = readIndex ol dm) as Hr.
  { intros dm. unfold readIndex. simpl. by rewrite decide_False by congruence. }
  assert (∀ dm, addToIndex deaf dm (Key r) = addToIndex ol dm (Key r)) as Ha.
  { intros dm. unfold addToIndex, updateIndex. rewrite Hr. done. }
  unfold cluster_Put. change (dmap deaf) with (dmap ol). unfold mbind, M_bind.
  destruct (dmap ol (Kind r) c) as [[dm|e] c1]; [|done]. destruct (encodeRecord r) as [b|e]; [|done].
  change (ol_Put deaf) with (ol_Put ol). destruct (ol_Put ol dm (Key r) b c1) as [[e|] c2]; [done|]. by rewrite Ha.
Qed.

(** An engine on that client; its clock and collectors are of the node. *)
Context (e : Engine (M (C * N))) (p : Provider (M N)) (Hcl : e_cl e = lift_kv (cluster_kv deaf)).
Context (Hnow : ∀ c n, ∃ t n', e_now e (c, n) = (t, (c, n')))
  (Hmetrics : ∀ emit, e_metrics e = Some emit → ∀ ev c n, ∃ u n', emit ev (c, n) = (u, (c, n'))).

Lemma deaf_get_run c n : good_cluster c → ∃ er' c',
  kv_Get (e_cl e) kind key (c, n) = (None, false, Some er', (c', n)) ∧ entries c' = entries c ∧ good_cluster c'.
Proof.
  intros Hc. destruct (deaf_Get c Hc) as (er' & c' & E & H). exists er', c'. rewrite Hcl.
  unfold lift_kv, lift_fst. simpl. by rewrite E.
Qed.

(** maybePublish, when both reads fail. *)
Lemma deaf_publish c n l :
  good_cluster c → key_ok key → Kind l = kind → Key l = key → ∃ c' n',
  maybePublish e kind key (Some l) None (c, n) = (tt, (c', n'))
  ∧ entries c' = <[(kind, key) := l]> (entries c) ∧ good_cluster c'.
Proof.
  intros Hc Hk Hlk Hly. unfold maybePublish.
  destruct (cluster_Lock_run (ol := ol) c kind key (e_lockTTL e) Hc) as (rel & err & c1 & E1 & Hv1 & Hi1 & Hrel).
  assert (kv_Lock (e_cl e) kind key (e_lockTTL e) (c, n) = (lift_fst <$> rel, err, (c1, n))) as E1'.
  { rewrite Hcl. unfold lift_kv, lift_fst. unfold_M. cbn [kv_Lock fst snd cluster_kv].
    change (cluster_Lock deaf kind key) with (cluster_Lock ol kind key). by rewrite E1. }
  run_bind E1'. destruct (deaf_get_run c1 n Hi1) as (er' & c2 & E2 & Hv2 & Hi2). run_bind E2. cbn [andb].
  destruct (cluster_Put_run (ol := ol) c2 l Hi2) as (c3 & E3 & Hv3 & Hi3); [congruence|].
  assert (kv_Put (e_cl e) l (c2, n) = (None, (c3, n))) as E3'.
  { rewrite Hcl. unfold lift_kv, lift_fst. simpl. rewrite deaf_Put by (by destruct Hk). by rewrite E3. }
  destruct (node_metrics e Hmetrics (mkEvent PublishTotal [kind] Inc) c3 n) as (n4 & E4).
  match goal with |- context [@mbind _ _ _ _ ?k (@mbind _ _ _ _ ?g (kv_Put (e_cl e) l))] =>
    assert ((kv_Put (e_cl e) l ≫= g) (c2, n) = (tt, (c3, n4))) as E5 by (run_bind E3'; exact E4) end.
  run_bind E5. assert (entries c3 = <[(kind, key) := l]> (entries c)) as Hv by (rewrite Hv3, Hv2, Hv1; congruence).
  destruct err as [?|], rel as [f|]; try (by exists c3, n4). simpl.
  destruct (Hrel f c3 eq_refl Hi3) as [Hvf Hif]. unfold lift_fst. simpl. destruct (f c3) as [[] c4]. simpl in *.
  exists c4, n4. split_and!; [done|congruence|done].
Qed.

(** (C33) Failed reads replace a newer record by an older one. Take any cluster
    that works, any entry, and any node with a local record for it. If in one
    iteration of the loop the reads of the entry fail, once before and once
    under the lock, and every other call succeeds, then the engine takes the
    failures for an absent entry: whatever record the cluster had, a newer one
    too, is replaced by the local one. *)
Theorem read_errors_clobber_newer idx changed c n l :
  good_cluster c → key_ok key → Kind l = kind → Key l = key → idx !! key = Some l →
  ∃ changed' c' n', tickKey e (lift_provider p) kind idx changed key (c, n) = (changed', (c', n'))
    ∧ entries c' = <[(kind, key) := l]> (entries c) ∧ good_cluster c'.
Proof.
  intros Hc Hk Hlk Hly Hidx. destruct (deaf_get_run c n Hc) as (er' & c1 & E1 & Hv1 & Hi1).
  destruct (deaf_publish c1 n l Hi1 Hk Hlk Hly) as (c2 & n2 & E2 & Hv2 & Hi2). rewrite Hv1 in Hv2. rewrite <-Hidx in E2.
  destruct (tickKey_cluster e p Hnow Hmetrics kind idx changed key c n _ _ _ c1 n c2 n2 E1 E2) as (changed' & n' & E).
  by exists changed', c2, n'.
Qed.
End ReadErrors.

Section Faults.
#[local] Existing Instances toy_crypto ok_commands bits_gob bits_gob_laws mem_olric_laws.

Let members := lan_members (ol := mem_olric) sample_nodes.

(** The coming calls fail as scheduled. *)
Definition with_faults (fs : list (option error)) (c : Mem) : Mem := mkMem (mm_raw c) (mm_dmaps c) fs.

Definition entry_version (c : Mem) : option Version := version <$> cluster_view (raw := mm_raw) c !! (BlobKind, "a").

(** A read of the cluster fails. *)
Definition read_error : option error := Some (Errno EIO).

(** The cluster holds version 7 of the entry, and the node has version 5. *)
Definition flaky_cluster : Mem :=
  (cluster_Put mem_olric (mkRecord BlobKind "a" (mkVersion 7 0 "02") {["data" := ["002"%byte]]} ∅ "n2") empty_mem).2.
Definition stale_record : Record_ := mkRecord BlobKind "a" (mkVersion 5 0 "01") {["data" := ["001"%byte]]} ∅ "n1".
Definition flaky_engine : Engine (M (Mem * BlobNode)) :=
  node_engine (cluster_kv (deaf mem_olric BlobKind "a" (Errno EIO))) node0.

Lemma flaky_cluster_inv : cluster_inv (raw := mm_raw) (oinv := mem_ok) flaky_cluster.
Proof.
  destruct (cluster_Put_run (ol := mem_olric) (raw := mm_raw) (oinv := mem_ok) empty_mem
    (mkRecord BlobKind "a" (mkVersion 7 0 "02") {["data" := ["002"%byte]]} ∅ "n2") empty_mem_inv)
    as (c & E & _ & Hi); [by vm_compute|]. unfold flaky_cluster. by rewrite E.
Qed.

Lemma flaky_metrics emit : e_metrics flaky_engine = Some emit →
  ∀ ev c n, ∃ u n', emit ev (c, n) = (u, (c, n')).
Proof. intros [= <-] ev c n. eexists tt, _. reflexivity. Qed.

Lemma read_errors_clobber_newer_witness : ∃ changed c' n',
  tickKey flaky_engine (lift_provider (blob_provider elements (sample_blob "n1"))) BlobKind
    {["a" := stale_record]} [] "a" (flaky_cluster, sample_state (sample_source "001" 5)) = (changed, (c', n'))
  ∧ version <$> cluster_view (raw := mm_raw) flaky_cluster !! (BlobKind, "a") = Some (mkVersion 7 0 "02")
  ∧ version <$> cluster_view (raw := mm_raw) c' !! (BlobKind, "a") = Some (mkVersion 5 0 "01").
Proof.
  destruct (read_errors_clobber_newer mem_olric (raw := mm_raw) (oinv := mem_ok) BlobKind "a" (Errno EIO) eq_refl
    flaky_engine (blob_provider elements (sample_blob "n1")) eq_refl
    ltac:(intros c n; eexists _, n; reflexivity) flaky_metrics {["a" := stale_record]} [] flaky_cluster
    (sample_state (sample_source "001" 5)) stale_record flaky_cluster_inv sample_key_ok eq_refl eq_refl
    ltac:(apply lookup_singleton_eq))
    as (changed & c' & n' & E & Hv & _).
  exists changed, c', n'. split; [exact E|]. split; [vm_compute; reflexivity|]. rewrite Hv, lookup_insert_eq. reflexivity.
Defined.

(** The cluster holds the record of version 7; on a node whose copy has version
    5 the two reads of the entry fail in the same tick, and version 5 is
    stored. *)
Example two_read_errors :
  let s1 := fleet_run members (empty_mem, sample_states) [tick_of 1] in
  let s2 := fleet_run members (with_faults [None; read_error; None; read_error] s1.1, s1.2) [tick_of 0] in
  entry_version s1.1 = Some (mkVersion 7 0 "02")
  ∧ entry_version s2.1 = Some (mkVersion 5 0 "01").
Proof. vm_compute. repeat split. Qed.

(** One failed read is not enough: the check under the lock protects the newer
    record. *)
Example one_read_error_is_harmless :
  let s1 := fleet_run members (empty_mem, sample_states) [tick_of 1] in
  let s2 := fleet_run members (with_faults [None; read_error] s1.1, s1.2) [tick_of 0] in
  entry_version s2.1 = Some (mkVersion 7 0 "02").
Proof. vm_compute. reflexivity. Qed.

(** ** An index update that is lost *)

(** A node that has the resource configured and no source file for it. *)
Definition receiver : blob_node :=
  mkBlobNode (sample_blob "n2") (λ _, mkPlace "/etc" ["etc"] "a") (λ _, None)
    (λ name, mkPlace "/srv" ["srv"] name) elements (30 * second).
Definition receiver_tree : list (phys * inode) := [(["etc"], IDir); (["srv"], IDir)].

Let pair := lan_members (ol := mem_olric) [sample_node "n1" (sample_source "001" 5); receiver].

(** The owner's first tick, in which the ninth call, storing the index, fails. *)
Definition after_lost : Mem * list BlobNode :=
  fleet_run pair (with_faults (repeat None 8 ++ [Some (Errno EIO)]) empty_mem,
    [sample_state (sample_source "001" 5); (mkNode (os_of receiver_tree) [] [], ∅)]) [tick_of 0].

Definition lost_c : Mem := Eval vm_compute in after_lost.1.
Definition lost_os : OS := Eval vm_compute in
  match after_lost.2 with (n, _) :: _ => nd_os n | [] => os_of [] end.

(** The states the fleet can be in after that, up to what has been counted and
    which commands have been run. *)
Definition lost_state (s : Mem * list BlobNode) : Prop :=
  s.1 = lost_c ∧ (λ w : BlobNode, nd_os w.1) <$> s.2 = [lost_os; os_of receiver_tree].

Lemma lost_step s i : lost_state s → lost_state (fleet_step pair s (tick_of i)).
Proof.
  destruct s as [c ns]. intros [Hc Hns]. simpl in Hc, Hns. subst c.
  destruct ns as [|[[os0 m0 r0] p0] [|[[os1 m1 r1] p1] [|]]]; try discriminate Hns.
  simpl in Hns. injection Hns as -> ->.
  destruct i as [|[|i]]; [split; vm_compute; reflexivity|split; vm_compute; reflexivity|done].
Qed.

Lemma lost_run s l : lost_state s → lost_state (fleet_run pair s (tick_of <$> l)).
Proof. revert s. induction l as [|i l IH]; intros s Hs; [exact Hs|]. apply IH. by apply lost_step. Qed.

Lemma after_lost_state : lost_state after_lost.
Proof. split; vm_compute; reflexivity. Qed.

(** (C32) A lost index update is never repaired. The owner of a record stores
    it, but the call that stores the index of keys fails once. From then on no
    call fails; still, however often the two nodes tick, the owner finds its
    record in the cluster and so does not publish again, the index stays
    without the key, and the node that should receive the file never writes
    it. *)
Theorem lost_index_never_repaired l :
  let s := fleet_run pair after_lost (tick_of <$> l) in
  entry_version s.1 = Some (mkVersion 5 0 "01")
  ∧ (cluster_Keys mem_olric BlobKind s.1).1 = ([], None)
  ∧ (λ w : BlobNode, content (os_tree (nd_os w.1)) ["srv"; "a"]) <$> s.2 = [Some ["001"%byte]; None].
Proof.
  destruct (lost_run after_lost l after_lost_state) as [Hc Hns]. cbv zeta. rewrite Hc.
  split; [vm_compute; reflexivity|]. split; [vm_compute; reflexivity|].
  transitivity ((λ o, content (os_tree o) ["srv"; "a"]) <$> ((λ w : BlobNode, nd_os w.1)
    <$> (fleet_run pair after_lost (tick_of <$> l)).2)); [by rewrite <-list_fmap_compose|].
  rewrite Hns. vm_compute. reflexivity.
Qed.
End Faults.
