(* ===== verification/Wan.v ===== *)
(** internal/wan/wan.go and internal/wan/handler.go: the HTTPS backend.

    A node keeps a store of encoded records. Its client side ([wan_Get],
    [wan_Put], [wan_Keys], ...) is written over any monad with the operations
    of [WanOps]; its server side is the handlers, which are functions on the
    store. The network that connects them is in [WanNet.v]. *)

From S2P Require Import Prelude GoStrings Version Metrics Engine EngineSpec.
From S2P Require Import GoPath GoURL FileSystem Gobcodec.

Open Scope Z_scope.

(** The byte zero that separates kind and key. *)
Definition nul : ascii := ascii_of_N 0.

(** wan.storeKey *)
Definition storeKey (kind key : string) : string := kind +:+ String nul key.

(** Backend.store *)
Abbreviation store := (gmap string bytes).

(** [sk[len(prefix):]] if [sk] is longer than [prefix] and starts with it. *)
Fixpoint after_prefix (prefix sk : string) : option string :=
  match prefix, sk with
  | EmptyString, EmptyString => None
  | EmptyString, _ => Some sk
  | String a p', String b s' => if Ascii.eqb a b then after_prefix p' s' else None
  | String _ _, EmptyString => None
  end.

(** The loops over the store that collect the keys of a kind; [range] is the
    order in which the map is visited. *)
Definition keysOf (range : store → list string) (kind : string) (st : store) : list string :=
  omap (after_prefix (kind +:+ String nul "")) (range st).

(** ** The handlers *)

Section Handlers.
Context {gob : Gob}.

(** A response: its status and its body. *)
Definition Response : Type := Z * bytes.

Definition StatusOK : Z := 200.
Definition StatusNoContent : Z := 204.
Definition StatusBadRequest : Z := 400.
Definition StatusNotFound : Z := 404.
Definition StatusMethodNotAllowed : Z := 405.
Definition StatusInternalServerError : Z := 500.

(** The text of an error page; no code reads it. *)
Definition page : bytes := [].

(** Backend.handlePutRecord; reading the body can fail. *)
Definition handlePutRecord (body : result bytes) : M store Response := λ st,
  match body with
  | Err _ => ((StatusBadRequest, page), st)
  | Ok body =>
      match decodeRecord body with
      | Err _ => ((StatusBadRequest, page), st)
      | Ok rec =>
          let k := storeKey (Kind rec) (Key rec) in
          if match st !! k with
             | Some existing =>
                 match decodeRecord existing with
                 | Ok existingRec => negb (Newer (version rec) (version existingRec))
                 | Err _ => false
                 end
             | None => false
             end
          then ((StatusNoContent, []), st)
          else ((StatusNoContent, []), <[k := body]> st)
      end
  end.

(** Backend.handleGetRecord *)
Definition handleGetRecord (kind key : string) : M store Response := λ st,
  match st !! storeKey kind key with
  | None => ((StatusNotFound, page), st)
  | Some raw => ((StatusOK, raw), st)
  end.

(** Backend.handleGetKeys *)
Definition handleGetKeys (range : store → list string) (kind : string) : M store Response := λ st,
  match encodeStrings (keysOf range kind st) with
  | Err _ => ((StatusInternalServerError, page), st)
  | Ok raw => ((StatusOK, raw), st)
  end.

(** Backend.handlePing *)
Definition handlePing : M store Response := mret (StatusOK, list_byte_of_string "pong").

(** newMux: the routes. A wildcard matches a segment that is not empty; a path
    with routes for other methods only gives 405. *)
Definition serve (range : store → list string) (method path : string) (body : result bytes) : M store Response :=
  match segments path with
  | ["v1"; "records"] =>
      if String.eqb method "PUT" then handlePutRecord body else mret (StatusMethodNotAllowed, page)
  | ["v1"; "records"; kind; key] =>
      if String.eqb kind "" || String.eqb key "" then mret (StatusNotFound, page)
      else if String.eqb method "GET" then handleGetRecord kind key
      else mret (StatusMethodNotAllowed, page)
  | ["v1"; "keys"; kind] =>
      if String.eqb kind "" then mret (StatusNotFound, page)
      else if String.eqb method "GET" then handleGetKeys range kind
      else mret (StatusMethodNotAllowed, page)
  | ["v1"; "ping"] =>
      if String.eqb method "GET" then handlePing else mret (StatusMethodNotAllowed, page)
  | _ => mret (StatusNotFound, page)
  end.
End Handlers.

#[global] Arguments handlePutRecord : simpl never.

(** ** What the handlers guarantee *)

Section HandlerSpec.
Context {gob : Gob}.
Implicit Types st : store.

(** The record stored under a composite key, if there is one that decodes. *)
Definition stored st (k : string) : option Record_ :=
  raw ← st !! k; match decodeRecord raw with Ok r => Some r | Err _ => None end.

(** A valid push is a join: the entry becomes the newest of the two, the
    incoming record if the entry does not decode. *)
Lemma handlePutRecord_valid st body r :
  decodeRecord body = Ok r →
  let '(resp, st') := handlePutRecord (Ok body) st in
  resp.1 = StatusNoContent
  ∧ stored st' (storeKey (Kind r) (Key r)) = pickNewer (Some r) (stored st (storeKey (Kind r) (Key r)))
  ∧ ∀ k, k ≠ storeKey (Kind r) (Key r) → st' !! k = st !! k.
Proof.
  intros Hr. unfold handlePutRecord. rewrite Hr. set (k := storeKey (Kind r) (Key r)).
  unfold stored. destruct (st !! k) as [raw|] eqn:Ek; simpl.
  - destruct (decodeRecord raw) as [r0|e] eqn:Er; simpl.
    + destruct (Newer (version r) (version r0)) eqn:En; simpl.
      * rewrite lookup_insert_eq. simpl. rewrite Hr. split_and!; try done. intros k' Hk. by rewrite lookup_insert_ne.
      * rewrite Ek. simpl. by rewrite Er.
    + rewrite lookup_insert_eq. simpl. rewrite Hr. split_and!; try done. intros k' Hk. by rewrite lookup_insert_ne.
  - rewrite lookup_insert_eq. simpl. rewrite Hr. split_and!; try done. intros k' Hk. by rewrite lookup_insert_ne.
Qed.

Lemma stored_ext st st' k : st' !! k = st !! k → stored st' k = stored st k.
Proof. unfold stored. by intros ->. Qed.

(** (C19) The push handler never loses the newest record. A body that cannot be
    read or decoded is answered 400 and changes nothing. Any other body is
    answered 204, and the entry of its kind and key becomes the newest of the
    record that was there and the one that came, the stored one on a tie; no
    other entry changes, so no entry ever becomes older. *)
Theorem push_handler_keeps_newest st body :
  let '(resp, st') := handlePutRecord body st in
  (∀ k, covers (stored st' k) (stored st k))
  ∧ match body with
    | Ok b =>
        match decodeRecord b with
        | Ok r => resp.1 = StatusNoContent
            ∧ stored st' (storeKey (Kind r) (Key r)) = pickNewer (Some r) (stored st (storeKey (Kind r) (Key r)))
            ∧ ∀ k, k ≠ storeKey (Kind r) (Key r) → st' !! k = st !! k
        | Err _ => resp.1 = StatusBadRequest ∧ st' = st
        end
    | Err _ => resp.1 = StatusBadRequest ∧ st' = st
    end.
Proof.
  destruct body as [b|e]; [|by split]. destruct (decodeRecord b) as [r|e] eqn:Er.
  - pose proof (handlePutRecord_valid st b r Er) as H. destruct (handlePutRecord (Ok b) st) as [resp st'].
    split; [|exact H]. destruct H as (_ & Hk & Ho). intros k.
    destruct (decide (k = storeKey (Kind r) (Key r))) as [->|Hne].
    + rewrite Hk. apply pickNewer_covers_r.
    + by rewrite (stored_ext st st' k (Ho k Hne)).
  - unfold handlePutRecord. rewrite Er. by split.
Qed.

(** The pushes in a list, handled in turn. *)
Definition deliver st (bodies : list bytes) : store := foldl (λ st b, (handlePutRecord (Ok b) st).2) st bodies.

(** The records pushed for a composite key. *)
Definition pushed (k : string) (b : bytes) : option (option Record_) :=
  match decodeRecord b with
  | Ok r => if decide (storeKey (Kind r) (Key r) = k) then Some (Some r) else None
  | Err _ => None
  end.

Lemma deliver_newest st bodies k :
  stored (deliver st bodies) k = newest (reverse (omap (pushed k) bodies) ++ [stored st k]).
Proof.
  induction bodies as [|b bodies IH] using rev_ind.
  { simpl. unfold newest. simpl. by destruct (stored st k). }
  unfold deliver. rewrite foldl_app, omap_app, reverse_app. fold (deliver st bodies). simpl.
  unfold pushed at 1. destruct (decodeRecord b) as [r|e] eqn:Er; simpl.
  - pose proof (handlePutRecord_valid (deliver st bodies) b r Er) as H.
    destruct (handlePutRecord (Ok b) (deliver st bodies)) as [resp st']. destruct H as (_ & Hk & Ho). simpl.
    case_decide as Hd; simpl.
    + subst k. rewrite Hk, IH. done.
    + rewrite (stored_ext (deliver st bodies) st' k) by (apply Ho; congruence). exact IH.
  - unfold handlePutRecord. rewrite Er. exact IH.
Qed.

(** (C20) Pushes commute: whatever order the same pushes arrive in, the records
    a node ends up with have the same versions, and each is the newest of what
    the node had and what was pushed. *)
Theorem pushes_order_independent st bodies bodies' k :
  bodies ≡ₚ bodies' →
  version <$> stored (deliver st bodies) k = version <$> stored (deliver st bodies') k
  ∧ Forall (covers (stored (deliver st bodies) k)) (stored st k :: omap (pushed k) bodies).
Proof.
  intros Hp. rewrite !deliver_newest. split.
  - apply newest_perm. by rewrite !reverse_Permutation, Hp.
  - set (o := newest _). assert (Forall (covers o) (reverse (omap (pushed k) bodies) ++ [stored st k])) as H
      by (by apply newest_covers).
    by rewrite reverse_Permutation, <-Permutation_cons_append in H.
Qed.
End HandlerSpec.

(** ** The client side *)

Section Backend.
Context {m : Type → Type} `{!MRet m, !MBind m}.

(** What a backend does to the world: reading and writing its store under the
    mutex, a request with its response (building the request and sending it can
    fail; so can reading the body), and a request sent by a goroutine whose
    outcome nobody looks at. *)
Record WanOps := {
  w_store : m store;
  w_set : string → bytes → m unit;
  w_Do : string → string → m (result (Z * result bytes));
  w_goPut : string → bytes → m unit
}.

Context {gob : Gob} (w : WanOps) (peers : list string).

Definition recordURL (peer kind key : string) : string :=
  "https://" +:+ peer +:+ "/v1/records/" +:+ PathEscape kind +:+ "/" +:+ PathEscape key.
Definition putURL (peer : string) : string := "https://" +:+ peer +:+ "/v1/records".
Definition keysURL (peer kind : string) : string := "https://" +:+ peer +:+ "/v1/keys/" +:+ PathEscape kind.
Definition pingURL (peer : string) : string := "https://" +:+ peer +:+ "/v1/ping".

(** The loop of Backend.Get over the peers. *)
Fixpoint getFromPeers (kind key : string) (ps : list string) : m (option Record_ * bool * option error) :=
  match ps with
  | [] => mret (None, false, None)
  | peer :: ps' =>
      resp ← w_Do w "GET" (recordURL peer kind key);
      match resp with
      | Err _ => getFromPeers kind key ps'
      | Ok (status, body) =>
          if status =? StatusOK then
            match body with
            | Err _ => getFromPeers kind key ps'
            | Ok body =>
                match decodeRecord body with
                | Err _ => getFromPeers kind key ps'
                | Ok rec => mret (Some rec, true, None)
                end
            end
          else getFromPeers kind key ps'
      end
  end.

(** Backend.Get *)
Definition wan_Get (kind key : string) : m (option Record_ * bool * option error) :=
  st ← w_store w;
  match st !! storeKey kind key with
  | Some val =>
      match decodeRecord val with
      | Err e => mret (None, false, Some e)
      | Ok rec => mret (Some rec, true, None)
      end
  | None => getFromPeers kind key peers
  end.

(** Backend.Put *)
Definition wan_Put (r : Record_) : m (option error) :=
  match encodeRecord r with
  | Err e => mret (Some e)
  | Ok raw =>
      _ ← w_set w (storeKey (Kind r) (Key r)) raw;
      _ ← foldM (λ _ peer, w_goPut w (putURL peer) raw) tt peers;
      mret None
  end.

(** One iteration of the loop of Backend.Keys over the peers. *)
Definition keysFromPeer (kind : string) (seen : gset string) (peer : string) : m (gset string) :=
  resp ← w_Do w "GET" (keysURL peer kind);
  mret (match resp with
        | Ok (status, Ok body) =>
            if status =? StatusOK then
              match decodeStrings body with
              | Ok keys => list_to_set keys ∪ seen
              | Err _ => seen
              end
            else seen
        | _ => seen
        end).

(** Backend.Keys; [range] and [order] are the orders in which the store and
    the set of keys are visited. *)
Definition wan_Keys (range : store → list string) (order : gset string → list string) (kind : string)
    : m (list string * option error) :=
  st ← w_store w;
  seen ← foldM (keysFromPeer kind) (list_to_set (keysOf range kind st)) peers;
  mret (order seen, None).

(** Backend.Lock does nothing. *)
Definition wan_Lock (kind key : string) (ttl : Z) : m (option (m unit) * option error) :=
  mret (Some (mret tt : m unit), @None error).

(** Backend.Members: the pings are sent concurrently and their results added
    up, so their order does not matter. *)
Definition wan_Members : m Z :=
  foldM (λ count peer,
    resp ← w_Do w "GET" (pingURL peer);
    mret (match resp with
          | Ok (status, _) => if status =? StatusOK then count + 1 else count
          | Err _ => count
          end)) 1 peers.

(** The backend as the engine's ClusterKV. *)
Definition wan_kv (range : store → list string) (order : gset string → list string) : ClusterKV m :=
  {| kv_Get := wan_Get;
     kv_Put := wan_Put;
     kv_Keys := wan_Keys range order;
     kv_Lock := wan_Lock;
     kv_Members := wan_Members |}.
End Backend.

Arguments WanOps : clear implicits.
