(* ===== verification/WanNet.v ===== *)
(** A network of WAN backends ([Wan.v]): requests, failures, pushes in flight.
    With a full mesh in which pushes arrive in time, every node's backend is a
    client of one reliable store, so that the convergence theorem of [Fleet.v]
    applies to it. *)

From S2P Require Import Prelude GoStrings Version Metrics Engine EngineSpec.
From S2P Require Import GoPath GoURL FileSystem Gobcodec Wan.

Open Scope Z_scope.

(** The stores of the nodes that are up, by address; the pushes in flight; and
    for each coming request whether it fails. *)
Record Net := mkNet {
  nt_stores : gmap string store;
  nt_mail : list (string * bytes);
  nt_faults : list bool
}.

Definition set_stores (ss : gmap string store) (c : Net) : Net := mkNet ss (nt_mail c) (nt_faults c).

(** The host and the path of a URL. *)
Definition host_path (url : string) : option (string * string) :=
  match after_prefix "https://" url with
  | None => None
  | Some rest => let '(host, path, found) := cut_char sep rest in
      Some (host, if found : bool then String sep path else "/")
  end.

Section Net.
Context {gob : Gob} (range : store → list string).

(** A request: it fails as scheduled, or if the host is not up; otherwise the
    host's multiplexer serves it, at the clean path. *)
Definition net_request (method url : string) (body : bytes) : M Net (result (Z * result bytes)) := λ c,
  let rest := mkNet (nt_stores c) (nt_mail c) (tail (nt_faults c)) in
  match nt_faults c with
  | true :: _ => (Err (Errno EIO), rest)
  | _ =>
      match host_path url with
      | None => (Err (Errors "bad url"), rest)
      | Some (host, path) =>
          match nt_stores c !! host with
          | None => (Err (Errno ENOENT), rest)
          | Some st =>
              let '((status, out), st') := serve range method (cleanPath path) (Ok body) st in
              (Ok (status, Ok out), set_stores (<[host := st']> (nt_stores c)) rest)
          end
      end
  end.

(** The operations of the backend at an address. With [timely] a push arrives
    before the node's next step; otherwise it stays in flight. *)
Definition net_ops (timely : bool) (addr : string) : WanOps (M Net) :=
  @Build_WanOps (M Net)
    (λ c, (default ∅ (nt_stores c !! addr), c))
    (λ k raw c, (tt, set_stores (<[addr := <[k := raw]> (default ∅ (nt_stores c !! addr))]> (nt_stores c)) c))
    (λ method url, net_request method url [])
    (λ url body,
      if timely then _ ← net_request "PUT" url body; mret tt
      else λ c, (tt, mkNet (nt_stores c) (nt_mail c ++ [(url, body)]) (nt_faults c))).
End Net.

(** ** Composite keys *)

(** Kinds and keys that the backend can tell apart and put into a URL. *)
Definition wan_kind_ok (kind : string) : Prop := no_char nul kind = true ∧ seg_ok kind = true.
Definition wan_key_ok (key : string) : Prop := seg_ok key = true.

Lemma storeKey_inj kind key kind' key' :
  no_char nul kind = true → no_char nul kind' = true →
  storeKey kind key = storeKey kind' key' → kind = kind' ∧ key = key'.
Proof.
  intros H H' E. pose proof (cut_char_found nul kind key H) as C.
  unfold storeKey in E. rewrite E, (cut_char_found nul kind' key' H') in C. by simplify_eq.
Qed.

Lemma after_prefix_spec p s k : after_prefix p s = Some k ↔ s = p +:+ k ∧ k ≠ "".
Proof.
  revert s. induction p as [|a p IH]; intros s; simpl.
  - change ("" +:+ k) with k. destruct s; [split; [done|by intros [<- ?]]|].
    split; [by intros [= <-]|by intros [-> _]].
  - change (String a p +:+ k) with (String a (p +:+ k)). destruct s as [|b s]; [split; [done|by intros [? _]]|].
    destruct (Ascii.eqb_spec a b) as [->|Hne].
    + rewrite IH. split; [by intros [-> ?]|]. intros [E Hk]. by simplify_eq.
    + split; [done|]. intros [E _]. by simplify_eq.
Qed.

Lemma storeKey_prefix kind k : storeKey kind k = (kind +:+ String nul "") +:+ k.
Proof. unfold storeKey. symmetry. apply str_app_assoc. Qed.

Lemma seg_ok_nonempty s : seg_ok s = true → s ≠ "".
Proof. by intros H ->. Qed.

Section Mesh.
Context {gob : Gob} {gob_laws : GobLaws} (range : store → list string) (order : gset string → list string).
Implicit Types (st : store) (c : Net).

Definition wan_ok st : Prop := ∀ sk raw, st !! sk = Some raw → ∃ r,
  decodeRecord raw = Ok r ∧ sk = storeKey (Kind r) (Key r) ∧ wan_kind_ok (Kind r) ∧ wan_key_ok (Key r).

Definition view_item (x : string * bytes) : option (string * string * Record_) :=
  match decodeRecord x.2 with Ok r => Some (Kind r, Key r, r) | Err _ => None end.

(** The records of a store by kind and key. *)
Definition store_view st : gmap (string * string) Record_ :=
  list_to_map (omap view_item (map_to_list st)).

Lemma view_item_elem st kk r :
  wan_ok st → (kk, r) ∈ omap view_item (map_to_list st) ↔
  ∃ raw, st !! storeKey kk.1 kk.2 = Some raw ∧ decodeRecord raw = Ok r ∧ kk = (Kind r, Key r).
Proof.
  intros Hok. rewrite list_elem_of_omap. split.
  - intros ([sk raw] & Hin & Hv). apply elem_of_map_to_list in Hin. unfold view_item in Hv. simpl in Hv.
    destruct (decodeRecord raw) as [r'|] eqn:Er; simplify_eq.
    destruct (Hok sk raw Hin) as (r' & Er' & -> & _). rewrite Er in Er'. simplify_eq/=. eauto.
  - intros (raw & Hl & Er & ->). exists (storeKey (Kind r) (Key r), raw).
    split; [by apply elem_of_map_to_list|]. unfold view_item. simpl. by rewrite Er.
Qed.

Lemma store_view_lookup st kind key :
  wan_ok st → no_char nul kind = true → store_view st !! (kind, key) = stored st (storeKey kind key).
Proof.
  intros Hok Hk. unfold store_view, stored. destruct (st !! storeKey kind key) as [raw|] eqn:El; simpl.
  - destruct (Hok _ _ El) as (r & Er & Esk & [Hkr _] & _). rewrite Er.
    apply storeKey_inj in Esk as [-> ->]; [|done|done].
    apply elem_of_list_to_map_1'.
    + intros r' Hr'. apply view_item_elem in Hr' as (raw' & El' & Er' & _); [|done]. simpl in El'. congruence.
    + apply view_item_elem; [done|]. exists raw. by split_and!.
  - apply not_elem_of_list_to_map_1. intros Hin. apply list_elem_of_fmap in Hin as ([kk r] & Hkk & Hin).
    simpl in Hkk. subst kk. apply view_item_elem in Hin as (raw & El' & _); [|done]. simpl in El'. congruence.
Qed.

Lemma store_view_bad_kind st kind key :
  wan_ok st → no_char nul kind = false → store_view st !! (kind, key) = None.
Proof.
  intros Hok Hk. apply not_elem_of_list_to_map_1. intros Hin.
  apply list_elem_of_fmap in Hin as ([kk r] & Hkk & Hin). simpl in Hkk. subst kk.
  apply view_item_elem in Hin as (raw & El & Er & [= -> ->]); [|done].
  destruct (Hok _ _ El) as (r' & Er' & _ & [Hk' _] & _). rewrite Er in Er'. simplify_eq. congruence.
Qed.

(** A record with a new version under its own key. *)
Lemma store_view_insert st r raw :
  wan_ok st → decodeRecord raw = Ok r → wan_kind_ok (Kind r) → wan_key_ok (Key r) →
  wan_ok (<[storeKey (Kind r) (Key r) := raw]> st)
  ∧ store_view (<[storeKey (Kind r) (Key r) := raw]> st) = <[(Kind r, Key r) := r]> (store_view st).
Proof.
  intros Hok Hraw Hk Hy. set (st1 := <[_ := raw]> st).
  assert (wan_ok st1) as Hok1.
  { intros sk raw' [[<- <-]|[_ H]]%lookup_insert_Some; [|by apply Hok]. exists r. by split_and!. }
  split; [done|]. apply map_eq. intros [kd key].
  destruct (no_char nul kd) eqn:Hkd.
  - rewrite store_view_lookup by done. unfold stored, st1.
    destruct (decide ((kd, key) = (Kind r, Key r))) as [[= -> ->]|Hne].
    + rewrite !lookup_insert_eq. simpl. by rewrite Hraw.
    + rewrite !lookup_insert_ne; [by rewrite store_view_lookup|done|].
      intros E. apply storeKey_inj in E as [E1 E2]; [congruence|apply Hk|done].
  - rewrite store_view_bad_kind by done. rewrite lookup_insert_ne, store_view_bad_kind; [done|done|done|].
    intros [= <- _]. destruct Hk. congruence.
Qed.

Lemma stored_wan_ok st kind key r :
  wan_ok st → no_char nul kind = true → stored st (storeKey kind key) = Some r →
  Kind r = kind ∧ Key r = key ∧ wan_key_ok key.
Proof.
  intros Hok Hk. unfold stored. destruct (st !! storeKey kind key) as [raw|] eqn:El; simpl; [|done].
  destruct (Hok _ _ El) as (r' & Er & Esk & [Hkr _] & Hkey). rewrite Er. intros [= <-].
  by apply storeKey_inj in Esk as [-> ->].
Qed.

(** ** Requests that succeed *)

Context (range_ok : ∀ st k, k ∈ range st ↔ is_Some (st !! k)) (order_ok : ∀ X k, k ∈ order X ↔ k ∈ X).

Lemma keysOf_spec st kind k :
  k ∈ keysOf range kind st ↔ k ≠ "" ∧ is_Some (st !! storeKey kind k).
Proof.
  unfold keysOf. rewrite list_elem_of_omap. rewrite storeKey_prefix. split.
  - intros (sk & Hsk & [-> Hk]%after_prefix_spec). apply range_ok in Hsk. done.
  - intros [Hk Hs]. eexists. split; [by apply range_ok|]. by apply after_prefix_spec.
Qed.

Lemma host_path_join peer l :
  no_char sep peer = true →
  host_path ("https://" +:+ peer +:+ String sep (join_char sep l)) = Some (peer, String sep (join_char sep l)).
Proof.
  intros Hp. unfold host_path.
  rewrite (proj2 (after_prefix_spec "https://" _ (peer +:+ String sep (join_char sep l)))).
  - by rewrite (cut_char_found sep peer).
  - split; [done|]. destruct peer; done.
Qed.

(** A request for a path of good segments to a node that is up. *)
Lemma net_request_run method peer l body c st :
  nt_faults c = [] → no_char sep peer = true → l ≠ [] → Forall (λ s, good_name s = true) l →
  nt_stores c !! peer = Some st →
  net_request range method ("https://" +:+ peer +:+ String sep (join_char sep l)) body c
  = let '((status, out), st') := serve range method (String sep (join_char sep l)) (Ok body) st in
    (Ok (status, Ok out), set_stores (<[peer := st']> (nt_stores c)) c).
Proof.
  intros Hf Hp Hne Hl Hst. unfold net_request. rewrite Hf, host_path_join, Hst, cleanPath_good by done.
  destruct (serve range method _ (Ok body) st) as [[status out] st'].
  unfold set_stores. by destruct c; simpl in *; subst.
Qed.

Lemma set_stores_id c peer st : nt_stores c !! peer = Some st → set_stores (<[peer := st]> (nt_stores c)) c = c.
Proof. intros H. unfold set_stores. rewrite insert_id by done. by destruct c. Qed.

(** The segments the server sees. *)
Lemma record_segments kind key :
  segments (String sep (join_char sep ["v1"; "records"; PathEscape kind; PathEscape key]))
  = ["v1"; "records"; kind; key].
Proof.
  rewrite segments_join; [|done|].
  - cbn [fmap list_fmap]. by rewrite !PathUnescape_PathEscape.
  - repeat constructor; apply PathEscape_no_sep.
Qed.

Lemma keys_segments kind :
  segments (String sep (join_char sep ["v1"; "keys"; PathEscape kind])) = ["v1"; "keys"; kind].
Proof.
  rewrite segments_join; [|done|].
  - cbn [fmap list_fmap]. by rewrite PathUnescape_PathEscape.
  - repeat constructor; apply PathEscape_no_sep.
Qed.

Section Requests.
Context (c : Net) (peer : string) (st : store)
  (Hf : nt_faults c = []) (Hp : no_char sep peer = true) (Hst : nt_stores c !! peer = Some st).

Lemma request_record kind key :
  seg_ok kind = true → seg_ok key = true →
  net_request range "GET" (recordURL peer kind key) [] c
  = (Ok (match st !! storeKey kind key with
         | Some raw => (StatusOK, Ok raw) | None => (StatusNotFound, Ok page) end), c).
Proof.
  intros Hk Hy.
  change (recordURL peer kind key)
    with ("https://" +:+ peer +:+ String sep (join_char sep ["v1"; "records"; PathEscape kind; PathEscape key])).
  rewrite (net_request_run _ _ _ _ c st); try done.
  - unfold serve. rewrite record_segments.
    rewrite (proj2 (String.eqb_neq kind "") (seg_ok_nonempty _ Hk)), (proj2 (String.eqb_neq key "") (seg_ok_nonempty _ Hy)).
    simpl. unfold handleGetRecord. destruct (st !! storeKey kind key); by rewrite set_stores_id.
  - repeat constructor; by apply PathEscape_good.
Qed.

Lemma request_keys kind :
  seg_ok kind = true → ∃ raw,
  net_request range "GET" (keysURL peer kind) [] c = (Ok (StatusOK, Ok raw), c)
  ∧ decodeStrings raw = Ok (keysOf range kind st).
Proof.
  intros Hk.
  change (keysURL peer kind) with ("https://" +:+ peer +:+ String sep (join_char sep ["v1"; "keys"; PathEscape kind])).
  rewrite (net_request_run _ _ _ _ c st); try done.
  - unfold serve. rewrite keys_segments, (proj2 (String.eqb_neq kind "") (seg_ok_nonempty _ Hk)).
    simpl. unfold handleGetKeys. destruct (encodeStrings_ok (keysOf range kind st)) as (raw & -> & Hd).
    exists raw. by rewrite set_stores_id.
  - repeat constructor; by apply PathEscape_good.
Qed.

Lemma request_ping : net_request range "GET" (pingURL peer) [] c = (Ok (StatusOK, Ok (list_byte_of_string "pong")), c).
Proof.
  change (pingURL peer) with ("https://" +:+ peer +:+ String sep (join_char sep ["v1"; "ping"])).
  rewrite (net_request_run _ _ _ _ c st); try done.
  - simpl. by rewrite set_stores_id.
  - by repeat constructor.
Qed.

Lemma request_put raw :
  net_request range "PUT" (putURL peer) raw c
  = let '((status, out), st') := handlePutRecord (Ok raw) st in
    (Ok (status, Ok out), set_stores (<[peer := st']> (nt_stores c)) c).
Proof.
  change (putURL peer) with ("https://" +:+ peer +:+ String sep (join_char sep ["v1"; "records"])).
  rewrite (net_request_run _ _ _ _ c st); try done. by repeat constructor.
Qed.
End Requests.

(** A newer record, pushed to a node that has the old store or already the new
    one, leaves the new one. *)
Lemma handlePut_newer st x r raw :
  decodeRecord raw = Ok r → newer_than (version r) (stored st (storeKey (Kind r) (Key r))) →
  (x = st ∨ x = <[storeKey (Kind r) (Key r) := raw]> st) → wan_ok st →
  (handlePutRecord (Ok raw) x).2 = <[storeKey (Kind r) (Key r) := raw]> st.
Proof.
  intros Hr Hn Hx Hok. unfold handlePutRecord. rewrite Hr. set (k := storeKey (Kind r) (Key r)) in *.
  destruct Hx as [->| ->].
  - unfold stored in Hn. destruct (st !! k) as [raw0|] eqn:E; simpl in *; [|done].
    destruct (Hok _ _ E) as (r0 & Er & _). rewrite Er in *. simpl in Hn. by rewrite Hn.
  - rewrite lookup_insert_eq, Hr, Newer_irrefl. done.
Qed.

(** ** A full mesh *)

Context (a0 : string) (addrs : list string) (Ha0 : a0 ∈ addrs)
  (Haddrs : ∀ a, a ∈ addrs → no_char sep a = true).

(** All nodes are up and hold the same records. *)
Definition mesh_inv c : Prop :=
  nt_faults c = [] ∧ ∃ st, wan_ok st ∧ ∀ a, a ∈ addrs → nt_stores c !! a = Some st.

Definition mesh_view c : gmap (string * string) Record_ := store_view (default ∅ (nt_stores c !! a0)).

Section Node.
Context (addr : string) (peers : list string) (Haddr : addr ∈ addrs)
  (Hpeers : ∀ a, a ∈ addrs → a = addr ∨ a ∈ peers) (Hup : ∀ a, a ∈ peers → a ∈ addrs).
Let ops := net_ops range true addr.

Lemma getFromPeers_miss c st kind key ps :
  nt_faults c = [] → (∀ a, a ∈ ps → a ∈ addrs) → (∀ a, a ∈ addrs → nt_stores c !! a = Some st) →
  seg_ok kind = true → seg_ok key = true → st !! storeKey kind key = None →
  getFromPeers ops kind key ps c = (None, false, None, c).
Proof.
  intros Hf Hps Hst Hk Hy Hmiss. induction ps as [|peer ps IH]; [done|]. simpl.
  assert (peer ∈ addrs) as Hin by (apply Hps; left).
  assert (w_Do ops "GET" (recordURL peer kind key) c = (Ok (StatusNotFound, Ok page), c)) as E.
  { simpl. rewrite (request_record c peer st) by auto. by rewrite Hmiss. }
  run_bind E. simpl. apply IH. intros a Ha. apply Hps. by right.
Qed.

Lemma mesh_get c kind key :
  mesh_inv c → wan_kind_ok kind → wan_key_ok key →
  wan_Get ops peers kind key c
  = (mesh_view c !! (kind, key), bool_decide (is_Some (mesh_view c !! (kind, key))), None, c).
Proof.
  intros (Hf & st & Hok & Hst) [Hk Hs] Hy. unfold wan_Get, mesh_view.
  rewrite (Hst a0 Ha0). cbn [default from_option id]. rewrite store_view_lookup by done. unfold stored.
  assert (w_store ops c = (st, c)) as E by (simpl; by rewrite (Hst addr Haddr)). run_bind E.
  destruct (st !! storeKey kind key) as [raw|] eqn:El; simpl.
  - by destruct (Hok _ _ El) as (r & -> & _).
  - rewrite (getFromPeers_miss c st) by auto. done.
Qed.

(** The stores while a push of [raw] to the peers is under way. *)
Definition pushing st st1 (done : list string) c : Prop :=
  nt_faults c = [] ∧ ∀ a, a ∈ addrs →
    nt_stores c !! a = Some st1 ∨ (nt_stores c !! a = Some st ∧ a ≠ addr ∧ a ∉ done).

Lemma mesh_put c r :
  mesh_inv c → wan_kind_ok (Kind r) → wan_key_ok (Key r) →
  newer_than (version r) (mesh_view c !! (Kind r, Key r)) → ∃ c',
  wan_Put ops peers r c = (None, c') ∧ mesh_view c' = <[(Kind r, Key r) := r]> (mesh_view c) ∧ mesh_inv c'.
Proof.
  intros (Hf & st & Hok & Hst) [Hk Hs] Hy Hn. unfold wan_Put.
  unfold mesh_view in *. rewrite (Hst a0 Ha0) in *. cbn [default from_option id] in *.
  rewrite store_view_lookup in Hn by done.
  destruct (encodeRecord_ok r) as (raw & -> & Hraw).
  set (k := storeKey (Kind r) (Key r)) in *. set (st1 := <[k := raw]> st).
  eassert (w_set ops k raw c = (tt, _)) as E1 by reflexivity. run_bind E1.
  rewrite (Hst addr Haddr). cbn [default from_option id]. fold st1. set (c1 := set_stores _ c).
  pose proof (foldM_inv (λ _ peer, w_goPut ops (putURL peer) raw) (λ dn _ c, pushing st st1 dn c) peers) as Hinv.
  lapply Hinv; clear Hinv.
  - intros Hinv. specialize (Hinv tt c1).
    destruct (foldM (λ _ peer, w_goPut ops (putURL peer) raw) tt peers c1) as [[] c2] eqn:E2. run_bind E2.
    destruct Hinv as [Hf2 Hst2].
    { split; [done|]. intros a Ha. simpl. destruct (decide (a = addr)) as [->|Hne].
      - left. by rewrite lookup_insert_eq.
      - right. rewrite lookup_insert_ne by done. split_and!; [by apply Hst|done|by intros ?%elem_of_nil]. }
    assert (∀ a, a ∈ addrs → nt_stores c2 !! a = Some st1) as Hall.
    { intros a Ha. destruct (Hst2 a Ha) as [?|(_ & H1 & H2)]; [done|].
      by destruct (Hpeers a Ha). }
    destruct (store_view_insert st r raw Hok Hraw) as [Hok1 Hv]; [done|done|].
    exists c2. split; [done|]. split; [|by split; [|exists st1]].
    rewrite (Hall a0 Ha0). exact Hv.
  - intros dn u peer todo c2 Hl [Hf2 Hst2].
    assert (peer ∈ addrs) as Hin by (apply Hup; rewrite Hl; apply elem_of_app; right; left).
    assert (∃ x, nt_stores c2 !! peer = Some x ∧ (x = st ∨ x = st1)) as (x & Hx & Hx1).
    { destruct (Hst2 peer Hin) as [?|(? & _)]; eauto. }
    pose proof (handlePut_newer st x r raw Hraw Hn Hx1 Hok) as Hnew.
    pose proof (request_put c2 peer x Hf2 (Haddrs peer Hin) Hx raw) as Hreq.
    destruct (handlePutRecord (Ok raw) x) as [[status out] st'] eqn:Eh. simpl in Hnew. subst st'.
    simpl. rewrite (bind_run _ _ _ _ _ Hreq). split; [done|]. intros a Ha. simpl.
    destruct (decide (a = peer)) as [->|Hne]; [left; by rewrite lookup_insert_eq|].
    rewrite lookup_insert_ne by done. destruct (Hst2 a Ha) as [?|(? & ? & ?)]; [by left|right].
    split_and!; [done|done|]. rewrite elem_of_snoc. naive_solver.
Qed.

Lemma mesh_keys c kind : mesh_inv c → wan_kind_ok kind → ∃ ks,
  wan_Keys ops peers range order kind c = (ks, None, c) ∧ ∀ k, k ∈ ks ↔ is_Some (mesh_view c !! (kind, k)).
Proof.
  intros (Hf & st & Hok & Hst) [Hk Hs]. unfold wan_Keys, mesh_view.
  assert (w_store ops c = (st, c)) as E by (simpl; by rewrite (Hst addr Haddr)). run_bind E.
  set (X := list_to_set (keysOf range kind st) : gset string).
  assert (foldM (keysFromPeer ops kind) X peers c = (X, c)) as E2.
  { clear E Hpeers. induction peers as [|peer ps IH]; [done|]. rewrite foldM_cons. unfold keysFromPeer at 1.
    assert (peer ∈ addrs) as Hin by (apply Hup; left).
    destruct (request_keys c peer st Hf (Haddrs peer Hin) (Hst peer Hin) kind Hs) as (raw & Er & Hd).
    change (net_request range "GET" (keysURL peer kind) [] c) with (w_Do ops "GET" (keysURL peer kind) c) in Er.
    rewrite (bind_run _ _ _ _ _ Er). unfold mret, M_ret. simpl. rewrite Hd.
    assert (list_to_set (keysOf range kind st) ∪ X = X) as -> by set_solver.
    apply IH. intros a Ha. apply Hup. by right. }
  run_bind E2. exists (order X). split; [done|]. intros k. rewrite (Hst a0 Ha0). cbn [default from_option id].
  rewrite order_ok. unfold X. rewrite elem_of_list_to_set, keysOf_spec, store_view_lookup by done.
  unfold stored. split.
  - intros [Hne [raw Hraw]]. rewrite Hraw. simpl. destruct (Hok _ _ Hraw) as (r & -> & _). eauto.
  - intros [r Hr]. pose proof (stored_wan_ok st kind k r Hok Hk Hr) as (_ & _ & Hy).
    split; [by apply seg_ok_nonempty|]. destruct (st !! storeKey kind k); [eauto|done].
Qed.

Lemma mesh_members c : mesh_inv c → wan_Members ops peers c = (1 + Z.of_nat (length peers), c).
Proof.
  intros (Hf & st & Hok & Hst). unfold wan_Members.
  assert (∀ ps n, (∀ a, a ∈ ps → a ∈ addrs) →
    foldM (λ count peer, resp ← w_Do ops "GET" (pingURL peer);
      mret match resp with
           | Ok (status, _) => if status =? StatusOK then count + 1 else count
           | Err _ => count end) n ps c = (n + Z.of_nat (length ps), c)) as H; [|by apply H].
  induction ps as [|peer ps IH]; intros n Hps; [rewrite foldM_nil; f_equal; simpl; lia|].
  rewrite foldM_cons. assert (peer ∈ addrs) as Hin by (apply Hps; left).
  pose proof (request_ping c peer st Hf (Haddrs peer Hin) (Hst peer Hin)) as E.
  change (net_request range "GET" (pingURL peer) [] c) with (w_Do ops "GET" (pingURL peer) c) in E.
  rewrite (bind_run _ _ _ _ _ E). unfold mret, M_ret. simpl.
  rewrite IH by (intros a Ha; apply Hps; by right). f_equal. simpl. lia.
Qed.

(** The backend of every node of the mesh is a client of the same reliable
    store. *)
Lemma mesh_reliable :
  ReliableKV (wan_kv ops peers range order) mesh_view mesh_inv wan_kind_ok wan_key_ok.
Proof.
  split.
  - intros c kind key Hc Hk Hy. exists c. split; [by apply mesh_get|]. done.
  - intros c r Hc Hk Hy Hn. by apply mesh_put.
  - intros c kind Hc Hk. destruct (mesh_keys c kind Hc Hk) as (ks & E & H). by exists ks, c.
  - intros c kind key ttl Hc. eexists _, _, c. split; [reflexivity|]. split_and!; [done|done|].
    intros f c1 [= <-] Hc1. by split.
  - intros c Hc. simpl. by rewrite mesh_members.
  - intros c kind key r (Hf & st & Hok & Hst). unfold mesh_view. rewrite (Hst a0 Ha0). cbn [default from_option id].
    destruct (no_char nul kind) eqn:Hk.
    + rewrite store_view_lookup by done. intros Hr. by apply (stored_wan_ok st).
    + by rewrite store_view_bad_kind.
Qed.
End Node.
End Mesh.

(** (C25) Requests for a record reach the handler of that record: for a peer
    address without a slash and any kind and key other than the empty string,
    "." and "..", with any other bytes, slashes included, the URL that Get builds leads to the peer, and the peer's
    multiplexer calls handleGetRecord with exactly that kind and key. *)
Theorem record_url_routed {gob : Gob} range peer kind key body (st : store) :
  no_char sep peer = true → seg_ok kind = true → seg_ok key = true →
  ∃ path, host_path (recordURL peer kind key) = Some (peer, path)
  ∧ serve range "GET" (cleanPath path) body st = handleGetRecord kind key st.
Proof.
  intros Hp Hk Hy. exists (String sep (join_char sep ["v1"; "records"; PathEscape kind; PathEscape key])). split.
  - exact (host_path_join peer ["v1"; "records"; PathEscape kind; PathEscape key] Hp).
  - rewrite cleanPath_good; [|done|repeat constructor; by apply PathEscape_good].
    unfold serve. rewrite record_segments.
    by rewrite (proj2 (String.eqb_neq kind "") (seg_ok_nonempty _ Hk)), (proj2 (String.eqb_neq key "") (seg_ok_nonempty _ Hy)).
Qed.

Lemma record_url_routed_witness : ∃ path,
  host_path (recordURL "n1:8443" "blob" "a/b %..") = Some ("n1:8443", path)
  ∧ path = "/v1/records/blob/a%2Fb%20%25.."
  ∧ serve (gob := bits_gob) (λ _, []) "GET" (cleanPath path) (Ok [])
      {[storeKey "blob" "a/b %.." := ["001"%byte]]} = ((StatusOK, ["001"%byte]), {[storeKey "blob" "a/b %.." := ["001"%byte]]}).
Proof.
  destruct (record_url_routed (gob := bits_gob) (λ _, []) "n1:8443" "blob" "a/b %.." (Ok [])
    {[storeKey "blob" "a/b %.." := ["001"%byte]]} eq_refl eq_refl eq_refl) as (path & E & H).
  exists path. split; [exact E|]. vm_compute in E. injection E as <-. split; [reflexivity|].
  rewrite H. vm_compute. reflexivity.
Defined.
