(* ===== verification/WanFleet.v ===== *)
(** A WAN deployment: a fleet of blob nodes ([BlobFleet.v]) on the HTTPS backend
    ([Wan.v], [WanNet.v]). With a full mesh and timely pushes it converges like
    the LAN fleet; a push that is lost can leave a node stale for good, and a
    push that arrives between the engine's check and its Put is overwritten. *)

From S2P Require Import Prelude GoStrings Version Metrics Engine EngineSpec Fleet.
From S2P Require Import GoPath GoURL FileSystem AtomicFile Cert Bundle Hook Certs Blob BlobFleet.
From S2P Require Import Gobcodec Cluster Wan WanNet Samples.

Open Scope Z_scope.

Section WanFleet.
Context {crypto : Crypto} {commands : Commands} {gob : Gob} {gob_laws : GobLaws}.
Context (range : store → list string) (order : gset string → list string).

(** Every other node is a peer. *)
Definition peers_of (addrs : list string) (a : string) : list string := filter (λ x, x ≠ a) addrs.

Definition wan_clients (timely : bool) (addrs : list string) : list (ClusterKV (M Net)) :=
  (λ a, wan_kv (net_ops range timely a) (peers_of addrs a) range order) <$> addrs.

Definition wan_members (timely : bool) (addrs : list string) (nodes : list blob_node) : list member :=
  zip_with node_member (wan_clients timely addrs) nodes.

Definition wan_node_ok : blob_node → Prop := node_ok (key_ok := wan_key_ok).

Context (a0 : string) (addrs : list string) (Ha0 : a0 ∈ addrs)
  (Haddrs : ∀ a, a ∈ addrs → no_char sep a = true).

Lemma wan_clients_ok :
  (∀ st k, k ∈ range st ↔ is_Some (st !! k)) → (∀ X k, k ∈ order X ↔ k ∈ X) →
  Forall (λ kv, ReliableKV kv (mesh_view a0) (mesh_inv addrs) wan_kind_ok wan_key_ok) (wan_clients true addrs).
Proof.
  intros Hr Ho. apply Forall_fmap, Forall_forall. intros a Ha. apply mesh_reliable; try done.
  - intros b Hb. destruct (decide (b = a)) as [->|Hne]; [by left|right]. by apply list_elem_of_filter.
  - intros b Hb. by apply list_elem_of_filter in Hb as [_ Hb].
Qed.

(** A WAN fleet converges if it is a full mesh of nodes that are up and
    every push arrives before the next step: after every node has ticked and
    then every node has ticked again, all stores hold the newest record of
    every resource, it is one of the copies there were, and on every node that
    configures the resource the destination file has exactly its data. *)
Theorem wan_fleet_converges nodes c0 ns0 sched1 sched2 more :
  (∀ st k, k ∈ range st ↔ is_Some (st !! k)) → (∀ X k, k ∈ order X ↔ k ∈ X) →
  length addrs = length nodes → tame_commands → Forall wan_node_ok nodes →
  mesh_inv addrs c0 → Forall2 node_inv nodes ns0 →
  sched_ok sched1 → sched_ok sched2 → sched_ok more →
  round (wan_members true addrs nodes) sched1 → round (wan_members true addrs nodes) sched2 →
  let '(c, ns) := fleet_run (wan_members true addrs nodes) (c0, ns0) (sched1 ++ sched2 ++ more) in
  ∀ name, let best := mesh_view a0 c !! (BlobKind, name) in
  let before := mesh_view a0 c0 !! (BlobKind, name) in
  covers best before
  ∧ (∀ i, covers best (local_of (wan_members true addrs nodes) i name))
  ∧ (best = before ∨ ∃ i, best = local_of (wan_members true addrs nodes) i name)
  ∧ ∀ i nd n ra r, nodes !! i = Some nd → ns !! i = Some n →
      bp_byName (bn_blob nd) !! name = Some ra → best = Some r →
      content (os_tree (nd_os n.1)) (pl_key (bn_dst nd name)) = Some (map_get [] (Blobs r) "data").
Proof.
  intros Hr Ho Hlen Hcmd Hnodes Hc Hns H1 H2 H3 Hr1 Hr2.
  apply (blob_fleet_converges (kind_ok := wan_kind_ok) (key_ok := wan_key_ok) (view := mesh_view a0)
    (inv := mesh_inv addrs) ltac:(by split) (wan_clients true addrs) nodes
    ltac:(unfold wan_clients; by rewrite length_fmap)
    c0 ns0 sched1 sched2 more Hcmd (wan_clients_ok Hr Ho) Hnodes Hc Hns H1 H2 H3 Hr1 Hr2).
Qed.
End WanFleet.

(** ** Two nodes *)

Definition store_range (st : store) : list string := (map_to_list st).*1.

Lemma store_range_ok st k : k ∈ store_range st ↔ is_Some (st !! k).
Proof.
  unfold store_range. rewrite list_elem_of_fmap. split.
  - intros ([k' raw] & -> & Hin). apply elem_of_map_to_list in Hin. eauto.
  - intros [raw Hr]. exists (k, raw). split; [done|]. by apply elem_of_map_to_list.
Qed.

Definition two : list string := ["n1:8443"; "n2:8443"].
Definition empty_net : Net := mkNet {["n1:8443" := ∅; "n2:8443" := ∅]} [] [].

(** ** A push between the check and the write *)

(** The backend of a node, when a push to the node arrives before a Put takes
    effect. *)
Definition pushed_before {gob : Gob} (range : store → list string) (addr : string) (raw : bytes)
    (kv : ClusterKV (M Net)) : ClusterKV (M Net) :=
  {| kv_Get := kv_Get kv;
     kv_Put r := _ ← net_request range "PUT" (putURL addr) raw; kv_Put kv r;
     kv_Keys := kv_Keys kv;
     kv_Lock := kv_Lock kv;
     kv_Members := kv_Members kv |}.

Section LostPush.
Context {gob : Gob} {gob_laws : GobLaws} {N : Type} (range : store → list string) (order : gset string → list string).
Context (addr : string) (peers : list string) (Haddr : no_char sep addr = true).
Let ops := net_ops range false addr.
Context (raw : bytes) (e : Engine (M (Net * N))) (p : Provider (M N))
  (Hcl : e_cl e = lift_kv (pushed_before range addr raw (wan_kv ops peers range order))).
Context (Hnow : ∀ c n, ∃ t n', e_now e (c, n) = (t, (c, n')))
  (Hmetrics : ∀ emit, e_metrics e = Some emit → ∀ ev c n, ∃ u n', emit ev (c, n) = (u, (c, n'))).

(** A Get of an entry the node has. *)
Lemma own_get c st kind key r :
  nt_stores c !! addr = Some st → stored st (storeKey kind key) = Some r →
  wan_Get ops peers kind key c = (Some r, true, None, c).
Proof.
  intros Hst Hr. unfold wan_Get. assert (w_store ops c = (st, c)) as E by (simpl; by rewrite Hst). run_bind E.
  unfold stored in Hr. destruct (st !! storeKey kind key) as [b|]; [|done]. simpl in Hr.
  destruct (decodeRecord b) as [r'|e0]; [|done]. by injection Hr as ->.
Qed.

(** A Put sets the node's own entry; the pushes to the peers are sent off. *)
Lemma own_put c st l :
  nt_stores c !! addr = Some st → ∃ c' st', wan_Put ops peers l c = (None, c') ∧ nt_stores c' !! addr = Some st'
  ∧ stored st' (storeKey (Kind l) (Key l)) = Some l.
Proof.
  intros Hst. unfold wan_Put. destruct (encodeRecord_ok l) as (b & -> & Hb).
  set (k := storeKey (Kind l) (Key l)). eassert (w_set ops k b c = (tt, _)) as E1 by reflexivity. run_bind E1.
  rewrite Hst. cbn [default from_option id]. set (c1 := set_stores _ c).
  assert (∀ ps c1, nt_stores c1 !! addr = Some (<[k := b]> st) → ∃ c2,
    foldM (λ _ peer, w_goPut ops (putURL peer) b) tt ps c1 = (tt, c2) ∧ nt_stores c2 !! addr = Some (<[k := b]> st)) as Hf.
  { induction ps as [|q ps IH]; intros c2 H2; [by exists c2|]. rewrite foldM_cons. simpl. by apply IH. }
  destruct (Hf peers c1) as (c2 & E2 & H2); [apply lookup_insert_eq|]. run_bind E2.
  exists c2, (<[k := b]> st). split_and!; [done|done|]. unfold stored. rewrite lookup_insert_eq. simpl. by rewrite Hb.
Qed.

(** (C35) The backend has no lock, so a push can be lost to a local publish. Take
    any node of any network, with an entry [r0] and a newer local record [l];
    a peer's push of a record [rp] that is newer still arrives in the middle of
    the engine's iteration for that key, after the check before the Put. The
    push is accepted: the handler answers 204 and the node has [rp]. Then the
    Put stores [l] over it, and at the end of the iteration the newest record
    is gone from this node. *)
Theorem local_put_loses_push idx changed c n st l r0 rp :
  let k := storeKey (Kind l) (Key l) in
  nt_faults c = [] → nt_stores c !! addr = Some st → idx !! Key l = Some l →
  stored st k = Some r0 → Newer (version l) (version r0) = true →
  decodeRecord raw = Ok rp → Kind rp = Kind l → Key rp = Key l → Newer (version rp) (version l) = true →
  ((handlePutRecord (Ok raw) st).1.1 = StatusNoContent ∧ stored (handlePutRecord (Ok raw) st).2 k = Some rp)
  ∧ ∃ changed' c' n' st', tickKey e (lift_provider p) (Kind l) idx changed (Key l) (c, n) = (changed', (c', n'))
    ∧ nt_stores c' !! addr = Some st' ∧ stored st' k = Some l.
Proof.
  intros k Hf Hst Hidx Hr0 Hn0 Hraw Hkp Hyp Hnp.
  pose proof (handlePutRecord_valid st raw rp Hraw) as Hpush. pose proof (request_put range c addr st Hf Haddr Hst raw) as Hreq.
  destruct (handlePutRecord (Ok raw) st) as [[status out] st1] eqn:Eh. destruct Hpush as (Hstatus & Hpk & _).
  rewrite Hkp, Hyp in Hpk. fold k in Hpk. rewrite Hr0 in Hpk.
  assert (Newer (version rp) (version r0) = true) as Hn1 by (by eapply Newer_trans). simpl in Hpk. rewrite Hn1 in Hpk.
  split; [by split|]. simpl in Hstatus.
  assert (∀ n, kv_Get (e_cl e) (Kind l) (Key l) (c, n) = (Some r0, true, None, (c, n))) as Eget.
  { intros n'. rewrite Hcl. unfold lift_kv, lift_fst. simpl. by rewrite (own_get c st _ _ r0 Hst Hr0). }
  set (c1 := set_stores (<[addr := st1]> (nt_stores c)) c).
  destruct (own_put c1 st1 l) as (c2 & st2 & Ep & Hst2 & Hl2); [apply lookup_insert_eq|].
  assert (kv_Put (e_cl e) l (c, n) = (None, (c2, n))) as Eput.
  { rewrite Hcl. unfold lift_kv, lift_fst. cbn [kv_Put pushed_before fst snd]. rewrite (bind_run _ _ _ _ _ Hreq).
    fold c1. cbn [wan_kv kv_Put]. by rewrite Ep. }
  destruct (node_metrics e Hmetrics (mkEvent PublishTotal [Kind l] Inc) c2 n) as (n4 & E4).
  assert (maybePublish e (Kind l) (Key l) (idx !! Key l) (Some r0) (c, n) = (tt, (c2, n4))) as Epub.
  { rewrite Hidx. unfold maybePublish. rewrite Hn0. cbn [negb].
    assert (kv_Lock (e_cl e) (Kind l) (Key l) (e_lockTTL e) (c, n) = (Some (lift_fst (mret tt)), None, (c, n))) as El
      by (by rewrite Hcl).
    run_bind El. specialize (Eget n). run_bind Eget. rewrite Hn0. cbn [negb andb].
    match goal with |- context [@mbind _ _ _ _ ?k (@mbind _ _ _ _ ?g (kv_Put (e_cl e) l))] =>
      assert ((kv_Put (e_cl e) l ≫= g) (c, n) = (tt, (c2, n4))) as E5 by (run_bind Eput; exact E4) end.
    run_bind E5. done. }
  destruct (tickKey_cluster e p Hnow Hmetrics (Kind l) idx changed (Key l) c n _ _ _ c n c2 n4 (Eget n) Epub)
    as (changed' & n' & E).
  by exists changed', c2, n', st2.
Qed.
End LostPush.

Section WanSample.
#[local] Existing Instances toy_crypto ok_commands bits_gob bits_gob_laws.

Let members (timely : bool) := wan_members store_range elements timely two sample_nodes.

Lemma empty_mesh : mesh_inv two empty_net.
Proof.
  split; [done|]. exists ∅. split; [intros sk raw H; by rewrite lookup_empty in H|].
  intros a Ha. apply list_elem_of_In in Ha. simpl in Ha. destruct Ha as [<-|[<-|[]]]; by vm_compute.
Qed.

Lemma wan_round l : 0%nat ∈ l → 1%nat ∈ l → round (members true) (tick_of <$> l).
Proof.
  intros H0 H1 [|[|i]] Hi; [exists (tick_of 0)|exists (tick_of 1)|simpl in Hi; lia].
  all: split; [by apply list_elem_of_fmap_2|done].
Qed.

Lemma wan_fleet_converges_witness :
  let '(c, ns) := fleet_run (members true) (empty_net, sample_states) (tick_of <$> [0; 1; 0; 1]%nat) in
  ∀ i nd n r, sample_nodes !! i = Some nd → ns !! i = Some n →
    bp_byName (bn_blob nd) !! "a" = Some sample_resource →
    mesh_view "n1:8443" c !! (BlobKind, "a") = Some r →
    content (os_tree (nd_os n.1)) (pl_key (bn_dst nd "a")) = Some (map_get [] (Blobs r) "data").
Proof.
  pose proof (wan_fleet_converges store_range elements "n1:8443" two ltac:(left)
    ltac:(intros a [<-|[<-|[]]]%list_elem_of_In; reflexivity)
    sample_nodes empty_net sample_states (tick_of <$> [0; 1]%nat) (tick_of <$> [0; 1]%nat) []
    store_range_ok ltac:(intros X k; apply elem_of_elements) eq_refl ok_commands_tame
    (sample_nodes_ok wan_key_ok eq_refl) empty_mesh sample_states_ok (ticks_ok _) (ticks_ok _) (Forall_nil_2 _)
    (wan_round [0; 1]%nat ltac:(repeat constructor) ltac:(repeat constructor))
    (wan_round [0; 1]%nat ltac:(repeat constructor) ltac:(repeat constructor))) as H.
  fold (members true) in H.
  change ((tick_of <$> [0; 1]%nat) ++ (tick_of <$> [0; 1]%nat) ++ []) with (tick_of <$> [0; 1; 0; 1]%nat) in H.
  destruct (fleet_run (members true) (empty_net, sample_states) (tick_of <$> [0; 1; 0; 1]%nat)) as [c ns].
  intros i nd n r Hnd Hn Hra Hr. destruct (H "a") as (_ & _ & _ & Hfiles).
  exact (Hfiles i nd n sample_resource r Hnd Hn Hra Hr).
Defined.

(** The same run, computed: both stores and both disks end with the newer
    source. *)
Example wan_sample_run :
  let '(c, ns) := fleet_run (members true) (empty_net, sample_states) (tick_of <$> [0; 1; 0; 1]%nat) in
  version <$> mesh_view "n1:8443" c !! (BlobKind, "a") = Some (mkVersion 7 0 "02")
  ∧ version <$> mesh_view "n2:8443" c !! (BlobKind, "a") = Some (mkVersion 7 0 "02")
  ∧ (λ n : BlobNode, content (os_tree (nd_os n.1)) ["srv"; "a"]) <$> ns = [Some ["002"%byte]; Some ["002"%byte]].
Proof. vm_compute. repeat split. Qed.

(** ** A push that is lost *)

(** Node 0 has published version 5 and both stores hold it; then node 1
    publishes version 7, and the push of that record is lost. *)
Definition after_loss : Net * list BlobNode :=
  let s1 := fleet_run (members true) (empty_net, sample_states) [tick_of 0] in
  let s2 := fleet_run (members false) s1 [tick_of 1] in
  (mkNet (nt_stores s2.1) [] [], s2.2).

Definition loss_net : Net := Eval vm_compute in after_loss.1.
Definition loss_os (i : nat) : OS := default (os_of []) ((λ w : BlobNode, nd_os w.1) <$> after_loss.2 !! i).
Definition loss_os0 : OS := Eval vm_compute in loss_os 0.
Definition loss_os1 : OS := Eval vm_compute in loss_os 1.

Definition loss_state (s : Net * list BlobNode) : Prop :=
  s.1 = loss_net ∧ (λ w : BlobNode, nd_os w.1) <$> s.2 = [loss_os0; loss_os1].

Lemma loss_step s i : loss_state s → loss_state (fleet_step (members true) s (tick_of i)).
Proof.
  destruct s as [c ns]. intros [Hc Hns]. simpl in Hc, Hns. subst c.
  destruct ns as [|[[os0 m0 r0] p0] [|[[os1 m1 r1] p1] [|]]]; try discriminate Hns.
  simpl in Hns. injection Hns as -> ->.
  destruct i as [|[|i]]; [split; vm_compute; reflexivity|split; vm_compute; reflexivity|done].
Qed.

Lemma loss_run l s : loss_state s → loss_state (fleet_run (members true) s (tick_of <$> l)).
Proof. revert s. induction l as [|i l IH]; intros s Hs; [exact Hs|]. apply IH. by apply loss_step. Qed.

Lemma after_loss_state : loss_state after_loss.
Proof. split; vm_compute; reflexivity. Qed.

(** (C34) A lost push is not made up for. Both stores hold version 5; node 1
    publishes version 7 and the push to node 0 is lost. From then on nothing
    fails; still, however often the nodes tick, node 1 finds its record in its
    own store and does not publish again, node 0 finds version 5 in its own
    store and does not ask its peers, and goes on serving the old data. *)
Theorem lost_push_never_corrected l :
  let s := fleet_run (members true) after_loss (tick_of <$> l) in
  version <$> mesh_view "n1:8443" s.1 !! (BlobKind, "a") = Some (mkVersion 5 0 "01")
  ∧ version <$> mesh_view "n2:8443" s.1 !! (BlobKind, "a") = Some (mkVersion 7 0 "02")
  ∧ (λ w : BlobNode, content (os_tree (nd_os w.1)) ["srv"; "a"]) <$> s.2 = [Some ["001"%byte]; Some ["002"%byte]].
Proof.
  destruct (loss_run l after_loss after_loss_state) as [Hc Hns]. cbv zeta. rewrite Hc.
  split; [vm_compute; reflexivity|]. split; [vm_compute; reflexivity|].
  transitivity ((λ o, content (os_tree o) ["srv"; "a"]) <$> ((λ w : BlobNode, nd_os w.1)
    <$> (fleet_run (members true) after_loss (tick_of <$> l)).2)); [by rewrite <-list_fmap_compose|].
  rewrite Hns. vm_compute. reflexivity.
Qed.

(** ** Samples of pushes *)

Definition wan_rec (n : Z) (x : Byte.byte) : Record_ :=
  mkRecord BlobKind "a" (mkVersion n 0 "") {["data" := [x]]} ∅ "".

Definition raw_of (r : Record_) : bytes := match encodeRecord r with Ok raw => raw | Err _ => [] end.

(** The store holds version 5, the node has version 7, and version 9 is pushed. *)
Definition busy_net : Net := mkNet {["n1:8443" := {[storeKey BlobKind "a" := raw_of (wan_rec 5 "001")]}]} [] [].
Definition busy_engine : Engine (M (Net * BlobNode)) :=
  node_engine (pushed_before store_range "n1:8443" (raw_of (wan_rec 9 "003"))
    (wan_kv (net_ops store_range false "n1:8443") ["n2:8443"] store_range elements)) node0.

Lemma busy_metrics emit : e_metrics busy_engine = Some emit → ∀ ev c n, ∃ u n', emit ev (c, n) = (u, (c, n')).
Proof. intros [= <-] ev c n. eexists tt, _. reflexivity. Qed.

Lemma local_put_loses_push_witness : ∃ changed c' n' st',
  tickKey busy_engine (lift_provider (blob_provider elements (sample_blob "n1"))) BlobKind
    {["a" := wan_rec 7 "002"]} [] "a" (busy_net, sample_state (sample_source "001" 5)) = (changed, (c', n'))
  ∧ nt_stores c' !! "n1:8443" = Some st' ∧ stored st' (storeKey BlobKind "a") = Some (wan_rec 7 "002").
Proof.
  refine (proj2 (local_put_loses_push store_range elements "n1:8443" ["n2:8443"] eq_refl (raw_of (wan_rec 9 "003"))
    busy_engine (blob_provider elements (sample_blob "n1")) eq_refl
    ltac:(intros c n; eexists _, n; reflexivity) busy_metrics {["a" := wan_rec 7 "002"]} [] busy_net
    (sample_state (sample_source "001" 5)) {[storeKey BlobKind "a" := raw_of (wan_rec 5 "001")]}
    (wan_rec 7 "002") (wan_rec 5 "001") (wan_rec 9 "003")
    eq_refl ltac:(apply lookup_singleton_eq) ltac:(apply lookup_singleton_eq)
    ltac:(vm_compute; reflexivity) eq_refl ltac:(vm_compute; reflexivity) eq_refl eq_refl eq_refl)).
Defined.

Lemma pushes_order_independent_witness :
  let push := [raw_of (wan_rec 5 "001"); raw_of (wan_rec 9 "003")] in
  let st := {[storeKey BlobKind "a" := raw_of (wan_rec 7 "002")]} in
  version <$> stored (deliver st push) (storeKey BlobKind "a")
    = version <$> stored (deliver st (reverse push)) (storeKey BlobKind "a").
Proof.
  apply (pushes_order_independent {[storeKey BlobKind "a" := raw_of (wan_rec 7 "002")]}
    [raw_of (wan_rec 5 "001"); raw_of (wan_rec 9 "003")]
    (reverse [raw_of (wan_rec 5 "001"); raw_of (wan_rec 9 "003")]) (storeKey BlobKind "a")).
  symmetry. apply reverse_Permutation.
Defined.
End WanSample.

(** ** Composite keys *)

(** Entries of different kinds do not collide, and a key comes back from
    its composite key: for kinds without the byte zero, storeKey is injective,
    and the keys listed for a kind are exactly the non-empty keys stored under
    it. *)
Theorem composite_keys_sound (st : store) kind key kind' key' :
  no_char nul kind = true → no_char nul kind' = true →
  (storeKey kind key = storeKey kind' key' ↔ kind = kind' ∧ key = key')
  ∧ (key ∈ keysOf store_range kind st ↔ key ≠ "" ∧ is_Some (st !! storeKey kind key)).
Proof.
  intros H H'. split; [split; [by apply storeKey_inj|by intros [-> ->]]|].
  apply keysOf_spec, store_range_ok.
Qed.

Lemma composite_keys_sound_witness :
  no_char nul "certs" = true ∧ storeKey "certs" "a" ≠ storeKey "blob" "a".
Proof.
  split; [reflexivity|]. intros E. destruct (composite_keys_sound ∅ "certs" "a" "blob" "a" eq_refl eq_refl) as [H _].
  apply H in E. destruct E as [E _]. discriminate E.
Defined.

(** A kind that contains the separator can collide with another one. *)
Example composite_keys_collide :
  let kind := "blob" +:+ String nul "x" in
  kind ≠ "blob" ∧ storeKey kind "y" = storeKey "blob" ("x" +:+ String nul "y").
Proof. by vm_compute. Qed.
