(* ===== verification/Refine.v ===== *)
(** What the backends implement: abstract stores with their operations, and a
    simulation. Calls of any number of clients, in any order and with records
    of any version, are answered by the Olric facade as by one map shared by
    all nodes, and by a mesh of the HTTPS backend as by a map per node, kept up
    to date by joins. (That a mesh, too, is one shared map as long as each Put is
    newer than the entry, which is what the engine checks before a Put, is
    [mesh_reliable] of [WanNet.v].) *)

From S2P Require Import Prelude GoStrings Version Metrics Engine EngineSpec.
From S2P Require Import GoPath GoURL FileSystem Gobcodec Cluster MemOlric Wan WanNet WanFleet.

Open Scope Z_scope.

(** ** The abstract store *)

Abbreviation store_map := (gmap (string * string) Record_).

(** A call of the engine; a lock is taken and released. *)
Inductive call :=
  | CallGet (kind key : string)
  | CallPut (r : Record_)
  | CallKeys (kind : string)
  | CallLock (kind key : string) (ttl : Z).

Inductive answer :=
  | AnsGet (r : option Record_) (ok : bool) (err : option error)
  | AnsPut (err : option error)
  | AnsKeys (keys : list string) (err : option error)
  | AnsLock.

(** What one map, shared by the callers, becomes with a call, and what the call
    may answer. *)
Definition store_after (σ : store_map) (x : call) : store_map :=
  match x with CallPut r => <[(Kind r, Key r) := r]> σ | _ => σ end.

Definition store_answers (σ : store_map) (x : call) (a : answer) : Prop :=
  match x, a with
  | CallGet kind key, AnsGet r ok err => r = σ !! (kind, key) ∧ ok = bool_decide (is_Some (σ !! (kind, key))) ∧ err = None
  | CallPut _, AnsPut err => err = None
  | CallKeys kind, AnsKeys ks err => err = None ∧ ∀ k, k ∈ ks ↔ is_Some (σ !! (kind, k))
  | CallLock _ _ _, AnsLock => True
  | _, _ => False
  end.

(** The same for a map at each of several addresses, when the call is made at
    [a]: a record put there replaces the one that is there, and elsewhere is
    kept if it is newer than the one there; a record that is not there is
    looked for elsewhere, in the order of the addresses; the keys are those of
    all addresses. *)
Definition replicas_after (σ : string → store_map) (a : string) (x : call) (b : string) : store_map :=
  match x with
  | CallPut r => if decide (b = a) then <[(Kind r, Key r) := r]> (σ b)
                 else partial_alter (pickNewer (Some r)) (Kind r, Key r) (σ b)
  | _ => σ b
  end.

Definition replicas_read (addrs : list string) (σ : string → store_map) (a : string) (kk : string * string) : option Record_ :=
  match σ a !! kk with
  | Some r => Some r
  | None => head (omap (λ b, σ b !! kk) (filter (λ b, b ≠ a) addrs))
  end.

Definition replicas_answers (addrs : list string) (σ : string → store_map) (a : string) (x : call) (ans : answer) : Prop :=
  match x, ans with
  | CallGet kind key, AnsGet r ok err =>
      r = replicas_read addrs σ a (kind, key) ∧ ok = bool_decide (is_Some r) ∧ err = None
  | CallPut _, AnsPut err => err = None
  | CallKeys kind, AnsKeys ks err => err = None ∧ ∀ k, k ∈ ks ↔ ∃ b, b ∈ addrs ∧ is_Some (σ b !! (kind, k))
  | CallLock _ _ _, AnsLock => True
  | _, _ => False
  end.

(** A call on a client. *)
Definition perform {C} (cl : ClusterKV (M C)) (x : call) : M C answer :=
  match x with
  | CallGet kind key => '(r, ok, err) ← kv_Get cl kind key; mret (AnsGet r ok err)
  | CallPut r => err ← kv_Put cl r; mret (AnsPut err)
  | CallKeys kind => '(ks, err) ← kv_Keys cl kind; mret (AnsKeys ks err)
  | CallLock kind key ttl =>
      '(rel, err) ← kv_Lock cl kind key ttl;
      _ ← (match rel with Some release => release | None => mret tt end : M C unit);
      mret AnsLock
  end.

(** Calls of several clients, one after the other. *)
Fixpoint perform_all {C} (clients : list (ClusterKV (M C))) (calls : list (nat * call)) : M C (list answer) :=
  match calls with
  | [] => mret []
  | (i, x) :: calls' =>
      match clients !! i with
      | None => mret []
      | Some cl => a ← perform cl x; rest ← perform_all clients calls'; mret (a :: rest)
      end
  end.

(** ** The simulation *)

(** The names a call uses can be stored. Nothing is asked of the version of a
    record. *)
Definition call_ok (kind_ok key_ok : string → Prop) (x : call) : Prop :=
  match x with
  | CallGet kind key => kind_ok kind ∧ key_ok key
  | CallPut r => kind_ok (Kind r) ∧ key_ok (Key r)
  | CallKeys kind => kind_ok kind
  | CallLock _ _ _ => True
  end.

(** Calls of clients that exist. *)
Definition calls_ok (kind_ok key_ok : string → Prop) (n : nat) (calls : list (nat * call)) : Prop :=
  Forall (λ ix, (ix.1 < n)%nat ∧ call_ok kind_ok key_ok ix.2) calls.

(** An abstract store: its states, what a call of a client does, and what it may
    answer. *)
Section Simulation.
Context {Σ : Type} (after : Σ → nat → call → Σ) (answers : Σ → nat → call → answer → Prop).

Definition store_run (σ : Σ) (calls : list (nat * call)) : Σ := foldl (λ σ ix, after σ ix.1 ix.2) σ calls.

Fixpoint answers_ok (σ : Σ) (calls : list (nat * call)) (as_ : list answer) : Prop :=
  match calls, as_ with
  | [], [] => True
  | (i, x) :: calls', a :: as' => answers σ i x a ∧ answers_ok (after σ i x) calls' as'
  | _, _ => False
  end.

(** Clients that answer one call as the abstract store does answer any
    sequence of calls as it does. *)
Context {C : Type} (R : C → Σ → Prop) (clients : list (ClusterKV (M C))) (kind_ok key_ok : string → Prop).
Context (step : ∀ i cl c σ x, clients !! i = Some cl → R c σ → call_ok kind_ok key_ok x →
  ∃ a c', perform cl x c = (a, c') ∧ R c' (after σ i x) ∧ answers σ i x a).

Lemma perform_all_simulates c σ calls :
  R c σ → calls_ok kind_ok key_ok (length clients) calls →
  ∃ as_ c', perform_all clients calls c = (as_, c') ∧ R c' (store_run σ calls) ∧ answers_ok σ calls as_.
Proof.
  revert c σ. induction calls as [|[i x] calls IH]; intros c σ Hc Hcalls; [by exists [], c|].
  apply Forall_cons in Hcalls as [[Hi Hx] Hcalls]. simpl in Hi, Hx |- *.
  destruct (lookup_lt_is_Some_2 clients i Hi) as [cl Hcl]. rewrite Hcl.
  destruct (step i cl c σ x Hcl Hc Hx) as (a & c1 & E1 & Hc1 & Ha). run_bind E1.
  destruct (IH c1 _ Hc1 Hcalls) as (as_ & c2 & E2 & Hc2 & Has). run_bind E2. by exists (a :: as_), c2.
Qed.
End Simulation.

(** ** The Olric facade *)

(** (C10) The Olric facade implements one shared map. On a cluster that is
    reachable, calls of any number of nodes in any order, with keys other than
    the reserved ones and records of any version, return exactly what one
    shared map from kind and key to record would return: Get the entry or its
    absence, Keys the keys of a kind, no call an error; a Put replaces the
    entry, an older record too; and the records that can be read afterwards
    are those of the map. *)
Theorem olric_implements_store `{!Gob, !GobLaws} {C} (ol : Olric (M C)) (raw : C → gmap (string * string) bytes)
    (oinv : C → Prop) (laws : OlricLaws ol raw oinv) n c calls :
  cluster_inv (raw := raw) (oinv := oinv) c → calls_ok (λ _, True) key_ok n calls →
  let σ := cluster_view (raw := raw) c in
  ∃ as_ c', perform_all (repeat (cluster_kv ol) n) calls c = (as_, c')
    ∧ cluster_inv (raw := raw) (oinv := oinv) c'
    ∧ cluster_view (raw := raw) c' = store_run (λ σ _, store_after σ) σ calls
    ∧ answers_ok (λ σ _, store_after σ) (λ σ _, store_answers σ) σ calls as_.
Proof.
  intros Hc Hcalls σ.
  destruct (perform_all_simulates (λ σ _, store_after σ) (λ σ _, store_answers σ)
    (λ c σ, cluster_inv (raw := raw) (oinv := oinv) c ∧ cluster_view (raw := raw) c = σ)
    (repeat (cluster_kv ol) n) (λ _, True) key_ok) with (c := c) (σ := σ) (calls := calls)
    as (as_ & c' & E & [Hi Hv] & Ha); [|done|by rewrite repeat_length|by exists as_, c'].
  clear c σ calls Hc Hcalls. intros i cl c σ x Hcl [Hc <-] Hx.
  apply list_elem_of_lookup_2, list_elem_of_In, repeat_spec in Hcl as ->.
  pose proof (cluster_reliable (ol := ol) (raw := raw) (oinv := oinv)) as Hkv.
  destruct x as [kind key|r|kind|kind key ttl]; simpl in Hx |- *.
  - destruct Hx as [Hk Hkey]. destruct (kv_get_law (ReliableKV := Hkv) c kind key Hc Hk Hkey) as (c' & E & Hv & Hi).
    simpl in E. run_bind E. eexists _, c'. by split_and!.
  - destruct Hx as [_ Hkey]. destruct (cluster_Put_run c r Hc Hkey) as (c' & E & Hv & Hi). run_bind E.
    eexists _, c'. by split_and!.
  - destruct (kv_keys_law (ReliableKV := Hkv) c kind Hc Hx) as (ks & c' & E & Hin & Hv & Hi). simpl in E. run_bind E.
    eexists _, c'. by split_and!.
  - destruct (kv_lock_law (ReliableKV := Hkv) c kind key ttl Hc) as (rel & err & c1 & E & Hv & Hi & Hrel).
    simpl in E. run_bind E. destruct rel as [f|]; [|by eexists AnsLock, c1].
    destruct (Hrel f c1 eq_refl Hi) as [Hv1 Hi1]. unfold_M. destruct (f c1) as [[] c2]. simpl in *.
    exists AnsLock, c2. split_and!; [done|done|congruence|done].
Qed.

(** ** The HTTPS backend *)

Section Mesh.
Context `{!Gob, !GobLaws} (range : store → list string) (order : gset string → list string).
Context (range_ok : ∀ st k, k ∈ range st ↔ is_Some (st !! k)) (order_ok : ∀ X k, k ∈ order X ↔ k ∈ X).
Context (addrs : list string) (Haddrs : ∀ a, a ∈ addrs → no_char sep a = true).
Implicit Types (st : store) (c : Net).

(** All nodes are up; their records may differ. *)
Definition replicas_inv c : Prop :=
  nt_faults c = [] ∧ ∀ a, a ∈ addrs → ∃ st, nt_stores c !! a = Some st ∧ wan_ok st.

(** The records a node has. *)
Definition node_view c (a : string) : store_map := store_view (default ∅ (nt_stores c !! a)).

Lemma node_view_eq c a st : nt_stores c !! a = Some st → node_view c a = store_view st.
Proof. unfold node_view. by intros ->. Qed.

Lemma getFromPeers_run a c kind key ps :
  replicas_inv c → wan_kind_ok kind → wan_key_ok key → (∀ b, b ∈ ps → b ∈ addrs) →
  getFromPeers (net_ops range true a) kind key ps c
  = (let r := head (omap (λ b, node_view c b !! (kind, key)) ps) in (r, bool_decide (is_Some r), None), c).
Proof.
  intros [Hf Hst] [Hk Hs] Hy. induction ps as [|p ps IH]; intros Hps; [done|]. cbn [getFromPeers omap list_omap].
  assert (p ∈ addrs) as Hin by (apply Hps; left). destruct (Hst p Hin) as (st & Hp & Hok).
  assert (∀ b, b ∈ ps → b ∈ addrs) as Hps' by (intros b Hb; apply Hps; by right).
  pose proof (request_record range c p st Hf (Haddrs p Hin) Hp kind key Hs Hy) as E.
  change (net_request range "GET" (recordURL p kind key) [] c)
    with (w_Do (net_ops range true a) "GET" (recordURL p kind key) c) in E. run_bind E.
  rewrite (node_view_eq c p st Hp), store_view_lookup by done. unfold stored.
  destruct (st !! storeKey kind key) as [raw|] eqn:El; simpl; [|by apply IH].
  by destruct (Hok _ _ El) as (r & -> & _).
Qed.

Lemma replicas_get a c kind key :
  replicas_inv c → a ∈ addrs → wan_kind_ok kind → wan_key_ok key →
  wan_Get (net_ops range true a) (peers_of addrs a) kind key c
  = (let r := replicas_read addrs (node_view c) a (kind, key) in (r, bool_decide (is_Some r), None), c).
Proof.
  intros Hc Ha Hk Hy. pose proof Hc as [Hf Hst]. destruct (Hst a Ha) as (st & Hs & Hok). unfold wan_Get.
  assert (w_store (net_ops range true a) c = (st, c)) as E by (simpl; by rewrite Hs). run_bind E.
  unfold replicas_read. rewrite (node_view_eq c a st Hs), store_view_lookup by (done || apply Hk). unfold stored.
  destruct (st !! storeKey kind key) as [raw|] eqn:El; simpl; [by destruct (Hok _ _ El) as (r & -> & _)|].
  apply getFromPeers_run; [done..|]. intros b Hb. by apply list_elem_of_filter in Hb as [_ ?].
Qed.

Lemma replicas_keys a c kind :
  replicas_inv c → a ∈ addrs → wan_kind_ok kind → ∃ ks,
  wan_Keys (net_ops range true a) (peers_of addrs a) range order kind c = (ks, None, c)
  ∧ ∀ k, k ∈ ks ↔ ∃ b, b ∈ addrs ∧ is_Some (node_view c b !! (kind, k)).
Proof.
  intros [Hf Hst] Ha [Hk Hs]. set (ops := net_ops range true a).
  assert (∀ b, b ∈ addrs → ∃ st, nt_stores c !! b = Some st
    ∧ ∀ k, k ∈ keysOf range kind st ↔ is_Some (node_view c b !! (kind, k))) as Hkeys.
  { intros b Hb. destruct (Hst b Hb) as (st & Hstb & Hok). exists st. split; [done|]. intros k.
    rewrite (keysOf_spec range range_ok), (node_view_eq c b st Hstb), store_view_lookup by done. unfold stored.
    split.
    - intros [Hne [raw Hraw]]. rewrite Hraw. simpl. destruct (Hok _ _ Hraw) as (r & -> & _). eauto.
    - intros [r Hr]. pose proof (stored_wan_ok st kind k r Hok Hk Hr) as (_ & _ & Hy).
      split; [by apply seg_ok_nonempty|]. destruct (st !! storeKey kind k); [eauto|done]. }
  assert (∀ ps X, (∀ b, b ∈ ps → b ∈ addrs) → ∃ X', foldM (keysFromPeer ops kind) X ps c = (X', c)
    ∧ ∀ k, k ∈ X' ↔ k ∈ X ∨ ∃ b, b ∈ ps ∧ is_Some (node_view c b !! (kind, k))) as Hfold.
  { induction ps as [|p ps IH]; intros X Hps.
    { exists X. split; [done|]. intros k. split; [by left|]. intros [?|(b & Hb & _)]; [done|by apply elem_of_nil in Hb]. }
    assert (p ∈ addrs) as Hin by (apply Hps; left). destruct (Hkeys p Hin) as (st & Hp & Hpk).
    destruct (request_keys range c p st Hf (Haddrs p Hin) Hp kind Hs) as (raw & Er & Hd).
    destruct (IH (list_to_set (keysOf range kind st) ∪ X)) as (X' & E & HX'); [intros b Hb; apply Hps; by right|].
    exists X'. split.
    - rewrite foldM_cons. unfold keysFromPeer at 1.
      change (net_request range "GET" (keysURL p kind) [] c) with (w_Do ops "GET" (keysURL p kind) c) in Er.
      rewrite (bind_run _ _ _ _ _ Er). unfold mret, M_ret. simpl. rewrite Hd. exact E.
    - intros k. rewrite HX', elem_of_union, elem_of_list_to_set, Hpk.
      setoid_rewrite elem_of_cons. naive_solver. }
  destruct (Hkeys a Ha) as (st & Hsta & Hak).
  destruct (Hfold (peers_of addrs a) (list_to_set (keysOf range kind st))) as (X & E & HX).
  { intros b Hb. by apply list_elem_of_filter in Hb as [_ ?]. }
  exists (order X). unfold wan_Keys.
  assert (w_store ops c = (st, c)) as E0 by (simpl; by rewrite Hsta). run_bind E0. run_bind E. split; [done|].
  intros k. rewrite order_ok, HX, elem_of_list_to_set, Hak. unfold peers_of. setoid_rewrite list_elem_of_filter.
  split; [naive_solver|]. intros (b & Hb & Hv). destruct (decide (b = a)) as [->|Hne]; [by left|right; eauto].
Qed.
(** A push joins the record with the one that is there. *)
Lemma push_view st r raw :
  wan_ok st → decodeRecord raw = Ok r → wan_kind_ok (Kind r) → wan_key_ok (Key r) →
  let st' := (handlePutRecord (Ok raw) st).2 in
  wan_ok st' ∧ store_view st' = partial_alter (pickNewer (Some r)) (Kind r, Key r) (store_view st)
  ∧ (handlePutRecord (Ok raw) st').2 = st'.
Proof.
  intros Hok Hr Hk Hy. destruct (store_view_insert st r raw Hok Hr Hk Hy) as [Hok1 Hv1].
  assert (store_view st !! (Kind r, Key r) = stored st (storeKey (Kind r) (Key r))) as Hl
    by (apply store_view_lookup; [done|apply Hk]).
  unfold stored in Hl. set (k := storeKey (Kind r) (Key r)) in *.
  set (kept := match st !! k with
               | Some existing =>
                   match decodeRecord existing with
                   | Ok r0 => negb (Newer (version r) (version r0)) | Err _ => false end
               | None => false end).
  assert (handlePutRecord (Ok raw) st = ((StatusNoContent, []), if kept then st else <[k := raw]> st)) as E.
  { unfold handlePutRecord. rewrite Hr. fold k. fold kept. by destruct kept. }
  cbv zeta. rewrite E. subst kept. cbn [snd].
  destruct (match st !! k with Some existing => _ | None => false end) eqn:Eg.
  - split_and!; [done| |by rewrite E].
    destruct (st !! k) as [raw0|]; [|done]. simpl in Hl. destruct (decodeRecord raw0) as [r0|e]; [|done].
    apply negb_true_iff in Eg. apply map_eq. intros kk. destruct (decide (kk = (Kind r, Key r))) as [->|Hne].
    + rewrite lookup_partial_alter_eq, Hl. unfold pickNewer. by rewrite Eg.
    + by rewrite lookup_partial_alter_ne.
  - split_and!; [done| |unfold handlePutRecord; rewrite Hr; fold k; by rewrite lookup_insert_eq, Hr, Newer_irrefl].
    rewrite Hv1. apply map_eq. intros kk. destruct (decide (kk = (Kind r, Key r))) as [->|Hne].
    + rewrite lookup_partial_alter_eq, lookup_insert_eq, Hl. destruct (st !! k) as [raw0|]; [|done]. simpl.
      destruct (decodeRecord raw0) as [r0|e]; [|done]. simpl.
      unfold pickNewer. apply negb_false_iff in Eg. by rewrite Eg.
    + by rewrite lookup_partial_alter_ne, lookup_insert_ne.
Qed.

(** The store of a node while a record put at [a] is on its way to the nodes
    that are not in [dn]. *)
Definition pushed_to (a k : string) (raw : bytes) (dn : list string) (b : string) st : store :=
  if decide (b = a) then <[k := raw]> st
  else if decide (b ∈ dn) then (handlePutRecord (Ok raw) st).2 else st.

Lemma replicas_push a c r raw :
  replicas_inv c → a ∈ addrs → decodeRecord raw = Ok r → wan_kind_ok (Kind r) → wan_key_ok (Key r) →
  let k := storeKey (Kind r) (Key r) in
  let c1 := set_stores (<[a := <[k := raw]> (default ∅ (nt_stores c !! a))]> (nt_stores c)) c in
  let '(_, c2) := foldM (λ _ p, w_goPut (net_ops range true a) (putURL p) raw) tt (peers_of addrs a) c1 in
  nt_faults c2 = [] ∧ ∀ b st, b ∈ addrs → nt_stores c !! b = Some st →
    nt_stores c2 !! b = Some (pushed_to a k raw (peers_of addrs a) b st).
Proof.
  intros [Hf Hst] Ha Hr Hk Hy k c1.
  apply (foldM_inv _ (λ dn _ c2, nt_faults c2 = [] ∧ ∀ b st, b ∈ addrs → nt_stores c !! b = Some st →
    nt_stores c2 !! b = Some (pushed_to a k raw dn b st))).
  - intros dn [] p todo c2 Hl [Hf2 Hst2].
    assert (p ∈ peers_of addrs a) as [Hpa Hp]%list_elem_of_filter by (rewrite Hl; apply elem_of_app; right; left).
    destruct (Hst p Hp) as (st & Hs & Hok). destruct (push_view st r raw Hok Hr Hk Hy) as (_ & _ & Hidem).
    pose proof (request_put range c2 p _ Hf2 (Haddrs p Hp) (Hst2 p st Hp Hs) raw) as Hreq.
    assert ((handlePutRecord (Ok raw) (pushed_to a k raw dn p st)).2 = (handlePutRecord (Ok raw) st).2) as Hnew.
    { unfold pushed_to. rewrite decide_False by done. by case_decide. }
    destruct (handlePutRecord (Ok raw) (pushed_to a k raw dn p st)) as [[status out] st'] eqn:Eh. simpl in Hnew. subst st'.
    simpl. rewrite (bind_run _ _ _ _ _ Hreq). split; [done|]. intros b stb Hb Hsb. simpl.
    destruct (decide (b = p)) as [->|Hne].
    + rewrite lookup_insert_eq. f_equal. unfold pushed_to. rewrite decide_False by done.
      rewrite decide_True by (apply elem_of_snoc; by right). congruence.
    + rewrite lookup_insert_ne, (Hst2 b stb Hb Hsb) by done. f_equal. unfold pushed_to.
      case_decide; [done|]. apply decide_ext. rewrite elem_of_snoc. naive_solver.
  - split; [done|]. intros b st Hb Hs. unfold pushed_to. simpl. case_decide as Hba.
    + subst b. by rewrite lookup_insert_eq, Hs.
    + by rewrite lookup_insert_ne.
Qed.

Lemma replicas_put a c r :
  replicas_inv c → a ∈ addrs → wan_kind_ok (Kind r) → wan_key_ok (Key r) → ∃ c',
  wan_Put (net_ops range true a) (peers_of addrs a) r c = (None, c') ∧ replicas_inv c'
  ∧ ∀ b, b ∈ addrs → node_view c' b = replicas_after (node_view c) a (CallPut r) b.
Proof.
  intros Hc Ha Hk Hy. unfold wan_Put. destruct (encodeRecord_ok r) as (raw & -> & Hr).
  pose proof (replicas_push a c r raw Hc Ha Hr Hk Hy) as Hpush. cbv zeta in Hpush.
  set (c1 := set_stores _ c) in Hpush.
  assert (w_set (net_ops range true a) (storeKey (Kind r) (Key r)) raw c = (tt, c1)) as E1 by done. run_bind E1.
  destruct (foldM (λ _ p, w_goPut (net_ops range true a) (putURL p) raw) tt (peers_of addrs a) c1) as [[] c2] eqn:E2.
  run_bind E2. destruct Hpush as [Hf2 Hst2].
  exists c2. split; [done|]. destruct Hc as [_ Hst].
  assert (∀ b, b ∈ addrs → ∃ st, nt_stores c2 !! b = Some st ∧ wan_ok st
    ∧ store_view st = replicas_after (node_view c) a (CallPut r) b) as Hall.
  { intros b Hb. destruct (Hst b Hb) as (st & Hs & Hok). eexists. split; [by apply Hst2|].
    unfold pushed_to, replicas_after. rewrite (node_view_eq c b st Hs). case_decide as Hba; [by apply store_view_insert|].
    rewrite decide_True by (by apply list_elem_of_filter).
    by destruct (push_view st r raw Hok Hr Hk Hy) as (? & ? & _). }
  split; [split; [done|]|]; intros b Hb; destruct (Hall b Hb) as (st & Hs & Hok & Hv); [eauto|].
  by rewrite (node_view_eq c2 b st Hs).
Qed.

(** The address of a client. *)
Definition addr_of (i : nat) : string := default "" (addrs !! i).

(** (C11) A full mesh of the HTTPS backend implements a replicated map, if the
    nodes are up and every push arrives before the next call. For calls at any
    nodes in any order and records of any version, each node has a map of its
    own: a Put replaces the entry of the node it is made at, and joins with the
    entry of every other node, which keeps the newest; a Get answers the node's
    own entry, else that of the first peer that has one, else that there is
    none; Keys answers the keys of all nodes; no call answers an error. *)
Theorem mesh_implements_store c calls :
  replicas_inv c → calls_ok wan_kind_ok wan_key_ok (length addrs) calls →
  let after := λ σ i x, replicas_after σ (addr_of i) x in
  let answers := λ σ i x a, replicas_answers addrs σ (addr_of i) x a in
  ∃ as_ c', perform_all (wan_clients range order true addrs) calls c = (as_, c')
    ∧ replicas_inv c' ∧ (∀ a, a ∈ addrs → node_view c' a = store_run after (node_view c) calls a)
    ∧ answers_ok after answers (node_view c) calls as_.
Proof.
  intros Hc Hcalls after answers.
  destruct (perform_all_simulates after answers
    (λ c σ, replicas_inv c ∧ ∀ a, a ∈ addrs → node_view c a = σ a)
    (wan_clients range order true addrs) wan_kind_ok wan_key_ok) with (c := c) (σ := node_view c) (calls := calls)
    as (as_ & c' & E & [Hi Hv] & Ha); [|done|unfold wan_clients; by rewrite length_fmap|by exists as_, c'].
  clear c calls Hc Hcalls. intros i cl c σ x Hcl [Hc Hσ] Hx.
  apply list_lookup_fmap_Some in Hcl as (a & -> & Ha).
  assert (addr_of i = a) as Hai by (unfold addr_of; by rewrite Ha).
  apply list_elem_of_lookup_2 in Ha. subst after answers. cbv beta. rewrite Hai. clear i Hai.
  destruct x as [kind key|r|kind|kind key ttl]; simpl in Hx |- *.
  - destruct Hx as [Hk Hy]. pose proof (replicas_get a c kind key Hc Ha Hk Hy) as E. run_bind E.
    eexists _, c. split; [done|]. split; [done|]. split_and!; [|done|done]. unfold replicas_read.
    rewrite Hσ by done. destruct (σ a !! (kind, key)); [done|]. f_equal. apply list_omap_ext, Forall_Forall2_diag, Forall_forall.
    intros b [_ Hb]%list_elem_of_filter. by rewrite Hσ.
  - destruct Hx as [Hk Hy]. destruct (replicas_put a c r Hc Ha Hk Hy) as (c' & E & Hi & Hv). run_bind E.
    eexists _, c'. split_and!; try done. intros b Hb. rewrite Hv by done. unfold replicas_after. by rewrite Hσ.
  - destruct (replicas_keys a c kind Hc Ha Hx) as (ks & E & Hks). run_bind E.
    eexists _, c. split; [done|]. split; [done|]. split; [done|]. intros k. rewrite Hks. split; intros (b & Hb & Hv); exists b; (split; [done|]); revert Hv; by rewrite Hσ.
  - eexists AnsLock, c. by split_and!.
Qed.
End Mesh.

(** ** A sample *)

Section RefineSample.
#[local] Existing Instances bits_gob bits_gob_laws mem_olric_laws.

Definition record_at (t : Z) : Record_ := mkRecord "blob" "a" (mkVersion t 0 "") ∅ ∅ "n".

(** Two nodes write and read one key; the last record is older than the one
    before. *)
Definition sample_calls : list (nat * call) :=
  [(0%nat, CallPut (record_at 5)); (1%nat, CallGet "blob" "a"); (1%nat, CallLock "blob" "a" second);
   (1%nat, CallPut (record_at 7)); (0%nat, CallKeys "blob"); (0%nat, CallPut (record_at 6));
   (0%nat, CallGet "blob" "a"); (1%nat, CallGet "blob" "a")].

(** The older record replaces the newer one for both nodes. *)
Lemma olric_implements_store_witness :
  ∃ as_ c' r0 r1 ok0 ok1 e0 e1, perform_all (repeat (cluster_kv mem_olric) 2) sample_calls empty_mem = (as_, c')
  ∧ as_ !! 6%nat = Some (AnsGet r0 ok0 e0) ∧ as_ !! 7%nat = Some (AnsGet r1 ok1 e1)
  ∧ Primary ∘ version <$> r0 = Some 6 ∧ Primary ∘ version <$> r1 = Some 6.
Proof.
  destruct (olric_implements_store mem_olric mm_raw mem_ok mem_olric_laws 2 empty_mem sample_calls empty_mem_inv)
    as (as_ & c' & E & _ & _ & Ha).
  - repeat constructor; vm_compute; congruence.
  - exists as_, c'. rewrite E. clear E. do 8 (destruct as_ as [|? as_]; [simpl in Ha; tauto|]). simpl in Ha.
    destruct Ha as (_ & _ & _ & _ & _ & _ & H6 & H7 & _). destruct a5; try contradiction. destruct a6; try contradiction.
    destruct H6 as [-> _]. destruct H7 as [-> _].
    eexists _, _, _, _, _, _. split; [reflexivity|]. split; [reflexivity|]. split; [reflexivity|]. by vm_compute.
Defined.

(** Node 0 has the older record, node 1 has kept the newer one. *)
Lemma mesh_implements_store_witness :
  ∃ as_ c' r0 r1 ok0 ok1 e0 e1, perform_all (wan_clients store_range elements true two) sample_calls empty_net = (as_, c')
  ∧ as_ !! 6%nat = Some (AnsGet r0 ok0 e0) ∧ as_ !! 7%nat = Some (AnsGet r1 ok1 e1)
  ∧ Primary ∘ version <$> r0 = Some 6 ∧ Primary ∘ version <$> r1 = Some 7.
Proof.
  destruct (mesh_implements_store store_range elements store_range_ok ltac:(intros X k; apply elem_of_elements)
    two ltac:(intros a [<-|[<-|[]]]%list_elem_of_In; reflexivity) empty_net sample_calls) as (as_ & c' & E & _ & _ & Ha).
  - destruct empty_mesh as (Hf & st & Hok & Hst). split; [exact Hf|]. intros a Hin. exists st. auto.
  - repeat constructor; by vm_compute.
  - exists as_, c'. rewrite E. clear E. do 8 (destruct as_ as [|? as_]; [simpl in Ha; tauto|]). simpl in Ha.
    destruct Ha as (_ & _ & _ & _ & _ & _ & H6 & H7 & _). destruct a5; try contradiction. destruct a6; try contradiction.
    destruct H6 as [-> _]. destruct H7 as [-> _].
    eexists _, _, _, _, _, _. split; [reflexivity|]. split; [reflexivity|]. split; [reflexivity|]. by vm_compute.
Defined.
End RefineSample.
