(* ===== verification/Tls.v ===== *)
(** internal/wan/tls.go: the TLS configuration of the WAN backend. Keys,
    certificates and pools come from Go's crypto libraries, which are the
    parameter [TlsLib]. *)

From S2P Require Import Prelude GoStrings GoPath FileSystem Engine.

Open Scope Z_scope.

(** The template of the self-signed certificate: the fields that are set. *)
Record Template := mkTemplate {
  t_SerialNumber : Z;
  t_CommonName : string;
  t_NotBefore : Z;
  t_NotAfter : Z;
  t_DNSNames : list string;
  t_IPAddresses : list string
}.

(** wan.Config without the TLS override for tests. *)
Record WanConfig := mkWanConfig {
  wc_BindAddr : string;
  wc_Port : Z;
  wc_Peers : list string;
  wc_CertFile : string;
  wc_KeyFile : string;
  wc_CAFile : string;
  wc_Hostname : string
}.

Class TlsLib := {
  tls_key : Type;
  tls_cert : Type;
  cert_pool : Type;
  ecdsa_GenerateKey : M OS (result tls_key);
  rand_serial : M OS (result Z);
  tls_now : M OS Z;
  x509_CreateCertificate : Template → tls_key → M OS (result bytes);
  MarshalPKCS8PrivateKey : tls_key → result bytes;
  pem_EncodeToMemory : string → bytes → bytes;
  tls_X509KeyPair : bytes → bytes → result tls_cert;
  tls_LoadX509KeyPair : string → string → M OS (result tls_cert);
  AppendCertsFromPEM : bytes → option cert_pool
}.

Section Tls.
Context {lib : TlsLib}.

(** The fields of tls.Config that are set; [ClientAuth] says whether a client
    certificate is required and verified. *)
Record TlsConfig := mkTlsConfig {
  Certificates : list tls_cert;
  RequireAndVerifyClientCert : bool;
  ClientCAs : option cert_pool;
  RootCAs : option cert_pool;
  InsecureSkipVerify : bool
}.

Definition year : Z := 365 * 24 * 3600 * second.

(** wan.generateSelfSigned *)
Definition generateSelfSigned (hostname : string) : M OS (result tls_cert) :=
  priv ← ecdsa_GenerateKey;
  match priv with
  | Err e => mret (Err (Errorf "generate key" e))
  | Ok priv =>
      serial ← rand_serial;
      match serial with
      | Err e => mret (Err (Errorf "generate serial" e))
      | Ok serial =>
          now ← tls_now;
          let tpl := mkTemplate serial hostname now (now + year) [hostname; "localhost"] ["127.0.0.1"] in
          der ← x509_CreateCertificate tpl priv;
          match der with
          | Err e => mret (Err (Errorf "create certificate" e))
          | Ok der =>
              let certPEM := pem_EncodeToMemory "CERTIFICATE" der in
              match MarshalPKCS8PrivateKey priv with
              | Err e => mret (Err (Errorf "marshal private key" e))
              | Ok keyDER => mret (tls_X509KeyPair certPEM (pem_EncodeToMemory "PRIVATE KEY" keyDER))
              end
          end
      end
  end.

(** The choice of the node's certificate in buildTLSConfig. *)
Definition nodeCertificate (certFile keyFile hostname : string) : M OS (result tls_cert) :=
  if String.eqb certFile "" then
    cert ← generateSelfSigned hostname;
    mret (match cert with Err e => Err (Errorf "generate self-signed cert" e) | Ok c => Ok c end)
  else
    cert ← tls_LoadX509KeyPair certFile keyFile;
    mret (match cert with Err e => Err (Errorf "load cert/key" e) | Ok c => Ok c end).

(** wan.buildTLSConfig: the server's and the client's configuration. *)
Definition buildTLSConfig (certFile keyFile caFile hostname : string) : M OS (result (TlsConfig * TlsConfig)) :=
  if negb (String.eqb caFile "") && String.eqb certFile ""
  then mret (Err (Errors "wan: --tls-ca requires --tls-cert and --tls-key (mTLS needs a client certificate)"))
  else
    cert ← nodeCertificate certFile keyFile hostname;
    match cert with
    | Err e => mret (Err e)
    | Ok cert =>
        if negb (String.eqb caFile "") then
          caPEM ← ReadFile (Clean caFile);
          match caPEM with
          | Err e => mret (Err (Errorf "read CA file" e))
          | Ok caPEM =>
              match AppendCertsFromPEM caPEM with
              | None => mret (Err (Errors ("parse CA cert from " +:+ caFile)))
              | Some caPool =>
                  mret (Ok (mkTlsConfig [cert] true (Some caPool) None false,
                            mkTlsConfig [cert] false None (Some caPool) false))
              end
          end
        else
          mret (Ok (mkTlsConfig [cert] false None None false, mkTlsConfig [] false None None true))
    end.

(** The two configurations, by whether there is a CA file. *)
Lemma buildTLSConfig_spec certFile keyFile caFile hostname s :
  match buildTLSConfig certFile keyFile caFile hostname s with
  | (Err _, _) => True
  | (Ok (server, client), _) =>
      ∃ cert s1, nodeCertificate certFile keyFile hostname s = (Ok cert, s1)
      ∧ Certificates server = [cert]
      ∧ if decide (caFile = "")
        then RequireAndVerifyClientCert server = false ∧ InsecureSkipVerify client = true ∧ Certificates client = []
        else certFile ≠ "" ∧ ∃ caPEM pool s2,
          ReadFile (Clean caFile) s1 = (Ok caPEM, s2) ∧ AppendCertsFromPEM caPEM = Some pool
          ∧ RequireAndVerifyClientCert server = true ∧ ClientCAs server = Some pool
          ∧ InsecureSkipVerify client = false ∧ RootCAs client = Some pool ∧ Certificates client = [cert]
  end.
Proof.
  unfold buildTLSConfig.
  destruct (negb (String.eqb caFile "") && String.eqb certFile "") eqn:Eg; [done|].
  unfold mbind at 1, M_bind at 1.
  destruct (nodeCertificate certFile keyFile hostname s) as [[cert|e] s1] eqn:Ec; [|done].
  destruct (String.eqb_spec caFile "") as [->|Hca]; simpl in Eg |- *.
  - exists cert, s1. by split_and!.
  - apply String.eqb_neq in Eg. unfold mbind at 1, M_bind at 1.
    destruct (ReadFile (Clean caFile) s1) as [[caPEM|e] s2] eqn:Er; [|done].
    destruct (AppendCertsFromPEM caPEM) as [pool|] eqn:Ep; [|done]. simpl.
    exists cert, s1. rewrite decide_False by done. split_and!; try done. exists caPEM, pool, s2. by split_and!.
Qed.

(** (C24) Peers are authenticated in both directions or not at all, and exactly
    as the flags say. If buildTLSConfig succeeds with a CA file, then a
    certificate file was given too, the server requires client certificates
    and verifies them against the pool read from that file, and the client
    presents the node's certificate and verifies servers against the same pool;
    without a CA file the server asks for no client certificate and the client
    verifies nothing. In both cases the server presents the node's
    certificate. *)
Theorem mutual_tls_or_none certFile keyFile caFile hostname s :
  match buildTLSConfig certFile keyFile caFile hostname s with
  | (Err _, _) => True
  | (Ok (server, client), _) =>
      ∃ cert s1, nodeCertificate certFile keyFile hostname s = (Ok cert, s1)
      ∧ Certificates server = [cert]
      ∧ if decide (caFile = "")
        then RequireAndVerifyClientCert server = false ∧ InsecureSkipVerify client = true ∧ Certificates client = []
        else certFile ≠ "" ∧ ∃ caPEM pool s2,
          ReadFile (Clean caFile) s1 = (Ok caPEM, s2) ∧ AppendCertsFromPEM caPEM = Some pool
          ∧ RequireAndVerifyClientCert server = true ∧ ClientCAs server = Some pool
          ∧ InsecureSkipVerify client = false ∧ RootCAs client = Some pool ∧ Certificates client = [cert]
  end.
Proof. apply buildTLSConfig_spec. Qed.

(** A CA without a certificate is refused before anything is generated or
    read. *)
Lemma ca_needs_certificate keyFile caFile hostname s :
  caFile ≠ "" → ∃ msg, buildTLSConfig "" keyFile caFile hostname s = (Err (Errors msg), s).
Proof.
  intros H. unfold buildTLSConfig. apply String.eqb_neq in H. rewrite H. simpl. eexists. reflexivity.
Qed.

(** ** Starting the backend *)

(** The part of wan.Backend that New decides. *)
Record BackendInit := mkBackend {
  bk_addr : string;
  bk_peers : list string;
  bk_server : TlsConfig;
  bk_client : TlsConfig
}.

(** [net.JoinHostPort] *)
Definition JoinHostPort (host port : string) : string :=
  if negb (no_char ":" host) then "[" +:+ host +:+ "]:" +:+ port else host +:+ ":" +:+ port.

(** wan.New; [override] is cfg.TLSConfig, [listen] the error of [net.Listen].
    The store starts empty. *)
Definition wan_New (override : option TlsConfig) (listen : string → option error) (cfg : WanConfig)
    : M OS (result BackendInit) :=
  let bindAddr := if String.eqb (wc_BindAddr cfg) "" then "0.0.0.0" else wc_BindAddr cfg in
  let hostname := if String.eqb (wc_Hostname cfg) "" then "localhost" else wc_Hostname cfg in
  let addr := JoinHostPort bindAddr (FormatInt (wc_Port cfg)) in
  tls ← match override with
        | Some server => mret (Ok (server, mkTlsConfig [] false None None true))
        | None => buildTLSConfig (wc_CertFile cfg) (wc_KeyFile cfg) (wc_CAFile cfg) hostname
        end;
  mret (match tls with
        | Err e => Err (Errorf "wan: build TLS config" e)
        | Ok (server, client) =>
            match listen addr with
            | Some e => Err (Errorf ("wan: listen " +:+ addr) e)
            | None => Ok (mkBackend addr (wc_Peers cfg) server client)
            end
        end).

(** Without a CA file, peers are not authenticated. *)
Lemma wan_New_tls cfg listen s :
  match wan_New None listen cfg s with
  | (Ok b, _) => wc_CAFile cfg = "" →
      RequireAndVerifyClientCert (bk_server b) = false ∧ InsecureSkipVerify (bk_client b) = true
  | (Err _, _) => True
  end.
Proof.
  unfold wan_New. set (hostname := if String.eqb (wc_Hostname cfg) "" then _ else _).
  pose proof (buildTLSConfig_spec (wc_CertFile cfg) (wc_KeyFile cfg) (wc_CAFile cfg) hostname s) as H.
  unfold mbind, M_bind. destruct (buildTLSConfig _ _ _ _ s) as [[[server client]|e] s']; [|done].
  unfold mret, M_ret. destruct (listen _); [done|]. intros Hca.
  destruct H as (cert & s1 & _ & _ & H). rewrite decide_True in H by done. naive_solver.
Qed.
End Tls.
