(* ===== verification/TestCerts.v ===== *)
(** internal/cert/testutil.go: the certificates and keys the tests write. What
    the helpers write is what the loaders read. *)

From S2P Require Import Prelude GoStrings GoPath FileSystem Engine AtomicFile Cert Bundle Gobcodec Tls.

Open Scope Z_scope.

(** An X.509 time has a resolution of one second. *)
Definition whole_second (t : Z) : Z := t / second * second.

(** The encoders and the parsers of Go's crypto libraries fit together, as
    documented, and do not touch the disk. *)
Class CryptoLaws (crypto : Crypto) (lib : TlsLib) : Prop := {
  generate_pure s : (ecdsa_GenerateKey s).2 = s;
  create_pure tpl key s : (x509_CreateCertificate tpl key s).2 = s;
  pem_roundtrip type data : pem_Decode (pem_EncodeToMemory type data) = Some (mkBlock type data);
  certificate_roundtrip tpl key s der s' : x509_CreateCertificate tpl key s = (Ok der, s') →
    ParseCertificate der = Ok (mkCertificate (whole_second (t_NotBefore tpl)) (whole_second (t_NotAfter tpl))
                                 (t_SerialNumber tpl) (t_DNSNames tpl) (t_CommonName tpl));
  pkcs8_roundtrip key der : MarshalPKCS8PrivateKey key = Ok der → ParsePKCS8PrivateKey der = true
}.

Section TestCerts.
Context {crypto : Crypto} {lib : TlsLib}.

(** The end of writeCertAndKey: the key. *)
Definition writeKey (keyPath : string) (priv : tls_key) : M OS (option error) :=
  if String.eqb keyPath "" then mret None
  else
    match MarshalPKCS8PrivateKey priv with
    | Err e => mret (Some e)
    | Ok keyDER => WriteFile keyPath (pem_EncodeToMemory "PRIVATE KEY" keyDER) 384
    end.

(** cert.writeCertAndKey; an error ends the test ([t.Fatal]). *)
Definition writeCertAndKey (certPath keyPath : string) (serial notAfter : Z) (dnsNames : list string) : M OS (option error) :=
  priv ← ecdsa_GenerateKey;
  match priv with
  | Err e => mret (Some e)
  | Ok priv =>
      let cn := match dnsNames with n :: _ => n | [] => "" end in
      let tpl := mkTemplate serial cn (notAfter - 90 * 24 * 3600 * second) notAfter dnsNames [] in
      der ← x509_CreateCertificate tpl priv;
      match der with
      | Err e => mret (Some e)
      | Ok der =>
          err ← MkdirAll (Dir certPath);
          match err with
          | Some e => mret (Some e)
          | None =>
              err ← WriteFile certPath (pem_EncodeToMemory "CERTIFICATE" der) 420;
              match err with
              | Some e => mret (Some e)
              | None => writeKey keyPath priv
              end
          end
      end
  end.

(** cert.WriteTestCert *)
Definition WriteTestCert (path : string) (notAfter : Z) (dnsNames : list string) : M OS (option error) :=
  writeCertAndKey path "" 42 notAfter dnsNames.

(** cert.WriteTestCertKey *)
Definition WriteTestCertKey (certPath keyPath : string) (serial notAfter : Z) (dnsNames : list string)
    : M OS (option error) :=
  writeCertAndKey certPath keyPath serial notAfter dnsNames.

(** ** What is written is read *)

Context {laws : CryptoLaws crypto lib}.

Lemma ReadFile_written s dir d name f :
  os_faults s = [] → abs_dir s dir d → good_name name = true → os_tree s !! (d ++ [name]) = Some (IFile f) →
  ReadFile (Join [dir; name]) s = (Ok (f_data f), s).
Proof. intros Hnf Hd Hn Hf. destruct (abs_dir_file s dir d name Hd Hn) as (q & Hq & Hq'). by eapply ReadFile_ok. Qed.

(** Writing a file of a directory leaves the directory. *)
Lemma WriteFile_in s dir d name data perm :
  os_faults s = [] → abs_dir s dir d → good_name name = true → dir_part (os_tree s !! (d ++ [name])) = None →
  ∃ f, f_data f = data ∧ let s' := set_tree (<[d ++ [name] := IFile f]> (os_tree s)) s in
    WriteFile (Join [dir; name]) data perm s = (None, s') ∧ abs_dir s' dir d.
Proof.
  intros Hnf Hd Hn Hp. destruct (abs_dir_file s dir d name Hd Hn) as (q & Hq & Hq').
  exists (written s (d ++ [name]) data perm). split; [unfold written; by repeat case_match|].
  split; [by eapply WriteFile_ok|]. apply (abs_dir_step s); [|done|exact Hd]. by apply same_dirs_insert.
Qed.

Lemma MkdirAll_file_dir s dir d name :
  os_faults s = [] → abs_dir s dir d → good_name name = true → MkdirAll (Dir (Join [dir; name])) s = (None, s).
Proof.
  intros Hnf Hd Hn. eapply MkdirAll_exists; [exact Hnf|by eapply resolve_Dir_Join|apply (ad_entry _ _ _ Hd)].
Qed.

(** What the helper leaves when it does not fail. *)
Lemma writeCertAndKey_files s dir d serial notAfter dnsNames s' :
  os_faults s = [] → abs_dir s dir d →
  dir_part (os_tree s !! (d ++ [CertFile])) = None → dir_part (os_tree s !! (d ++ [KeyFile])) = None →
  WriteTestCertKey (Join [dir; CertFile]) (Join [dir; KeyFile]) serial notAfter dnsNames s = (None, s') →
  ∃ der keyDER c k, os_faults s' = [] ∧ abs_dir s' dir d
    ∧ os_tree s' !! (d ++ [CertFile]) = Some (IFile c) ∧ f_data c = pem_EncodeToMemory "CERTIFICATE" der
    ∧ os_tree s' !! (d ++ [KeyFile]) = Some (IFile k) ∧ f_data k = pem_EncodeToMemory "PRIVATE KEY" keyDER
    ∧ (∀ x, x ≠ CertFile → x ≠ KeyFile → os_tree s' !! (d ++ [x]) = os_tree s !! (d ++ [x]))
    ∧ ParseCertificate der = Ok (mkCertificate (whole_second (notAfter - 90 * 24 * 3600 * second)) (whole_second notAfter)
                                   serial dnsNames (match dnsNames with n :: _ => n | [] => "" end))
    ∧ ParsePKCS8PrivateKey keyDER = true.
Proof.
  intros Hnf Hd Hc Hk. unfold WriteTestCertKey, writeCertAndKey. unfold_M.
  pose proof (generate_pure s) as Hg. destruct (ecdsa_GenerateKey s) as [[priv|e] s1]; simpl in Hg; subst s1; [|done].
  match goal with |- context [x509_CreateCertificate ?tpl ?k ?s] =>
    pose proof (create_pure tpl k s) as Hp; destruct (x509_CreateCertificate tpl k s) as [[der|e] s1] eqn:E end;
    simpl in Hp; subst s1; [|done].
  apply certificate_roundtrip in E. simpl in E. rewrite (MkdirAll_file_dir s dir d CertFile Hnf Hd eq_refl).
  destruct (WriteFile_in s dir d CertFile (pem_EncodeToMemory "CERTIFICATE" der) 420 Hnf Hd eq_refl Hc)
    as (c & Hcd & Ew & Hd1). rewrite Ew. set (s1 := set_tree _ _) in *.
  assert (d ++ [CertFile] ≠ d ++ [KeyFile]) as Hne by (by apply snoc_neq).
  assert (dir_part (os_tree s1 !! (d ++ [KeyFile])) = None) as Hk1 by (simpl; by rewrite lookup_insert_ne).
  unfold writeKey. destruct (String.eqb_spec (Join [dir; KeyFile]) "") as [E0|_].
  { destruct (abs_dir_file s dir d KeyFile Hd eq_refl) as (q & (Eq & _) & _). rewrite E0 in Eq. by destruct q. }
  destruct (MarshalPKCS8PrivateKey priv) as [keyDER|e] eqn:Em; [|done]. apply pkcs8_roundtrip in Em.
  destruct (WriteFile_in s1 dir d KeyFile (pem_EncodeToMemory "PRIVATE KEY" keyDER) 384 Hnf Hd1 eq_refl Hk1)
    as (k & Hkd & Ew2 & Hd2). rewrite Ew2. intros [= <-]. exists der, keyDER, c, k. simpl in *.
  split_and!; [done|done| |done|apply lookup_insert_eq|done| |done|done].
  - rewrite lookup_insert_ne by done. apply lookup_insert_eq.
  - intros x H1 H2. by rewrite !lookup_insert_ne by (apply snoc_neq; congruence).
Qed.

End TestCerts.

(** ** A sample *)

(** Libraries whose encodings are those of [Countable] values; every key is
    accepted. *)
Definition coded_crypto : Crypto := {|
  pem_Decode raw := (λ x : string * bytes, mkBlock x.1 x.2) <$> decode (of_bits raw);
  ParseCertificate der :=
    match decode (of_bits der) with
    | Some (nb, na, serial, names, cn) => Ok (mkCertificate nb na serial names cn)
    | None => Err (Errors "malformed certificate")
    end;
  ParsePKCS8PrivateKey _ := true;
  ParsePKCS1PrivateKey _ := false;
  ParseECPrivateKey _ := false;
  sha256_Sum256 data := data
|}.

Definition coded_tls : TlsLib := {|
  tls_key := unit;
  tls_cert := string;
  cert_pool := unit;
  ecdsa_GenerateKey := mret (Ok tt);
  rand_serial := mret (Ok 1);
  tls_now := mret 0;
  x509_CreateCertificate tpl _ :=
    mret (Ok (bits_of (encode (whole_second (t_NotBefore tpl), whole_second (t_NotAfter tpl), t_SerialNumber tpl,
                                t_DNSNames tpl, t_CommonName tpl))));
  MarshalPKCS8PrivateKey _ := Ok [];
  pem_EncodeToMemory type data := bits_of (encode (type, data));
  tls_X509KeyPair _ _ := Ok "";
  tls_LoadX509KeyPair _ _ := mret (Ok "");
  AppendCertsFromPEM _ := Some tt
|}.

Lemma coded_laws : CryptoLaws coded_crypto coded_tls.
Proof.
  split; try done.
  - intros type data. simpl. by rewrite of_bits_of, decode_encode.
  - intros tpl key s der s' [= <- <-]. simpl. by rewrite of_bits_of, decode_encode.
Qed.

Definition lineage_os : OS := mkOS (list_to_map [(["live"], IDir); (["live"; "web"], IDir)]) [] 18 0 [] [].

