(* ===== verification/Modules.v ===== *)
(** internal/module/module.go, internal/modules/stubs/stubs.go, and the module
    halves of internal/modules/certs/certs.go and blob.go: the registry of
    modules, building the enabled ones, and starting them. *)

From S2P Require Import Prelude GoStrings Version Metrics Engine.
From S2P Require Import GoPath FileSystem AtomicFile Cert Bundle Hook Certs Blob.

Open Scope Z_scope.

(** module.BlobResource *)
Record BlobResource := mkBlobResource {
  br_Name : string;
  br_Source : string;
  br_Dest : string;
  br_Strategy : string;
  br_Verify : list string;
  br_Reload : list string
}.

(** module.Config *)
Record ModuleConfig := mkModuleConfig {
  mc_LetsencryptPath : string;
  mc_ServingDir : string;
  mc_VerifyCmd : list string;
  mc_ReloadCmd : list string;
  mc_ReloadTimeout : Z;
  mc_BlobResources : list BlobResource;
  mc_Hostname : string
}.

(** The types that implement module.Module, with their fields. *)
Inductive Module_ :=
  | CertsModule (cfg : ModuleConfig)
  | BlobModule (resources : list BlobResource) (host : string)
  | StubModule (name intent : string).

(** Module.Name *)
Definition module_Name (m : Module_) : string :=
  match m with
  | CertsModule _ => "certs"
  | BlobModule _ _ => "blob"
  | StubModule name _ => name
  end.

(** module.Factory *)
Abbreviation Factory := (ModuleConfig → result Module_).

(** stubs.intents *)
Definition intents : list (string * string) :=
  [("acme-leader", "elect a single node (cluster.Leader) to run certbot/ACME renewal; pairs with the certs module to avoid duplicate ACME orders");
   ("ratelimit", "enforce fleet-wide rate limits using cluster.Counter (atomic Incr/Decr) plus an HTTP check endpoint");
   ("ocsp", "fetch and share OCSP staples as a newest-wins engine.Provider (kind=ocsp)");
   ("pubsub", "fan out cache purge / feature flags / maintenance toggles using cluster.Topic");
   ("health", "share upstream health and membership via short-TTL cluster keys")].

(** module.Register *)
Definition Register_ (reg : gmap string Factory) (name : string) (f : Factory) : gmap string Factory :=
  <[name := f]> reg.

(** The init functions of the three module packages. *)
Definition init_certs (reg : gmap string Factory) : gmap string Factory :=
  Register_ reg "certs" (λ cfg, Ok (CertsModule cfg)).
Definition init_blob (reg : gmap string Factory) : gmap string Factory :=
  Register_ reg "blob" (λ cfg, Ok (BlobModule (mc_BlobResources cfg) (mc_Hostname cfg))).
Definition init_stubs (reg : gmap string Factory) : gmap string Factory :=
  foldl (λ reg '(name, intent), Register_ reg name (λ _, Ok (StubModule name intent))) reg intents.

(** module.registry when main starts. *)
Definition registry : gmap string Factory := init_stubs (init_certs (init_blob ∅)).

(** module.Registered *)
Definition Registered (name : string) : bool := bool_decide (is_Some (registry !! name)).

(** module.Build *)
Fixpoint Build (names : list string) (cfg : ModuleConfig) : result (list Module_) :=
  match names with
  | [] => Ok []
  | name :: names' =>
      match registry !! name with
      | None => Err (Errors ("unknown module " +:+ name))
      | Some f =>
          match f cfg with
          | Err e => Err (Errorf ("build module " +:+ name) e)
          | Ok m => match Build names' cfg with Err e => Err e | Ok ms => Ok (m :: ms) end
          end
      end
  end.

(** ** Starting *)

(** The provider Start of the certs module builds; [metrics] says whether the
    dependencies have collectors. *)
Definition certs_Start (cfg : ModuleConfig) (metrics : bool) : certsProvider :=
  {| cp_root := mc_LetsencryptPath cfg;
     cp_servingDir := mc_ServingDir cfg;
     cp_host := mc_Hostname cfg;
     cp_metrics := metrics;
     cp_runner := mkRunner CertsKind (mc_VerifyCmd cfg) (mc_ReloadCmd cfg) (mc_ReloadTimeout cfg) metrics |}.

(** The resource Start of the blob module builds. No timeout is set. *)
Definition blob_resource (metrics : bool) (r : BlobResource) : resource :=
  mkResource (br_Name r) (br_Source r) (br_Dest r) (br_Strategy r)
    (mkRunner BlobKind (br_Verify r) (br_Reload r) 0 metrics).

(** The provider Start of the blob module builds. *)
Definition blob_Start (resources : list BlobResource) (host : string) (metrics : bool) : blobProvider :=
  let rs := blob_resource metrics <$> resources in
  mkBlobProvider rs (foldl (λ m r, <[rs_name r := r]> m) ∅ rs) host.

Section Start.
Context {m : Type → Type}.
(** A provider as the engine's interface. *)
Context (certsP : certsProvider → Provider m) (blobP : blobProvider → Provider m).

(** Module.Start: the engine with what the module registered, and what it
    logged. Start of these modules does not fail. *)
Definition module_Start (mod_ : Module_) (metrics : bool) (e : Engine m) : Engine m * list string :=
  match mod_ with
  | CertsModule cfg => (Register e (certsP (certs_Start cfg metrics)), [])
  | BlobModule resources host => (Register e (blobP (blob_Start resources host metrics)), [])
  | StubModule name intent =>
      (e, ["module " +:+ name +:+ " is not implemented yet (planned: " +:+ intent +:+ ")"])
  end.
End Start.

(** ** Lemmas *)

(** The names of the registered modules. *)
Definition module_names : list string :=
  ["certs"; "blob"; "acme-leader"; "ratelimit"; "ocsp"; "pubsub"; "health"].

(** The module a name stands for. *)
Definition module_of (cfg : ModuleConfig) (name : string) : option Module_ :=
  if String.eqb name "certs" then Some (CertsModule cfg)
  else if String.eqb name "blob" then Some (BlobModule (mc_BlobResources cfg) (mc_Hostname cfg))
  else (λ x, StubModule x.1 x.2) <$> find (λ x, String.eqb name x.1) intents.

Lemma registry_lookup name cfg :
  match registry !! name with
  | Some f => ∃ mod_, f cfg = Ok mod_ ∧ module_of cfg name = Some mod_ ∧ module_Name mod_ = name
  | None => module_of cfg name = None
  end.
Proof.
  unfold registry, init_stubs, init_certs, init_blob, Register_, intents. simpl foldl.
  unfold module_of, intents. simpl find.
  repeat match goal with
  | |- context [<[?k := _]> _ !! name] =>
      destruct (decide (name = k)) as [->|?];
        [rewrite lookup_insert_eq; eexists; split; [reflexivity|]; by vm_compute
        |rewrite (lookup_insert_ne _ k name) by congruence]
  end.
  rewrite lookup_empty.
  repeat match goal with H : name ≠ _ |- _ => apply String.eqb_neq in H; rewrite H; clear H end. done.
Qed.

Lemma Build_spec names cfg :
  match Build names cfg with
  | Ok ms => Forall2 (λ name mod_, module_of cfg name = Some mod_ ∧ module_Name mod_ = name) names ms
  | Err _ => ∃ name, name ∈ names ∧ module_of cfg name = None
  end.
Proof.
  induction names as [|name names IH]; simpl; [constructor|].
  pose proof (registry_lookup name cfg) as H. destruct (registry !! name) as [f|].
  - destruct H as (mod_ & -> & Hm). destruct (Build names cfg) as [ms|e].
    + by constructor.
    + destruct IH as (n & Hn & Hno). exists n. split; [by right|done].
  - exists name. split; [left|done].
Qed.
