(* ===== verification/Main.v ===== *)
(** cmd/lbsync/main.go: parsing the configuration, choosing and configuring the
    backend, and starting the modules. Reading flags and the environment, and
    serving HTTP, are libraries. *)

From S2P Require Import Prelude GoStrings Version Metrics Engine.
From S2P Require Import GoPath FileSystem AtomicFile Cert Bundle Hook Certs Blob Modules Gobcodec Cluster Tls.

Open Scope Z_scope.

(** The fields of main.config after flags and environment have been read. *)
Record config := mkConfig {
  LetsencryptPath : string;
  ServingDir : string;
  BlobResources : string;
  Modules_ : string;
  Peers : string;
  ClusterEnv : string;
  BindAddr : string;
  AdvertiseAddr : string;
  OlricPort : Z;
  MemberlistPort : Z;
  ReplicaCount : Z;
  WANPort : Z;
  TLSCert : string;
  TLSKey : string;
  TLSCA : string;
  Password : string;
  GossipKey : string;
  Insecure : bool;
  ReconcileInterval : Z;
  VerifyCmd : string;
  ReloadCmd : string;
  ReloadTimeout : Z;
  Port : Z;
  Hostname : string
}.

(** ** Lists and resources *)

(** main.parseList *)
Definition parseList (s : string) : list string :=
  if String.eqb (TrimSpace s) "" then []
  else filter (λ p, p ≠ "") (TrimSpace <$> split_char "," s).

(** The body of the loop of parseBlobResources. *)
Definition parseBlobResource (item : string) : result BlobResource :=
  let '(name, spec, ok) := cut_char "=" item in
  if negb ok then Err (Errors ("blob resource " +:+ item +:+ ": expected name=src:dest[:strategy]"))
  else
    match split_char ":" spec with
    | src :: dest :: rest =>
        let strategy := match rest with s :: _ => if String.eqb s "" then "mtime" else s | [] => "mtime" end in
        Ok (mkBlobResource (TrimSpace name) src dest strategy [] [])
    | _ => Err (Errors ("blob resource " +:+ item +:+ ": expected src:dest[:strategy]"))
    end.

Fixpoint parseItems (items : list string) : result (list BlobResource) :=
  match items with
  | [] => Ok []
  | item :: items' =>
      match parseBlobResource item with
      | Err e => Err e
      | Ok r => match parseItems items' with Err e => Err e | Ok rs => Ok (r :: rs) end
      end
  end.

(** main.parseBlobResources *)
Definition parseBlobResources (s : string) : result (list BlobResource) := parseItems (parseList s).

(** ** The backend *)

Section Main.
(** [base64.StdEncoding.DecodeString] *)
Context (base64_Decode : string → result bytes).

(** The part of buildClusterConfig that checks the gossip key. *)
Definition gossipKeyOf (s : string) : result bytes :=
  if String.eqb s "" then Ok []
  else
    match base64_Decode s with
    | Err e => Err (Errorf "CLUSTER_GOSSIP_KEY" e)
    | Ok decoded =>
        if decide (length decoded ∈ [16; 24; 32]%nat) then Ok decoded
        else Err (Errors "CLUSTER_GOSSIP_KEY must decode to 16, 24, or 32 bytes")
    end.

(** main.buildClusterConfig *)
Definition buildClusterConfig (cfg : config) (peers : list string) : result ClusterConfig :=
  if negb (Insecure cfg) && String.eqb (Password cfg) ""
  then Err (Errors "refusing to start without CLUSTER_PASSWORD")
  else
    match gossipKeyOf (GossipKey cfg) with
    | Err e => Err e
    | Ok gossipKey =>
        let replicaCount := if ReplicaCount cfg <=? 0 then Z.of_nat (length peers) + 1 else ReplicaCount cfg in
        Ok (mkClusterConfig (ClusterEnv cfg) (BindAddr cfg) (OlricPort cfg) (MemberlistPort cfg)
              (AdvertiseAddr cfg) peers (Password cfg) gossipKey replicaCount)
    end.

(** The backend main.run starts, with its configuration. *)
Inductive backend := OlricBackend (c : ClusterConfig) | WanBackend (c : WanConfig).

Definition chooseBackend (cfg : config) : result backend :=
  let peers := parseList (Peers cfg) in
  if WANPort cfg =? 0 then
    match buildClusterConfig cfg peers with
    | Err e => Err e
    | Ok c => Ok (OlricBackend c)
    end
  else Ok (WanBackend (mkWanConfig (BindAddr cfg) (WANPort cfg) peers (TLSCert cfg) (TLSKey cfg) (TLSCA cfg)
                         (Hostname cfg))).

(** main.defaultHostname; [host] is the result of [os.Hostname]. *)
Definition defaultHostname (host : result string) : string :=
  match host with Ok h => h | Err _ => "unknown" end.

(** ** The modules *)

(** The module.Config startModules builds. *)
Definition moduleConfig (cfg : config) (blobs : list BlobResource) : ModuleConfig :=
  mkModuleConfig (LetsencryptPath cfg) (ServingDir cfg) (Fields (VerifyCmd cfg)) (Fields (ReloadCmd cfg))
    (ReloadTimeout cfg) blobs (Hostname cfg).

Context {m : Type → Type} (certsP : certsProvider → Provider m) (blobP : blobProvider → Provider m).

(** The loop of startModules: the engine, the updates of the collectors and
    the log. *)
Definition startOne (acc : Engine m * list metric_event * list string) (mod_ : Module_)
    : Engine m * list metric_event * list string :=
  let '(e, evs, logs) := acc in
  let '(e', l) := module_Start certsP blobP mod_ true e in
  (e', evs ++ [mkEvent ModuleEnabled [module_Name mod_] (SetTo 1)],
   logs ++ l ++ ["module " +:+ module_Name mod_ +:+ " started"]).

(** main.startModules *)
Definition startModules (cfg : config) (e : Engine m)
    : option error * (Engine m * list metric_event * list string) :=
  match parseBlobResources (BlobResources cfg) with
  | Err er => (Some (Errorf "blob resources" er), (e, [], []))
  | Ok blobs =>
      match Build (parseList (Modules_ cfg)) (moduleConfig cfg blobs) with
      | Err er => (Some (Errorf "modules" er), (e, [], []))
      | Ok mods => (None, foldl startOne (e, [], []) mods)
      end
  end.
End Main.

(** ** The status endpoints *)

(** The handlers of newHTTPServer for the paths other than /metrics. *)
Definition statusPage (path : string) (ready : bool) : Z * string :=
  if String.eqb path "/healthz" then (200, "ok")
  else if String.eqb path "/readyz" then (if ready then (200, "ready") else (503, "not ready" +:+ String "010" ""))
  else if String.eqb path "/" then
    (200, "lbsync" +:+ String "010" ("GET /metrics" +:+ String "010" ("GET /healthz" +:+ String "010" ("GET /readyz" +:+ String "010" ""))))
  else (404, "404 page not found" +:+ String "010" "").

(** ** Parsing *)

(** Trimming drops white space only: a comma stays. *)
Lemma trim_runes_keeps x runes fuel l :
  (∀ r, r ∈ runes → x ∉ r) → x ∈ l → x ∈ trim_runes runes fuel l.
Proof.
  intros Hr. revert l. induction fuel as [|n IH]; intros l Hx; simpl; [done|].
  destruct (strip_any runes l) as [l'|] eqn:E; [|done]. apply IH.
  apply strip_any_Some in E as (r & Hin & ->). apply elem_of_app in Hx as [Hx|Hx]; [|done].
  by destruct (Hr r Hin).
Qed.

Definition comma : ascii := ",".

Lemma runes_no_comma r : r ∈ space_runes → comma ∉ r.
Proof.
  intros Hr. assert (Forall (λ r, comma ∉ r) space_runes) as H.
  { apply (bool_decide_unpack (Forall (λ r, comma ∉ r) space_runes)). vm_compute. exact I. }
  rewrite Forall_forall in H. by apply H.
Qed.

Lemma no_char_elem c s : no_char c s = true ↔ c ∉ list_ascii_of_string s.
Proof.
  induction s as [|a s IH]; simpl; [split; [by intros _ ?%elem_of_nil|done]|].
  rewrite andb_true_iff, negb_true_iff, Ascii.eqb_neq, IH, not_elem_of_cons. naive_solver.
Qed.

Lemma TrimSpace_empty s : TrimSpace s = "" → no_char comma s = true.
Proof.
  intros H. apply no_char_elem. intros Hc. unfold TrimSpace in H.
  assert (comma ∈ trim_right (trim_left (list_ascii_of_string s))) as Hin.
  { unfold trim_right. apply elem_of_reverse, trim_runes_keeps.
    - intros r (r' & -> & Hr)%list_elem_of_fmap. rewrite elem_of_reverse. by apply runes_no_comma.
    - apply elem_of_reverse. by apply trim_runes_keeps; [apply runes_no_comma|]. }
  destruct (trim_right _); [by apply elem_of_nil in Hin|done].
Qed.

(** The early return for blank input gives what the loop would. *)
Lemma parseList_loop s : parseList s = filter (λ p, p ≠ "") (TrimSpace <$> split_char comma s).
Proof.
  unfold parseList. destruct (String.eqb_spec (TrimSpace s) "") as [E|]; [|done].
  rewrite (split_no_char comma s) by (by apply TrimSpace_empty). simpl.
  by rewrite E, filter_cons_False by (by intros []).
Qed.

(** An item a list can hold. *)
Definition list_item (p : string) : Prop := p ≠ "" ∧ TrimSpace p = p ∧ no_char comma p = true.

Lemma parseList_join l : Forall list_item l → parseList (join_char comma l) = l.
Proof.
  intros Hl. rewrite parseList_loop. destruct (decide (l = [])) as [->|Hne]; [done|].
  rewrite split_join; [|done|by eapply Forall_impl; [exact Hl|]; intros p (_ & _ & ?)].
  clear Hne. induction Hl as [|p l (Hp & Ht & _) Hl IH]; [done|]. simpl fmap. rewrite Ht, filter_cons_True by done.
  f_equal. exact IH.
Qed.

(** How a resource is written in the configuration. *)
Definition print_resource (r : BlobResource) : string :=
  br_Name r +:+ String "=" (join_char ":" [br_Source r; br_Dest r; br_Strategy r]).

(** A resource that can be written: the separators do not occur in its parts,
    and white space around the name and the whole would be lost. *)
Record writable_resource (r : BlobResource) : Prop := {
  wr_item : list_item (print_resource r);
  wr_name : no_char "=" (br_Name r) = true ∧ TrimSpace (br_Name r) = br_Name r;
  wr_parts : Forall (λ p, no_char ":" p = true) [br_Source r; br_Dest r; br_Strategy r];
  wr_strategy : br_Strategy r ≠ "";
  wr_hooks : br_Verify r = [] ∧ br_Reload r = []
}.

Lemma parseBlobResource_print r : writable_resource r → parseBlobResource (print_resource r) = Ok r.
Proof.
  intros [_ [Hn Ht] Hp Hs [Hv Hr]]. unfold parseBlobResource, print_resource.
  rewrite cut_char_found by done. cbv beta iota. cbn [negb].
  rewrite split_join by done. rewrite (proj2 (String.eqb_neq (br_Strategy r) "") Hs), Ht.
  destruct r; simpl in *. by subst.
Qed.

(** (C17) Blob resources round-trip: any list of resources that can be written
    as name=src:dest:strategy (without hooks, with a strategy, and with parts
    that contain no separator and are not changed by trimming spaces), joined
    by commas, is read back exactly, in order. *)
Theorem blob_resources_roundtrip rs :
  Forall writable_resource rs →
  parseBlobResources (join_char comma (print_resource <$> rs)) = Ok rs.
Proof.
  intros Hrs. unfold parseBlobResources. rewrite parseList_join.
  - induction Hrs as [|r rs Hr Hrs IH]; [done|]. rewrite fmap_cons. cbn [parseItems].
    by rewrite parseBlobResource_print, IH.
  - apply Forall_fmap, (Forall_impl _ _ _ Hrs). by intros r [].
Qed.

(** Lists of names: every item parseList returns is non-empty and without
    surrounding white space, and a list of such items without commas, joined by
    commas, is read back exactly. *)
Theorem parse_list_correct :
  (∀ s, Forall (λ p, p ≠ "" ∧ TrimSpace p = p) (parseList s))
  ∧ ∀ l, Forall list_item l → parseList (join_char comma l) = l.
Proof.
  split; [|apply parseList_join]. intros s. rewrite parseList_loop. apply Forall_forall.
  intros p [Hne Hp]%list_elem_of_filter. split; [done|].
  apply list_elem_of_fmap in Hp as (q & -> & _). apply TrimSpace_idemp.
Qed.

(** ** The configuration of the backend *)

Lemma buildClusterConfig_ok base64 cfg peers :
  (∃ c, buildClusterConfig base64 cfg peers = Ok c) ↔
     (Insecure cfg = true ∨ Password cfg ≠ "")
     ∧ (GossipKey cfg = "" ∨ ∃ k, base64 (GossipKey cfg) = Ok k ∧ length k ∈ [16; 24; 32]%nat).
Proof.
  unfold buildClusterConfig, gossipKeyOf.
  destruct (Insecure cfg), (String.eqb_spec (Password cfg) "") as [Ep|Ep],
    (String.eqb_spec (GossipKey cfg) "") as [Eg|Eg]; simpl;
    try (destruct (base64 (GossipKey cfg)) as [k|er] eqn:Eb; simpl; [case_decide as Hk|]); naive_solver.
Qed.

Lemma buildClusterConfig_Ok base64 cfg peers c :
  buildClusterConfig base64 cfg peers = Ok c →
  cc_ReplicaCount c = (if decide (0 < ReplicaCount cfg) then ReplicaCount cfg else Z.of_nat (length peers) + 1)
  ∧ length (cc_GossipKey c) ∈ [0; 16; 24; 32]%nat
  ∧ cc_Password c = Password cfg ∧ cc_Peers c = peers ∧ (Insecure cfg = true ∨ Password cfg ≠ "").
Proof.
  intros E. assert (Insecure cfg = true ∨ Password cfg ≠ "") as Hsafe by (apply buildClusterConfig_ok with base64 peers; eauto).
  revert E. unfold buildClusterConfig. destruct (negb (Insecure cfg) && _); [done|].
  destruct (gossipKeyOf base64 (GossipKey cfg)) as [k|e] eqn:Eg; [|done]. intros [= <-]. simpl.
  split_and!; [|..|done|done|done].
  - destruct (Z.leb_spec (ReplicaCount cfg) 0); [by rewrite decide_False by lia|by rewrite decide_True by lia].
  - unfold gossipKeyOf in Eg. destruct (String.eqb (GossipKey cfg) ""); [by simplify_eq; left|].
    destruct (base64 (GossipKey cfg)) as [d|]; [|done]. case_decide; simplify_eq. by right.
Qed.

(** (C23) The Olric member is configured safely or not at all. buildClusterConfig
    succeeds exactly if there is a password or -insecure is given, and the
    gossip key is absent or decodes to 16, 24 or 32 bytes. What it returns has
    at least one replica, one for each node unless another positive number is
    configured, and carries the password, the key and the peers unchanged; the
    Olric configuration NewCluster makes of it demands that password (none only
    if the password is empty, which -insecure must have allowed), reads and
    writes at quorum one, and encrypts the gossip with the key if there is
    one. *)
Theorem cluster_config_safe base64 config_New cfg peers :
  ((∃ c, buildClusterConfig base64 cfg peers = Ok c) ↔
     (Insecure cfg = true ∨ Password cfg ≠ "")
     ∧ (GossipKey cfg = "" ∨ ∃ k, base64 (GossipKey cfg) = Ok k ∧ length k ∈ [16; 24; 32]%nat))
  ∧ match buildClusterConfig base64 cfg peers with
    | Ok c => 1 ≤ cc_ReplicaCount c
        ∧ cc_ReplicaCount c = (if decide (0 < ReplicaCount cfg) then ReplicaCount cfg else Z.of_nat (length peers) + 1)
        ∧ length (cc_GossipKey c) ∈ [0; 16; 24; 32]%nat
        ∧ cc_Password c = Password cfg ∧ cc_Peers c = peers
        ∧ let oc := olricConfig config_New c in
          (if decide (Password cfg = "") then Insecure cfg = true
           else oc_Authentication oc = Some (Password cfg))
          ∧ oc_ReplicaCount oc = cc_ReplicaCount c ∧ oc_ReadQuorum oc = 1 ∧ oc_WriteQuorum oc = 1
          ∧ (cc_GossipKey c ≠ [] → oc_SecretKey oc = cc_GossipKey c)
    | Err _ => True
    end.
Proof.
  split; [apply buildClusterConfig_ok|].
  destruct (buildClusterConfig base64 cfg peers) as [c|e] eqn:E; [|done].
  apply buildClusterConfig_Ok in E as (Hrep & Hkey & Hpw & Hpeers & Hsafe).
  assert (1 ≤ cc_ReplicaCount c) as H1 by (rewrite Hrep; case_decide; lia).
  split_and!; [done|done|done|done|done|]. cbv zeta. unfold olricConfig. cbn.
  rewrite Hpw, (proj2 (Z.ltb_lt 0 (cc_ReplicaCount c))) by lia. split_and!; [|done|done|done|].
  - clear Hrep; case_decide as Hp; [by destruct Hsafe|]. by rewrite (proj2 (String.eqb_neq (Password cfg) "")).
  - intros Hk. by destruct (cc_GossipKey c).
Qed.

(** (C40) The check of the password is not made in WAN mode: with a WAN port, no
    password, no -insecure and no CA, main goes on to start the HTTPS backend;
    and the backend that is then built serves anyone and verifies no peer. *)
Theorem wan_mode_skips_password_check {lib : TlsLib} base64 cfg :
  WANPort cfg ≠ 0 → Password cfg = "" → Insecure cfg = false → TLSCA cfg = "" →
  ∃ c, chooseBackend base64 cfg = Ok (WanBackend c)
  ∧ ∀ listen s, match wan_New None listen c s with
                | (Ok b, _) => RequireAndVerifyClientCert (bk_server b) = false
                               ∧ InsecureSkipVerify (bk_client b) = true
                | (Err _, _) => True
                end.
Proof.
  intros Hp _ _ Hca. unfold chooseBackend. apply Z.eqb_neq in Hp. rewrite Hp. eexists. split; [done|].
  intros listen s. set (c := mkWanConfig _ _ _ _ _ _ _).
  pose proof (wan_New_tls c listen s) as H. destruct (wan_New None listen c s) as [[b|e] s']; [|done].
  by apply H.
Qed.

(** ** Starting the modules *)

Section StartSpec.
Context {m : Type → Type} (certsP : certsProvider → Provider m) (blobP : blobProvider → Provider m).

(** The provider a module registers. *)
Definition provider_of (mod_ : Module_) : option (Provider m) :=
  match mod_ with
  | CertsModule cfg => Some (certsP (certs_Start cfg true))
  | BlobModule resources host => Some (blobP (blob_Start resources host true))
  | StubModule _ _ => None
  end.

Lemma startAll mods acc :
  let '(e', evs', _) := foldl (startOne certsP blobP) acc mods in
  e_providers e' = e_providers acc.1.1 ++ omap provider_of mods
  ∧ e_cl e' = e_cl acc.1.1 ∧ e_interval e' = e_interval acc.1.1 ∧ e_lockTTL e' = e_lockTTL acc.1.1
  ∧ e_metrics e' = e_metrics acc.1.1 ∧ e_now e' = e_now acc.1.1
  ∧ evs' = acc.1.2 ++ ((λ x, mkEvent ModuleEnabled [module_Name x] (SetTo 1)) <$> mods).
Proof.
  revert acc. induction mods as [|x mods IH]; intros acc.
  - destruct acc as [[e evs] logs]. simpl. by rewrite !app_nil_r.
  - cbn [foldl]. specialize (IH (startOne certsP blobP acc x)).
    destruct (foldl (startOne certsP blobP) (startOne certsP blobP acc x) mods) as [[e' evs'] logs'].
    destruct acc as [[e evs] logs], IH as (H1 & H2 & H3 & H4 & H5 & H6 & H7). rewrite fmap_cons.
    unfold startOne, module_Start in *. cbn [omap list_omap]. destruct x; simpl in *;
      rewrite H1, H2, H3, H4, H5, H6, H7, <-?app_assoc; done.
Qed.

(** What startModules does. *)
Lemma startModules_spec cfg e :
  let '(err, (e', evs, _)) := startModules certsP blobP cfg e in
  match err with
  | Some _ => e' = e ∧ evs = []
      ∧ ((∃ er, parseBlobResources (BlobResources cfg) = Err er)
         ∨ ∃ blobs name, parseBlobResources (BlobResources cfg) = Ok blobs
             ∧ name ∈ parseList (Modules_ cfg) ∧ module_of (moduleConfig cfg blobs) name = None)
  | None => ∃ blobs mods, parseBlobResources (BlobResources cfg) = Ok blobs
      ∧ Forall2 (λ name mod_, module_of (moduleConfig cfg blobs) name = Some mod_) (parseList (Modules_ cfg)) mods
      ∧ e_providers e' = e_providers e ++ omap provider_of mods
      ∧ e_cl e' = e_cl e ∧ e_interval e' = e_interval e ∧ e_lockTTL e' = e_lockTTL e
      ∧ e_metrics e' = e_metrics e ∧ e_now e' = e_now e
      ∧ evs = (λ name, mkEvent ModuleEnabled [name] (SetTo 1)) <$> parseList (Modules_ cfg)
  end.
Proof.
  unfold startModules. destruct (parseBlobResources (BlobResources cfg)) as [blobs|er]; [|by eauto 10].
  pose proof (Build_spec (parseList (Modules_ cfg)) (moduleConfig cfg blobs)) as HB.
  destruct (Build _ _) as [mods|er].
  - pose proof (startAll mods (e, [], [])) as H.
    destruct (foldl (startOne certsP blobP) (e, [], []) mods) as [[e' evs] logs].
    destruct H as (H1 & H2 & H3 & H4 & H5 & H6 & ->). exists blobs, mods. split_and!; [done| |done..|].
    + eapply Forall2_impl; [exact HB|]. by intros ?? [? _].
    + simpl. clear -HB. induction HB as [|name x names mods [_ Hn] HB IH]; [done|].
      rewrite !fmap_cons, IH, Hn. done.
  - destruct HB as (name & Hin & Hno). split_and!; [done|done|]. right. exists blobs, name. done.
Qed.
(** (C22) The modules are started as configured or not at all. If the blob
    resources do not parse or a name is not that of a registered module, no
    module is started. Otherwise the modules named in MODULES are started in
    that order: the engine's providers are extended by those of the named
    modules, the stubs contributing none, nothing else in the engine changes,
    and each named module is reported as enabled. *)
Theorem start_modules_correct cfg e :
  let '(err, (e', evs, _)) := startModules certsP blobP cfg e in
  match err with
  | Some _ => e' = e ∧ evs = []
      ∧ ((∃ er, parseBlobResources (BlobResources cfg) = Err er)
         ∨ ∃ blobs name, parseBlobResources (BlobResources cfg) = Ok blobs
             ∧ name ∈ parseList (Modules_ cfg) ∧ module_of (moduleConfig cfg blobs) name = None)
  | None => ∃ blobs mods, parseBlobResources (BlobResources cfg) = Ok blobs
      ∧ Forall2 (λ name mod_, module_of (moduleConfig cfg blobs) name = Some mod_) (parseList (Modules_ cfg)) mods
      ∧ e_providers e' = e_providers e ++ omap provider_of mods
      ∧ e_cl e' = e_cl e ∧ e_interval e' = e_interval e ∧ e_lockTTL e' = e_lockTTL e
      ∧ e_metrics e' = e_metrics e ∧ e_now e' = e_now e
      ∧ evs = (λ name, mkEvent ModuleEnabled [name] (SetTo 1)) <$> parseList (Modules_ cfg)
  end.
Proof. apply startModules_spec. Qed.
End StartSpec.

(** ** Blob hooks *)

Lemma parsed_no_hooks items rs :
  parseItems items = Ok rs → Forall (λ r, br_Verify r = [] ∧ br_Reload r = []) rs.
Proof.
  revert rs. induction items as [|item items IH]; intros rs; simpl; [intros [= <-]; constructor|].
  destruct (parseBlobResource item) as [r|e] eqn:Er; [|done].
  destruct (parseItems items) as [rs'|e]; [|done]. intros [= <-]. constructor; [|by apply IH].
  unfold parseBlobResource in Er. destruct (cut_char "=" item) as [[name spec] ok].
  destruct ok; simpl in Er; [|done]. destruct (split_char ":" spec) as [|? [|? ?]]; by simplify_eq/=.
Qed.

Lemma foldl_byName_elem (rs : list resource) (acc : gmap string resource) name r :
  foldl (λ m r, <[rs_name r := r]> m) acc rs !! name = Some r → r ∈ rs ∨ acc !! name = Some r.
Proof.
  revert acc. induction rs as [|x rs IH]; intros acc H; simpl in H; [by right|].
  destruct (IH _ H) as [Hin|Hl]; [left; by right|].
  apply lookup_insert_Some in Hl as [[_ <-]|[_ Hl]]; [left; left|by right].
Qed.

(** The blob resources that can be configured have no hooks. Whatever
    BLOB_RESOURCES holds, Flush of the provider built from it runs no command
    and succeeds: neither VERIFY_CMD nor RELOAD_CMD is used for blobs. *)
Theorem configured_blobs_have_no_hooks `{!Commands} s rs host range (w : BlobNode) :
  parseBlobResources s = Ok rs →
  blob_Flush range (blob_Start rs host true) w = (None, (w.1, ∅)).
Proof.
  intros Hrs. apply parsed_no_hooks in Hrs. unfold blob_Flush. set (p := blob_Start rs host true).
  assert (∀ names n, foldM (flushOne p) None names n = (None, n)) as ->; [|done].
  induction names as [|name names IH]; intros n; [done|]. rewrite foldM_cons.
  assert (flushOne p None name n = (None, n)) as ->; [|by apply IH]. unfold flushOne.
  destruct (bp_byName p !! name) as [res|] eqn:E; [|done].
  assert (rs_runner res = mkRunner BlobKind [] [] 0 true) as Hrun.
  { unfold p, blob_Start in E. simpl in E. apply foldl_byName_elem in E as [Hin|Hl]; [|by rewrite lookup_empty in Hl].
    apply list_elem_of_fmap in Hin as (br & -> & Hbr). rewrite Forall_forall in Hrs.
    destruct (Hrs _ Hbr) as [Hv Hr]. unfold blob_resource. simpl. by rewrite Hv, Hr. }
  unfold_M. rewrite Hrun. done.
Qed.

(** ** Concrete configurations *)

Definition sample_config : config :=
  mkConfig "/etc/letsencrypt" "/etc/lbsync/live" "a=/etc/a:/srv/a" "certs, blob" "" "lan" "0.0.0.0" ""
    3320 3322 0 8443 "" "" "" "" "" false 30000000000 "nginx -t" "nginx -s reload" 30000000000 8623 "n1".

(** A library in which everything succeeds. *)
Definition toy_tls : TlsLib := {|
  tls_key := unit;
  tls_cert := string;
  cert_pool := unit;
  ecdsa_GenerateKey := mret (Ok tt);
  rand_serial := mret (Ok 1);
  tls_now := mret 0;
  x509_CreateCertificate _ _ := mret (Ok []);
  MarshalPKCS8PrivateKey _ := Ok [];
  pem_EncodeToMemory _ b := b;
  tls_X509KeyPair _ _ := Ok "self-signed";
  tls_LoadX509KeyPair f _ := mret (Ok f);
  AppendCertsFromPEM _ := Some tt
|}.

Lemma wan_mode_skips_password_check_witness :
  ∃ c b s', chooseBackend (λ _, Ok []) sample_config = Ok (WanBackend c)
  ∧ wan_New (lib := toy_tls) None (λ _, None) c (mkOS ∅ [] 18 0 [] []) = (Ok b, s')
  ∧ RequireAndVerifyClientCert (bk_server b) = false.
Proof.
  destruct (wan_mode_skips_password_check (lib := toy_tls) (λ _, Ok []) sample_config) as (c & Hc & H);
    [done|done|done|done|].
  specialize (H (λ _, None) (mkOS ∅ [] 18 0 [] [])). injection Hc as <-.
  eexists _, _, _. split; [reflexivity|]. split; [reflexivity|]. apply H.
Defined.

Lemma configured_blobs_have_no_hooks_witness :
  let cmds : Commands := λ _ _ s, (Some (Errors "failed"), s) in
  let w : BlobNode := (mkNode (mkOS ∅ [] 18 0 [] []) [] [], {["a"]}) in
  ∃ rs, parseBlobResources (BlobResources sample_config) = Ok rs
    ∧ blob_Flush elements (blob_Start rs "n1" true) w = (None, (w.1, ∅)).
Proof.
  eexists. split; [reflexivity|].
  apply (configured_blobs_have_no_hooks (BlobResources sample_config)). reflexivity.
Defined.

Definition sample_resources : list BlobResource :=
  [mkBlobResource "a" "/etc/a" "/srv/a" "mtime" [] []; mkBlobResource "b" "/etc/b" "/srv/b" "sha" [] []].

Lemma blob_resources_roundtrip_witness :
  parseBlobResources "a=/etc/a:/srv/a:mtime,b=/etc/b:/srv/b:sha" = Ok sample_resources.
Proof.
  apply (blob_resources_roundtrip sample_resources). repeat constructor; by vm_compute.
Defined.
