(* ===== verification/Config.v ===== *)
(** main.loadConfig: the settings of the agent from the environment and the
    command line. Each field of main.config is a place with a kind of value;
    the struct tags and the flags name it. [envconfig.Process] belongs to another
    package: it is the class [EnvConfig], with what its documentation says. *)

From Stdlib Require Eqdep_dec.
From S2P Require Import Prelude GoStrings Version Metrics Engine.
From S2P Require Import GoPath FileSystem GoNumber GoFlag Main.

Open Scope Z_scope.

(** ** The fields *)

(** The fields of main.config, as the pointers the flags hold. *)
Inductive field :=
  | FLetsencryptPath | FServingDir | FBlobResources | FModules | FPeers | FClusterEnv | FBindAddr | FAdvertiseAddr
  | FOlricPort | FMemberlistPort | FReplicaCount | FWANPort | FTLSCert | FTLSKey | FTLSCA
  | FPassword | FGossipKey | FInsecure | FReconcileInterval | FVerifyCmd | FReloadCmd | FReloadTimeout | FPort | FHostname.

#[export] Instance field_eq_dec : EqDecision field.
Proof. solve_decision. Defined.

(** The types of the fields. *)
Inductive kind := KString | KInt | KBool | KDuration.

#[export] Instance kind_eq_dec : EqDecision kind.
Proof. solve_decision. Defined.

Definition kind_type (k : kind) : Type :=
  match k with KString => string | KInt => Z | KBool => bool | KDuration => Z end.

Definition kind_of (f : field) : kind :=
  match f with
  | FOlricPort | FMemberlistPort | FReplicaCount | FWANPort | FPort => KInt
  | FInsecure => KBool
  | FReconcileInterval | FReloadTimeout => KDuration
  | _ => KString
  end.

(** Reading a field. *)
Definition get (f : field) (c : config) : kind_type (kind_of f) :=
  match f with
  | FLetsencryptPath => LetsencryptPath c
  | FServingDir => ServingDir c
  | FBlobResources => BlobResources c
  | FModules => Modules_ c
  | FPeers => Peers c
  | FClusterEnv => ClusterEnv c
  | FBindAddr => BindAddr c
  | FAdvertiseAddr => AdvertiseAddr c
  | FOlricPort => OlricPort c
  | FMemberlistPort => MemberlistPort c
  | FReplicaCount => ReplicaCount c
  | FWANPort => WANPort c
  | FTLSCert => TLSCert c
  | FTLSKey => TLSKey c
  | FTLSCA => TLSCA c
  | FPassword => Password c
  | FGossipKey => GossipKey c
  | FInsecure => Insecure c
  | FReconcileInterval => ReconcileInterval c
  | FVerifyCmd => VerifyCmd c
  | FReloadCmd => ReloadCmd c
  | FReloadTimeout => ReloadTimeout c
  | FPort => Port c
  | FHostname => Hostname c
  end.

(** The struct with the given fields. *)
Definition of_fields (g : ∀ f, kind_type (kind_of f)) : config :=
  mkConfig (g FLetsencryptPath) (g FServingDir) (g FBlobResources) (g FModules) (g FPeers) (g FClusterEnv) (g FBindAddr) (g FAdvertiseAddr)
    (g FOlricPort) (g FMemberlistPort) (g FReplicaCount) (g FWANPort) (g FTLSCert) (g FTLSKey) (g FTLSCA) (g FPassword) (g FGossipKey)
    (g FInsecure) (g FReconcileInterval) (g FVerifyCmd) (g FReloadCmd) (g FReloadTimeout) (g FPort) (g FHostname).

(** Writing a field through its pointer. *)
Definition set (f : field) (v : kind_type (kind_of f)) (c : config) : config :=
  of_fields (λ g, match decide (f = g) with
                  | left E => eq_rect f (λ x, kind_type (kind_of x)) v g E
                  | right _ => get g c
                  end).

(** The parser of a kind of value, in flags and in envconfig. Parsing a
    duration never runs out of fuel ([ParseDuration_total]). *)
Definition parse (k : kind) : string → result (kind_type k) :=
  match k with
  | KString => λ s, Ok s
  | KInt => ParseInt0
  | KBool => ParseBool
  | KDuration => λ s, match ParseDuration s with Some r => r | None => Err (Errors "out of fuel") end
  end.

(** ** The environment *)

(** A field with its struct tags. *)
Record env_tag := mkTag { tag_field : field; tag_key : string; tag_default : string }.

Definition config_tags : list env_tag :=
  [mkTag FLetsencryptPath "LETSENCRYPT_PATH" "/etc/letsencrypt";
   mkTag FServingDir "SERVING_DIR" "/etc/lbsync/live";
   mkTag FBlobResources "BLOB_RESOURCES" "";
   mkTag FModules "MODULES" "certs";
   mkTag FPeers "CLUSTER_PEERS" "";
   mkTag FClusterEnv "CLUSTER_ENV" "lan";
   mkTag FBindAddr "BIND_ADDR" "0.0.0.0";
   mkTag FAdvertiseAddr "ADVERTISE_ADDR" "";
   mkTag FOlricPort "OLRIC_PORT" "3320";
   mkTag FMemberlistPort "MEMBERLIST_PORT" "3322";
   mkTag FReplicaCount "REPLICA_COUNT" "0";
   mkTag FWANPort "WAN_PORT" "0";
   mkTag FTLSCert "TLS_CERT" "";
   mkTag FTLSKey "TLS_KEY" "";
   mkTag FTLSCA "TLS_CA" "";
   mkTag FPassword "CLUSTER_PASSWORD" "";
   mkTag FGossipKey "CLUSTER_GOSSIP_KEY" "";
   mkTag FInsecure "INSECURE" "false";
   mkTag FReconcileInterval "RECONCILE_INTERVAL" "30s";
   mkTag FVerifyCmd "VERIFY_CMD" "";
   mkTag FReloadCmd "RELOAD_CMD" "";
   mkTag FReloadTimeout "RELOAD_TIMEOUT" "30s";
   mkTag FPort "PORT" "8623";
   mkTag FHostname "HOSTNAME" ""].

Definition zero_config : config :=
  mkConfig "" "" "" "" "" "" "" "" 0 0 0 0 "" "" "" "" "" false 0 "" "" 0 0 "".

(** What a tag says of its field: the variable, or the default when it is not set. *)
Definition env_text (env : string → option string) (t : env_tag) : string := default (tag_default t) (env (tag_key t)).

(** [envconfig.Process] fills a struct from the environment. As documented: each
    tagged field gets the value of its variable or its default, and a value
    that cannot be parsed is an error. *)
Class EnvConfig := {
  Process : (string → option string) → list env_tag → config → result config;
  Process_fields env tags c c' t : NoDup (tag_field <$> tags) → Process env tags c = Ok c' → t ∈ tags →
    parse (kind_of (tag_field t)) (env_text env t) = Ok (get (tag_field t) c');
  Process_succeeds env tags c : NoDup (tag_field <$> tags) →
    (∀ t, t ∈ tags → ∃ v, parse (kind_of (tag_field t)) (env_text env t) = Ok v) →
    ∃ c', Process env tags c = Ok c'
}.

(** ** The flags *)

(** The errors of the flag values: errRange for an integer that does not fit, errParse otherwise. *)
Definition flag_error (k : kind) (e : error) : error :=
  if decide (k = KInt ∧ e = ErrRange) then Errors "value out of range" else Errors "parse error".

(** fs.StringVar, fs.IntVar, fs.BoolVar and fs.DurationVar. *)
Definition varFlag (name : string) (f : field) : Flag config :=
  mkFlag name (bool_decide (kind_of f = KBool))
    (λ s c, match parse (kind_of f) s with
            | Ok v => Ok (set f v c)
            | Err e => Err (flag_error (kind_of f) e)
            end).

Definition flag_table : list (string * field) :=
  [("letsencrypt-path", FLetsencryptPath);
   ("serving-dir", FServingDir);
   ("blob-resources", FBlobResources);
   ("modules", FModules);
   ("peers", FPeers);
   ("cluster-env", FClusterEnv);
   ("bind-addr", FBindAddr);
   ("advertise-addr", FAdvertiseAddr);
   ("olric-port", FOlricPort);
   ("memberlist-port", FMemberlistPort);
   ("replica-count", FReplicaCount);
   ("wan-port", FWANPort);
   ("tls-cert", FTLSCert);
   ("tls-key", FTLSKey);
   ("tls-ca", FTLSCA);
   ("cluster-password", FPassword);
   ("cluster-gossip-key", FGossipKey);
   ("insecure", FInsecure);
   ("interval", FReconcileInterval);
   ("verify-cmd", FVerifyCmd);
   ("reload-cmd", FReloadCmd);
   ("reload-timeout", FReloadTimeout);
   ("port", FPort);
   ("hostname", FHostname)].

Definition lbsync_flags : list (Flag config) := (λ x, varFlag x.1 x.2) <$> flag_table.

(** main.loadConfig; what it returns beside an error is dropped by its caller. *)
Definition loadConfig `{!EnvConfig} (env : string → option string) (args : list string) : option (result config) :=
  match Process env config_tags zero_config with
  | Err e => Some (Err (Errorf "envconfig" e))
  | Ok cfg => Parse lbsync_flags args cfg
  end.

(** The table of settings in README: variable, flag and default; the default
    host name is that of the machine, which [run] fills in for the empty one. *)
Definition documented : list (string * string * string) :=
  [("MODULES", "modules", "certs");
   ("LETSENCRYPT_PATH", "letsencrypt-path", "/etc/letsencrypt");
   ("SERVING_DIR", "serving-dir", "/etc/lbsync/live");
   ("BLOB_RESOURCES", "blob-resources", "");
   ("CLUSTER_PEERS", "peers", "");
   ("ADVERTISE_ADDR", "advertise-addr", "");
   ("CLUSTER_ENV", "cluster-env", "lan");
   ("BIND_ADDR", "bind-addr", "0.0.0.0");
   ("OLRIC_PORT", "olric-port", "3320");
   ("MEMBERLIST_PORT", "memberlist-port", "3322");
   ("REPLICA_COUNT", "replica-count", "0");
   ("CLUSTER_PASSWORD", "cluster-password", "");
   ("CLUSTER_GOSSIP_KEY", "cluster-gossip-key", "");
   ("INSECURE", "insecure", "false");
   ("RECONCILE_INTERVAL", "interval", "30s");
   ("VERIFY_CMD", "verify-cmd", "");
   ("RELOAD_CMD", "reload-cmd", "");
   ("RELOAD_TIMEOUT", "reload-timeout", "30s");
   ("PORT", "port", "8623");
   ("HOSTNAME", "hostname", "")].

(** ** Fields are independent *)

Lemma get_of_fields f g : get f (of_fields g) = g f.
Proof. by destruct f. Qed.

Lemma config_ext c c' : (∀ f, get f c = get f c') → c = c'.
Proof.
  intros H. assert (∀ x, x = of_fields (λ f, get f x)) as Hof by (by intros []).
  rewrite (Hof c), (Hof c'). unfold of_fields. by rewrite !H.
Qed.

Lemma get_set_eq f v c : get f (set f v c) = v.
Proof.
  unfold set. rewrite get_of_fields. destruct (decide (f = f)) as [E|]; [|done].
  by rewrite (Eqdep_dec.UIP_dec field_eq_dec E eq_refl).
Qed.

Lemma get_set_ne f g v c : f ≠ g → get g (set f v c) = get g c.
Proof. intros Hne. unfold set. rewrite get_of_fields. by destruct (decide (f = g)). Qed.

(** ** What a command line says *)

(** The assignments of a command line, in order. *)
Inductive command_line : list (field * string) → list string → Prop :=
  | line_end args : ends_flags args → command_line [] args
  | line_flag n f v words asgs args :
      (n, f) ∈ flag_table → spelled (varFlag n f) v words → command_line asgs args →
      command_line ((f, v) :: asgs) (words ++ args).

(** The last assignment to a field. *)
Fixpoint assigned (asgs : list (field * string)) (f : field) : option string :=
  match asgs with
  | [] => None
  | (g, v) :: asgs' =>
      match assigned asgs' f with
      | Some w => Some w
      | None => if decide (g = f) then Some v else None
      end
  end.

(** The variable or the default of a field. *)
Definition env_value (env : string → option string) (f : field) : string :=
  match find (λ t, bool_decide (tag_field t = f)) config_tags with Some t => env_text env t | None => "" end.

(** The text a field is read from: flag before variable before default. *)
Definition setting (env : string → option string) (asgs : list (field * string)) (f : field) : string :=
  default (env_value env f) (assigned asgs f).

Definition parses (k : kind) (s : string) : Prop := ∃ v, parse k s = Ok v.

Lemma lbsync_flags_good : good_flags lbsync_flags.
Proof.
  split; [apply (bool_decide_eq_true_1 _); vm_compute; reflexivity|].
  unfold lbsync_flags. apply Forall_fmap, Forall_forall. intros [n f] Hin. unfold compose, flag_name. simpl.
  repeat (apply elem_of_cons in Hin as [Hin|Hin]; [injection Hin as -> ->; split; [reflexivity|by eexists _, _]|]).
  by apply elem_of_nil in Hin.
Qed.

Lemma tag_exists f : ∃ t, find (λ t, bool_decide (tag_field t = f)) config_tags = Some t ∧ t ∈ config_tags ∧ tag_field t = f.
Proof.
  destruct (find (λ t, bool_decide (tag_field t = f)) config_tags) as [t|] eqn:E.
  - exists t. apply find_some in E as [Hin Hf%bool_decide_eq_true_1]. split_and!; [done|by apply list_elem_of_In|done].
  - by destruct f.
Qed.

Lemma settings_documented key flag dflt :
  (key, flag, dflt) ∈ documented → ∃ f, mkTag f key dflt ∈ config_tags ∧ (flag, f) ∈ flag_table.
Proof.
  intros H. assert (Forall (λ x, Exists (λ t, tag_key t = x.1.1 ∧ tag_default t = x.2 ∧ (x.1.2, tag_field t) ∈ flag_table)
    config_tags) documented) as Hall by (apply (bool_decide_eq_true_1 _); vm_compute; reflexivity).
  rewrite Forall_forall in Hall. specialize (Hall _ H). apply Exists_exists in Hall as ([f k d'] & Hin & E1 & E2 & Hf).
  simpl in *. subst. by exists f.
Qed.

(** The assignments are what the parser of flags does, one after the other. *)
Definition sets_fields (asgs : list (field * string)) (c c' : config) : Prop :=
  ∀ f, match assigned asgs f with Some v => parse (kind_of f) v = Ok (get f c') | None => get f c' = get f c end.

Lemma sets_fields_cons f v x asgs c c' :
  parse (kind_of f) v = Ok x → sets_fields asgs (set f x c) c' → sets_fields ((f, v) :: asgs) c c'.
Proof.
  intros Hx Hs g. specialize (Hs g). simpl. destruct (assigned asgs g); [done|]. rewrite Hs.
  destruct (decide (f = g)) as [<-|Hne]; [by rewrite get_set_eq|by rewrite get_set_ne].
Qed.

Lemma accepts_assignments args c c' :
  accepts lbsync_flags args c c' →
  ∃ asgs, command_line asgs args ∧ Forall (λ x, parses (kind_of x.1) x.2) asgs ∧ sets_fields asgs c c'.
Proof.
  induction 1 as [args c Hend|fl v words args c c1 c2 Hfl Hw Hset Ha (asgs & Hcl & Hp & Hget)].
  { exists []. split_and!; [by constructor|constructor|done]. }
  unfold lbsync_flags in Hfl. apply list_elem_of_fmap in Hfl as ([n f] & -> & Hin). simpl in *.
  destruct (parse (kind_of f) v) as [x|] eqn:E; [|done]. injection Hset as <-.
  exists ((f, v) :: asgs). split_and!; [by econstructor|by constructor; [eexists|]|by eapply sets_fields_cons].
Qed.

Lemma assignments_accepts asgs args c :
  command_line asgs args → Forall (λ x, parses (kind_of x.1) x.2) asgs →
  ∃ c', accepts lbsync_flags args c c' ∧ sets_fields asgs c c'.
Proof.
  intros Hcl. revert c. induction Hcl as [args Hend|n f v words asgs args Hin Hw Hcl IH]; intros c Hp.
  { exists c. split; [by constructor|done]. }
  apply Forall_cons in Hp as [[x Hx] Hp]. destruct (IH (set f x c) Hp) as (c' & Hc' & Hs). exists c'.
  split; [|by eapply sets_fields_cons].
  eapply accepts_flag; [by apply (list_elem_of_fmap_2 (λ y, varFlag y.1 y.2) _ (n, f))|done| |done].
  simpl in *. by rewrite Hx.
Qed.

(** ** Loading *)

Lemma config_tags_NoDup : NoDup (tag_field <$> config_tags).
Proof. apply (bool_decide_eq_true_1 _). vm_compute. reflexivity. Qed.

Section Load.
Context {envconfig : EnvConfig}.
Implicit Types (env : string → option string) (cfg : config).

(** The fields after envconfig, before the flags. *)
Lemma Process_env env cfg f : Process env config_tags zero_config = Ok cfg → parse (kind_of f) (env_value env f) = Ok (get f cfg).
Proof.
  intros H. unfold env_value. destruct (tag_exists f) as (t & -> & Hin & <-). by apply (Process_fields _ _ _ _ _ config_tags_NoDup H).
Qed.

Lemma Process_ok env : (∀ f, parses (kind_of f) (env_value env f)) → ∃ cfg, Process env config_tags zero_config = Ok cfg.
Proof.
  intros H. apply Process_succeeds; [apply config_tags_NoDup|].
  intros t Ht. specialize (H (tag_field t)). unfold env_value in H.
  repeat (apply elem_of_cons in Ht as [->|Ht]; [exact H|]). by apply elem_of_nil in Ht.
Qed.

Lemma sets_fields_setting asgs env c cfg :
  (∀ f, parse (kind_of f) (env_value env f) = Ok (get f c)) → sets_fields asgs c cfg →
  ∀ f, parse (kind_of f) (setting env asgs f) = Ok (get f cfg).
Proof.
  intros Hc Hs f. specialize (Hs f). unfold setting. destruct (assigned asgs f); simpl; [done|]. by rewrite Hs.
Qed.

(** A command line of the grammar with values that can be parsed is loaded. *)
Lemma load_line env asgs args :
  command_line asgs args → Forall (λ x, parses (kind_of x.1) x.2) asgs → (∀ f, parses (kind_of f) (env_value env f)) →
  ∃ cfg, loadConfig env args = Some (Ok cfg) ∧ ∀ f, parse (kind_of f) (setting env asgs f) = Ok (get f cfg).
Proof.
  intros Hcl Hp Henv. unfold loadConfig. destruct (Process_ok env Henv) as [c E]. rewrite E.
  destruct (assignments_accepts asgs args c Hcl Hp) as (cfg & Ha & Hs). exists cfg. split.
  - apply Parse_accepts; [apply lbsync_flags_good|done].
  - apply (sets_fields_setting asgs env c cfg); [|done]. intros f. by apply Process_env.
Qed.

(** When a configuration is loaded, and which. *)
Lemma load_iff env args cfg :
  loadConfig env args = Some (Ok cfg) ↔
  ∃ asgs, command_line asgs args ∧ Forall (λ x, parses (kind_of x.1) x.2) asgs
    ∧ (∀ f, parses (kind_of f) (env_value env f))
    ∧ ∀ f, parse (kind_of f) (setting env asgs f) = Ok (get f cfg).
Proof.
  unfold loadConfig. split.
  - destruct (Process env config_tags zero_config) as [c|] eqn:E; [|done].
    intros (asgs & Hcl & Hp & Hs)%(Parse_accepts _ _ _ _ lbsync_flags_good)%accepts_assignments.
    pose proof (λ f, Process_env env c f E) as Henv. exists asgs. split_and!; [done..| |by eapply sets_fields_setting].
    intros f. by eexists.
  - intros (asgs & Hcl & Hp & Henv & Hget).
    destruct (load_line env asgs args Hcl Hp Henv) as (c' & E & Hget'). unfold loadConfig in E.
    rewrite E. do 2 f_equal. apply config_ext. intros f. specialize (Hget f). rewrite Hget' in Hget. by injection Hget.
Qed.

(** (C13) Flags override the environment, which overrides the defaults. The
    configuration [cfg] is loaded exactly when the command line is a sequence
    of flags, in one of the spellings of the flag package, up to its end or to
    the first word that is not a flag, all values and all variables can be
    parsed, and each of the 24 fields of [cfg] is read from the last flag that
    sets it, or else from its variable, or else from its default. The names and
    the defaults are those that README lists. *)
Theorem flags_over_env_over_defaults env args cfg :
  (loadConfig env args = Some (Ok cfg) ↔
   ∃ asgs, command_line asgs args ∧ Forall (λ x, parses (kind_of x.1) x.2) asgs
     ∧ (∀ f, parses (kind_of f) (env_value env f))
     ∧ ∀ f, parse (kind_of f) (setting env asgs f) = Ok (get f cfg))
  ∧ ∀ key flag dflt, (key, flag, dflt) ∈ documented →
      ∃ f, mkTag f key dflt ∈ config_tags ∧ (flag, f) ∈ flag_table.
Proof. split; [apply load_iff|apply settings_documented]. Qed.

(** Loading the configuration ends, on every environment and command line:
    neither the loop over the arguments nor the loop over the terms of a
    duration runs out of fuel. *)
Lemma load_config_terminates env args :
  (∃ r, loadConfig env args = Some r) ∧ ∀ s, ParseDuration s ≠ None.
Proof.
  split.
  - unfold loadConfig. destruct (Process env config_tags zero_config); [apply Parse_total|by eexists].
  - intros s E. destruct (ParseDuration_total s) as (r & Hr & _). congruence.
Qed.

(** Numbers and durations fit in 64 bits. *)
Lemma parse_range k s v : parse k s = Ok v →
  match k return kind_type k → Prop with KInt | KDuration => int64_ok | _ => λ _, True end v.
Proof.
  destruct k; simpl in *; try done; [apply ParseInt0_range|].
  destruct (ParseDuration_total s) as (r & -> & Hr). intros ->. by apply Hr.
Qed.

(** A count of units as the value of a duration flag. *)
Lemma parse_duration_count z u k : (u, k) ∈ unitMap → int64_ok (z * k) →
  parse KDuration (FormatInt z +:+ u) = Ok (z * k).
Proof. intros Hu Hz. simpl. rewrite (ParseDuration_FormatInt z u k Hu). by rewrite decide_True. Qed.

(** The numbers among the values that fit in 64 bits. *)
Definition value_ok (k : kind) : kind_type k → Prop :=
  match k with KInt | KDuration => int64_ok | _ => λ _, True end.

Lemma loaded_range env args cfg f : loadConfig env args = Some (Ok cfg) → value_ok (kind_of f) (get f cfg).
Proof. intros (asgs & _ & _ & _ & Hget)%load_iff. apply (parse_range _ _ _ (Hget f)). Qed.

(** (C16) The numbers of a loaded configuration are machine integers, and what
    is built from them is in bounds: every integer and duration fits in 64 bits
    (anything else is an error, never a wrapped value), the ticker of the engine
    gets a positive interval, as [time.NewTicker] demands, the lock a positive
    time to live, and the cluster at least one replica. *)
Theorem loaded_numbers_fit env args cfg :
  loadConfig env args = Some (Ok cfg) →
  (∀ f, value_ok (kind_of f) (get f cfg))
  ∧ (∀ (m : Type → Type) (time_Now : m Z) cl metrics,
       let e := New time_Now cl metrics (mkOptions (ReconcileInterval cfg) 0 None) in
       0 < e_interval e < 2 ^ 63 ∧ 0 < e_lockTTL e)
  ∧ (∀ base64 peers c, buildClusterConfig base64 cfg peers = Ok c → 0 < Cluster.cc_ReplicaCount c).
Proof.
  intros H. split; [intros f; by apply (loaded_range env args)|]. split.
  - intros m time_Now cl metrics. pose proof (loaded_range env args cfg FReconcileInterval H) as Hr. simpl in Hr.
    unfold int64_ok in Hr. simpl. unfold second. destruct (Z.leb_spec (ReconcileInterval cfg) 0); lia.
  - intros base64 peers c (-> & _)%buildClusterConfig_Ok. case_decide; lia.
Qed.

(** ** Printing a configuration *)

Definition print (k : kind) : kind_type k → string :=
  match k with
  | KString => λ s, s
  | KInt => FormatInt
  | KBool => λ b, if b then "true" else "false"
  | KDuration => λ z, FormatInt z +:+ "ns"
  end.

Lemma parse_print k v : value_ok k v → parse k (print k v) = Ok v.
Proof.
  destruct k; simpl; intros Hv; [done|by rewrite ParseInt0_FormatInt, decide_True|by destruct v|].
  rewrite <-(Z.mul_1_r v) at 2. apply (parse_duration_count v "ns" 1); [set_solver|by rewrite Z.mul_1_r].
Qed.

(** The assignments that make a configuration, and the command line with one
    argument for each. *)
Definition print_asgs (cfg : config) (l : list (string * field)) : list (field * string) :=
  (λ x, (x.2, print (kind_of x.2) (get x.2 cfg))) <$> l.
Definition print_args (cfg : config) (l : list (string * field)) : list string :=
  (λ x, "-" +:+ x.1 +:+ "=" +:+ print (kind_of x.2) (get x.2 cfg)) <$> l.

Lemma print_line cfg l : l ⊆ flag_table → command_line (print_asgs cfg l) (print_args cfg l).
Proof.
  induction l as [|[n f] l IH]; intros Hl; [by constructor|].
  eapply (line_flag n f _ ["-" +:+ n +:+ "=" +:+ print (kind_of f) (get f cfg)]); [set_solver| |apply IH; set_solver].
  apply (spelled_equals (varFlag n f) "-"). set_solver.
Qed.

Lemma print_assigned cfg l f : f ∈ l.*2 → assigned (print_asgs cfg l) f = Some (print (kind_of f) (get f cfg)).
Proof.
  induction l as [|[n g] l IH]; [by intros ?%elem_of_nil|]. simpl.
  intros [->|Hf]%elem_of_cons; [|by rewrite IH].
  destruct (decide (g ∈ l.*2)) as [Hg|Hg]; [by rewrite IH|].
  assert (assigned (print_asgs cfg l) g = None) as ->; [|by rewrite decide_True].
  clear IH. induction l as [|[n' g'] l IH]; [done|]. simpl in *. apply not_elem_of_cons in Hg as [Hne Hg].
  rewrite IH by done. by rewrite decide_False.
Qed.

(** (C15) Every configuration can be written as a command line: whatever the
    environment, as long as it can be parsed, the flags printed from a
    configuration whose numbers fit in 64 bits load that configuration. *)
Theorem config_roundtrip env cfg :
  (∀ f, parses (kind_of f) (env_value env f)) → (∀ f, value_ok (kind_of f) (get f cfg)) →
  loadConfig env (print_args cfg flag_table) = Some (Ok cfg).
Proof.
  intros Henv Hok. apply load_iff. exists (print_asgs cfg flag_table).
  split_and!; [by apply print_line| |done|].
  - apply Forall_fmap, Forall_forall. intros x _. eexists. by apply parse_print.
  - intros f. unfold setting. rewrite print_assigned; [by apply parse_print|].
    destruct f; apply (bool_decide_eq_true_1 _); vm_compute; reflexivity.
Qed.

(** ** Words that are no flags *)

(** Arguments that spell assignments and nothing else. *)
Inductive spells : list (field * string) → list string → Prop :=
  | spells_nil : spells [] []
  | spells_flag n f v words asgs args :
      (n, f) ∈ flag_table → spelled (varFlag n f) v words → spells asgs args →
      spells ((f, v) :: asgs) (words ++ args).

Lemma parse_loop_spells asgs pre rest n n' c :
  spells asgs pre → ends_flags rest → (length (pre ++ rest) < n)%nat → (length pre < n')%nat →
  parse_loop n lbsync_flags (pre ++ rest) c = parse_loop n' lbsync_flags pre c.
Proof.
  intros Hs Hend. revert n n' c. induction Hs as [|name f v words asgs args Hin Hw Hs IH]; intros [|n] [|n'] c Hn Hn'; try lia.
  - simpl in *. by destruct (parseOne_ends lbsync_flags rest c Hend) as [r ->].
  - assert (varFlag name f ∈ lbsync_flags) as Hf by (by apply (list_elem_of_fmap_2 (λ y, varFlag y.1 y.2) _ (name, f))).
    rewrite <-app_assoc in *. simpl parse_loop.
    rewrite !(parseOne_spelled lbsync_flags (varFlag name f) v words) by (done || apply lbsync_flags_good).
    apply spelled_nonempty in Hw. rewrite length_app in Hn, Hn'.
    assert (0 < length words)%nat by (destruct words; [done|simpl; lia]).
    destruct (fl_Set (varFlag name f) v c); [apply IH; lia|done].
Qed.

(** (C31) A word that is no flag ends the flags, and everything after it is
    ignored without an error. In particular a boolean flag takes no separate
    value: after "-insecure false" the agent runs as with "-insecure" alone,
    and without the flags that follow, a password included. *)
Theorem stray_word_drops_flags env asgs pre word post :
  spells asgs pre → ends_flags [word] →
  loadConfig env (pre ++ word :: post) = loadConfig env pre
  ∧ loadConfig env (pre ++ "-insecure" :: "false" :: post) = loadConfig env (pre ++ ["-insecure"]).
Proof.
  assert (∀ a p w q, spells a p → ends_flags [w] → loadConfig env (p ++ w :: q) = loadConfig env p) as Hdrop.
  { intros a p w q Hp Hw. unfold loadConfig. destruct (Process env config_tags zero_config); [|done].
    apply (parse_loop_spells a); [done|done|lia..]. }
  intros Hs Hw. split; [by apply (Hdrop asgs)|].
  assert (spells (asgs ++ [(FInsecure, "true")]) (pre ++ ["-insecure"])) as Hs'.
  { clear Hw. induction Hs as [|n f v words asgs args Hin Hwords Hs IH]; simpl.
    - apply (spells_flag "insecure" FInsecure "true" ["-insecure"] [] []); [set_solver| |constructor].
      apply (spelled_bool (varFlag "insecure" FInsecure) "-"); [set_solver|done].
    - rewrite <-app_assoc. by eapply spells_flag. }
  replace (pre ++ "-insecure" :: "false" :: post) with ((pre ++ ["-insecure"]) ++ "false" :: post) by (by rewrite <-app_assoc).
  apply (Hdrop _ _ _ _ Hs'). right. right. by intros t [= ].
Qed.
End Load.

(** ** A sample *)

(** An implementation of envconfig that does what its documentation says. *)
Fixpoint plain_Process (env : string → option string) (tags : list env_tag) (c : config) : result config :=
  match tags with
  | [] => Ok c
  | t :: tags' =>
      match parse (kind_of (tag_field t)) (env_text env t) with
      | Err e => Err (Errorf ("envconfig.Process: assigning " +:+ tag_key t) e)
      | Ok v => plain_Process env tags' (set (tag_field t) v c)
      end
  end.

Lemma plain_Process_other env tags c c' f :
  plain_Process env tags c = Ok c' → f ∉ tag_field <$> tags → get f c' = get f c.
Proof.
  revert c. induction tags as [|t tags IH]; intros c; [by intros [= ->]|]. rewrite fmap_cons. simpl.
  destruct (parse _ (env_text env t)) as [v|]; [|done]. intros H [Hne Hn]%not_elem_of_cons.
  rewrite (IH _ H Hn). by apply get_set_ne.
Qed.

#[export] Instance plain_envconfig : EnvConfig.
Proof.
  refine {| Process := plain_Process |}.
  - intros env tags c c' t. revert c. induction tags as [|t' tags IH]; intros c; [by intros _ _ ?%elem_of_nil|].
    rewrite fmap_cons. intros [Hn Hnd]%NoDup_cons. simpl. destruct (parse _ (env_text env t')) as [v|] eqn:E; [|done].
    intros H [->|Hin]%elem_of_cons; [|by apply (IH _ Hnd H)].
    by rewrite (plain_Process_other _ _ _ _ _ H Hn), get_set_eq.
  - intros env tags c _. revert c. induction tags as [|t tags IH]; intros c Ht; [by eexists|]. simpl.
    destruct (Ht t) as [v ->]; [left|]. apply IH. intros t' Hin. apply Ht. by right.
Defined.

Definition sample_env (k : string) : option string :=
  if String.eqb k "RECONCILE_INTERVAL" then Some "1m30s"
  else if String.eqb k "PORT" then Some "0x50"
  else if String.eqb k "CLUSTER_PEERS" then Some "10.0.0.2:3322" else None.

Definition sample_args : list string :=
  ["-interval=45s"; "--cluster-password"; "secret"; "--peers="; "-interval"; "1.5h"; "stray"; "-insecure"].

(** The last -interval wins over the variable, an empty flag over a variable,
    the variable PORT over its default; -insecure comes too late. *)
Lemma flags_over_env_over_defaults_witness :
  ∃ cfg asgs, loadConfig sample_env sample_args = Some (Ok cfg)
  ∧ (ReconcileInterval cfg, Port cfg, Peers cfg, Password cfg) = (5400 * second, 80, "", "secret")
  ∧ (Insecure cfg, OlricPort cfg, Modules_ cfg) = (false, 3320, "certs")
  ∧ command_line asgs sample_args
  ∧ ∀ f, parse (kind_of f) (setting sample_env asgs f) = Ok (get f cfg).
Proof.
  assert (∃ cfg, loadConfig sample_env sample_args = Some (Ok cfg)
    ∧ (ReconcileInterval cfg, Port cfg, Peers cfg, Password cfg) = (5400 * second, 80, "", "secret")
    ∧ (Insecure cfg, OlricPort cfg, Modules_ cfg) = (false, 3320, "certs")) as (cfg & E & H1 & H2).
  { eexists. split_and!; [vm_compute; reflexivity|vm_compute; reflexivity|vm_compute; reflexivity]. }
  destruct (proj1 (proj1 (flags_over_env_over_defaults sample_env sample_args cfg)) E) as (asgs & Hcl & _ & _ & Hget).
  exists cfg, asgs. split_and!; assumption.
Defined.

Lemma sample_env_parses f : parses (kind_of f) (env_value sample_env f).
Proof. destruct f; eexists; vm_compute; reflexivity. Qed.

Lemma loaded_numbers_fit_witness :
  ∃ cfg, loadConfig sample_env ["-olric-port=9223372036854775807"; "-interval=-5s"] = Some (Ok cfg)
  ∧ OlricPort cfg = 2 ^ 63 - 1
  ∧ ∀ f, value_ok (kind_of f) (get f cfg).
Proof.
  assert (∃ cfg, loadConfig sample_env ["-olric-port=9223372036854775807"; "-interval=-5s"] = Some (Ok cfg)
    ∧ OlricPort cfg = 2 ^ 63 - 1) as (cfg & E & Hp).
  { eexists. split; vm_compute; reflexivity. }
  exists cfg. split; [exact E|]. split; [exact Hp|]. exact (proj1 (loaded_numbers_fit _ _ _ E)).
Defined.

Lemma config_roundtrip_witness :
  loadConfig sample_env (print_args sample_config flag_table) = Some (Ok sample_config).
Proof.
  apply config_roundtrip; [apply sample_env_parses|]. intros f. destruct f; simpl; try exact I; unfold int64_ok; lia.
Defined.

Lemma stray_word_drops_flags_witness :
  ∃ cfg, loadConfig sample_env ["-port=80"; "-insecure"; "false"; "-cluster-password=secret"] = Some (Ok cfg)
  ∧ Insecure cfg = true ∧ Password cfg = "".
Proof.
  assert (spells [(FPort, "80")] ["-port=80"]) as Hs.
  { apply (spells_flag "port" FPort "80" ["-port=80"] [] []); [set_solver| |constructor].
    apply (spelled_equals (varFlag "port" FPort) "-"). set_solver. }
  pose proof (stray_word_drops_flags sample_env _ _ "x" ["-cluster-password=secret"] Hs) as H.
  destruct H as [_ H]; [right; left; simpl; lia|]. simpl app in H. rewrite H.
  eexists. split_and!; vm_compute; reflexivity.
Defined.
