(* ===== verification/Run.v ===== *)
(** main.run from the command line to the end of the process: what it starts
    and stops, in which order, and on which errors. The libraries it calls
    (Olric, the listener, the HTTP server, signals) are arguments that give the
    outcome of each call; every effect is recorded in the order it happens. *)

From S2P Require Import Prelude GoStrings Version Metrics Engine.
From S2P Require Import GoPath FileSystem GoNumber GoFlag AtomicFile Cert Bundle Hook Certs Blob Modules Gobcodec Cluster Tls.
From S2P Require Import Main Config.

Open Scope Z_scope.

(** ** The status server *)

(** The fields of http.Server that newHTTPServer sets; a handler is given the
    path and the value of the readiness flag. *)
Record http_Server := mkServer {
  sv_Addr : string;
  sv_Handler : string → bool → Z * string;
  sv_ReadHeaderTimeout : Z;
  sv_ReadTimeout : Z;
  sv_WriteTimeout : Z;
  sv_IdleTimeout : Z
}.

(** main.newHTTPServer; [metrics] is the page of promhttp's handler. *)
Definition newHTTPServer (port : Z) (metrics : Z * string) : http_Server :=
  mkServer (":" +:+ FormatInt port)
    (λ path ready, if String.eqb path "/metrics" then metrics else statusPage path ready)
    (5 * second) (10 * second) (10 * second) (30 * second).

(** ** The process *)

(** What the process does to its surroundings; of a log line only the constant
    part is kept. *)
Inductive effect :=
  | Log (line : string)
  | OlricCreated (c : OlricConfig)
  | OlricStarted
  | OlricShutdown
  | WanListening (addr : string)
  | WanShutdown
  | ModulesStarted (events : list metric_event) (kinds : list string)
  | GoEngine (interval : Z)
  | GoServe (addr : string)
  | SignalNotify
  | SignalReceived
  | Cancel
  | ServerShutdown.

Record Process_ := mkProcess { pr_os : OS; pr_trace : list effect }.

Abbreviation P := (M Process_).

Definition emit (ef : effect) : P unit := λ s, (tt, mkProcess (pr_os s) (pr_trace s ++ [ef])).
Definition on_disk {A} (c : M OS A) : P A :=
  λ s, let '(a, os') := c (pr_os s) in (a, mkProcess os' (pr_trace s)).

(** [defer d] around the rest of the function. *)
Definition deferred {A} (d : P unit) (body : P A) : P A := a ← body; _ ← d; mret a.

(** The outcomes of the libraries. *)
Record outside := mkOutside {
  ou_env : string → option string;
  ou_Hostname : result string;
  ou_base64 : string → result bytes;
  ou_config_New : string → OlricConfig;
  ou_olric_New : OlricConfig → result unit;
  ou_start : start_event;
  ou_listen : string → option error;
  ou_shutdown : option error
}.

Section Run.
Context {envconfig : EnvConfig} {lib : TlsLib} (o : outside).

(** The backend that has been started. *)
Inductive handle := OlricHandle | WanHandle (b : BackendInit).

Context {m : Type → Type} (certsP : certsProvider → Provider m) (blobP : blobProvider → Provider m)
  (kv_of : handle → ClusterKV m) (time_Now : m Z) (sink : metric_event → m unit) (metrics_page : Z * string).

(** cluster.NewCluster *)
Definition NewCluster (cfg : ClusterConfig) : P (result unit) :=
  let c := olricConfig (ou_config_New o) cfg in
  match startMember (ou_olric_New o c) (ou_start o) with
  | (Err e, shutdown) =>
      _ ← match ou_olric_New o c with Ok _ => emit (OlricCreated c) | Err _ => mret tt end;
      _ ← (if (shutdown : bool) then emit OlricShutdown else mret tt);
      mret (Err e)
  | (Ok db, _) => _ ← emit (OlricCreated c); _ ← emit OlricStarted; mret (Ok db)
  end.

(** Cluster.Close *)
Definition cluster_Close : P (option error) := _ ← emit OlricShutdown; mret (ou_shutdown o).

(** Backend.Close of the WAN backend. *)
Definition wan_Close : P (option error) := _ ← emit WanShutdown; mret (ou_shutdown o).

(** The function run defers once the backend is up. *)
Definition closeCluster (h : handle) : P unit :=
  cerr ← match h with OlricHandle => cluster_Close | WanHandle _ => wan_Close end;
  match cerr with Some e => emit (Log "cluster shutdown") | None => mret tt end.

(** The part of run that starts the backend. *)
Definition startBackend (cfg : config) : P (result handle) :=
  match chooseBackend (ou_base64 o) cfg with
  | Err e => mret (Err e)
  | Ok (OlricBackend clusterCfg) =>
      _ ← emit (Log "lbsync starting olric");
      r ← NewCluster clusterCfg;
      mret (match r with Err e => Err (Errorf "cluster" e) | Ok _ => Ok OlricHandle end)
  | Ok (WanBackend wanCfg) =>
      _ ← emit (Log "lbsync starting wan-backend");
      r ← on_disk (wan_New None (ou_listen o) wanCfg);
      match r with
      | Err e => mret (Err (Errorf "wan cluster" e))
      | Ok b => _ ← emit (WanListening (bk_addr b)); mret (Ok (WanHandle b))
      end
  end.

(** The hostname in the configuration, or that of the machine. *)
Definition withHostname (cfg : config) : config :=
  if String.eqb (Hostname cfg) "" then set FHostname (defaultHostname (ou_Hostname o)) cfg else cfg.

(** run after the modules have started. *)
Definition serveUntilSignal (cfg : config) (eng : Engine m) : P (option error) :=
  _ ← emit (GoEngine (e_interval eng));
  _ ← emit (GoServe (sv_Addr (newHTTPServer (Port cfg) metrics_page)));
  _ ← emit SignalNotify;
  _ ← emit SignalReceived;
  _ ← emit (Log "shutting down");
  _ ← emit Cancel;
  _ ← emit ServerShutdown;
  mret None.

(** run with a backend. *)
Definition runWith (cfg : config) (h : handle) : P (option error) :=
  let eng := New time_Now (kv_of h) (Some sink) (mkOptions (ReconcileInterval cfg) 0 None) in
  match startModules certsP blobP cfg eng with
  | (Some e, _) => mret (Some e)
  | (None, (eng', evs, logs)) =>
      _ ← foldM (λ _ l, emit (Log l)) tt logs;
      _ ← emit (ModulesStarted evs (p_Kind <$> e_providers eng'));
      serveUntilSignal cfg eng'
  end.

(** main.run. *)
Definition run (args : list string) : P (option error) :=
  match loadConfig (ou_env o) args with
  | None => mret (Some (Errors "out of fuel"))
  | Some (Err e) => mret (Some (Errorf "config" e))
  | Some (Ok cfg0) =>
      let cfg := withHostname cfg0 in
      deferred (emit Cancel)
        (r ← startBackend cfg;
         match r with
         | Err e => mret (Some e)
         | Ok h => deferred (closeCluster h) (runWith cfg h)
         end)
  end.

(** main.main: the exit status. *)
Definition main (args : list string) : P Z :=
  err ← run args;
  match err with
  | Some e => _ ← emit (Log "lbsync"); mret 1
  | None => mret 0
  end.
End Run.

(** ** The life of a process *)

(** Where a process is in its life; the flag of the last two says whether it
    served until a signal. *)
Inductive phase :=
  | Idle | Created | Open (wan : bool) | Ready (wan : bool) | Running (wan : bool) | Serving (wan : bool)
  | Waiting (wan : bool) | Stopping (wan : bool) | Cancelled (wan : bool) | Drained (wan : bool)
  | Closed (served : bool) | Ended (served : bool).

(** The effects a phase allows. *)
Definition advance (ph : phase) (ef : effect) : option phase :=
  match ef, ph with
  | Log _, _ => Some ph
  | OlricCreated _, Idle => Some Created
  | OlricStarted, Created => Some (Open false)
  | OlricShutdown, Created => Some (Closed false)
  | WanListening _, Idle => Some (Open true)
  | ModulesStarted _ _, Open w => Some (Ready w)
  | GoEngine interval, Ready w => if 0 <? interval then Some (Running w) else None
  | GoServe _, Running w => Some (Serving w)
  | SignalNotify, Serving w => Some (Waiting w)
  | SignalReceived, Waiting w => Some (Stopping w)
  | Cancel, Stopping w => Some (Cancelled w)
  | ServerShutdown, Cancelled w => Some (Drained w)
  | OlricShutdown, Open false | WanShutdown, Open true => Some (Closed false)
  | OlricShutdown, Drained false | WanShutdown, Drained true => Some (Closed true)
  | Cancel, Closed served => Some (Ended served)
  | Cancel, (Idle | Created) => Some (Ended false)
  | _, _ => None
  end.

Fixpoint life (ph : phase) (tr : list effect) : option phase :=
  match tr with
  | [] => Some ph
  | ef :: tr' => match advance ph ef with Some ph' => life ph' tr' | None => None end
  end.

Lemma life_app ph tr tr' :
  life ph (tr ++ tr') = match life ph tr with Some ph' => life ph' tr' | None => None end.
Proof. revert ph. induction tr as [|ef tr IH]; intros ph; simpl; [done|]. destruct (advance ph ef); [apply IH|done]. Qed.

(** From [ph] a command has effects its phases allow, and ends in [Q]. *)
Definition lives {A} (ph : phase) (c : P A) (Q : A → phase → Prop) : Prop :=
  ∀ s, ∃ a s' tr ph', c s = (a, s') ∧ pr_trace s' = pr_trace s ++ tr ∧ life ph tr = Some ph' ∧ Q a ph'.

Lemma lives_ret {A} ph (a : A) Q : Q a ph → lives ph (mret a) Q.
Proof. intros HQ s. exists a, s, [], ph. by rewrite app_nil_r. Qed.

Lemma lives_bind {A B} ph (c : P A) (k : A → P B) Q R :
  lives ph c Q → (∀ a ph', Q a ph' → lives ph' (k a) R) → lives ph (mbind k c) R.
Proof.
  intros Hc Hk s. destruct (Hc s) as (a & s1 & tr1 & ph1 & E1 & Ht1 & Hl1 & HQ).
  destruct (Hk a ph1 HQ s1) as (b & s2 & tr2 & ph2 & E2 & Ht2 & Hl2 & HR).
  exists b, s2, (tr1 ++ tr2), ph2. rewrite (bind_run _ _ _ _ _ E1), life_app, Hl1, Ht2, Ht1, <-app_assoc. done.
Qed.

Lemma lives_emit ph ef ph' : advance ph ef = Some ph' → lives ph (emit ef) (λ _ x, x = ph').
Proof. intros H s. eexists _, _, [ef], ph'. split_and!; [done|done| |done]. simpl. by rewrite H. Qed.

Lemma lives_mono {A} ph (c : P A) Q R : lives ph c Q → (∀ a x, Q a x → R a x) → lives ph c R.
Proof. intros Hc HQR s. destruct (Hc s) as (a & s' & tr & ph' & E & Ht & Hl & HQ). eauto 10. Qed.

(** An effect and what follows it. *)
Lemma lives_then {A} ph ef ph' (k : P A) Q :
  advance ph ef = Some ph' → lives ph' k Q → lives ph (_ ← emit ef; k) Q.
Proof. intros He Hk. eapply lives_bind; [by apply lives_emit|]. by intros [] x ->. Qed.

Lemma lives_on_disk {A} ph (c : M OS A) : lives ph (on_disk c) (λ _ x, x = ph).
Proof.
  intros s. unfold on_disk. destruct (c (pr_os s)) as [a os'] eqn:E. eexists a, _, [], ph.
  split_and!; [done| |done|done]. by rewrite app_nil_r.
Qed.

Lemma lives_deferred {A} ph (d : P unit) (body : P A) Q R :
  lives ph body Q → (∀ a ph', Q a ph' → lives ph' d (λ _ x, R a x)) → lives ph (deferred d body) R.
Proof.
  intros Hb Hd. eapply lives_bind; [done|]. intros a ph' HQ. eapply lives_bind; [by apply Hd|].
  intros u x HR. by apply lives_ret.
Qed.

Lemma lives_logs ph logs : lives ph (foldM (λ _ l, emit (Log l)) tt logs) (λ _ x, x = ph).
Proof.
  induction logs as [|l logs IH]; [by apply lives_ret|]. intros s. rewrite foldM_cons.
  destruct (IH (mkProcess (pr_os s) (pr_trace s ++ [Log l]))) as ([] & s' & tr & ph' & E & Ht & Hl & ->).
  eexists tt, s', (Log l :: tr), ph. split_and!; [exact E| |done|done]. rewrite Ht. simpl. by rewrite <-app_assoc.
Qed.

Section Life.
Context {envconfig : EnvConfig} {lib : TlsLib} (o : outside).
Context {m : Type → Type} (certsP : certsProvider → Provider m) (blobP : blobProvider → Provider m)
  (kv_of : handle → ClusterKV m) (time_Now : m Z) (sink : metric_event → m unit) (metrics_page : Z * string).

Abbreviation run := (run o certsP blobP kv_of time_Now sink metrics_page).

Definition is_wan (h : handle) : bool := match h with OlricHandle => false | WanHandle _ => true end.

(** Either the backend is up, or the process is as before or has given up. *)
Lemma startBackend_life cfg :
  lives Idle (startBackend o cfg) (λ r ph, match r with
    | Ok h => ph = Open (is_wan h)
    | Err _ => advance ph Cancel = Some (Ended false)
    end).
Proof.
  unfold startBackend. destruct (chooseBackend (ou_base64 o) cfg) as [[c|c]|e]; [..|by apply lives_ret].
  - eapply lives_then; [done|].
    eapply (lives_bind _ _ _ (λ r ph, match r with Ok _ => ph = Open false | Err _ => advance ph Cancel = Some (Ended false) end)).
    + unfold NewCluster, startMember. destruct (ou_olric_New o _) as [db|e].
      * destruct (ou_start o); (eapply lives_then; [done|]); repeat (eapply lives_then; [done|]); by repeat apply lives_ret.
      * by repeat apply lives_ret.
    + intros [] ph H; by apply lives_ret.
  - eapply lives_then; [done|]. eapply lives_bind; [apply lives_on_disk|].
    intros [b|e] ph ->; [|by apply lives_ret]. eapply lives_then; [done|]. by apply lives_ret.
Qed.

Lemma startModules_interval cfg cl opts eng evs logs :
  startModules certsP blobP cfg (New time_Now cl (Some sink) opts) = (None, (eng, evs, logs)) → 0 < e_interval eng.
Proof.
  intros E. pose proof (startModules_spec certsP blobP cfg (New time_Now cl (Some sink) opts)) as H. rewrite E in H.
  destruct H as (_ & _ & _ & _ & _ & _ & -> & _). simpl. destruct (Z.leb_spec (o_Interval opts) 0); unfold second; lia.
Qed.

Lemma runWith_life cfg h w :
  lives (Open w) (runWith certsP blobP kv_of time_Now sink metrics_page cfg h)
    (λ err ph, ph = match err with None => Drained w | Some _ => Open w end).
Proof.
  unfold runWith. destruct (startModules _ _ _ _) as [[e|] [[eng evs] logs]] eqn:E; [by apply lives_ret|].
  eapply lives_bind; [apply lives_logs|]. intros [] ph ->. eapply lives_then; [done|]. unfold serveUntilSignal.
  eapply lives_then; [simpl; by rewrite (proj2 (Z.ltb_lt _ _) (startModules_interval _ _ _ _ _ _ E))|].
  repeat (eapply lives_then; [done|]). by apply lives_ret.
Qed.

Lemma closeCluster_life h ph ph' :
  advance ph (match h with OlricHandle => OlricShutdown | WanHandle _ => WanShutdown end) = Some ph' →
  lives ph (closeCluster o h) (λ _ x, x = ph').
Proof.
  intros H. unfold closeCluster. eapply lives_bind.
  - destruct h; (eapply lives_then; [exact H|]); by apply (lives_ret _ _ (λ _ x, x = ph')).
  - intros [e|] x ->; [by apply lives_emit|by apply lives_ret].
Qed.

(** (C12) What run starts it stops, on every path. A rejected configuration has
    no effect at all. Otherwise the effects of run follow the life of a process
    to its end: at most one backend comes up; the modules start on a backend
    that is up; the engine, with a positive interval, and then the status
    server start only after all modules have; the server is shut down only
    after a signal and after the engine has been cancelled; a backend that came
    up is shut down exactly once, by its own Close and after everything else;
    and run returns no error exactly if the agent served until the signal. *)
Theorem run_stops_what_it_starts args s :
  let '(err, s') := run args s in
  ∃ tr, pr_trace s' = pr_trace s ++ tr
    ∧ ((tr = [] ∧ is_Some err ∧ ∀ cfg, loadConfig (ou_env o) args ≠ Some (Ok cfg))
       ∨ ∃ cfg, loadConfig (ou_env o) args = Some (Ok cfg)
           ∧ life Idle tr = Some (Ended (match err with None => true | Some _ => false end))).
Proof.
  unfold run, Run.run. destruct (loadConfig (ou_env o) args) as [[cfg|e]|] eqn:El.
  2,3: exists []; rewrite app_nil_r; split; [done|left; split_and!; [done|by eexists|done]].
  assert (lives Idle (deferred (emit Cancel)
    (r ← startBackend o (withHostname o cfg);
     match r with
     | Err e => mret (Some e)
     | Ok h => deferred (closeCluster o h)
                 (runWith certsP blobP kv_of time_Now sink metrics_page (withHostname o cfg) h)
     end)) (λ err ph, ph = Ended (match err with None => true | Some _ => false end))) as Hlife.
  { eapply (lives_deferred _ _ _ (λ err ph, advance ph Cancel = Some (Ended (match err with None => true | Some _ => false end)))).
    - eapply lives_bind; [apply startBackend_life|]. intros [h|e] ph Hr; [|by apply lives_ret]. subst ph.
      eapply lives_deferred; [apply runWith_life|]. intros err ph ->.
      eapply (lives_mono _ _ (λ _ x, x = Closed (match err with None => true | Some _ => false end))); [|by intros _ x ->].
      apply closeCluster_life. by destruct err, h.
    - intros err ph H. by apply lives_emit. }
  destruct (Hlife s) as (err & s' & tr & ph & E & Ht & Hl & ->). rewrite E. exists tr. split; [done|]. right. by exists cfg.
Qed.

Lemma withHostname_other cfg f : f ≠ FHostname → get f (withHostname o cfg) = get f cfg.
Proof. intros Hf. unfold withHostname. destruct (String.eqb _ _); [by apply get_set_ne|done]. Qed.

(** (C14) The agent refuses to start on a LAN without a password. If neither a
    flag nor the environment gives a cluster password or turns on the insecure
    mode, and no WAN port is set, then, whatever the other settings and
    whatever the libraries would answer, the process ends with status 1 and has
    opened no cluster, started no module and served nothing. *)
Theorem refuses_without_password asgs args s :
  command_line asgs args → Forall (λ x, parses (kind_of x.1) x.2) asgs →
  (∀ f, parses (kind_of f) (env_value (ou_env o) f)) →
  setting (ou_env o) asgs FPassword = "" →
  ParseBool (setting (ou_env o) asgs FInsecure) = Ok false →
  ParseInt0 (setting (ou_env o) asgs FWANPort) = Ok 0 →
  main o certsP blobP kv_of time_Now sink metrics_page args s
  = (1, mkProcess (pr_os s) (pr_trace s ++ [Cancel; Log "lbsync"])).
Proof.
  intros Hcl Hp Henv Hpass Hins Hwan.
  destruct (load_line (ou_env o) asgs args Hcl Hp Henv) as (cfg & E & Hget).
  assert (Password (withHostname o cfg) = "" ∧ Insecure (withHostname o cfg) = false ∧ WANPort (withHostname o cfg) = 0)
    as (H1 & H2 & H3).
  { pose proof (withHostname_other cfg FPassword ltac:(done)) as W1. pose proof (withHostname_other cfg FInsecure ltac:(done)) as W2.
    pose proof (withHostname_other cfg FWANPort ltac:(done)) as W3. simpl in *. rewrite W1, W2, W3.
    pose proof (Hget FPassword) as G1. pose proof (Hget FInsecure) as G2. pose proof (Hget FWANPort) as G3.
    simpl in *. split_and!; congruence. }
  assert (startBackend o (withHostname o cfg) s
    = (Err (Errors "refusing to start without CLUSTER_PASSWORD"), s)) as Eb.
  { unfold startBackend, chooseBackend. rewrite H3. simpl. unfold buildClusterConfig. by rewrite H1, H2. }
  unfold main, Run.run. rewrite E. unfold deferred. unfold_M. rewrite Eb. simpl. by rewrite <-app_assoc.
Qed.
End Life.

(** ** A sample *)

Definition sample_outside (ev : start_event) (env : string → option string) : outside :=
  mkOutside env (Ok "n1") (λ _, Ok []) (λ _, mkOlricConfig "" 0 "" 0 0 "" [] None [] 0 0 0) (λ _, Ok tt) ev
    (λ _, None) None.

Definition idle_kv : ClusterKV (M unit) := {|
  kv_Get _ _ := mret (None, false, None);
  kv_Put _ := mret None;
  kv_Keys _ := mret ([], None);
  kv_Lock _ _ _ := mret (None, Some (Errors "no lock"));
  kv_Members := mret 1
|}.

Definition idle_provider (kind : string) : Provider (M unit) := {|
  p_Kind := kind;
  p_Local := mret ([], None);
  p_Apply _ := mret (false, None);
  p_Flush := mret None;
  p_Rollback _ := mret None
|}.

Definition sample_run (ev : start_event) (env : string → option string) (args : list string) : option error * list effect :=
  let '(err, s) := run (lib := toy_tls) (sample_outside ev env) (λ _, idle_provider CertsKind) (λ _, idle_provider BlobKind)
                     (λ _, idle_kv) (mret 0) (λ _, mret tt) (200, "") args (mkProcess (mkOS ∅ [] 18 0 [] []) []) in
  (err, pr_trace s).

(** A process that serves until a signal, one whose member does not start, and
    one with an unknown module. *)
Example sample_runs :
  (∃ c evs l1 l2, sample_run EvStarted sample_env ["-cluster-password=secret"] =
     (None, [l1; OlricCreated c; OlricStarted; l2; ModulesStarted evs ["certs"]; GoEngine (90 * second); GoServe ":80";
             SignalNotify; SignalReceived; Log "shutting down"; Cancel; ServerShutdown; OlricShutdown; Cancel])
     ∧ oc_Authentication c = Some "secret")
  ∧ (∃ e c l1, sample_run (EvStartErr (Errors "bind")) sample_env ["-insecure"] = (Some e, [l1; OlricCreated c; Cancel]))
  ∧ (∃ e c l1, sample_run EvStarted sample_env ["-insecure"; "-modules=certz"] =
       (Some e, [l1; OlricCreated c; OlricStarted; OlricShutdown; Cancel])).
Proof.
  split; [do 4 eexists; split; vm_compute; reflexivity|]. split; do 3 eexists; vm_compute; reflexivity.
Qed.

Lemma refuses_without_password_witness :
  main (lib := toy_tls) (sample_outside EvStarted sample_env) (λ _, idle_provider CertsKind) (λ _, idle_provider BlobKind)
    (λ _, idle_kv) (mret 0) (λ _, mret tt) (200, "") ["-port=80"; "word"; "-insecure"] (mkProcess (mkOS ∅ [] 18 0 [] []) [])
  = (1, mkProcess (mkOS ∅ [] 18 0 [] []) [Cancel; Log "lbsync"]).
Proof.
  apply (refuses_without_password (lib := toy_tls) (sample_outside EvStarted sample_env) _ _ _ _ _ _ [(FPort, "80")]).
  - apply (line_flag "port" FPort "80" ["-port=80"] [] ["word"; "-insecure"]); [set_solver| |].
    + apply (spelled_equals (varFlag "port" FPort) "-"). set_solver.
    + constructor. right. right. intros t. discriminate.
  - constructor; [|constructor]. eexists. vm_compute. reflexivity.
  - apply sample_env_parses.
  - vm_compute. reflexivity.
  - vm_compute. reflexivity.
  - vm_compute. reflexivity.
Defined.
