(* ===== verification/Agent.v ===== *)
(** One agent as main starts it: the engine built by engine.New and filled by
    startModules from the configuration, with the certs and blob providers on
    one disk. If the configured directories keep the two apart, the agent is an
    engine in the sense of [Reconcile.v]. *)

From S2P Require Import Prelude GoStrings Version Metrics Engine EngineSpec Converge Fleet Reconcile.
From S2P Require Import GoPath FileSystem AtomicFile Cert Bundle Hook Discovery Certs Frame Blob CertsStable.
From S2P Require Import BlobFleet Modules Main.

Open Scope Z_scope.

(** ** Contracts and larger worlds *)

Lemma stable_iff {N} (p : Provider (M N)) L (P P' : N → Prop) shows rec_ok :
  (∀ n, P n ↔ P' n) → StableProvider p L P shows rec_ok → StableProvider p L P' shows rec_ok.
Proof.
  intros HP [Hl Ha Hag Hf]. split.
  - intros n Hn%HP. destruct (Hl n Hn) as (n' & ? & ?%HP & ?). eauto.
  - intros n r Hn%HP Hr. destruct (Ha n r Hn Hr) as (b & n' & ? & ?%HP & ?). eauto 10.
  - intros n r Hn%HP. by apply Hag.
  - intros n Hn%HP. destruct (Hf n Hn) as (n' & ? & ?%HP & ?). eauto.
Qed.

(** A provider of the first part of the world. *)
Definition provider_fst {S T} (p : Provider (M S)) : Provider (M (S * T)) :=
  {| p_Kind := p_Kind p;
     p_Local := lift_fst (p_Local p);
     p_Apply r := lift_fst (p_Apply p r);
     p_Flush := lift_fst (p_Flush p);
     p_Rollback keys := lift_fst (p_Rollback p keys) |}.

Lemma stable_fst {S T} (p : Provider (M S)) L pinv shows rec_ok :
  StableProvider p L pinv shows rec_ok →
  StableProvider (provider_fst (T := T) p) L (λ w, pinv w.1) (λ w, shows w.1) rec_ok.
Proof.
  intros [Hl Ha Hag Hf]. split; simpl; unfold lift_fst.
  - intros [n t] Hn. destruct (Hl n Hn) as (n' & E & H). exists (n', t). simpl. by rewrite E.
  - intros [n t] r Hn Hr. destruct (Ha n r Hn Hr) as (b & n' & E & H). exists b, (n', t). simpl. by rewrite E.
  - intros [n t] r Hn Hr Hsh. simpl. by rewrite Hag.
  - intros [n t] Hn. destruct (Hf n Hn) as (n' & E & H). exists (n', t). simpl. by rewrite E.
Qed.

(** ** The agent *)

(** A configuration, with the place of its serving directory, the records of
    its certbot directory, the places of the sources and destinations of its
    blobs, the source files, and the order in which the pending set is visited. *)
Record agent := mkAgent {
  ag_cfg : config;
  ag_serving : phys;
  ag_certs : list Record_;
  ag_src : resource → place;
  ag_sfile : resource → option file;
  ag_dst : string → place;
  ag_order : gset string → list string
}.

Definition ag_blobs (a : agent) : list BlobResource :=
  match parseBlobResources (BlobResources (ag_cfg a)) with Ok bs => bs | Err _ => [] end.
Definition ag_modules (a : agent) : list string := parseList (Modules_ (ag_cfg a)).
Definition certs_of (a : agent) : certsProvider := certs_Start (moduleConfig (ag_cfg a) (ag_blobs a)) true.
Definition blob_of (a : agent) : blobProvider := blob_Start (ag_blobs a) (Hostname (ag_cfg a)) true.

(** What the agent writes: below the serving directory, the destinations and
    their backups. *)
Definition ag_region (a : agent) : region :=
  mkRegion (ag_serving a)
    (x ← elements (dom (bp_byName (blob_of a))); [pl_key (ag_dst a x); pl_bak (ag_dst a x)]).

Section Agent.
Context {crypto : Crypto} {commands : Commands}.

(** What the configuration must keep apart. *)
Record agent_layout (a : agent) : Prop := {
  al_blob : layout_ok (blob_of a) (ag_src a) (ag_dst a);
  al_dst : ∀ x rx, bp_byName (blob_of a) !! x = Some rx → ¬ ag_serving a `prefix_of` pl_d (ag_dst a x);
  al_src : ∀ r, r ∈ bp_resources (blob_of a) → ¬ below (ag_serving a) (pl_key (ag_src a r))
}.

Definition agent_certs_inv (a : agent) (w : BlobNode) : Prop :=
  "certs" ∈ ag_modules a → certs_inv (certs_of a) (ag_region a) (ag_certs a) w.1.
Definition agent_blob_inv (a : agent) (w : BlobNode) : Prop :=
  "blob" ∈ ag_modules a → blob_inv (blob_of a) (ag_src a) (ag_sfile a) (ag_dst a) w.

(** The disk is in order for the modules that are enabled. *)
Definition agent_inv (a : agent) (w : BlobNode) : Prop := agent_certs_inv a w ∧ agent_blob_inv a w.

Definition certs_slot (a : agent) : slot BlobNode :=
  mkSlot _ (provider_fst (certs_provider (certs_of a))) (ag_certs a)
    (λ w, certs_shows (ag_region a) w.1) plain_key.
Definition blob_slot (a : agent) : slot BlobNode :=
  mkSlot _ (blob_provider (ag_order a) (blob_of a))
    (omap (sourceRecord (blob_of a) (ag_sfile a)) (bp_resources (blob_of a)))
    (blob_shows (blob_of a) (ag_dst a)) (λ _, True).

(** The provider a module name stands for. *)
Definition slot_of (a : agent) (name : string) : option (slot BlobNode) :=
  if String.eqb name "certs" then Some (certs_slot a)
  else if String.eqb name "blob" then Some (blob_slot a)
  else None.

Definition agent_slots (a : agent) : list (slot BlobNode) := omap (slot_of a) (ag_modules a).

(** ** The two providers do not disturb each other *)

Section Apart.
Context (a : agent) (Hlay : agent_layout a).
Implicit Types (w : BlobNode).

Lemma below_snoc (d d' : phys) b : below d (d' ++ [b]) → d `prefix_of` d'.
Proof.
  intros [[l Hl] Hne]. destruct l as [|x l _] using rev_ind.
  - rewrite app_nil_r in Hl. congruence.
  - rewrite app_assoc in Hl. apply app_inj_tail in Hl as [-> _]. by exists l.
Qed.

Lemma dst_not_below x rx b :
  bp_byName (blob_of a) !! x = Some rx → ¬ below (ag_serving a) (pl_d (ag_dst a x) ++ [b]).
Proof. intros Hx H%below_snoc. by apply (al_dst a Hlay x rx Hx). Qed.

(** An Apply of the certs provider changes nothing outside the serving
    directory. *)
Lemma outside_below key t t' k :
  outside (ag_serving a) key t t' → ¬ below (ag_serving a) k → t' !! k = t !! k.
Proof.
  intros Ho Hk. eapply (outside_region (mkRegion (ag_serving a) [])); [exact Ho|].
  intros [H|H]; [done|by apply elem_of_nil in H].
Qed.

(** The blob provider's part of the disk is as it was. *)
Lemma blob_inv_outside w w' key :
  blob_inv (blob_of a) (ag_src a) (ag_sfile a) (ag_dst a) w → os_faults (nd_os w'.1) = [] →
  outside (ag_serving a) key (os_tree (nd_os w.1)) (os_tree (nd_os w'.1)) →
  same_env (nd_os w.1) (nd_os w'.1) → dirs_le (os_tree (nd_os w.1)) (os_tree (nd_os w'.1)) →
  blob_inv (blob_of a) (ag_src a) (ag_sfile a) (ag_dst a) w'.
Proof.
  intros [Hnf Hdst Hsrc] Hnf' Ho (Hcwd & _) Hle.
  assert (∀ q d, dir_at (nd_os w.1) q d → dir_at (nd_os w'.1) q d) as Hdir.
  { intros q d. unfold dir_at, resolve_dir. rewrite Hcwd. by apply walk_dirs_le. }
  assert (∀ x rx b, bp_byName (blob_of a) !! x = Some rx →
    os_tree (nd_os w'.1) !! (pl_d (ag_dst a x) ++ [b]) = os_tree (nd_os w.1) !! (pl_d (ag_dst a x) ++ [b])) as Heq.
  { intros x rx b Hx. eapply outside_below; [exact Ho|]. by eapply dst_not_below. }
  split; [done| |].
  - intros x rx Hx. destruct (Hdst x rx Hx) as [[Hp Hd Hf Hb Hn] Ht]. split.
    + split; [exact Hp|by apply Hdir| | |exact Hn]; by rewrite (Heq x rx).
    + intros n. rewrite (Heq x rx) by done. apply Ht.
  - intros r Hr. destruct (Hsrc r Hr) as (Hp & Hd & Hf). split_and!; [exact Hp|by apply Hdir|].
    rewrite <-Hf. eapply outside_below; [exact Ho|]. by apply (al_src a Hlay).
Qed.

Lemma blob_shows_outside w w' key r :
  outside (ag_serving a) key (os_tree (nd_os w.1)) (os_tree (nd_os w'.1)) →
  blob_shows (blob_of a) (ag_dst a) w r → blob_shows (blob_of a) (ag_dst a) w' r.
Proof.
  intros Ho Hsh [rx Hx]. specialize (Hsh (mk_is_Some _ _ Hx)). revert Hsh. unfold content.
  rewrite (outside_below _ _ _ (pl_key (ag_dst a (Key r))) Ho); [done|]. by apply (dst_not_below (Key r) rx).
Qed.

(** The certs provider keeps what depends on the blob provider's files. *)
Lemma certs_preserves (Q : BlobNode → Prop) :
  tame_commands → "certs" ∈ ag_modules a →
  (∀ w w', nd_os w'.1 = nd_os w.1 → Q w → Q w') →
  (∀ w w' key, Q w → os_faults (nd_os w'.1) = [] →
     outside (ag_serving a) key (os_tree (nd_os w.1)) (os_tree (nd_os w'.1)) →
     same_env (nd_os w.1) (nd_os w'.1) → dirs_le (os_tree (nd_os w.1)) (os_tree (nd_os w'.1)) → Q w') →
  preserves (sl_provider (certs_slot a)) (agent_certs_inv a) (sl_ok (certs_slot a)) Q.
Proof.
  intros Hcmd Hmod Hsame Hout [n pend] Hinv HQ. specialize (Hinv Hmod). simpl in Hinv.
  split_and!; [|intros r Hr|]; simpl; unfold lift_fst; simpl.
  - unfold on_os. rewrite (ci_local _ _ _ _ Hinv). by apply (Hsame (n, pend)).
  - destruct (certs_Apply_ok _ _ _ r n Hinv Hr) as (ch & n' & -> & Hn' & _ & Ho & Henv & Hle).
    apply (Hout (n, pend) _ (Key r)); [done|apply (sv_nf _ _ _ (ci_serving _ _ _ _ Hn'))|exact Ho|exact Henv|exact Hle].
  - edestruct runner_Run_tame as (n' & -> & Hos); [exact Hcmd|]. by apply (Hsame (n, pend)).
Qed.

(** What a write to a destination leaves. *)
Lemma write_same_outside x rx umask clock data perm t :
  bp_byName (blob_of a) !! x = Some rx →
  same_outside (ag_region a) t (write_tree umask clock (pl_d (ag_dst a x)) (pl_b (ag_dst a x)) data perm t).2.
Proof.
  intros Hx k Hk. apply write_tree_lookup_ne; intros ->; apply Hk; right; apply list_elem_of_bind; exists x;
    (split; [|apply elem_of_elements, elem_of_dom; eauto]); [left|right; left].
Qed.

(** A change of destinations leaves the serving directory alone. *)
Lemma serving_write s s' dir x rx data perm :
  bp_byName (blob_of a) !! x = Some rx → serving s dir (ag_serving a) → calm s s' →
  same_dirs (os_tree s) (os_tree s') →
  os_tree s' = (write_tree (os_umask s) (os_clock s) (pl_d (ag_dst a x)) (pl_b (ag_dst a x)) data perm (os_tree s)).2 →
  serving s' dir (ag_serving a) ∧ ∀ k, below (ag_serving a) k → os_tree s' !! k = os_tree s !! k.
Proof.
  intros Hx [Hnf Hd Hkey Hnames Htmp] [(Hcwd & _) Hnf'] Hdirs Ht.
  assert (∀ k, below (ag_serving a) k → os_tree s' !! k = os_tree s !! k) as Heq.
  { intros k Hk. rewrite Ht. apply write_tree_lookup_ne; intros ->; by eapply dst_not_below in Hk. }
  assert (∀ key, below (ag_serving a) (ag_serving a ++ [key])) as Hb1.
  { intros key. split; [by exists [key]|]. intros E. apply (f_equal length) in E. rewrite length_app in E. simpl in E. lia. }
  assert (∀ key y, below (ag_serving a) ((ag_serving a ++ [key]) ++ [y])) as Hb2.
  { intros key y. split; [rewrite <-app_assoc; by exists [key; y]|]. apply snoc_snoc_neq. }
  split; [|exact Heq]. split.
  - done.
  - eapply abs_dir_step; [exact Hdirs|exact Hcwd|exact Hd].
  - intros key. rewrite Heq by apply Hb1. destruct (Hkey key) as [?|[? Hx']]; [by left|right]. split; [done|].
    intros y. by rewrite Heq by apply Hb2.
  - intros key y Hy. rewrite !Heq by apply Hb2. by apply Hnames.
  - intros key n. rewrite Heq by apply Hb2. apply Htmp.
Qed.

(** The blob provider keeps what depends on the serving directory and the
    certbot directory. *)
Lemma blob_preserves (Q : BlobNode → Prop) :
  tame_commands → "blob" ∈ ag_modules a →
  (∀ w w', nd_os w'.1 = nd_os w.1 → Q w → Q w') →
  (∀ w w' x rx data perm, Q w → bp_byName (blob_of a) !! x = Some rx →
     calm (nd_os w.1) (nd_os w'.1) → same_dirs (os_tree (nd_os w.1)) (os_tree (nd_os w'.1)) →
     os_tree (nd_os w'.1) = (write_tree (os_umask (nd_os w.1)) (os_clock (nd_os w.1)) (pl_d (ag_dst a x))
       (pl_b (ag_dst a x)) data perm (os_tree (nd_os w.1))).2 → Q w') →
  preserves (sl_provider (blob_slot a)) (agent_blob_inv a) (sl_ok (blob_slot a)) Q.
Proof.
  intros Hcmd Hmod Hsame Hout w Hinv HQ. specialize (Hinv Hmod).
  split_and!; [|intros r _|]; simpl.
  - unfold blob_Local, on_os. rewrite (readResources_ok _ (ag_src a) (ag_sfile a)) by apply Hinv. simpl.
    by apply (Hsame w).
  - destruct (bp_byName (blob_of a) !! Key r) as [rx|] eqn:Hx; [|unfold blob_Apply; by rewrite Hx].
    destruct (blob_write _ (ag_src a) (ag_sfile a) (ag_dst a) w (Key r) rx (map_get [] (Blobs r) "data") Hinv Hx)
      as (c & s' & E & Hc & Ht & _).
    rewrite (blob_Apply_run _ w r rx c s' Hx E). simpl.
    apply (Hout w _ (Key r) rx (map_get [] (Blobs r) "data") 420); [done|done|exact Hc| |exact Ht].
    simpl. rewrite Ht. destruct (bi_dst _ _ _ _ _ Hinv (Key r) rx Hx) as [Hm _].
    apply write_tree_same_dirs; apply Hm.
  - unfold blob_Flush. destruct (flushAll_tame (blob_of a) (ag_order a w.2) w.1 Hcmd) as (n' & -> & Hos).
    by apply (Hsame w).
Qed.

Lemma certs_inv_write w w' x rx data perm :
  certs_inv (certs_of a) (ag_region a) (ag_certs a) w.1 → bp_byName (blob_of a) !! x = Some rx →
  calm (nd_os w.1) (nd_os w'.1) → same_dirs (os_tree (nd_os w.1)) (os_tree (nd_os w'.1)) →
  os_tree (nd_os w'.1) = (write_tree (os_umask (nd_os w.1)) (os_clock (nd_os w.1)) (pl_d (ag_dst a x))
    (pl_b (ag_dst a x)) data perm (os_tree (nd_os w.1))).2 →
  certs_inv (certs_of a) (ag_region a) (ag_certs a) w'.1.
Proof.
  intros Hinv Hx Hcalm Hdirs Ht. apply (certs_inv_frame _ _ _ w.1); [done| |apply Hcalm|].
  - eapply serving_write; [exact Hx|apply (ci_serving _ _ _ _ Hinv)|exact Hcalm|exact Hdirs|exact Ht].
  - rewrite Ht. by eapply write_same_outside.
Qed.

Lemma certs_shows_write w w' r x rx umask clock data perm :
  bp_byName (blob_of a) !! x = Some rx →
  os_tree (nd_os w'.1) = (write_tree umask clock (pl_d (ag_dst a x)) (pl_b (ag_dst a x)) data perm
    (os_tree (nd_os w.1))).2 →
  certs_shows (ag_region a) w.1 r → certs_shows (ag_region a) w'.1 r.
Proof.
  intros Hx Ht [He Hh].
  assert (∀ k, below (ag_serving a) k → os_tree (nd_os w'.1) !! k = os_tree (nd_os w.1) !! k) as Heq.
  { intros k Hk. rewrite Ht. apply write_tree_lookup_ne; intros ->; by eapply dst_not_below in Hk. }
  split.
  - rewrite Heq; [done|]. split; [by exists [Key r]|]. simpl. intros E. apply (f_equal length) in E.
    rewrite length_app in E. simpl in E. lia.
  - intros name dt pm Hin Hd. destruct (Hh name dt pm Hin Hd) as (f & Hf & Hfd). exists f. split; [|done].
    rewrite Heq; [done|]. split; [simpl; rewrite <-app_assoc; by exists [Key r; name]|]. apply snoc_snoc_neq.
Qed.
End Apart.
End Agent.
