(* ===== verification/AgentFleet.v ===== *)
(** A fleet of agents, each started by main with its own configuration, on one
    reliable store: the convergence of all kinds of resources, down to the
    files on the disks. [Deploy.v] applies it to the two backends. *)

From S2P Require Import Prelude GoStrings Version Metrics Engine EngineSpec Converge Fleet Reconcile.
From S2P Require Import GoPath FileSystem AtomicFile Cert Bundle Hook Discovery Certs Frame Blob CertsStable.
From S2P Require Import BlobFleet Modules Main Agent.

Open Scope Z_scope.

Section AgentFleet.
Context {crypto : Crypto} {commands : Commands}.
Context {C : Type} {view : C → gmap (string * string) Record_} {inv : C → Prop} {kind_ok key_ok : string → Prop}.
Context (Hcerts : kind_ok CertsKind) (Hblob : kind_ok BlobKind) (Hcmd : tame_commands).

Abbreviation good_kv kv := (ReliableKV kv view inv kind_ok key_ok).

(** main.run up to the start of the modules: the engine, on a client of the
    cluster. *)
Definition start_agent (kv : ClusterKV (M C)) (a : agent) :=
  startModules (λ p, lift_provider (provider_fst (certs_provider p)))
    (λ p, lift_provider (blob_provider (ag_order a) p)) (ag_cfg a)
    (New (time_Now (C := C)) (lift_kv kv) (Some metrics_sink) (mkOptions (ReconcileInterval (ag_cfg a)) 0 None)).

Definition agent_engine (kv : ClusterKV (M C)) (a : agent) : Engine (M (C * BlobNode)) := (start_agent kv a).2.1.1.

(** A configuration that starts, with each module at most once, that keeps the
    files of the providers apart, and whose resources have names the store can
    hold; a lineage must be the name of a directory. *)
Record agent_ok (a : agent) : Prop := {
  ao_starts : ∀ kv, (start_agent kv a).1 = None;
  ao_once : NoDup (ag_modules a);
  ao_layout : agent_layout a;
  ao_certs : ∀ r, r ∈ ag_certs a → key_ok (Key r) ∧ plain_key r;
  ao_blobs : ∀ r, r ∈ bp_resources (blob_of a) → key_ok (rs_name r)
}.

(** ** The engine of an agent *)

Section Engine.
Context (a : agent) (kv : ClusterKV (M C)) (Ha : agent_ok a).

Lemma slot_of_kind name s : slot_of a name = Some s → sl_kind s = name ∧ (s = certs_slot a ∨ s = blob_slot a).
Proof.
  unfold slot_of. destruct (String.eqb_spec name "certs") as [->|]; [intros [= <-]; auto|].
  destruct (String.eqb_spec name "blob") as [->|]; [intros [= <-]; auto|done].
Qed.

Lemma agent_slots_kinds : NoDup (sl_kind <$> agent_slots a).
Proof.
  pose proof (ao_once a Ha) as Hnd. unfold agent_slots. induction (ag_modules a) as [|name names IH]; [constructor|].
  apply NoDup_cons in Hnd as [Hn Hnd]. cbn [omap list_omap]. specialize (IH Hnd).
  destruct (slot_of a name) as [s|] eqn:E; [|done]. apply slot_of_kind in E as [E _]. rewrite fmap_cons. constructor; [|done].
  intros (s' & Es & Hin)%list_elem_of_fmap. apply list_elem_of_omap in Hin as (name' & Hin & E').
  apply slot_of_kind in E' as [E' _]. apply Hn. congruence.
Qed.

Lemma agent_slot_cases s : s ∈ agent_slots a →
  (s = certs_slot a ∧ "certs" ∈ ag_modules a) ∨ (s = blob_slot a ∧ "blob" ∈ ag_modules a).
Proof.
  intros (name & Hin & E)%list_elem_of_omap. unfold slot_of in E.
  destruct (String.eqb_spec name "certs") as [->|]; [simplify_eq; by left|].
  destruct (String.eqb_spec name "blob") as [->|]; [simplify_eq; by right|done].
Qed.

Lemma agent_engine_parts : let e := agent_engine kv a in
  e_cl e = lift_kv kv ∧ e_providers e = (λ s, lift_provider (sl_provider s)) <$> agent_slots a
  ∧ e_metrics e = Some metrics_sink ∧ e_now e = time_Now.
Proof.
  pose proof (startModules_spec (λ p, lift_provider (provider_fst (certs_provider p)))
    (λ p, lift_provider (blob_provider (ag_order a) p)) (ag_cfg a)
    (New (time_Now (C := C)) (lift_kv kv) (Some metrics_sink) (mkOptions (ReconcileInterval (ag_cfg a)) 0 None))) as H.
  fold (start_agent kv a) in H. pose proof (ao_starts a Ha kv) as Herr. unfold agent_engine.
  destruct (start_agent kv a) as [err [[e evs] logs]]. simpl in *. subst err.
  destruct H as (blobs & mods & Hb & Hmods & Hp & Hcl & _ & _ & Hm & Hn & _). split_and!; [exact Hcl| |exact Hm|exact Hn].
  rewrite Hp. simpl. fold (ag_modules a) in Hmods. clear -Hmods Hb. unfold agent_slots.
  induction Hmods as [|name mod_ names mods Hmod Hmods IH]; [done|]. cbn [omap list_omap].
  assert (ag_blobs a = blobs) as Hbl by (unfold ag_blobs; by rewrite Hb).
  unfold module_of in Hmod. unfold slot_of at 1. destruct (String.eqb name "certs"); [|destruct (String.eqb name "blob")].
  - simplify_eq/=. by rewrite IH.
  - simplify_eq/=. by rewrite IH.
  - destruct (find _ _) as [x|]; simplify_eq/=. exact IH.
Qed.

(** What reading the clock and updating collectors do to the node. *)
Lemma agent_inv_os w w' : nd_os w'.1 = nd_os w.1 → agent_inv a w → agent_inv a w'.
Proof.
  intros E [H1 H2]. split; intros Hm.
  - apply (certs_inv_os _ _ _ w.1); [done|by apply H1].
  - apply (blob_inv_os _ _ _ _ w); [done|by apply H2].
Qed.

Lemma slot_shows_os s w w' r : s ∈ agent_slots a → nd_os w'.1 = nd_os w.1 → sl_shows s w r → sl_shows s w' r.
Proof.
  intros [[-> _]|[-> _]]%agent_slot_cases E; simpl.
  - unfold certs_shows. by rewrite E.
  - intros Hsh Hr. rewrite E. by apply Hsh.
Qed.

Lemma harmless_os {A} (cmd : M (C * BlobNode) A) :
  (∀ c w, ∃ x w', cmd (c, w) = (x, (c, w')) ∧ nd_os w'.1 = nd_os w.1) → harmless (agent_inv a) (agent_slots a) cmd.
Proof.
  intros H c w Hw. destruct (H c w) as (x & w' & E & Hos). exists x, w'.
  split_and!; [done|by apply (agent_inv_os w)|]. intros s r Hs. by apply slot_shows_os.
Qed.

Lemma certs_slot_stable : "certs" ∈ ag_modules a →
  StableProvider (sl_provider (certs_slot a)) (ag_certs a) (agent_inv a) (sl_shows (certs_slot a)) plain_key.
Proof.
  intros Hm. eapply stable_iff, stable_and.
  2: { apply (stable_fst (certs_provider (certs_of a)) (ag_certs a)
        (certs_inv (certs_of a) (ag_region a) (ag_certs a)) (certs_shows (ag_region a)) plain_key).
       by apply certs_stable. }
  2: { intros w Hw. apply (certs_preserves a (agent_blob_inv a) Hcmd Hm); [| |by intros _].
       - intros w1 w2 E HQ Hb. apply (blob_inv_os _ _ _ _ w1); [done|by apply HQ].
       - intros w1 w2 key HQ Hnf Ho Henv Hle Hb. apply (blob_inv_outside a (ao_layout a Ha) w1 w2 key); try done. by apply HQ. }
  intros w. unfold agent_inv, agent_certs_inv. naive_solver.
Qed.

Lemma blob_slot_stable : "blob" ∈ ag_modules a →
  StableProvider (sl_provider (blob_slot a)) (sl_locals (blob_slot a)) (agent_inv a) (sl_shows (blob_slot a)) (λ _, True).
Proof.
  intros Hm. eapply stable_iff, stable_and.
  2: { apply (blob_stable (blob_of a) (ag_src a) (ag_sfile a) (ag_dst a)); [apply (al_blob _ (ao_layout a Ha))|done]. }
  2: { intros w Hw. apply (blob_preserves a (agent_certs_inv a) Hcmd Hm); [| |by intros _].
       - intros w1 w2 E HQ Hc. apply (certs_inv_os _ _ _ w1.1); [done|by apply HQ].
       - intros w1 w2 x rx data perm HQ Hx Hcalm Hd Ht Hc.
         apply (certs_inv_write a (ao_layout a Ha) w1 w2 x rx data perm); try done. by apply HQ. }
  intros w. unfold agent_inv, agent_blob_inv. naive_solver.
Qed.

Lemma agent_engine_ok w :
  good_kv kv → agent_inv a w →
  engine_ok (cl := kv) (view := view) (inv := inv) (kind_ok := kind_ok) (key_ok := key_ok)
    (agent_inv a) (agent_engine kv a) (agent_slots a).
Proof.
  intros Hkv [Hwc Hwb]. destruct agent_engine_parts as (Hcl & Hp & Hm & Hn). split.
  - exact Hkv.
  - exact Hcl.
  - exact Hp.
  - apply agent_slots_kinds.
  - intros s [[-> Hmod]|[-> Hmod]]%agent_slot_cases.
    + split_and!; [exact Hcerts|by apply certs_slot_stable|]. intros r Hr.
      destruct (ao_certs a Ha r Hr) as [H1 H2]. split_and!; [|done|done].
      by destruct (certs_records _ _ _ w.1 r (Hwc Hmod) Hr).
    + split_and!; [exact Hblob|by apply blob_slot_stable|]. intros r Hr.
      apply list_elem_of_omap in Hr as (res & Hres & Hr). pose proof (ao_blobs a Ha res Hres) as Hk.
      unfold sourceRecord in Hr. destruct (ag_sfile a res); by simplify_eq/=.
  - intros s s' r [[-> Hm1]|[-> Hm1]]%agent_slot_cases [[-> Hm2]|[-> Hm2]]%agent_slot_cases Hne; try done.
    + intros n Hn0 HQ. apply (certs_preserves a (λ n, sl_shows (blob_slot a) n r)); try done; [| |apply Hn0].
      * intros w1 w2 E Hsh Hr. rewrite E. by apply Hsh.
      * intros w1 w2 key Hsh _ Ho _ _. by apply (blob_shows_outside a (ao_layout a Ha) w1 w2 key).
    + intros n Hn0 HQ. apply (blob_preserves a (λ n, sl_shows (certs_slot a) n r)); try done; [| |apply Hn0].
      * intros w1 w2 E. simpl. unfold certs_shows. by rewrite E.
      * intros w1 w2 x rx data perm Hsh Hx _ _ Ht.
        by apply (certs_shows_write a (ao_layout a Ha) w1 w2 r x rx _ _ data perm Hx Ht).
  - rewrite Hn. apply harmless_os. intros c w'. eexists _, w'. by split.
  - intros emit ev. rewrite Hm. intros [= <-]. apply harmless_os. intros c [n pend]. by eexists tt, (_, pend).
Qed.
End Engine.

(** ** The fleet *)

Context (kvs : list (ClusterKV (M C))) (agents : list agent) (Hlen : length kvs = length agents)
  (Hkvs : Forall (λ kv, good_kv kv) kvs) (Hagents : Forall agent_ok agents).

Abbreviation agents_state := (C * list BlobNode)%type.

(** One reconcile of one agent. *)
Definition agent_step (s : agents_state) (t : tick) : agents_state :=
  match kvs !! tk_node t, agents !! tk_node t, s.2 !! tk_node t with
  | Some kv, Some a, Some n =>
      let '(_, (c', n')) := reconcile (tk_range t) (agent_engine kv a) (s.1, n) in
      (c', <[tk_node t := n']> s.2)
  | _, _, _ => s
  end.

Definition agents_run (s : agents_state) (sched : list tick) : agents_state := foldl agent_step s sched.

(** The record agent [i] has for a kind and key. *)
Definition agent_local (i : nat) (kk : string * string) : option Record_ :=
  a ← agents !! i; slot_local (agent_slots a) kk.

Definition agents_ok (s : agents_state) : Prop :=
  inv s.1 ∧ Forall2 agent_inv agents s.2 ∧ ∀ k r, view s.1 !! (CertsKind, k) = Some r → plain_key r.

Definition agents_serve (s : agents_state) (i : nat) : Prop :=
  ∀ a n, agents !! i = Some a → s.2 !! i = Some n → agent_serves (view := view) (agent_slots a) s.1 n.

Lemma agent_good_of a c n :
  inv c → agent_inv a n → (∀ k r, view c !! (CertsKind, k) = Some r → plain_key r) →
  agent_good (view := view) (inv := inv) (agent_inv a) (agent_slots a) c n.
Proof.
  intros Hc Hn Hok. split_and!; [done|done|]. intros s k r [[-> _]|[-> _]]%agent_slot_cases; [apply Hok|done].
Qed.

Lemma agent_step_spec s t :
  agents_ok s → range_ok (tk_range t) →
  agents_ok (agent_step s t)
  ∧ (∀ kk, view (agent_step s t).1 !! kk = pickNewer (agent_local (tk_node t) kk) (view s.1 !! kk))
  ∧ ((tk_node t < length agents)%nat → agents_serve (agent_step s t) (tk_node t))
  ∧ ∀ j, j ≠ tk_node t → (agent_step s t).2 !! j = s.2 !! j.
Proof.
  intros (Hc & Hns & Hok) Hrange. unfold agent_step, agent_local.
  destruct (agents !! tk_node t) as [a|] eqn:Ea.
  2: { apply lookup_ge_None in Ea. rewrite (proj2 (lookup_ge_None kvs (tk_node t))) by lia.
       split_and!; try done. lia. }
  destruct (lookup_lt_is_Some_2 kvs (tk_node t)) as [kv Ekv]; [rewrite Hlen; by eapply lookup_lt_Some|]. rewrite Ekv.
  destruct (Forall2_lookup_l _ _ _ _ _ Hns Ea) as (n & En & Hn). rewrite En.
  rewrite Forall_lookup in Hagents. rewrite Forall_lookup in Hkvs.
  pose proof (Hagents _ _ Ea) as Ha.
  destruct (reconcile_spec (agent_inv a) (agent_engine kv a) (agent_slots a)
    (agent_engine_ok a kv Ha n (Hkvs _ _ Ekv) Hn) (tk_range t) s.1 n Hrange (agent_good_of a s.1 n Hc Hn Hok))
    as (c' & n' & E & (Hc' & Hn' & _) & Hjoin & Hserve). rewrite E. simpl. split_and!.
  - split_and!; simpl; [done| |].
    + rewrite <-(list_insert_id agents _ _ Ea). by apply Forall2_insert.
    + intros k r. rewrite Hjoin. intros Hr.
      destruct (pickNewer_one_of (slot_local (agent_slots a) (CertsKind, k)) (view s.1 !! (CertsKind, k))) as [H1|H1];
        rewrite H1 in Hr; [|by apply (Hok k)].
      unfold slot_local in Hr. destruct (find _ _) as [sl|] eqn:Ef; [|done]. simpl in Hr.
      apply find_some in Ef as [Hin Hk]. apply list_elem_of_In in Hin. apply String.eqb_eq in Hk.
      apply agent_slot_cases in Hin as [[-> _]|[-> _]]; [|done]. apply index_by_key_Some in Hr as [_ Hr].
      by apply (ao_certs a Ha).
  - exact Hjoin.
  - intros _ a1 n1 Ha1 Hn1. simpl in *. rewrite list_lookup_insert_eq in Hn1 by (by eapply lookup_lt_Some).
    simplify_eq. exact Hserve.
  - intros j Hj. by apply list_lookup_insert_ne.
Qed.

(** The fleet of agents is an instance of newest-wins replication. *)
Lemma agents_newest_wins :
  NewestWins agent_step tk_node (length agents) (λ s kk, view s.1 !! kk) agent_local
    agents_ok (λ t, range_ok (tk_range t)) agents_serve.
Proof.
  split.
  - intros s t Hs Ht. by apply agent_step_spec.
  - intros s t k Hs Ht. by apply agent_step_spec.
  - intros s t Hs Ht. by apply agent_step_spec.
  - intros s t j Hs Ht Hne Heq Hserve a n Ha Hn sl k r Hsl Hr.
    destruct (agent_step_spec s t Hs Ht) as (_ & _ & _ & Hother). rewrite Hother in Hn by done.
    rewrite Heq in Hr. by apply (Hserve a n Ha Hn sl k).
  - intros i k Hi. unfold agent_local. by rewrite (proj2 (lookup_ge_None agents i)).
Qed.

Lemma slot_enabled a name : name ∈ ag_modules a → ∀ s, slot_of a name = Some s → s ∈ agent_slots a.
Proof. intros Hin s Hs. apply list_elem_of_omap. eauto. Qed.

(** The files an agent serves, by what its modules promise. *)
Lemma serves_files s i a n :
  agents_ok s → agents_serve s i → agents !! i = Some a → s.2 !! i = Some n →
  ("certs" ∈ ag_modules a → ∀ lineage r, view s.1 !! (CertsKind, lineage) = Some r →
     holds (nd_os n.1) (ag_serving a) lineage (fromRecord r))
  ∧ ("blob" ∈ ag_modules a → ∀ name ra r, bp_byName (blob_of a) !! name = Some ra →
     view s.1 !! (BlobKind, name) = Some r →
     content (os_tree (nd_os n.1)) (pl_key (ag_dst a name)) = Some (map_get [] (Blobs r) "data")).
Proof.
  intros (Hc & _) Hserve Ha Hn. specialize (Hserve a n Ha Hn).
  destruct (lookup_lt_is_Some_2 kvs i) as [kv Hkv]; [rewrite Hlen; by eapply lookup_lt_Some|].
  rewrite Forall_lookup in Hkvs. pose proof (Hkvs _ _ Hkv) as Hrel. split.
  - intros Hm lineage r Hr. destruct (kv_view_wf s.1 CertsKind lineage r Hc Hr) as (_ & <- & _).
    exact (Hserve (certs_slot a) _ r (slot_enabled a "certs" Hm _ eq_refl) Hr).
  - intros Hm name ra r Hra Hr. destruct (kv_view_wf s.1 BlobKind name r Hc Hr) as (_ & <- & _).
    apply (Hserve (blob_slot a) _ r (slot_enabled a "blob" Hm _ eq_refl) Hr). eauto.
Qed.

(** Every agent reconciles at least once. *)
Definition agents_round (sched : list tick) : Prop :=
  ∀ i, (i < length agents)%nat → ∃ t, t ∈ sched ∧ tk_node t = i.

Lemma agents_converge c0 ns0 sched1 sched2 more :
  agents_ok (c0, ns0) → sched_ok sched1 → sched_ok sched2 → sched_ok more →
  agents_round sched1 → agents_round sched2 →
  let '(c, ns) := agents_run (c0, ns0) (sched1 ++ sched2 ++ more) in
  (∀ kk, covers (view c !! kk) (view c0 !! kk) ∧ (∀ i, covers (view c !! kk) (agent_local i kk))
     ∧ (view c !! kk = view c0 !! kk ∨ ∃ i, view c !! kk = agent_local i kk))
  ∧ ∀ i a n, agents !! i = Some a → ns !! i = Some n →
    ("certs" ∈ ag_modules a → ∀ lineage r, view c !! (CertsKind, lineage) = Some r →
       holds (nd_os n.1) (ag_serving a) lineage (fromRecord r))
    ∧ ("blob" ∈ ag_modules a → ∀ name ra r, bp_byName (blob_of a) !! name = Some ra →
       view c !! (BlobKind, name) = Some r →
       content (os_tree (nd_os n.1)) (pl_key (ag_dst a name)) = Some (map_get [] (Blobs r) "data")).
Proof.
  intros Hs H1 H2 H3 Hr1 Hr2.
  destruct (converges (NW := agents_newest_wins) (c0, ns0) sched1 (sched2 ++ more)) as (Hend & Hbest & Hserve);
    [done|done|by apply Forall_app|done|by apply round_app|].
  change (run (step := agent_step)) with agents_run in *.
  destruct (agents_run (c0, ns0) (sched1 ++ sched2 ++ more)) as [c ns].
  split; [exact Hbest|]. intros i a n Ha Hn.
  apply (serves_files (c, ns) i a n Hend); [|done|done]. apply Hserve. by eapply lookup_lt_Some.
Qed.
End AgentFleet.
