(* ===== verification/Collectors.v ===== *)
(** The updates of the collectors: WithLabelValues panics when it is given
    another number of values than the collector has labels. Every update the
    engine, the providers and their hooks make is followed from the call to the
    node's list of updates, for the agent as main starts it. *)

From S2P Require Import Prelude GoStrings Version Metrics Engine EngineSpec.
From S2P Require Import GoPath FileSystem AtomicFile Cert Bundle Hook Discovery Certs Blob.
From S2P Require Import BlobFleet Modules Main Agent AgentFleet.

Open Scope Z_scope.

(** ** Commands that make valid updates only *)

Section Valid.
Context {W : Type} (log : W → list metric_event).

(** The command only adds to the log, and only updates that do not panic. *)
Definition valid {A} (c : M W A) : Prop :=
  ∀ w, ∃ new, log (c w).2 = log w ++ new ∧ Forall (λ ev, event_ok ev = true) new.

Lemma valid_same {A} (c : M W A) : (∀ w, log (c w).2 = log w) → valid c.
Proof. intros H w. exists []. by rewrite app_nil_r. Qed.

Lemma valid_ret {A} (a : A) : valid (mret a).
Proof. by apply valid_same. Qed.

Lemma valid_bind {A B} (c : M W A) (f : A → M W B) : valid c → (∀ a, valid (f a)) → valid (c ≫= f).
Proof.
  intros Hc Hf w. destruct (Hc w) as (n1 & E1 & H1). unfold mbind, M_bind. destruct (c w) as [a w1]. simpl in E1.
  destruct (Hf a w1) as (n2 & E2 & H2). exists (n1 ++ n2). rewrite E2, E1, app_assoc. split; [done|]. by apply Forall_app.
Qed.

Lemma valid_foldM {A B} (f : A → B → M W A) a l :
  (∀ a x, x ∈ l → valid (f a x)) → valid (foldM f a l).
Proof.
  revert a. induction l as [|x l IH]; intros a H; simpl; [apply valid_ret|].
  apply valid_bind; [apply H; left|]. intros a'. apply IH. intros a'' y Hy. apply H. by right.
Qed.

(** What the engine needs of its parts; the release function of a lock is
    called later, in another state. *)
Record valid_kv (cl : ClusterKV (M W)) : Prop := {
  vk_get : ∀ kind key, valid (kv_Get cl kind key);
  vk_put : ∀ r, valid (kv_Put cl r);
  vk_keys : ∀ kind, valid (kv_Keys cl kind);
  vk_lock : ∀ kind key ttl, valid (kv_Lock cl kind key ttl);
  vk_release : ∀ kind key ttl w f, (kv_Lock cl kind key ttl w).1.1 = Some f → valid f;
  vk_members : valid (kv_Members cl)
}.

Record valid_provider (p : Provider (M W)) : Prop := {
  vp_local : valid (p_Local p);
  vp_apply : ∀ r, valid (p_Apply p r);
  vp_flush : valid (p_Flush p);
  vp_rollback : ∀ keys, valid (p_Rollback p keys)
}.

Record valid_engine (e : Engine (M W)) : Prop := {
  ve_cl : valid_kv (e_cl e);
  ve_providers : ∀ p, p ∈ e_providers e → valid_provider p;
  ve_emit : ∀ emit ev, e_metrics e = Some emit → event_ok ev = true → valid (emit ev);
  ve_now : valid (e_now e)
}.

(** ** The engine *)

Context (e : Engine (M W)) (He : valid_engine e).

Lemma valid_metrics body :
  (∀ emit, (∀ ev, event_ok ev = true → valid (emit ev)) → valid (body emit)) → valid (with_metrics e body).
Proof.
  intros H. unfold with_metrics. destruct (e_metrics e) as [emit|] eqn:E; [|apply valid_ret].
  apply H. intros ev. by apply (ve_emit e He).
Qed.

Lemma valid_maybePublish kind k local clusterR : valid (maybePublish e kind k local clusterR).
Proof.
  unfold maybePublish. destruct local as [r|]; [|apply valid_ret].
  match goal with |- valid (if ?b then _ else _) => destruct b end; [apply valid_ret|].
  destruct (ve_cl e He) as [Hget Hput _ Hlock Hrel _]. intros w.
  destruct (Hlock kind k (e_lockTTL e) w) as (n1 & E1 & H1). pose proof (Hrel kind k (e_lockTTL e) w) as Hf.
  destruct (kv_Lock (e_cl e) kind k (e_lockTTL e) w) as [[rel err] w1] eqn:El. run_bind El. simpl in E1, Hf.
  match goal with |- ∃ new, log (?c w1).2 = _ ∧ _ => enough (valid c) as Hs end.
  { destruct (Hs w1) as (n2 & -> & H2). exists (n1 ++ n2). rewrite E1, app_assoc. split; [done|]. by apply Forall_app. }
  apply valid_bind; [apply Hget|]. intros [[cur ok] ?]. apply valid_bind.
  - match goal with |- valid (if ?b then _ else _) => destruct b end; [apply valid_ret|].
    apply valid_bind; [apply Hput|]. intros [?|]; [apply valid_ret|]. apply valid_metrics. intros emit H. by apply H.
  - intros _. destruct err, rel as [f|]; try apply valid_ret. by apply Hf.
Qed.

Lemma valid_tickKey p kind idx changed k : valid_provider p → valid (tickKey e p kind idx changed k).
Proof.
  intros Hp. unfold tickKey. apply valid_bind; [apply (ve_cl e He)|]. intros [[c ok] er].
  apply valid_bind; [apply valid_maybePublish|]. intros _. destruct (pickNewer (idx !! k) c); [|apply valid_ret].
  apply valid_bind; [apply Hp|]. intros [ch err]. destruct err; [apply valid_ret|].
  destruct ch; [|apply valid_ret]. apply valid_bind; [|intros _; apply valid_ret].
  apply valid_metrics. intros emit H. apply valid_bind; [by apply H|]. intros _.
  apply valid_bind; [apply (ve_now e He)|]. intros t. by apply H.
Qed.

Lemma valid_tickProvider range p : valid_provider p → valid (tickProvider range e p).
Proof.
  intros Hp. unfold tickProvider, gatherKeys, flushChanged. apply valid_bind; [apply (ve_now e He)|]. intros t.
  apply valid_bind.
  { apply valid_bind; [apply Hp|]. intros [locals err]. apply valid_bind; [apply (ve_cl e He)|].
    intros [cks err2]. apply valid_ret. }
  intros [idx ks]. apply valid_bind; [apply valid_foldM; intros changed k _; by apply valid_tickKey|].
  intros changed. apply valid_bind.
  - destruct changed; [apply valid_ret|]. apply valid_bind; [apply Hp|]. intros [er|]; [|apply valid_ret].
    apply valid_bind; [apply Hp|]. intros _. apply valid_metrics. intros emit H. by apply H.
  - intros _. apply valid_metrics. intros emit H. apply valid_bind; [apply (ve_now e He)|]. intros t'. by apply H.
Qed.

Lemma valid_reconcile range : valid (reconcile range e).
Proof.
  unfold reconcile. apply valid_bind.
  - apply valid_metrics. intros emit H. apply valid_bind; [apply (ve_cl e He)|]. intros n. by apply H.
  - intros _. apply valid_foldM. intros _ p Hp. apply valid_tickProvider. by apply (ve_providers e He).
Qed.

Lemma valid_Run range evs : valid (Run range e evs).
Proof.
  unfold Run. apply valid_bind; [apply valid_reconcile|]. intros _.
  induction evs as [|[r|er] evs IH]; simpl; [apply valid_ret| |apply valid_ret].
  apply valid_bind; [apply valid_reconcile|]. by intros _.
Qed.
End Valid.

(** ** The providers *)

Section Providers.
Context {crypto : Crypto} {commands : Commands}.

Lemma valid_emit_metric ev : event_ok ev = true → valid nd_metrics (emit_metric ev).
Proof. intros Hev n. exists [ev]. split; [done|]. by constructor. Qed.

Lemma valid_on_os {A} (c : M OS A) : valid nd_metrics (on_os c).
Proof. apply valid_same. intros n. unfold on_os. by destruct (c (nd_os n)). Qed.

Lemma valid_exec r args : valid nd_metrics (runner_exec r args).
Proof. apply valid_same. intros n. unfold runner_exec. by destruct (exec_Command _ _ _). Qed.

(** The collectors the hook updates have the label kind. *)
Lemma valid_bump r c : event_ok (mkEvent c [r_Kind r] Inc) = true → valid nd_metrics (bump r c).
Proof. intros H. unfold bump. destruct (r_Metrics r); [by apply valid_emit_metric|apply valid_ret]. Qed.

Lemma valid_runReload r : valid nd_metrics (runReload r).
Proof.
  unfold runReload. destruct (r_Reload r); [apply valid_ret|]. apply valid_bind; [apply valid_exec|].
  intros [e|]; [|apply valid_ret]. apply valid_bind; [by apply valid_bump|]. intros _. apply valid_ret.
Qed.

Lemma valid_runner_Run r : valid nd_metrics (runner_Run r).
Proof.
  unfold runner_Run. destruct (r_Verify r); [apply valid_runReload|]. apply valid_bind; [apply valid_exec|].
  intros [e|]; [|apply valid_runReload]. apply valid_bind; [by apply valid_bump|]. intros _. apply valid_ret.
Qed.

Lemma valid_certs p : valid_provider nd_metrics (certs_provider p).
Proof.
  split; simpl.
  - apply valid_on_os.
  - intros r. unfold certs_Apply. apply valid_bind; [apply valid_on_os|]. intros [changed [e|]]; [apply valid_ret|].
    apply valid_bind; [|intros _; apply valid_ret]. destruct (changed && cp_metrics p); [|apply valid_ret].
    destruct (ParseInt _); [|apply valid_ret]. by apply valid_emit_metric.
  - apply valid_runner_Run.
  - intros keys. apply valid_on_os.
Qed.

(** A larger world. *)
Lemma valid_lift_fst {S T A} (log : S → list metric_event) (c : M S A) :
  valid log c → valid (λ w : S * T, log w.1) (lift_fst c).
Proof. intros H [s t]. unfold lift_fst. simpl. specialize (H s). by destruct (c s). Qed.

Lemma valid_lift_snd {S T A} (log : S → list metric_event) (c : M S A) :
  valid log c → valid (λ w : T * S, log w.2) (lift_snd c).
Proof. intros H [t s]. unfold lift_snd. simpl. specialize (H s). by destruct (c s). Qed.

Definition node_log (w : BlobNode) : list metric_event := nd_metrics w.1.

Lemma valid_blob range p : valid_provider node_log (blob_provider range p).
Proof.
  split; simpl.
  - apply valid_same. intros w. unfold blob_Local, on_os.
    by destruct (foldM (readResource p) [] (bp_resources p) (nd_os w.1)).
  - intros r. unfold blob_Apply. destruct (bp_byName p !! Key r) as [res|]; [|apply valid_ret].
    apply valid_bind; [apply (valid_lift_fst nd_metrics), valid_on_os|]. intros [changed [e|]]; [apply valid_ret|].
    apply valid_bind; [|intros _; apply valid_ret]. destruct changed; [by apply valid_same|apply valid_ret].
  - intros w. unfold blob_Flush.
    assert (valid nd_metrics (foldM (flushOne p) None (range w.2))) as H.
    { apply valid_foldM. intros a x _. unfold flushOne. destruct (bp_byName p !! x); [|apply valid_ret].
      apply valid_bind; [apply valid_runner_Run|]. intros er. apply valid_ret. }
    specialize (H w.1). unfold node_log.
    destruct (foldM (flushOne p) None (range w.2) w.1) as [err n']. exact H.
  - intros keys. apply (valid_lift_fst nd_metrics), valid_on_os.
Qed.

(** ** The agent *)

Context {C : Type}.

Definition agent_log (w : C * BlobNode) : list metric_event := node_log w.2.

Lemma valid_lift_provider p : valid_provider node_log p → valid_provider agent_log (lift_provider p).
Proof. intros [H1 H2 H3 H4]. split; simpl; intros; apply (valid_lift_snd node_log); auto. Qed.

Lemma valid_lift_kv (kv : ClusterKV (M C)) : valid_kv agent_log (lift_kv kv).
Proof.
  assert (∀ A (c : M C A), valid agent_log (lift_fst c)) as H.
  { intros A c. apply valid_same. intros [x w]. unfold lift_fst, agent_log. simpl. by destruct (c x). }
  split; simpl; intros; try apply H.
  - apply valid_bind; [apply H|]. intros [rel err]. apply valid_ret.
  - revert H0. unfold mbind, M_bind, lift_fst at 1. simpl. destruct (kv_Lock kv kind key ttl w.1) as [[[g|] er] x]; simpl.
    + intros [= <-]. apply H.
    + done.
Qed.

Lemma valid_agent_engine (kv : ClusterKV (M C)) a : valid_engine agent_log (agent_engine kv a).
Proof.
  pose proof (startModules_spec (λ p, lift_provider (provider_fst (certs_provider p)))
    (λ p, lift_provider (blob_provider (ag_order a) p)) (ag_cfg a)
    (New (time_Now (C := C)) (lift_kv kv) (Some metrics_sink) (mkOptions (ReconcileInterval (ag_cfg a)) 0 None))) as H.
  fold (start_agent kv a) in H. unfold agent_engine. destruct (start_agent kv a) as [err [[e evs] logs]]. simpl.
  assert (e_cl e = lift_kv kv ∧ e_metrics e = Some metrics_sink ∧ e_now e = time_Now
    ∧ ∀ p, p ∈ e_providers e → valid_provider agent_log p) as (Hcl & Hm & Hn & Hp).
  { destruct err as [er|]; [destruct H as [-> _]; split_and!; try done; by intros p ?%elem_of_nil|].
    destruct H as (blobs & mods & _ & _ & Hp & Hcl & _ & _ & Hm & Hn & _). split_and!; [done..|].
    intros p. rewrite Hp. simpl. intros (mod_ & _ & Hmod)%list_elem_of_omap.
    destruct mod_; simplify_eq/=; apply valid_lift_provider; [|apply valid_blob].
    destruct (valid_certs (certs_Start cfg true)) as [H1 H2 H3 H4].
    split; simpl; intros; apply (valid_lift_fst nd_metrics); [apply H1|apply H2|apply H3|apply H4]. }
  split.
  - rewrite Hcl. apply valid_lift_kv.
  - exact Hp.
  - intros emit ev. rewrite Hm. intros [= <-] Hev. unfold metrics_sink.
    apply (valid_lift_snd node_log), (valid_lift_fst nd_metrics). by apply valid_emit_metric.
  - rewrite Hn. by apply valid_same.
Qed.

End Providers.
