(* ===== verification/Interrupted.v ===== *)
(** An agent that stops in the middle of a tick. main.run cancels the context
    and returns without waiting for the goroutine of the engine, so a signal, like a
    crash, can end the process between the Apply of a certificate and the Flush
    that runs the hook. *)

From S2P Require Import Prelude GoStrings Version Metrics Engine EngineSpec Converge Fleet Reconcile.
From S2P Require Import GoPath FileSystem AtomicFile Cert Bundle Hook Discovery Certs Frame Blob CertsStable.
From S2P Require Import BlobFleet Modules Main Agent AgentFleet.

Open Scope Z_scope.

(** A run of hooks that succeed. *)
Lemma runner_Run_ran `{!Commands} r n : tame_commands →
  ∃ n', runner_Run r n = (None, n') ∧ nd_ran n' = nd_ran n ++ ran_one (r_Verify r) None ++ ran_one (r_Reload r) None.
Proof.
  intros Hcmd. unfold runner_Run, runReload, runner_exec, ran_one. unfold_M.
  destruct (r_Verify r), (r_Reload r); rewrite ?Hcmd; simpl; rewrite ?Hcmd; eexists;
    (split; [reflexivity|]); simpl; by rewrite ?app_nil_r, <-?app_assoc.
Qed.

Section Interrupted.
Context {crypto : Crypto} {commands : Commands}.
Context {C : Type} {view : C → gmap (string * string) Record_} {inv : C → Prop} {kind_ok key_ok : string → Prop}.
Context (Hcerts : kind_ok CertsKind) (Hcmd : tame_commands).
Context (kv : ClusterKV (M C)) {Hkv : ReliableKV kv view inv kind_ok key_ok}.
Context (a : agent) (Ha : agent_ok (C := C) (key_ok := key_ok) a) (Hmod : "certs" ∈ ag_modules a).

Let p : Provider (M BlobNode) := provider_fst (certs_provider (certs_of a)).
Let e : Engine (M (C * BlobNode)) := agent_engine kv a.

(** The certs provider of the agent keeps its contract. *)
#[local] Instance certs_contract : StableProvider p (ag_certs a) (agent_inv a) (sl_shows (certs_slot a)) plain_key.
Proof. by apply (certs_slot_stable (key_ok := key_ok) (C := C)). Qed.

Lemma quiet_os {A} (cmd : M (C * BlobNode) A) :
  (∀ c w, ∃ x w', cmd (c, w) = (x, (c, w')) ∧ untouched w w') →
  quiet (pinv := agent_inv a) (shows := sl_shows (certs_slot a)) cmd.
Proof.
  intros H c w Hw. destruct (H c w) as (x & w' & E & Hos & _). exists x, w'. split_and!; [done|by apply (agent_inv_os a w)|].
  intros r. simpl. unfold certs_shows. by rewrite Hos.
Qed.

Lemma now_os : ∀ c w, ∃ x w', e_now e (c, w) = (x, (c, w')) ∧ untouched w w'.
Proof.
  destruct (agent_engine_parts a kv Ha) as (_ & _ & _ & Hn). intros c w. unfold e. rewrite Hn. by eexists _, w.
Qed.

Lemma metrics_os emit ev : e_metrics e = Some emit → ∀ c w, ∃ x w', emit ev (c, w) = (x, (c, w')) ∧ untouched w w'.
Proof.
  destruct (agent_engine_parts a kv Ha) as (_ & _ & Hm & _). unfold e. rewrite Hm. intros [= <-] c [n pend].
  by eexists tt, (_, pend).
Qed.

Lemma locals_ok w : agent_inv a w → ∀ r, r ∈ ag_certs a → Kind r = p_Kind p ∧ key_ok (Key r) ∧ plain_key r.
Proof.
  intros [Hc _] r Hr. destruct (ao_certs a Ha r Hr) as [H1 H2]. split_and!; [|done|done].
  by destruct (certs_records _ _ _ w.1 r (Hc Hmod) Hr).
Qed.

Abbreviation tick_good := (good (view := view) (inv := inv) (p := p) (pinv := agent_inv a) (rec_ok := plain_key)).
Abbreviation tick_settled := (settled (view := view) (p := p) (L := ag_certs a) (shows := sl_shows (certs_slot a))).

(** Further ticks of a settled agent leave it settled, and run no command. *)
Lemma settled_ticks ranges c w :
  Forall range_ok ranges → tick_good c w → tick_settled c w →
  ∃ c' w', foldM (λ _ range, tickProvider range e (lift_provider p)) tt ranges (c, w) = (tt, (c', w'))
    ∧ view c' = view c ∧ untouched w w'.
Proof.
  revert c w. induction ranges as [|range ranges IH]; intros c w Hr Hg Hset; [by exists c, w|].
  apply Forall_cons in Hr as [Hrange Hr]. pose proof Hg as (Hc & Hw & Hrec).
  destruct (agent_engine_parts a kv Ha) as (Hcl & _).
  destruct (tickProvider_settled (rec_ok := plain_key) (p := p) e Hcl Hcerts
    (quiet_os _ now_os)
    (λ emit Hemit ev, quiet_os _ (metrics_os emit ev Hemit))
    (locals_ok w Hw) untouched range c w) as (c1 & w1 & E & Hv & Hi & HR); [| | |done..|].
  - intros cs n _. apply now_os.
  - intros emit Hemit ev cs n _. by apply metrics_os.
  - intros n1 x n2 [Hn1 _] El. destruct n1 as [n1 pend]. simpl in El. unfold lift_fst, on_os in El. simpl in El.
    pose proof (ci_local _ _ _ _ (Hn1 Hmod)) as E. simpl in E. rewrite E in El. by simplify_eq.
  - rewrite foldM_cons, E. destruct HR as [Hos Hran].
    assert (keeps (pinv := agent_inv a) (shows := sl_shows (certs_slot a)) w w1) as Hk.
    { split; [by apply (agent_inv_os a w)|]. intros r. simpl. unfold certs_shows. by rewrite Hos. }
    destruct (IH c1 w1 Hr) as (c2 & w2 & E2 & Hv2 & HR2).
    + split_and!; [done|apply Hk|]. by rewrite Hv.
    + eapply (settled_keeps (view := view)); [exact Hk|]. by apply (settled_view (view := view) c).
    + exists c2, w2. split_and!; [done|congruence|]. by transitivity w1.
Qed.

(** (C30) A certificate that was installed but not reloaded is never reloaded.
    An agent with the certs module starts a tick and reaches the point before
    the Flush, with some lineages changed. If the tick goes on, the verify and
    the reload command are run. If the process ends here instead, with the
    files in place, then the same agent started again, however often it ticks,
    finds nothing to change and runs neither command, until a newer certificate
    appears in the cluster: the load balancer goes on with the old one. *)
Theorem interrupted_tick_loses_reload range ranges c w :
  inv c → agent_inv a w → (∀ k r, view c !! (CertsKind, k) = Some r → plain_key r) →
  range_ok range → Forall range_ok ranges →
  ∃ start changed c1 w1, until_flush (p := p) e range (c, w) = ((start, changed), (c1, w1))
    ∧ (changed ≠ [] → ∃ w2, flushChanged e (lift_provider p) CertsKind changed (c1, w1) = (tt, (c1, w2))
         ∧ let r := cp_runner (certs_of a) in
           nd_ran w2.1 = nd_ran w1.1 ++ ran_one (r_Verify r) None ++ ran_one (r_Reload r) None)
    ∧ ∃ c2 w2, foldM (λ _ range, tickProvider range e (lift_provider p)) tt ranges (c1, w1) = (tt, (c2, w2))
         ∧ view c2 = view c1 ∧ untouched w1 w2.
Proof.
  intros Hc Hw Hrec Hrange Hranges. destruct (agent_engine_parts a kv Ha) as (Hcl & _).
  destruct (until_flush_spec (rec_ok := plain_key) (p := p) e Hcl Hcerts
    (quiet_os _ now_os)
    (λ emit Hemit ev, quiet_os _ (metrics_os emit ev Hemit))
    (locals_ok w Hw) range c w Hrange) as (start & changed & c1 & w1 & E & Hg & Hset & _); [by split_and!|].
  exists start, changed, c1, w1. split; [exact E|]. split; [|by apply settled_ticks].
  intros Hne. destruct (runner_Run_ran (cp_runner (certs_of a)) w1.1 Hcmd) as (n' & En & Hran).
  exists (n', w1.2). split; [|exact Hran]. unfold flushChanged. destruct changed as [|x changed]; [done|].
  unfold_M. unfold lift_provider, lift_snd, p, provider_fst, lift_fst. simpl. destruct w1 as [n1 pend]. simpl in *.
  by rewrite En.
Qed.
End Interrupted.
