(* ===== verification/Deploy.v ===== *)
(** Deployments: fleets of agents ([AgentFleet.v]) on the Olric facade and on
    the HTTPS backend. *)

From S2P Require Import Prelude GoStrings Version Metrics Engine EngineSpec Converge Fleet Reconcile.
From S2P Require Import GoPath GoURL FileSystem AtomicFile Cert Bundle Hook Discovery Certs Frame Blob CertsStable.
From S2P Require Import BlobFleet Gobcodec Cluster MemOlric Lan Samples Wan WanNet WanFleet Modules Main Agent AgentFleet.

Open Scope Z_scope.

Section Deploy.
Context {crypto : Crypto} {commands : Commands} {gob : Gob} {gob_laws : GobLaws}.

(** ** On Olric *)

Section OnOlric.
Context {C : Type} {ol : Olric (M C)} {raw : C → gmap (string * string) bytes} {oinv : C → Prop}
  {ol_laws : OlricLaws ol raw oinv}.
Context (agents : list agent).

Abbreviation lan_view := (cluster_view (raw := raw)).
Abbreviation lan_agents_run := (agents_run (repeat (cluster_kv ol) (length agents)) agents).

(** (C1) A fleet of agents on a reachable Olric cluster converges, down to the
    files. Each agent is the engine main builds from a configuration of its
    own: any of the modules certs and blob, each at most once, with directories
    that keep the files of the providers apart, on a disk without failures and
    with hooks that succeed. After every agent has reconciled and then every
    agent has reconciled again, in any order and whatever follows: for every
    kind and key the cluster holds a record that is at least as new as the copy
    of every agent and as the record it held before, and it is one of these; on
    every agent with the certs module the directory of every lineage holds
    every file of the winning bundle that has data; and on every agent with the
    blob module the destination of every resource it configures has exactly the
    winning data. *)
Theorem lan_agents_converge c0 ns0 sched1 sched2 more :
  tame_commands → Forall (agent_ok (C := C) (key_ok := key_ok)) agents →
  agents_ok (view := lan_view) (inv := cluster_inv (raw := raw) (oinv := oinv)) agents (c0, ns0) →
  sched_ok sched1 → sched_ok sched2 → sched_ok more → agents_round agents sched1 → agents_round agents sched2 →
  let '(c, ns) := lan_agents_run (c0, ns0) (sched1 ++ sched2 ++ more) in
  (∀ kk, let best := lan_view c !! kk in
     covers best (lan_view c0 !! kk) ∧ (∀ i, covers best (agent_local agents i kk))
     ∧ (best = lan_view c0 !! kk ∨ ∃ i, best = agent_local agents i kk))
  ∧ ∀ i a n, agents !! i = Some a → ns !! i = Some n →
    ("certs" ∈ ag_modules a → ∀ lineage r, lan_view c !! (CertsKind, lineage) = Some r →
       holds (nd_os n.1) (ag_serving a) lineage (fromRecord r))
    ∧ ("blob" ∈ ag_modules a → ∀ name ra r, bp_byName (blob_of a) !! name = Some ra →
       lan_view c !! (BlobKind, name) = Some r →
       content (os_tree (nd_os n.1)) (pl_key (ag_dst a name)) = Some (map_get [] (Blobs r) "data")).
Proof.
  intros Hcmd Hag Hok H1 H2 H3 Hr1 Hr2.
  apply (agents_converge (view := lan_view) (inv := cluster_inv (raw := raw) (oinv := oinv)) (kind_ok := λ _, True) (key_ok := key_ok) I I Hcmd
    (repeat (cluster_kv ol) (length agents)) agents (repeat_length _ _)); try done.
  apply Forall_forall. intros kv Hkv. apply list_elem_of_In, repeat_spec in Hkv as ->. apply cluster_reliable.
Qed.
End OnOlric.

(** ** On the HTTPS backend *)

Section OnWan.
Context (range : store → list string) (order : gset string → list string).
Context (a0 : string) (addrs : list string) (Ha0 : a0 ∈ addrs)
  (Haddrs : ∀ a, a ∈ addrs → no_char sep a = true).
Context (agents : list agent).

Abbreviation wan_agents_run := (agents_run (wan_clients range order true addrs) agents).

(** (C2) A fleet of agents on the HTTPS backend converges in the same sense if
    it is a full mesh of nodes that are up and every push arrives before the
    next reconcile. *)
Theorem wan_agents_converge c0 ns0 sched1 sched2 more :
  (∀ st k, k ∈ range st ↔ is_Some (st !! k)) → (∀ X k, k ∈ order X ↔ k ∈ X) →
  length addrs = length agents → tame_commands → Forall (agent_ok (C := Net) (key_ok := wan_key_ok)) agents →
  agents_ok (view := mesh_view a0) (inv := mesh_inv addrs) agents (c0, ns0) →
  sched_ok sched1 → sched_ok sched2 → sched_ok more → agents_round agents sched1 → agents_round agents sched2 →
  let '(c, ns) := wan_agents_run (c0, ns0) (sched1 ++ sched2 ++ more) in
  (∀ kk, let best := mesh_view a0 c !! kk in
     covers best (mesh_view a0 c0 !! kk) ∧ (∀ i, covers best (agent_local agents i kk))
     ∧ (best = mesh_view a0 c0 !! kk ∨ ∃ i, best = agent_local agents i kk))
  ∧ ∀ i a n, agents !! i = Some a → ns !! i = Some n →
    ("certs" ∈ ag_modules a → ∀ lineage r, mesh_view a0 c !! (CertsKind, lineage) = Some r →
       holds (nd_os n.1) (ag_serving a) lineage (fromRecord r))
    ∧ ("blob" ∈ ag_modules a → ∀ name ra r, bp_byName (blob_of a) !! name = Some ra →
       mesh_view a0 c !! (BlobKind, name) = Some r →
       content (os_tree (nd_os n.1)) (pl_key (ag_dst a name)) = Some (map_get [] (Blobs r) "data")).
Proof.
  intros Hr Ho Hlen Hcmd Hag Hok H1 H2 H3 Hr1 Hr2.
  apply (agents_converge (view := mesh_view a0) (inv := mesh_inv addrs) (kind_ok := wan_kind_ok) (key_ok := wan_key_ok)
    ltac:(by split) ltac:(by split) Hcmd (wan_clients range order true addrs) agents
    ltac:(unfold wan_clients; by rewrite length_fmap)); try done.
  by apply wan_clients_ok.
Qed.
End OnWan.
End Deploy.
