(* ===== verification/DeploySample.v ===== *)
(** Two agents, the theorems of [Deploy.v] applied to them, and the same runs
    computed. The first agent has a certificate and an older blob, the second
    has no certbot directory and a newer blob. *)

From S2P Require Import Prelude GoStrings Version Metrics Engine EngineSpec Converge Fleet Reconcile.
From S2P Require Import GoPath GoURL FileSystem AtomicFile Cert Bundle Hook Discovery Certs Frame Blob CertsStable.
From S2P Require Import BlobFleet Gobcodec Cluster MemOlric Lan Samples Wan WanNet WanFleet Modules Main Agent AgentFleet Interrupted Deploy.

Open Scope Z_scope.

(** A PEM file is a byte for the type of the block and its contents; the first
    byte of a certificate is the time from which it is valid. *)
Definition byte_crypto : Crypto := {|
  pem_Decode raw :=
    match raw with
    | "c"%byte :: l => Some (mkBlock "CERTIFICATE" l)
    | "k"%byte :: l => Some (mkBlock "PRIVATE KEY" l)
    | _ => None
    end;
  ParseCertificate der :=
    match der with
    | x :: _ => let t := Z.of_N (Byte.to_N x) * second in Ok (mkCertificate t (t + second) 10 ["example.org"] "")
    | [] => Err (Errors "malformed certificate")
    end;
  ParsePKCS8PrivateKey der := negb (bool_decide (der = []));
  ParsePKCS1PrivateKey _ := false;
  ParseECPrivateKey _ := false;
  sha256_Sum256 data := data
|}.

Definition agent_config (modules host : string) : config :=
  mkConfig "/etc/letsencrypt" "/s" "a=/etc/a:/srv/a" modules "" "lan" "0.0.0.0" ""
    3320 3322 0 0 "" "" "" "pw" "" false (30 * second) "nginx -t" "nginx -s reload" (30 * second) 8623 host.

Definition cert_file (x : Byte.byte) : inode := IFile (mkFile ["c"%byte; x] 420 0).
Definition key_file (x : Byte.byte) : inode := IFile (mkFile ["k"%byte; x] 384 0).

(** The certbot directory of the first agent: the live files are links. *)
Definition certbot_tree : list (phys * inode) :=
  [(["etc"; "letsencrypt"], IDir); (["etc"; "letsencrypt"; "live"], IDir);
   (["etc"; "letsencrypt"; "live"; "README"], IFile (mkFile [] 420 0));
   (["etc"; "letsencrypt"; "live"; "web"], IDir);
   (["etc"; "letsencrypt"; "live"; "web"; "cert.pem"], ILink "../../archive/web/cert1.pem");
   (["etc"; "letsencrypt"; "live"; "web"; "privkey.pem"], ILink "../../archive/web/privkey1.pem");
   (["etc"; "letsencrypt"; "archive"], IDir); (["etc"; "letsencrypt"; "archive"; "web"], IDir);
   (["etc"; "letsencrypt"; "archive"; "web"; "cert1.pem"], cert_file "005");
   (["etc"; "letsencrypt"; "archive"; "web"; "privkey1.pem"], key_file "007")].

Definition base_tree (f : file) : list (phys * inode) :=
  [(["etc"], IDir); (["srv"], IDir); (["s"], IDir); (["etc"; "a"], IFile f)].

Definition agent_tree1 : list (phys * inode) := base_tree (sample_source "001" 5) ++ certbot_tree.
Definition agent_tree2 : list (phys * inode) := base_tree (sample_source "002" 7).

Definition agent_state (l : list (phys * inode)) : BlobNode := (mkNode (os_of l) [] [], ∅).

Section DeploySample.
#[local] Existing Instances byte_crypto ok_commands bits_gob bits_gob_laws mem_olric_laws.

Definition make_agent (modules host : string) (certs : list Record_) (f : file) : agent :=
  mkAgent (agent_config modules host) ["s"] certs (λ _, mkPlace "/etc" ["etc"] "a") (λ _, Some f)
    (λ name, mkPlace "/srv" ["srv"] name) elements.

Definition web_record : Record_ :=
  toRecord (mkBundle "web" "example.org" (mkBVersion (5 * second) (6 * second) "a" "6305")
    ["c"; "005"]%byte ["k"; "007"]%byte [] []) "n1".

Definition agent1 : agent := make_agent "certs, blob" "n1" [web_record] (sample_source "001" 5).
Definition agent2 : agent := make_agent "blob,ocsp,certs" "n2" [] (sample_source "002" 7).
Definition two_agents : list agent := [agent1; agent2].
Definition two_states : list BlobNode := [agent_state agent_tree1; agent_state agent_tree2].

(** ** The hypotheses hold *)

Definition agent_resource : resource :=
  mkResource "a" "/etc/a" "/srv/a" "mtime" (mkRunner BlobKind [] [] 0 true).

Section OneAgent.
Context (modules host : string) (certs : list Record_) (f : file).
Let a := make_agent modules host certs f.

Lemma blob_of_sample : blob_of a = mkBlobProvider [agent_resource] {["a" := agent_resource]} host.
Proof. vm_compute. reflexivity. Qed.

Lemma one_blob x rx : bp_byName (blob_of a) !! x = Some rx → x = "a" ∧ rx = agent_resource.
Proof. rewrite blob_of_sample. simpl. by intros [<- <-]%lookup_singleton_Some. Qed.

Lemma sample_layout : agent_layout a.
Proof.
  split.
  - split.
    + intros x y rx ry [-> _]%one_blob [-> _]%one_blob H. by destruct H.
    + intros r x rx _ [-> _]%one_blob. done.
    + intros x y rx n [-> _]%one_blob [= E].
  - intros x rx _. simpl. by apply (bool_decide_unpack _).
  - intros r _. simpl. by apply (bool_decide_unpack _).
Qed.

Lemma sample_agent_ok {C} (P : string → Prop) :
  P "a" → (∀ r, r ∈ certs → P (Key r) ∧ plain_key r) → NoDup (parseList modules) →
  (∀ kv, (start_agent (C := C) kv a).1 = None) → agent_ok (C := C) (key_ok := P) a.
Proof.
  intros HP Hc Hnd Hst. split; [done|done|apply sample_layout|done|].
  intros r. rewrite blob_of_sample. simpl. by intros ->%list_elem_of_singleton.
Qed.

Lemma sample_blob_inv l :
  tmp_free l = true → dir_at (os_of l) "/etc" ["etc"] → dir_at (os_of l) "/srv" ["srv"] →
  tree_of l !! ["etc"; "a"] = Some (IFile f) → tree_of l !! ["srv"; "a"] = None →
  tree_of l !! ["srv"; "a.bak"] = None → agent_blob_inv a (agent_state l).
Proof.
  intros Htmp Hde Hds Hf Hd Hb _.
  split; [done| |].
  - intros x rx [-> ->]%one_blob. split; [|by apply tmp_free_no_tmp]. split.
    + split_and!; [done|done|by repeat constructor].
    + exact Hds.
    + change (dir_part (tree_of l !! ["srv"; "a"]) = None). by rewrite Hd.
    + change (dir_part (tree_of l !! ["srv"; "a.bak"]) = None). by rewrite Hb.
    + apply not_tmp_a.
  - intros r. rewrite blob_of_sample. simpl. intros ->%list_elem_of_singleton. split_and!; [|exact Hde|exact Hf].
    split_and!; [done|done|by repeat constructor].
Qed.
End OneAgent.

Lemma agent1_inv : agent_inv agent1 (agent_state agent_tree1).
Proof.
  split; [|apply sample_blob_inv; by vm_compute].
  intros _. split.
  - apply empty_serving; [done|by vm_compute|]. split; try (by vm_compute). by repeat constructor.
  - apply (bool_decide_eq_true_1 _). vm_compute. reflexivity.
  - vm_compute. reflexivity.
Qed.

Lemma agent2_inv : agent_inv agent2 (agent_state agent_tree2).
Proof.
  split; [|apply sample_blob_inv; by vm_compute].
  intros _. split.
  - apply empty_serving; [done|by vm_compute|]. split; try (by vm_compute). by repeat constructor.
  - apply (bool_decide_eq_true_1 _). vm_compute. reflexivity.
  - vm_compute. reflexivity.
Qed.

Lemma agent1_ok {C} (P : string → Prop) : P "a" → P "web" → agent_ok (C := C) (key_ok := P) agent1.
Proof.
  intros Ha Hw. apply sample_agent_ok; try done.
  - intros r ->%list_elem_of_singleton. done.
  - apply (bool_decide_eq_true_1 _). vm_compute. reflexivity.
Qed.

Lemma two_agents_ok {C} (P : string → Prop) :
  P "a" → P "web" → Forall (agent_ok (C := C) (key_ok := P)) two_agents.
Proof.
  intros Ha Hw. constructor; [by apply agent1_ok|constructor; [|constructor]]. apply sample_agent_ok; try done.
  - intros r Hr. by apply elem_of_nil in Hr.
  - apply (bool_decide_eq_true_1 _). vm_compute. reflexivity.
Qed.

Lemma two_round l : 0%nat ∈ l → 1%nat ∈ l → agents_round two_agents (tick_of <$> l).
Proof.
  intros H0 H1 [|[|i]] Hi; [exists (tick_of 0)|exists (tick_of 1)|simpl in Hi; lia].
  all: split; [by apply list_elem_of_fmap_2|done].
Qed.

Lemma two_states_ok : Forall2 agent_inv two_agents two_states.
Proof. constructor; [apply agent1_inv|constructor; [apply agent2_inv|constructor]]. Qed.

(** ** On Olric *)

Abbreviation sample_lan_run := (agents_run (repeat (cluster_kv mem_olric) 2) two_agents).

Lemma lan_start_ok :
  agents_ok (view := cluster_view (raw := mm_raw)) (inv := cluster_inv (raw := mm_raw) (oinv := mem_ok))
    two_agents (empty_mem, two_states).
Proof.
  split_and!; [apply empty_mem_inv|apply two_states_ok|]. intros k r H. simpl in H. unfold cluster_view in H.
  rewrite map_lookup_imap in H. simpl in H. by rewrite lookup_empty in H.
Qed.

Lemma two_agents_cases i (n : BlobNode) ns : length ns = 2%nat → ns !! i = Some n →
  ∃ a, two_agents !! i = Some a ∧ "certs" ∈ ag_modules a ∧ "blob" ∈ ag_modules a ∧ ag_serving a = ["s"]
  ∧ is_Some (bp_byName (blob_of a) !! "a") ∧ pl_key (ag_dst a "a") = ["srv"; "a"].
Proof.
  intros Hlen Hn. apply lookup_lt_Some in Hn. rewrite Hlen in Hn.
  destruct i as [|[|i]]; [exists agent1|exists agent2|lia].
  all: split_and!; [done|apply (bool_decide_eq_true_1 _); vm_compute; reflexivity..|done|unfold agent1, agent2; rewrite blob_of_sample; by eexists|done].
Qed.

Lemma lan_agents_converge_witness :
  let '(c, ns) := sample_lan_run (empty_mem, two_states) (tick_of <$> [0; 1; 1; 0]%nat) in
  ∀ i n, length ns = 2%nat → ns !! i = Some n →
    (∀ r, cluster_view (raw := mm_raw) c !! (CertsKind, "web") = Some r → holds (nd_os n.1) ["s"] "web" (fromRecord r))
    ∧ (∀ r, cluster_view (raw := mm_raw) c !! (BlobKind, "a") = Some r →
        content (os_tree (nd_os n.1)) ["srv"; "a"] = Some (map_get [] (Blobs r) "data")).
Proof.
  pose proof (lan_agents_converge (ol := mem_olric) (raw := mm_raw) (oinv := mem_ok) two_agents empty_mem two_states
    (tick_of <$> [0; 1]%nat) (tick_of <$> [1; 0]%nat) [] ok_commands_tame
    (two_agents_ok key_ok ltac:(by vm_compute) ltac:(by vm_compute)) lan_start_ok
    (ticks_ok _) (ticks_ok _) (Forall_nil_2 _)
    (two_round [0; 1]%nat ltac:(repeat constructor) ltac:(repeat constructor))
    (two_round [1; 0]%nat ltac:(repeat constructor) ltac:(repeat constructor))) as H.
  change ((tick_of <$> [0; 1]%nat) ++ (tick_of <$> [1; 0]%nat) ++ []) with (tick_of <$> [0; 1; 1; 0]%nat) in H.
  change (length two_agents) with 2%nat in H.
  destruct (sample_lan_run (empty_mem, two_states) (tick_of <$> [0; 1; 1; 0]%nat)) as [c ns].
  destruct H as [_ H]. intros i n Hlen Hn.
  destruct (two_agents_cases i n ns Hlen Hn) as (a & Ha & Hc & Hb & Hsd & [ra Hra] & Hkey).
  destruct (H i a n Ha Hn) as [H1 H2]. specialize (H1 Hc "web"). rewrite Hsd in H1.
  specialize (H2 Hb "a" ra). rewrite Hkey in H2. split; [exact H1|]. intros r. by apply H2.
Defined.

(** The same run, computed: both agents serve the certificate of the first and
    the blob of the second. *)
Example lan_agents_run_sample :
  let '(c, ns) := sample_lan_run (empty_mem, two_states) (tick_of <$> [0; 1; 1; 0]%nat) in
  (λ n : BlobNode, content (os_tree (nd_os n.1)) ["s"; "web"; CertFile]) <$> ns
    = [Some ["c"; "005"]%byte; Some ["c"; "005"]%byte]
  ∧ (λ n : BlobNode, content (os_tree (nd_os n.1)) ["s"; "web"; KeyFile]) <$> ns
    = [Some ["k"; "007"]%byte; Some ["k"; "007"]%byte]
  ∧ (λ n : BlobNode, content (os_tree (nd_os n.1)) ["srv"; "a"]) <$> ns = [Some ["002"]%byte; Some ["002"]%byte].
Proof. vm_compute. repeat split. Qed.

(** ** A tick that is cut off *)

Abbreviation certs1 := (provider_fst (certs_provider (certs_of agent1))).
Abbreviation engine1 := (agent_engine (cluster_kv mem_olric) agent1).

(** The certificate is in place, two further ticks succeed, and no command has
    been run. *)
Lemma interrupted_tick_loses_reload_witness :
  ∃ start c1 w1 c2 w2,
    until_flush (p := certs1) engine1 sorted_range (empty_mem, agent_state agent_tree1) = ((start, ["web"]), (c1, w1))
    ∧ content (os_tree (nd_os w1.1)) ["s"; "web"; CertFile] = Some ["c"; "005"]%byte
    ∧ foldM (λ _ range, tickProvider range engine1 (lift_provider certs1)) tt [sorted_range; sorted_range] (c1, w1)
      = (tt, (c2, w2))
    ∧ nd_ran w2.1 = [].
Proof.
  assert (∃ start c1 w1, until_flush (p := certs1) engine1 sorted_range (empty_mem, agent_state agent_tree1)
      = ((start, ["web"]), (c1, w1))
    ∧ content (os_tree (nd_os w1.1)) ["s"; "web"; CertFile] = Some ["c"; "005"]%byte ∧ nd_ran w1.1 = [])
    as (start & c1 & w1 & E & Hcert & Hran).
  { eexists _, _, _. split; [vm_compute; reflexivity|]. split; vm_compute; reflexivity. }
  assert (agent_ok (C := Mem) (key_ok := key_ok) agent1) as Hok.
  { clear. apply agent1_ok; by vm_compute. }
  assert ("certs" ∈ ag_modules agent1) as Hmod by (apply (bool_decide_eq_true_1 _); vm_compute; reflexivity).
  assert (ReliableKV (cluster_kv mem_olric) (cluster_view (raw := mm_raw))
    (cluster_inv (raw := mm_raw) (oinv := mem_ok)) (λ _, True) key_ok) as Hkv by (clear; apply cluster_reliable).
  destruct (interrupted_tick_loses_reload (Hkv := Hkv) I ok_commands_tame
    (cluster_kv mem_olric) agent1 Hok Hmod sorted_range [sorted_range; sorted_range]
    empty_mem (agent_state agent_tree1) empty_mem_inv agent1_inv)
    as (start' & changed & c1' & w1' & E' & _ & c2 & w2 & Ef & _ & _ & Hran2).
  - clear. intros k r H. unfold cluster_view in H. rewrite map_lookup_imap in H. simpl in H. by rewrite lookup_empty in H.
  - apply sorted_range_ok.
  - repeat constructor; apply sorted_range_ok.
  - rewrite E in E'. injection E' as _ _ <- <-. exists start, c1, w1, c2, w2.
    split; [exact E|]. split; [exact Hcert|]. split; [exact Ef|]. rewrite Hran2. exact Hran.
Defined.

(** ** On the HTTPS backend *)

Abbreviation sample_wan_run := (agents_run (wan_clients store_range elements true two) two_agents).

Lemma wan_start_ok :
  agents_ok (view := mesh_view "n1:8443") (inv := mesh_inv two) two_agents (empty_net, two_states).
Proof.
  split_and!; [apply empty_mesh|apply two_states_ok|]. intros k r H. vm_compute in H. discriminate H.
Qed.

Lemma wan_agents_converge_witness :
  let '(c, ns) := sample_wan_run (empty_net, two_states) (tick_of <$> [0; 1; 1; 0]%nat) in
  ∀ i n, length ns = 2%nat → ns !! i = Some n →
    (∀ r, mesh_view "n1:8443" c !! (CertsKind, "web") = Some r → holds (nd_os n.1) ["s"] "web" (fromRecord r))
    ∧ (∀ r, mesh_view "n1:8443" c !! (BlobKind, "a") = Some r →
        content (os_tree (nd_os n.1)) ["srv"; "a"] = Some (map_get [] (Blobs r) "data")).
Proof.
  pose proof (wan_agents_converge store_range elements "n1:8443" two ltac:(left)
    ltac:(intros a [<-|[<-|[]]]%list_elem_of_In; reflexivity) two_agents empty_net two_states
    (tick_of <$> [0; 1]%nat) (tick_of <$> [1; 0]%nat) []
    store_range_ok ltac:(intros X k; apply elem_of_elements) eq_refl ok_commands_tame
    (two_agents_ok wan_key_ok ltac:(by vm_compute) ltac:(by vm_compute)) wan_start_ok
    (ticks_ok _) (ticks_ok _) (Forall_nil_2 _)
    (two_round [0; 1]%nat ltac:(repeat constructor) ltac:(repeat constructor))
    (two_round [1; 0]%nat ltac:(repeat constructor) ltac:(repeat constructor))) as H.
  change ((tick_of <$> [0; 1]%nat) ++ (tick_of <$> [1; 0]%nat) ++ []) with (tick_of <$> [0; 1; 1; 0]%nat) in H.
  destruct (sample_wan_run (empty_net, two_states) (tick_of <$> [0; 1; 1; 0]%nat)) as [c ns].
  destruct H as [_ H]. intros i n Hlen Hn.
  destruct (two_agents_cases i n ns Hlen Hn) as (a & Ha & Hc & Hb & Hsd & [ra Hra] & Hkey).
  destruct (H i a n Ha Hn) as [H1 H2]. specialize (H1 Hc "web"). rewrite Hsd in H1.
  specialize (H2 Hb "a" ra). rewrite Hkey in H2. split; [exact H1|]. intros r. by apply H2.
Defined.
End DeploySample.
